(* ===== verification/_CoqProject ===== *)
-Q . S2P
Prelude.v
Lattice.v
Causal.v
Json.v
Crdt.v
Storage.v
Resilience.v
Membership.v
Ring.v
Proto.v
Protocol.v
Cluster.v
CrdtCodec.v
Outbox.v
Repair.v
AntiEntropy.v
CrdtService.v
Persistence.v
Repository.v
DurableStore.v
Recovery.v
PeerClient.v
Node.v
Rpc.v
Coordination.v
Compute.v
ClusterClient.v
Startup.v
Client.v
Observability.v
Observed.v
Config.v
Chaos.v
Background.v
Benchmark.v
Telemetry.v
Security.v
Bootstrap.v
Smoke.v
Restart.v
Deploy.v
Tools.v
