(* ===== verification/Prelude.v ===== *)
(** * A verification of distsys

    The program under [src/src/distsys] is a clustered task server with a replicated,
    causally consistent CRDT store.  A node ([node.py]) accepts framed protobuf messages
    over TCP (optionally mutual TLS).  Task requests are rate limited, admitted, and run
    locally or forwarded to the node that owns the routing key ([cluster/], [compute/],
    [resilience/]).  CRDT requests go to [crdt_service.py], which repairs the key's causal
    state from the replicas, applies the mutation under a fresh dot, persists it
    ([persistence/]) and hands it to the replication outbox and workers ([replication/]);
    anti-entropy repairs what replication missed.  On restart a node restores its state,
    registers with etcd ([coordination/]), joins the cluster and reconciles
    ([recovery/]) before it reports itself ready.

    ** Which file models what

    - [Prelude] (this file): exceptions and [except] clauses, the state-and-error monad,
      dictionaries as sorted items, generic lemmas, tactics and the hint database
      [distsys].  [Lattice]: the [Mergeable] interface and convergence from it.
    - [Causal]: [causal/].  [Crdt]: [crdt/].  [Storage]: [storage/].
    - [Json], [Proto]: what the code uses of Python's [json] and of protobuf.
      [Protocol]: [protocol/].  [CrdtCodec]: [replication/codec.py], [digest.py].
    - [Resilience]: [resilience/].  [Membership], [Ring], [Cluster]: [cluster/] and
      [replication/replica_selector.py].  [ClusterClient]: [cluster/peer_client.py].
    - [Outbox], [Repair], [AntiEntropy], [PeerClient]: [replication/outbox.py],
      [causal_repair.py] with the interface of [storage/protocol.py], [anti_entropy.py],
      [peer_client.py] and [replicator.py].  [CrdtService]: [crdt_service.py] and the
      write path of [replication/service.py].
    - [Persistence], [Repository], [DurableStore], [Recovery], [Startup]: [persistence/],
      [health/], [recovery/], and [DistributedNode.start] and [stop].
    - [Node], [Rpc], [Compute], [Coordination]: [node.py], the peer clients joined to the
      node that serves them, [compute/], [coordination/].  [Client]: [client.py] and
      [crdt_client.py].  [Background]: the tasks the services start and stop.
    - [Observability], [Observed]: [observability/metrics.py], [observability/health.py]
      and [observed_node.py].  [Config]: [utils/config.py] and the constructors the
      settings reach.  [Chaos]: [chaos/].  [Benchmark]: [benchmarking/].
    - [Telemetry]: [observability/tracing.py], the instrumented exchanges of both peer
      clients, and the reports of [replication/service.py] and of the durable store.
      [Security]: [security/].  [Bootstrap]: [main.py], [utils/logging.py],
      [persistence/backup.py], the connections of a node and the peer cache.
    - [Smoke], [Restart], [Deploy], [Tools]: the programs under [src/scripts] that check a
      cluster (phases 3 and 4), its persistence and TLS (phase 5), a deployment (phases 6
      and 7), and that run benchmarks, chaos scenarios and task smokes.

    A class of the source is a [Module] of the same name: its fields are the record [t],
    its checked constructor is [make] or [init], its methods are definitions of the same
    name.  A method that mutates or raises is a computation of [M S A], a function from
    the state to a result (a value or an exception) and the new state; an exception
    keeps the mutations made before it.  Interfaces are classes ([Mergeable],
    [CrdtStateStore], [ClockedStore], [StateRepository], [Wire], [LeaseClient]) or
    records of operations with their laws; clients are proved against them and the
    implementations discharge them.

    ** What the theorems show

    - Replicated data: replicas that have seen the same updates agree, sets and counters
      mean what their operations say, dots are never reused, types are stable.
    - The write and read path: a write is all or nothing, sessions are monotonic, the
      outbox delivers the latest state within its bounds, repair and anti-entropy bring
      replicas together.
    - Durability: what a node ever acknowledged survives a crash at any point, restore
      returns, and a start ends ready or releases everything.
    - Cluster: membership is an invariant-keeping join, routing follows membership,
      leaving nodes move only their keys, silent nodes are suspected.
    - Boundaries: codecs and framing round-trip, every request is answered, exchanges
      and forwarded tasks are calls of the remote handler, rates and slots are bounded,
      TLS connections speak to the named peer only.
    - Operation: accepted settings build every component, a measured node answers like the
      plain one and a measured exchange is the bare one, under mutual TLS a node does only
      what named and trusted senders ask, health probes tell the truth, background tasks
      do not leak, and a chaos run takes back every fault it injects.
    - Checks: a script that reports a pass has seen what it claims, its polling loops end,
      and the processes it started are stopped.
    - A few theorems state behaviour the code should not have; the manifest lists them
      as findings.

    ** Conventions and bounds

    Text and bytes are [string]s of UTF-8 bytes; integers are [Z], with the width checks
    where the code meets a fixed width (frame lengths, protobuf fields, SQLite columns).
    Times are integers in a unit each file names, clock readings are inputs; a float of
    the settings is a rational, an infinity or NaN, and no other floating point is
    modelled.  A method that runs under a lock without awaiting is one step;
    an awaited call may change the state in any way its interface allows.  Some error
    texts are abbreviated.  Fuel is used where recursion follows the input: the JSON
    scanner gets twice the length of the text plus two, the frame decoder and the
    connection loop one more than the bytes they hold, the subclass test five (the depth
    of the class tree), the polling loop of a chaos run four rounds a second, those of the
    scripts the timeout divided by the pause; each is proved or computed to be enough.  Retries recurse on the attempts that remain.

    ** Not modelled

    Parameters, with the laws the code relies on: SHA-256, protobuf's serializer, sockets
    and certificate files, the etcd library, the process pool, SQLite's engine, the
    OpenTelemetry SDK, the Prometheus text format; for the scripts also the clients'
    connections, processes, [kubectl] and HTTP.  Left out: the timing of benchmark runs
    and the files they write, the registration of signal and log handlers, the parsing of
    command lines, the trace the monitoring check emits, and informative output. *)

From stdpp Require Export prelude gmap sets strings sorting pretty.
From Stdlib Require Export ZArith Lia.
From Stdlib Require DecimalString DecimalZ.

(** * Python exceptions

    The exception classes the runtime raises or catches.  [exn_class] lists the
    built-in classes and the project's own; [base_class] is the [class C(B)]
    header of each and [isinstance] the subclass test of an [except]
    clause. *)

Inductive exn_class :=
  (* built-in *)
  | BaseException | Exception | CancelledError | AssertionError | LookupError
  | KeyError | IndexError | OSError | ConnectionError | TimeoutError | PermissionError
  | RuntimeError | TypeError | ValueError | EOFError | IncompleteReadError | StructError
  | ArithmeticError | OverflowError | SqliteError | UnicodeDecodeError | LimitOverrunError
  | HTTPStatusError
  (* protocol/errors.py *)
  | ProtocolError | InvalidMagic | UnsupportedVersion | InvalidMessageType
  | InvalidFrameLength | FrameTooLarge | DecodeError
  (* resilience *)
  | CircuitOpenError | DeadlineExceeded
  (* cluster *)
  | NoRouteError | LocalOverloadedError | PeerUnavailableError | PeerProtocolError
  | PeerTransportError | PeerApplicationError | ClusterBootstrapError
  (* compute *)
  | UnknownTaskError | TaskValidationError | WorkerPoolClosedError
  | WorkerPoolBrokenError | WorkerPoolSaturatedError
  (* replication *)
  | CrdtPeerProtocolError | CrdtRemoteError | CausalUnavailableError
  | ReplicationBackpressureError
  (* persistence *)
  | PersistenceError | PersistenceUnavailableError | PersistenceBackpressureError
  | RepositoryIntegrityError | RepositorySchemaError | NodeIdentityMismatchError
  (* coordination and security *)
  | CoordinationError | CoordinationUnavailableError
  | TlsConfigurationError | TlsPeerIdentityError
  (* client.py, crdt_client.py *)
  | CorrelationMismatch | RemoteTaskError | CrdtCorrelationMismatch | RemoteCrdtError
  (* subprocess, sys, objects *)
  | TimeoutExpired | SystemExit | AttributeError.

#[export] Instance exn_class_eq_dec : EqDecision exn_class.
Proof. solve_decision. Defined.

Definition base_class (c : exn_class) : option exn_class :=
  match c with
  | BaseException => None
  | Exception | CancelledError | SystemExit => Some BaseException
  | AssertionError | LookupError | OSError | RuntimeError | TypeError | ValueError
  | EOFError | StructError | ProtocolError | ArithmeticError | SqliteError | LimitOverrunError
  | HTTPStatusError | TimeoutExpired | AttributeError => Some Exception
  | OverflowError => Some ArithmeticError
  | KeyError | IndexError | NoRouteError | UnknownTaskError => Some LookupError
  | ConnectionError | TimeoutError | PermissionError => Some OSError
  | IncompleteReadError => Some EOFError
  | InvalidMagic | UnsupportedVersion | InvalidMessageType | InvalidFrameLength
  | FrameTooLarge | DecodeError => Some ProtocolError
  | CircuitOpenError | PeerUnavailableError | PeerProtocolError | PeerTransportError
  | ClusterBootstrapError | CrdtPeerProtocolError | TlsPeerIdentityError
  | CorrelationMismatch | CrdtCorrelationMismatch => Some ConnectionError
  | DeadlineExceeded => Some TimeoutError
  | LocalOverloadedError | PeerApplicationError | WorkerPoolClosedError
  | WorkerPoolBrokenError | WorkerPoolSaturatedError | CrdtRemoteError
  | CausalUnavailableError | ReplicationBackpressureError | PersistenceError
  | CoordinationError | RemoteTaskError | RemoteCrdtError => Some RuntimeError
  | TaskValidationError | TlsConfigurationError | UnicodeDecodeError => Some ValueError
  | PersistenceUnavailableError | PersistenceBackpressureError
  | RepositoryIntegrityError | RepositorySchemaError | NodeIdentityMismatchError =>
      Some PersistenceError
  | CoordinationUnavailableError => Some CoordinationError
  end.

(** The longest inheritance chain has five links
    ([DeadlineExceeded, TimeoutError, OSError, Exception, BaseException]). *)
Fixpoint subclass_within (fuel : nat) (c d : exn_class) : bool :=
  bool_decide (c = d) ||
  match fuel, base_class c with
  | S fuel, Some b => subclass_within fuel b d
  | _, _ => false
  end.

Definition issubclass (c d : exn_class) : bool := subclass_within 5 c d.

(** An exception value: its class, its message, and the [code] attribute the
    remote-error classes carry. *)
Record exn := Exn { exn_cls : exn_class; exn_msg : string; exn_code : Z }.

#[export] Instance exn_eq_dec : EqDecision exn.
Proof. solve_decision. Defined.

(** [isinstance(exc, (c1, ..., cn))], the test of [except (c1, ..., cn)]. *)
Definition isinstance (e : exn) (cs : list exn_class) : bool :=
  existsb (issubclass (exn_cls e)) cs.
Arguments isinstance : simpl never.

(** * Results: a value or a raised exception *)

Inductive result (A : Type) :=
  | Ok (a : A)
  | Err (e : exn).
Arguments Ok {A} _.
Arguments Err {A} _.

#[export] Instance result_ret : MRet result := λ A a, Ok a.
#[export] Instance result_bind : MBind result := λ A B f m,
  match m with Ok a => f a | Err e => Err e end.
#[export] Instance result_fmap : FMap result := λ A B f m,
  match m with Ok a => Ok (f a) | Err e => Err e end.

#[export] Instance result_eq_dec {A} `{EqDecision A} : EqDecision (result A).
Proof. solve_decision. Defined.

Definition raise {A} (c : exn_class) (msg : string) : result A := Err (Exn c msg 0).

Definition is_ok {A} (r : result A) : bool :=
  match r with Ok _ => true | Err _ => false end.

Lemma bind_Ok {A B} (f : A → result B) (a : A) : (Ok a ≫= f) = f a.
Proof. done. Qed.

Lemma bind_Ok_inv {A B} (f : A → result B) (m : result A) (b : B) :
  (m ≫= f) = Ok b → ∃ a, m = Ok a ∧ f a = Ok b.
Proof. destruct m; [eauto|done]. Qed.

(** [[f(x) for x in xs]] when [f] may raise: the first exception wins. *)
Fixpoint mapM_result {A B} (f : A → result B) (l : list A) : result (list B) :=
  match l with
  | [] => Ok []
  | x :: l => y ← f x; ys ← mapM_result f l; Ok (y :: ys)
  end.

Lemma mapM_result_Ok {A B} (f : A → result B) (g : A → B) (l : list A) :
  (∀ x, x ∈ l → f x = Ok (g x)) → mapM_result f l = Ok (g <$> l).
Proof.
  induction l as [|x l IH]; intros H; simpl; [done|].
  rewrite H by left. simpl. rewrite IH; [done|]. intros y Hy. apply H. by right.
Qed.

(** * State and exceptions

    A method that mutates [self] and may raise: mutations made before the
    exception stay. *)

Definition M (S A : Type) : Type := S → result A * S.

#[export] Instance M_ret {S} : MRet (M S) := λ A a s, (Ok a, s).
#[export] Instance M_bind {S} : MBind (M S) := λ A B f m s,
  match m s with
  | (Ok a, s') => f a s'
  | (Err e, s') => (Err e, s')
  end.

Definition raiseM {S A} (c : exn_class) (msg : string) : M S A := λ s, (raise c msg, s).
Definition failM {S A} (e : exn) : M S A := λ s, (Err e, s).
Definition getM {S} : M S S := λ s, (Ok s, s).
Definition gets {S A} (f : S → A) : M S A := λ s, (Ok (f s), s).
Definition putM {S} (s' : S) : M S unit := λ _, (Ok tt, s').
Definition modifyM {S} (f : S → S) : M S unit := λ s, (Ok tt, f s).
Definition reads {S A} (f : S → result A) : M S A := λ s, (f s, s).
Definition liftM {S A} (r : result A) : M S A := λ s, (r, s).

(** [try m except cs as e: h e]. *)
Definition catchM {S A} (m : M S A) (cs : list exn_class) (h : exn → M S A) : M S A :=
  λ s, match m s with
       | (Err e, s') => if isinstance e cs then h e s' else (Err e, s')
       | r => r
       end.

Fixpoint iterM {S A} (f : A → M S unit) (l : list A) : M S unit :=
  match l with
  | [] => mret tt
  | x :: l => _ ← f x; iterM f l
  end.

(** * Total orders: what [sorted] compares with *)

Class PyOrd (K : Type) := {
  py_le : relation K;
  #[global] py_le_dec :: RelDecision py_le;
  #[global] py_le_po :: PartialOrder py_le;
  #[global] py_le_total :: Total py_le;
}.

#[export] Instance Z_ord : PyOrd Z := {| py_le := Z.le |}.

#[export] Instance string_ord : PyOrd string := {| py_le := String.le |}.

(** Tuples and [order=True] dataclasses compare lexicographically. *)
Section prod_ord.
Context {A B : Type} `{EqDecision A, PyOrd A, PyOrd B}.

Definition prod_le (p q : A * B) : Prop :=
  (p.1 ≠ q.1 ∧ py_le p.1 q.1) ∨ (p.1 = q.1 ∧ py_le p.2 q.2).

#[export] Instance prod_le_dec : RelDecision prod_le.
Proof. intros p q. unfold prod_le. apply _. Defined.

#[export] Instance prod_le_po : PartialOrder prod_le.
Proof.
  split; [split|].
  - intros [a b]. right. by split.
  - intros [a1 b1] [a2 b2] [a3 b3]; unfold prod_le; simpl.
    intros [[Hn H1]|[-> H1]] [[Hn' H2]|[E H2]]; subst; simpl in *.
    + left. split; [|by etrans]. intros ->. apply Hn. by apply (anti_symm py_le).
    + by left.
    + by left.
    + right. split; [done|by etrans].
  - intros [a1 b1] [a2 b2]; unfold prod_le; simpl.
    intros [[Hn H1]|[-> H1]] [[Hn' H2]|[E H2]]; simpl in *; subst; try done.
    + by destruct Hn; apply (anti_symm py_le).
    + f_equal. by apply (anti_symm py_le).
Qed.

#[export] Instance prod_le_total : Total prod_le.
Proof.
  intros [a1 b1] [a2 b2]; unfold prod_le; simpl.
  destruct (decide (a1 = a2)) as [->|Hne].
  - destruct (total py_le b1 b2); auto.
  - destruct (total py_le a1 a2); [left; left|right; left]; auto.
Qed.

#[export] Instance prod_ord : PyOrd (A * B) := {| py_le := prod_le |}.
End prod_ord.

(** A record compared through the tuple of its fields. *)
Section inj_ord.
Context {A B : Type} `{PyOrd B} (f : A → B) `{Hinj : !Inj (=) (=) f}.

#[local] Instance inj_le_po : PartialOrder (λ x y, py_le (f x) (f y)).
Proof.
  split; [split|].
  - intros x. done.
  - intros x y z ??. by etrans.
  - intros x y ??. apply (inj f). by apply (anti_symm py_le).
Qed.

#[local] Instance inj_le_total : Total (λ x y, py_le (f x) (f y)).
Proof. intros x y. apply (total py_le). Qed.

Definition inj_ord : PyOrd A.
Proof.
  refine {| py_le := λ x y, py_le (f x) (f y);
            py_le_dec := λ x y, py_le_dec (f x) (f y);
            py_le_po := inj_le_po; py_le_total := inj_le_total |}.
Defined.
End inj_ord.

(** * Dictionaries and their sorted item tuples

    A Python [dict] is a [gmap]; the immutable containers of the code keep
    [tuple(sorted(d.items(), key=lambda item: item[0]))].  [sorted_items] is that
    tuple and [dict_of] is the call [dict(items)]; the lemmas say that the two
    are inverse, so that a container can be reasoned about through the map it
    represents. *)

Section dict.
Context {K V : Type} `{Countable K, PyOrd K}.
Implicit Types (d : gmap K V) (l : list (K * V)).

(** [dict(l)]: a later pair overwrites an earlier one. *)
Definition dict_of l : gmap K V := foldl (λ d kv, <[kv.1 := kv.2]> d) ∅ l.

Definition key_le (p q : K * V) : Prop := py_le p.1 q.1.

#[export] Instance key_le_dec : RelDecision key_le.
Proof. intros p q. unfold key_le. apply _. Defined.
#[export] Instance key_le_total : Total key_le.
Proof. intros p q. apply (total py_le). Qed.
#[export] Instance key_le_trans : Transitive key_le.
Proof. intros p q r ??. unfold key_le in *. by etrans. Qed.

Definition sorted_items d : list (K * V) := merge_sort key_le (map_to_list d).

(** The linear scan [for k, v in items: if k == key: return v]. *)
Fixpoint assoc (k : K) l : option V :=
  match l with
  | [] => None
  | (k', v) :: l => if decide (k' = k) then Some v else assoc k l
  end.

Lemma sorted_items_Permutation d : sorted_items d ≡ₚ map_to_list d.
Proof. apply merge_sort_Permutation. Qed.

Lemma sorted_items_sorted d : StronglySorted key_le (sorted_items d).
Proof. apply StronglySorted_merge_sort; apply _. Qed.

Lemma elem_of_sorted_items d k v : (k, v) ∈ sorted_items d ↔ d !! k = Some v.
Proof. by rewrite sorted_items_Permutation, elem_of_map_to_list. Qed.

Lemma NoDup_sorted_items_fst d : NoDup (sorted_items d).*1.
Proof. rewrite sorted_items_Permutation. apply NoDup_fst_map_to_list. Qed.

Lemma assoc_Some_elem_of k v l : NoDup l.*1 → assoc k l = Some v ↔ (k, v) ∈ l.
Proof.
  induction l as [|[k' v'] l IH]; simpl; intros Hnd.
  { split; [done|]. by intros ?%elem_of_nil. }
  apply NoDup_cons in Hnd as [Hk Hnd]. rewrite elem_of_cons. case_decide as E; subst.
  - split; [intros [= ->]; by left|]. intros [[= ->]|Hin]; [done|].
    destruct Hk. apply list_elem_of_fmap. by exists (k, v).
  - rewrite IH by done. split; [by right|]. by intros [[= ? ?]|?].
Qed.

Lemma assoc_sorted_items d k : assoc k (sorted_items d) = d !! k.
Proof.
  apply option_eq. intros v.
  by rewrite assoc_Some_elem_of, elem_of_sorted_items by apply NoDup_sorted_items_fst.
Qed.

Lemma foldl_insert_lookup l d k :
  foldl (λ d kv, <[kv.1 := kv.2]> d) d l !! k =
  match dict_of l !! k with Some v => Some v | None => d !! k end.
Proof.
  unfold dict_of. induction l as [|[k' v] l IH] using rev_ind; simpl.
  { by rewrite lookup_empty. }
  rewrite !foldl_app; simpl. destruct (decide (k' = k)) as [->|].
  - by rewrite !lookup_insert_eq.
  - by rewrite !lookup_insert_ne.
Qed.

Lemma dict_of_cons_lookup k v l k' :
  dict_of ((k, v) :: l) !! k' =
  match dict_of l !! k' with Some v => Some v | None => if decide (k = k') then Some v else None end.
Proof.
  change (dict_of ((k, v) :: l)) with (foldl (λ d kv, <[kv.1 := kv.2]> d) (<[k:=v]> ∅ : gmap K V) l).
  rewrite foldl_insert_lookup. destruct (dict_of l !! k'); [done|].
  rewrite lookup_insert. by case_decide.
Qed.

Lemma dict_of_snoc l k v : dict_of (l ++ [(k, v)]) = <[k := v]> (dict_of l).
Proof. unfold dict_of. by rewrite foldl_app. Qed.

Lemma dict_of_NoDup l : NoDup l.*1 → dict_of l = list_to_map l.
Proof.
  induction l as [|[k v] l IH]; simpl; intros Hnd; [done|].
  apply NoDup_cons in Hnd as [Hk Hnd]. apply map_eq. intros k'.
  rewrite dict_of_cons_lookup, IH by done. rewrite lookup_insert. case_decide as E; subst.
  - by rewrite not_elem_of_list_to_map_1.
  - by destruct (list_to_map l !! k').
Qed.

Lemma dict_of_sorted_items d : dict_of (sorted_items d) = d.
Proof.
  rewrite dict_of_NoDup by apply NoDup_sorted_items_fst.
  rewrite (list_to_map_proper _ (map_to_list d)).
  - apply list_to_map_to_list.
  - apply NoDup_sorted_items_fst.
  - apply sorted_items_Permutation.
Qed.

#[export] Instance sorted_items_inj : Inj (=) (=) sorted_items.
Proof. intros d1 d2 E. by rewrite <-(dict_of_sorted_items d1), E, dict_of_sorted_items. Qed.

(** A tuple sorted by distinct keys is the item tuple of the dictionary it
    lists. *)
Lemma sorted_items_dict_of l :
  NoDup l.*1 → StronglySorted key_le l → sorted_items (dict_of l) = l.
Proof.
  intros Hnd Hs. apply (StronglySorted_unique_strong key_le).
  - intros [k1 v1] [k2 v2] H1 H2 Hl1 Hl2. unfold key_le in *. simpl in *.
    assert (k1 = k2) as -> by by apply (anti_symm py_le).
    apply elem_of_sorted_items in H1. rewrite dict_of_NoDup in H1 by done.
    rewrite (elem_of_list_to_map_1 l k2 v2) in H1 by done. by simplify_eq.
  - apply sorted_items_sorted.
  - done.
  - rewrite sorted_items_Permutation, dict_of_NoDup by done. by apply map_to_list_to_map.
Qed.
End dict.

Create Rewrite HintDb dict.
#[export] Hint Rewrite @dict_of_sorted_items @assoc_sorted_items : dict.
#[export] Hint Rewrite @lookup_empty : dict.

(** [sorted(s)] for a set [s]. *)
Section py_sorted.
Context {K : Type} `{Countable K, PyOrd K}.

Definition py_sorted (X : gset K) : list K := merge_sort py_le (elements X).

Lemma elem_of_py_sorted (X : gset K) x : x ∈ py_sorted X ↔ x ∈ X.
Proof. unfold py_sorted. by rewrite merge_sort_Permutation, elem_of_elements. Qed.

Lemma NoDup_py_sorted (X : gset K) : NoDup (py_sorted X).
Proof. unfold py_sorted. rewrite merge_sort_Permutation. apply NoDup_elements. Qed.

Lemma py_sorted_sorted (X : gset K) : StronglySorted py_le (py_sorted X).
Proof. apply StronglySorted_merge_sort; apply _. Qed.

Lemma list_to_set_py_sorted (X : gset K) : list_to_set (py_sorted X) = X.
Proof. apply set_eq. intros x. by rewrite elem_of_list_to_set, elem_of_py_sorted. Qed.
End py_sorted.

#[export] Hint Rewrite @list_to_set_py_sorted @elem_of_py_sorted : dict.

(** [tuple(dict.fromkeys(l))]: the first occurrence of each element, in order. *)
Section fromkeys.
Context {A : Type} `{EqDecision A}.

Fixpoint fromkeys_from (seen l : list A) : list A :=
  match l with
  | [] => []
  | x :: l => if decide (x ∈ seen) then fromkeys_from seen l
              else x :: fromkeys_from (x :: seen) l
  end.

Definition fromkeys (l : list A) : list A := fromkeys_from [] l.

Lemma elem_of_fromkeys_from seen l x : x ∈ fromkeys_from seen l ↔ x ∈ l ∧ x ∉ seen.
Proof.
  revert seen. induction l as [|y l IH]; intros seen; simpl.
  { split; [by intros ?%elem_of_nil|]. by intros [?%elem_of_nil _]. }
  case_decide; rewrite ?elem_of_cons, ?IH, ?elem_of_cons; [naive_solver|].
  destruct (decide (x = y)) as [->|]; naive_solver.
Qed.

Lemma elem_of_fromkeys l x : x ∈ fromkeys l ↔ x ∈ l.
Proof. unfold fromkeys. rewrite elem_of_fromkeys_from. set_solver. Qed.

Lemma NoDup_fromkeys l : NoDup (fromkeys l).
Proof.
  unfold fromkeys. generalize (@nil A). induction l as [|y l IH]; intros seen; simpl.
  { constructor. }
  case_decide; [done|]. apply NoDup_cons. split; [|done].
  rewrite elem_of_fromkeys_from. set_solver.
Qed.
End fromkeys.

(** [bool(s)] of a string. *)
Definition nonempty (s : string) : bool := negb (bool_decide (s = "")).

(** [f"{z}"] of an integer: its decimal digits, with a leading minus sign. *)
Definition str_of_int (z : Z) : string := DecimalString.NilZero.string_of_int (Z.to_int z).

(** * Lists *)

Lemma StronglySorted_filter {A} (R : relation A) (P : A → Prop) `{∀ x, Decision (P x)} l :
  StronglySorted R l → StronglySorted R (filter P l).
Proof.
  induction 1 as [|x l Hs IH Hx]; [constructor|]. rewrite filter_cons. case_decide; [|done].
  constructor; [done|]. rewrite Forall_forall in *. intros y [_ Hy]%list_elem_of_filter. auto.
Qed.

Lemma list_filter_elem_iff {A} (P Q : A → Prop) `{∀ x, Decision (P x), ∀ x, Decision (Q x)} (l : list A) :
  (∀ x, x ∈ l → P x ↔ Q x) → filter P l = filter Q l.
Proof.
  induction l as [|x l IH]; intros Hl; [done|]. rewrite !filter_cons, IH by (intros; apply Hl; by right).
  specialize (Hl x (list_elem_of_here _ _)). repeat case_decide; tauto.
Qed.

Lemma list_filter_all {A} (P : A → Prop) `{∀ x, Decision (P x)} (l : list A) :
  Forall P l → filter P l = l.
Proof. induction 1 as [|x l Hx Hl IH]; [done|]. by rewrite filter_cons, decide_True, IH. Qed.

Lemma NoDup_take {A} (k : nat) (l : list A) : NoDup l → NoDup (take k l).
Proof. intros Hl. eapply sublist_NoDup; [done|apply sublist_take]. Qed.

Lemma elem_of_take_weak {A} (k : nat) (l : list A) x : x ∈ take k l → x ∈ l.
Proof. rewrite elem_of_take. intros (i & Hi & _). by eapply list_elem_of_lookup_2. Qed.

(** * Numbers *)

Definition sumZ (l : list Z) : Z := foldr Z.add 0%Z l.

Lemma sumZ_app l1 l2 : sumZ (l1 ++ l2) = (sumZ l1 + sumZ l2)%Z.
Proof. induction l1; simpl; [done|lia]. Qed.

#[export] Instance sumZ_Permutation : Proper ((≡ₚ) ==> (=)) sumZ.
Proof. intros l1 l2 E. induction E; simpl; lia. Qed.

(** * Reachability *)

(** States reachable from [s0] by steps of [R]: an invariant is proved by rule
    induction with [reachable_invariant]. *)
Inductive reachable {St : Type} (R : St → St → Prop) (s0 : St) : St → Prop :=
  | reachable_init : reachable R s0 s0
  | reachable_step s s' : reachable R s0 s → R s s' → reachable R s0 s'.

Lemma reachable_invariant {St} (R : St → St → Prop) (I : St → Prop) s0 :
  I s0 → (∀ s s', I s → R s s' → I s') → ∀ s, reachable R s0 s → I s.
Proof. intros H0 HR s Hs. induction Hs; eauto. Qed.

(** * Automation *)

(** Case analysis on every [if] and [match] of the goal, keeping equations. *)
Ltac cases :=
  repeat match goal with
  | |- context [match ?x with _ => _ end] =>
      lazymatch x with context [match _ with _ => _ end] => fail | _ => idtac end;
      destruct x eqn:?; simplify_eq/=
  end.

(** Boolean hypotheses and goals as propositions. *)
Ltac boolify :=
  repeat match goal with
  | H : (_ && _) = true |- _ => apply andb_true_iff in H as [??]
  | H : (_ || _) = false |- _ => apply orb_false_iff in H as [??]
  | H : negb _ = true |- _ => apply negb_true_iff in H
  | H : negb _ = false |- _ => apply negb_false_iff in H
  | H : bool_decide _ = true |- _ => apply bool_decide_eq_true in H
  | H : bool_decide _ = false |- _ => apply bool_decide_eq_false in H
  | H : (_ <? _)%Z = true |- _ => apply Z.ltb_lt in H
  | H : (_ <? _)%Z = false |- _ => apply Z.ltb_ge in H
  | H : (_ <=? _)%Z = true |- _ => apply Z.leb_le in H
  | H : (_ <=? _)%Z = false |- _ => apply Z.leb_gt in H
  | H : (_ =? _)%Z = true |- _ => apply Z.eqb_eq in H
  | H : (_ =? _)%Z = false |- _ => apply Z.eqb_neq in H
  end.

Create HintDb distsys.
Create Rewrite HintDb distsys.
