(* ===== verification/Lattice.v ===== *)
(** * Mergeable replicated states

    The contract every replicated state of the program offers: a [merge] that may
    raise (two registers that disagree on one dot, two entries of different
    types), that is commutative, associative and idempotent up to which exception
    is raised.  The convergence theorems are proved once against this interface;
    [Causal], [Crdt] and [Storage] discharge it. *)

From S2P Require Import Prelude.

(** Two outcomes agree when both raise or both return the same value. *)
#[export] Instance result_equiv {A} : Equiv (result A) := λ r1 r2,
  match r1, r2 with
  | Ok a, Ok b => a = b
  | Err _, Err _ => True
  | _, _ => False
  end.

#[export] Instance result_equivalence {A} : Equivalence (≡@{result A}).
Proof.
  split.
  - by intros [].
  - by intros [] [].
  - intros [] [] []; unfold equiv; simpl; naive_solver congruence.
Qed.

#[export] Instance result_bind_proper {A B} (f : A → result B) :
  Proper ((≡) ==> (≡)) (mbind (M:=result) f).
Proof.
  intros [a|e] [b|e'] E; simpl; try done.
  unfold equiv, result_equiv in E. by subst.
Qed.

Lemma result_bind_ext {A B} (f g : A → result B) (m : result A) :
  (∀ a, m = Ok a → f a ≡ g a) → (m ≫= f) ≡ (m ≫= g).
Proof. destruct m; simpl; [auto|]. intros _. done. Qed.

Lemma result_equiv_Ok {A} (r : result A) (a : A) : r ≡ Ok a ↔ r = Ok a.
Proof. destruct r; unfold equiv; simpl; naive_solver. Qed.

Class Mergeable (A : Type) := {
  m_wf : A → Prop;
  m_merge : A → A → result A;
  m_merge_wf a b c : m_wf a → m_wf b → m_merge a b = Ok c → m_wf c;
  m_merge_idemp a : m_wf a → m_merge a a = Ok a;
  m_merge_comm a b : m_wf a → m_wf b → m_merge a b ≡ m_merge b a;
  m_merge_assoc a b c : m_wf a → m_wf b → m_wf c →
    (m_merge a b ≫= λ ab, m_merge ab c) ≡ (m_merge b c ≫= λ bc, m_merge a bc);
}.

Section convergence.
Context {A : Type} `{Mergeable A}.
Implicit Types (a b x y : A) (l : list A).

(** A replica that starts with [a] and merges the states of [l] as they arrive. *)
Fixpoint merge_all a l : result A :=
  match l with
  | [] => Ok a
  | x :: l => m_merge a x ≫= λ a', merge_all a' l
  end.

(** [b] already contains everything [a] contains. *)
Definition m_le a b : Prop := m_merge a b ≡ Ok b.

Lemma merge_all_wf a l b :
  m_wf a → Forall m_wf l → merge_all a l = Ok b → m_wf b.
Proof.
  intros Ha Hl. revert a Ha. induction Hl as [|x l Hx Hl IH]; simpl; intros a Ha E.
  { by simplify_eq. }
  apply bind_Ok_inv in E as (a' & Ea & E). eauto using m_merge_wf.
Qed.

Lemma merge_all_two a x y l :
  merge_all a (x :: y :: l) ≡
  ((m_merge a x ≫= λ b, m_merge b y) ≫= λ c, merge_all c l).
Proof. simpl. destruct (m_merge a x); simpl; reflexivity. Qed.

Lemma m_merge_swap a x y : m_wf a → m_wf x → m_wf y →
  (m_merge a x ≫= λ b, m_merge b y) ≡ (m_merge a y ≫= λ b, m_merge b x).
Proof.
  intros Ha Hx Hy. rewrite !m_merge_assoc by done.
  by rewrite (m_merge_comm x y).
Qed.

Lemma m_merge_absorb a x : m_wf a → m_wf x →
  (m_merge a x ≫= λ b, m_merge b x) ≡ m_merge a x.
Proof. intros Ha Hx. rewrite m_merge_assoc by done. by rewrite m_merge_idemp. Qed.

Lemma merge_all_cons_proper a x l1 l2 :
  m_wf a → m_wf x →
  (∀ b, m_wf b → merge_all b l1 ≡ merge_all b l2) →
  merge_all a (x :: l1) ≡ merge_all a (x :: l2).
Proof. intros Ha Hx Hl. simpl. apply result_bind_ext. eauto using m_merge_wf. Qed.

Lemma merge_all_Permutation a l1 l2 :
  m_wf a → Forall m_wf l1 → l1 ≡ₚ l2 → merge_all a l1 ≡ merge_all a l2.
Proof.
  intros Ha Hl HP. revert a Ha Hl.
  induction HP as [|x l1 l2 HP IH|x y l|l1 l2 l3 HP1 IH1 HP2 IH2]; intros a Ha Hl.
  - done.
  - apply Forall_cons in Hl as [Hx Hl]. apply merge_all_cons_proper; auto.
  - apply Forall_cons in Hl as [Hy Hl]. apply Forall_cons in Hl as [Hx Hl].
    rewrite !merge_all_two. by rewrite m_merge_swap.
  - etrans; [by apply IH1|]. apply IH2; [done|]. by rewrite <-HP1.
Qed.

Lemma merge_all_dup a x l :
  m_wf a → Forall m_wf l → x ∈ l → merge_all a (x :: l) ≡ merge_all a l.
Proof.
  intros Ha Hl (k & HP)%elem_of_Permutation. rewrite Forall_forall in Hl.
  assert (m_wf x ∧ Forall m_wf k) as [Hx Hk].
  { split; [apply Hl; rewrite HP; by left|]. apply Forall_forall. intros y Hy.
    apply Hl. rewrite HP. by right. }
  assert (Forall m_wf (x :: l)).
  { constructor; [done|]. by rewrite Forall_forall. }
  rewrite (merge_all_Permutation a (x :: l) (x :: x :: k)) by (done || by rewrite HP).
  rewrite (merge_all_Permutation a l (x :: k)) by (done || by inversion_clear H0).
  rewrite merge_all_two. by rewrite m_merge_absorb.
Qed.

Lemma merge_all_remove_dups `{EqDecision A} a l :
  m_wf a → Forall m_wf l → merge_all a (remove_dups l) ≡ merge_all a l.
Proof.
  intros Ha Hl. revert a Ha. induction Hl as [|x l Hx Hl IH]; intros a Ha; [done|].
  cbn [remove_dups]. case_decide as Hin.
  - rewrite IH by done. symmetry. by apply merge_all_dup.
  - apply merge_all_cons_proper; auto.
Qed.

(** Deliveries may be reordered and repeated: only the set of delivered states
    matters. *)
Lemma merge_all_same_set `{EqDecision A} a l1 l2 :
  m_wf a → Forall m_wf l1 → (∀ x, x ∈ l1 ↔ x ∈ l2) →
  merge_all a l1 ≡ merge_all a l2.
Proof.
  intros Ha Hl1 Hset.
  assert (Forall m_wf l2) as Hl2.
  { rewrite Forall_forall in Hl1. apply Forall_forall. intros x Hx. by apply Hl1, Hset. }
  rewrite <-(merge_all_remove_dups a l1), <-(merge_all_remove_dups a l2) by done.
  apply merge_all_Permutation; [done| |].
  - rewrite Forall_forall in *. intros x Hx. by apply Hl1, elem_of_remove_dups.
  - apply NoDup_Permutation; [apply NoDup_remove_dups..|]. intros x.
    by rewrite !elem_of_remove_dups.
Qed.

Lemma m_le_refl a : m_wf a → m_le a a.
Proof. intros Ha. unfold m_le. by rewrite m_merge_idemp. Qed.

Lemma m_le_merge_l a b c : m_wf a → m_wf b → m_merge a b = Ok c → m_le a c.
Proof.
  intros Ha Hb E. unfold m_le.
  pose proof (m_merge_assoc a a b Ha Ha Hb) as HA.
  rewrite m_merge_idemp, E in HA by done. simpl in HA. rewrite E in HA. by symmetry.
Qed.

Lemma m_le_merge_r a b c : m_wf a → m_wf b → m_merge a b = Ok c → m_le b c.
Proof.
  intros Ha Hb E. apply (m_le_merge_l b a); [done..|].
  apply result_equiv_Ok. by rewrite m_merge_comm, E.
Qed.

Lemma m_le_trans a b c : m_wf a → m_wf b → m_wf c → m_le a b → m_le b c → m_le a c.
Proof.
  unfold m_le. rewrite !result_equiv_Ok. intros Ha Hb Hc Hab Hbc. pose proof (m_merge_assoc a b c Ha Hb Hc) as HA.
  rewrite Hab, Hbc in HA. simpl in HA. rewrite Hbc in HA. by apply result_equiv_Ok.
Qed.

Lemma merge_all_snoc a l x :
  merge_all a (l ++ [x]) = (merge_all a l ≫= λ b, m_merge b x).
Proof.
  revert a. induction l as [|y l IH]; intros a; simpl.
  - by destruct (m_merge a x).
  - destruct (m_merge a y); simpl; auto.
Qed.

(** Everything delivered is contained in the result. *)
Lemma merge_all_le a l b x :
  m_wf a → Forall m_wf l → merge_all a l = Ok b → x ∈ l → m_le x b.
Proof.
  intros Ha Hl E Hx. assert (m_wf b) as Hb by eauto using merge_all_wf.
  assert (m_wf x) as Hxw by (rewrite Forall_forall in Hl; auto).
  assert (merge_all a (l ++ [x]) ≡ merge_all a l) as HE.
  { etrans; [|by apply (merge_all_dup a x l)].
    apply merge_all_Permutation; [done| |symmetry; apply Permutation_cons_append].
    apply Forall_app. by split; [|constructor]. }
  rewrite merge_all_snoc, E in HE. simpl in HE. unfold m_le.
  by rewrite m_merge_comm.
Qed.
End convergence.
