(* ===== verification/Causal.v ===== *)
(** * Causal metadata: [distsys/causal]

    [CausalActor], [Dot], [VersionVector], [CausalToken] and [CausalClock].  A
    version vector keeps, as the source does, a tuple of (actor, counter) pairs
    sorted by actor with the zero counters dropped; its lemmas go through [get],
    which determines a well-formed vector ([vv_ext]). *)

From S2P Require Import Prelude Lattice.

Local Open Scope Z_scope.

(** ** Normalised counter tuples

    [VersionVector] and [GCounter] both store
    [tuple(sorted((a, n) for a, n in d.items() if n))] and look an actor up by a
    linear scan that defaults to zero. *)
Section counters.
Context {K : Type} `{Countable K, PyOrd K}.
Implicit Types (d : gmap K Z) (l : list (K * Z)).

Definition normalized d : list (K * Z) := sorted_items (filter (λ kv, kv.2 ≠ 0) d).

Definition scan (k : K) l : Z := default 0 (assoc k l).

Definition keys_of l : gset K := list_to_set l.*1.

(** [{k: max(left[k], right[k]) for k in keys}]. *)
Definition max_dict l1 l2 : gmap K Z :=
  set_to_map (λ k, (k, Z.max (scan k l1) (scan k l2))) (keys_of l1 ∪ keys_of l2).

(** The tuples the constructors build. *)
Definition counters_wf l : Prop :=
  l = sorted_items (dict_of l) ∧ map_Forall (λ _ n, 0 < n) (dict_of l).

#[export] Instance counters_wf_dec l : Decision (counters_wf l).
Proof. unfold counters_wf. apply _. Defined.

Lemma lookup_normalized d k n :
  dict_of (normalized d) !! k = Some n ↔ d !! k = Some n ∧ n ≠ 0.
Proof.
  unfold normalized. rewrite dict_of_sorted_items. by rewrite map_lookup_filter_Some.
Qed.

Lemma scan_wf l k : counters_wf l → scan k l = default 0 (dict_of l !! k).
Proof. intros [E _]. unfold scan. rewrite E at 1. by rewrite assoc_sorted_items. Qed.

Lemma scan_normalized d k : scan k (normalized d) = default 0 (d !! k).
Proof.
  unfold scan, normalized. rewrite assoc_sorted_items.
  destruct (d !! k) as [n|] eqn:E; simpl.
  - destruct (decide (n = 0)) as [->|Hn].
    + rewrite map_lookup_filter_None_2; [done|]. right. naive_solver.
    + by rewrite (map_lookup_filter_Some_2 _ d k n).
  - rewrite map_lookup_filter_None_2; [done|]. by left.
Qed.

Lemma normalized_wf d : map_Forall (λ _ n, 0 ≤ n) d → counters_wf (normalized d).
Proof.
  intros Hd. split.
  - unfold normalized at 2. by rewrite dict_of_sorted_items.
  - intros k n [E Hn]%lookup_normalized. apply Hd in E. simpl in E. lia.
Qed.

Lemma scan_nonneg l k : counters_wf l → 0 ≤ scan k l.
Proof.
  intros Hl. rewrite scan_wf by done. destruct (dict_of l !! k) eqn:E; simpl; [|lia].
  apply Hl in E. simpl in E. lia.
Qed.

Lemma scan_notin l k : k ∉ keys_of l → scan k l = 0.
Proof.
  unfold keys_of, scan. induction l as [|[k' n] l IH]; simpl; [done|].
  intros Hk. case_decide as E; [set_solver|]. apply IH. set_solver.
Qed.

Lemma counters_ext l1 l2 :
  counters_wf l1 → counters_wf l2 → (∀ k, scan k l1 = scan k l2) → l1 = l2.
Proof.
  intros H1 H2 E. rewrite (proj1 H1), (proj1 H2). f_equal. apply map_eq. intros k.
  specialize (E k). rewrite !scan_wf in E by done.
  destruct (dict_of l1 !! k) eqn:E1, (dict_of l2 !! k) eqn:E2; simpl in *; subst; try done.
  - apply H1 in E1. simpl in E1. lia.
  - apply H2 in E2. simpl in E2. lia.
Qed.

Lemma lookup_max_dict l1 l2 k :
  default 0 (max_dict l1 l2 !! k) = Z.max (scan k l1) (scan k l2).
Proof.
  destruct (max_dict l1 l2 !! k) as [n|] eqn:E.
  - unfold max_dict in E. apply lookup_set_to_map in E; [|naive_solver].
    by destruct E as (k' & _ & [= -> <-]).
  - assert (k ∉ keys_of l1 ∪ keys_of l2) as Hk.
    { intros Hk. unfold max_dict in E. apply eq_None_not_Some in E. apply E.
      eexists. apply lookup_set_to_map; [naive_solver|]. eauto. }
    rewrite !scan_notin by set_solver. done.
Qed.

Lemma max_dict_nonneg l1 l2 :
  counters_wf l1 → counters_wf l2 → map_Forall (λ _ n, 0 ≤ n) (max_dict l1 l2).
Proof.
  intros H1 H2 k n E. pose proof (lookup_max_dict l1 l2 k) as HM. rewrite E in HM.
  simpl in HM. pose proof (scan_nonneg l1 k H1). lia.
Qed.

Lemma merged_wf l1 l2 :
  counters_wf l1 → counters_wf l2 → counters_wf (normalized (max_dict l1 l2)).
Proof. intros. by apply normalized_wf, max_dict_nonneg. Qed.

Lemma scan_merged l1 l2 k :
  scan k (normalized (max_dict l1 l2)) = Z.max (scan k l1) (scan k l2).
Proof. by rewrite scan_normalized, lookup_max_dict. Qed.

Lemma elem_of_keys_wf l k : counters_wf l → k ∈ keys_of l ↔ scan k l ≠ 0.
Proof.
  intros Hl. split; [|intros Hn; destruct (decide (k ∈ keys_of l)) as [|E]; [done|];
                      by apply scan_notin in E].
  unfold keys_of. rewrite elem_of_list_to_set, list_elem_of_fmap.
  intros ([k' n] & -> & Hin). rewrite (proj1 Hl) in Hin.
  apply elem_of_sorted_items in Hin. rewrite scan_wf by done. simpl. rewrite Hin.
  apply Hl in Hin. simpl in *. lia.
Qed.

(** [d[k] = d.get(k, 0) (+) n] on the dictionary of a well-formed tuple. *)
Lemma updated_wf l k n :
  counters_wf l → 0 ≤ n → counters_wf (normalized (<[k := n]> (dict_of l))).
Proof.
  intros Hl Hn. apply normalized_wf. apply map_Forall_insert_2; [done|].
  intros k' n' E. apply Hl in E. simpl in *. lia.
Qed.

Lemma scan_updated l k n k' :
  counters_wf l →
  scan k' (normalized (<[k := n]> (dict_of l))) = if decide (k = k') then n else scan k' l.
Proof.
  intros Hl. rewrite scan_normalized, lookup_insert. case_decide; [done|].
  by rewrite scan_wf.
Qed.

Lemma counters_wf_nil : counters_wf [].
Proof. split; [done|]. apply map_Forall_empty. Qed.
End counters.

#[export] Hint Resolve counters_wf_nil merged_wf normalized_wf scan_nonneg : distsys.

(** ** [causal/actor.py] *)
Module CausalActor.
Record t := mk { node_id : string; incarnation : Z }.

#[export] Instance eq_dec : EqDecision t.
Proof. solve_decision. Defined.

Definition fields (a : t) : string * Z := (node_id a, incarnation a).

#[export] Instance fields_inj : Inj (=) (=) fields.
Proof. intros [] []. unfold fields. simpl. congruence. Qed.

#[export] Program Instance countable : Countable t :=
  inj_countable fields (λ p, Some (mk p.1 p.2)) _.
Next Obligation. by intros []. Qed.

#[export] Instance ord : PyOrd t := inj_ord fields.

Definition valid (a : t) : bool := nonempty (node_id a) && (0 <=? incarnation a).

(** [__post_init__] *)
Definition make (node_id : string) (incarnation : Z) : result t :=
  if negb (nonempty node_id) then raise ValueError "node_id must not be empty"
  else if incarnation <? 0 then raise ValueError "incarnation must be non-negative"
  else Ok (mk node_id incarnation).

Definition wire_key (a : t) : string := (node_id a +:+ "@" +:+ str_of_int (incarnation a))%string.
End CausalActor.
Export (hints) CausalActor.

(** ** [causal/dot.py] *)
Module Dot.
Record t := mk { actor : CausalActor.t; counter : Z }.

#[export] Instance eq_dec : EqDecision t.
Proof. solve_decision. Defined.

Definition fields (d : t) : CausalActor.t * Z := (actor d, counter d).

#[export] Instance fields_inj : Inj (=) (=) fields.
Proof. intros [] []. unfold fields. simpl. congruence. Qed.

#[export] Program Instance countable : Countable t :=
  inj_countable fields (λ p, Some (mk p.1 p.2)) _.
Next Obligation. by intros []. Qed.

#[export] Instance ord : PyOrd t := inj_ord fields.

(** [__post_init__] *)
Definition make (actor : CausalActor.t) (counter : Z) : result t :=
  if counter <? 1 then raise ValueError "counter must be >= 1" else Ok (mk actor counter).
End Dot.
Export (hints) Dot.

(** ** [causal/version_vector.py] *)
Module VersionVector.

Inductive relation := BEFORE | AFTER | EQUAL | CONCURRENT.

#[export] Instance relation_eq_dec : EqDecision relation.
Proof. solve_decision. Defined.

Record t := VV { _entries : list (CausalActor.t * Z) }.

#[export] Instance eq_dec : EqDecision t.
Proof. solve_decision. Defined.

Definition build (entries : gmap CausalActor.t Z) : t := VV (normalized entries).

(** [__init__]: a negative counter raises, zero counters are dropped. *)
Definition init (entries : gmap CausalActor.t Z) : result t :=
  if existsb (λ kv, kv.2 <? 0) (map_to_list entries)
  then raise ValueError "version counters must be non-negative"
  else Ok (build entries).

Definition empty : t := VV [].

(** [__bool__] *)
Definition truthy (self : t) : bool := negb (bool_decide (_entries self = [])).

Definition get (self : t) (actor : CausalActor.t) : Z := scan actor (_entries self).

Definition items (self : t) : list (CausalActor.t * Z) := _entries self.

Definition with_dot (self : t) (dot : Dot.t) : t :=
  let entries := dict_of (_entries self) in
  build (<[Dot.actor dot := Z.max (default 0 (entries !! Dot.actor dot)) (Dot.counter dot)]> entries).

Definition merge (self other : t) : t := build (max_dict (_entries self) (_entries other)).

(** The loop of [compare], with its early return. *)
Fixpoint compare_loop (self other : t) (actors : list CausalActor.t) (less greater : bool)
    : relation :=
  match actors with
  | [] => if less then BEFORE else if greater then AFTER else EQUAL
  | actor :: actors =>
      let left := get self actor in
      let right := get other actor in
      let less := less || (left <? right) in
      let greater := greater || (negb (left <? right) && (right <? left)) in
      if less && greater then CONCURRENT
      else compare_loop self other actors less greater
  end.

Definition compare (self other : t) : relation :=
  compare_loop self other
    (elements (keys_of (_entries self) ∪ keys_of (_entries other))) false false.

Definition dominates (self other : t) : bool :=
  match compare self other with AFTER | EQUAL => true | _ => false end.

Definition concurrent_with (self other : t) : bool :=
  bool_decide (compare self other = CONCURRENT).

Definition missing_step (self : t) (missing : gmap CausalActor.t (Z * Z))
    (item : CausalActor.t * Z) : gmap CausalActor.t (Z * Z) :=
  let '(actor, required_counter) := item in
  let local_counter := get self actor in
  if local_counter <? required_counter
  then <[actor := (local_counter + 1, required_counter)]> missing
  else missing.

Definition missing_from (self required : t) : gmap CausalActor.t (Z * Z) :=
  foldl (missing_step self) ∅ (items required).

(** The vectors the constructor builds. *)
Definition wf (self : t) : Prop := counters_wf (_entries self).

#[export] Instance wf_dec self : Decision (wf self).
Proof. unfold wf. apply _. Defined.
#[global] Typeclasses Opaque wf.

(** Pointwise order: [other] has seen every event [self] has seen. *)
Definition le (self other : t) : Prop := ∀ a, get self a ≤ get other a.

Lemma vv_init_ok m : map_Forall (λ _ n, 0 ≤ n) m → init m = Ok (build m).
Proof.
  intros Hm. unfold init. destruct (existsb _ _) eqn:E; [|done].
  apply existsb_exists in E as ([k n] & Hin & Hn). simpl in Hn. boolify.
  apply list_elem_of_In, elem_of_map_to_list, Hm in Hin. simpl in Hin. lia.
Qed.

Lemma vv_wf_empty : wf empty.
Proof. apply counters_wf_nil. Qed.

Lemma get_empty a : get empty a = 0.
Proof. done. Qed.

Lemma get_nonneg v a : wf v → 0 ≤ get v a.
Proof. apply scan_nonneg. Qed.

Lemma vv_ext v w : wf v → wf w → (∀ a, get v a = get w a) → v = w.
Proof. destruct v, w. intros. f_equal. by apply counters_ext. Qed.

Lemma vv_merge_wf v w : wf v → wf w → wf (merge v w).
Proof. apply merged_wf. Qed.

Lemma get_merge v w a : get (merge v w) a = Z.max (get v a) (get w a).
Proof. apply scan_merged. Qed.

Lemma with_dot_wf v d : wf v → wf (with_dot v d).
Proof.
  intros Hv. apply updated_wf; [done|].
  pose proof (get_nonneg v (Dot.actor d) Hv) as Hg. unfold get in Hg.
  rewrite scan_wf in Hg by done. lia.
Qed.

Lemma get_with_dot v d a : wf v →
  get (with_dot v d) a =
  if decide (Dot.actor d = a) then Z.max (get v a) (Dot.counter d) else get v a.
Proof.
  intros Hv. unfold get, with_dot. simpl. rewrite scan_updated by done.
  case_decide; [|done]. subst. by rewrite scan_wf.
Qed.

#[export] Hint Resolve vv_wf_empty vv_merge_wf with_dot_wf get_nonneg : distsys.
#[export] Hint Rewrite get_merge get_empty : distsys.

Lemma le_merge_iff v w u : le (merge v w) u ↔ le v u ∧ le w u.
Proof.
  unfold le. setoid_rewrite get_merge. split.
  - intros H. split; intros a; specialize (H a); lia.
  - intros [H1 H2] a. specialize (H1 a). specialize (H2 a). lia.
Qed.

Lemma le_merge_l v w : le v (merge v w).
Proof. intros a. rewrite get_merge. lia. Qed.

Lemma le_merge_r v w : le w (merge v w).
Proof. intros a. rewrite get_merge. lia. Qed.

#[export] Instance le_preorder : PreOrder le.
Proof. split; [intros v a; lia|]. intros u v w H1 H2 a. specialize (H1 a). specialize (H2 a). lia. Qed.

Lemma le_antisym v w : wf v → wf w → le v w → le w v → v = w.
Proof. intros Hv Hw H1 H2. apply vv_ext; auto. intros a. specialize (H1 a). specialize (H2 a). lia. Qed.

Lemma vv_merge_comm v w : wf v → wf w → merge v w = merge w v.
Proof. intros. apply vv_ext; auto with distsys. intros a. rewrite !get_merge. lia. Qed.

Lemma vv_merge_assoc u v w : wf u → wf v → wf w → merge (merge u v) w = merge u (merge v w).
Proof. intros. apply vv_ext; auto with distsys. intros a. rewrite !get_merge. lia. Qed.

Lemma vv_merge_idemp v : wf v → merge v v = v.
Proof. intros. apply vv_ext; auto with distsys. intros a. rewrite get_merge. lia. Qed.

Lemma merge_absorb v w : wf v → wf w → le w v → merge v w = v.
Proof. intros ?? H. apply vv_ext; auto with distsys. intros a. rewrite get_merge. specialize (H a). lia. Qed.

Lemma merge_empty_l v : wf v → merge empty v = v.
Proof.
  intros Hv. apply vv_ext; auto with distsys. intros a. rewrite get_merge, get_empty.
  pose proof (get_nonneg v a Hv). lia.
Qed.

Lemma truthy_false v : wf v → truthy v = false ↔ ∀ a, get v a = 0.
Proof.
  intros Hv. unfold truthy. rewrite negb_false_iff, bool_decide_eq_true. split.
  - intros E a. unfold get. by rewrite E.
  - intros E. assert (v = empty) as -> by (apply vv_ext; auto using vv_wf_empty). done.
Qed.

(** ** [compare] decides the pointwise order *)

Lemma compare_loop_spec self other actors less greater :
  less && greater = false →
  compare_loop self other actors less greater =
    match less || existsb (λ a, get self a <? get other a) actors,
          greater || existsb (λ a, get other a <? get self a) actors with
    | true, true => CONCURRENT
    | true, false => BEFORE
    | false, true => AFTER
    | false, false => EQUAL
    end.
Proof.
  revert less greater. induction actors as [|a actors IH]; intros less greater Hlg; simpl.
  { by destruct less, greater. }
  set (l := get self a). set (r := get other a).
  destruct (l <? r) eqn:E1, (r <? l) eqn:E2; boolify; try lia;
    destruct less, greater; simpl in *; try done; by rewrite ?IH.
Qed.

Lemma existsb_keys_lt v w : wf v → wf w →
  existsb (λ a, get v a <? get w a) (elements (keys_of (_entries v) ∪ keys_of (_entries w))) = true
  ↔ ∃ a, get v a < get w a.
Proof.
  intros Hv Hw. rewrite existsb_exists. split.
  - intros (a & _ & H). boolify. eauto.
  - intros [a Ha]. exists a. split; [|by apply Z.ltb_lt].
    apply list_elem_of_In, elem_of_elements, elem_of_union. right.
    apply elem_of_keys_wf; [done|]. pose proof (get_nonneg v a Hv). unfold get in *. lia.
Qed.

Lemma existsb_keys_false v w : wf v → wf w →
  existsb (λ a, get v a <? get w a) (elements (keys_of (_entries v) ∪ keys_of (_entries w))) = false
  ↔ le w v.
Proof.
  intros Hv Hw. rewrite <-not_true_iff_false, existsb_keys_lt by done. unfold le. split.
  - intros H a. destruct (Z.le_gt_cases (get w a) (get v a)); [done|]. destruct H. eauto.
  - intros H [a Ha]. specialize (H a). lia.
Qed.

Lemma compare_cases v w : wf v → wf w →
  match compare v w with
  | EQUAL => v = w
  | BEFORE => le v w ∧ ¬ le w v
  | AFTER => le w v ∧ ¬ le v w
  | CONCURRENT => ¬ le v w ∧ ¬ le w v
  end.
Proof.
  intros Hv Hw. unfold compare. rewrite compare_loop_spec by done. simpl.
  pose proof (existsb_keys_false v w Hv Hw) as H1.
  pose proof (existsb_keys_false w v Hw Hv) as H2.
  rewrite (union_comm_L (keys_of (_entries w))) in H2.
  destruct (existsb (λ a, get v a <? get w a) _) eqn:E1;
    destruct (existsb (λ a, get w a <? get v a) _) eqn:E2;
    naive_solver eauto using le_antisym.
Qed.

Lemma dominates_spec v w : wf v → wf w → dominates v w = true ↔ le w v.
Proof.
  intros Hv Hw. unfold dominates. pose proof (compare_cases v w Hv Hw) as H.
  destruct (compare v w); subst; naive_solver.
Qed.

#[export] Instance mergeable : Mergeable t.
Proof.
  refine {| m_wf := wf; m_merge := λ v w, Ok (merge v w) |}.
  - intros a b c Ha Hb [= <-]. auto with distsys.
  - intros a Ha. by rewrite vv_merge_idemp.
  - intros a b Ha Hb. by rewrite vv_merge_comm.
  - intros a b c Ha Hb Hc. simpl. by rewrite vv_merge_assoc.
Defined.

(** [compare] decides the causal order.  On well-formed vectors it answers
    [EQUAL] exactly when they are the same vector, [BEFORE] and [AFTER] exactly on
    strict pointwise order, and [CONCURRENT] exactly when neither has seen the
    other; [dominates] is the pointwise order, and swapping the arguments mirrors
    the answer. *)
Theorem compare_decides_causal_order v w :
  wf v → wf w →
  (compare v w = EQUAL ↔ v = w) ∧
  (compare v w = BEFORE ↔ le v w ∧ ¬ le w v) ∧
  (compare v w = AFTER ↔ le w v ∧ ¬ le v w) ∧
  (compare v w = CONCURRENT ↔ ¬ le v w ∧ ¬ le w v) ∧
  (dominates v w = true ↔ le w v) ∧
  (concurrent_with v w = concurrent_with w v).
Proof.
  intros Hv Hw. pose proof (compare_cases v w Hv Hw) as H. pose proof (compare_cases w v Hw Hv) as H'.
  assert (le v v) as Hvv by reflexivity. assert (le w w) as Hww by reflexivity.
  split_and!; [..|by apply dominates_spec|]; unfold concurrent_with;
    destruct (compare v w), (compare w v); subst; rewrite ?bool_decide_eq_true_2,
      ?bool_decide_eq_false_2 by done; naive_solver.
Qed.

Lemma compare_decides_causal_order_witness :
  let a := CausalActor.mk "n1" 1 in
  let b := CausalActor.mk "n2" 1 in
  let v := build {[a := 2]} in
  let w := build {[a := 1; b := 1]} in
  compare v w = CONCURRENT ∧ ¬ le v w ∧ ¬ le w v.
Proof.
  intros a b v w. split; [vm_compute; reflexivity|].
  apply (compare_decides_causal_order v w);
    [apply (bool_decide_unpack _); vm_compute; exact I..|vm_compute; reflexivity].
Defined.

(** [merge] is the least upper bound of the causal order, so a merged vector
    covers exactly what its two sides cover. *)
Theorem merge_least_upper_bound v w u :
  wf v → wf w → wf (merge v w) ∧ le v (merge v w) ∧ le w (merge v w) ∧
  (le v u → le w u → le (merge v w) u) ∧
  (∀ d, (get (merge v w) (Dot.actor d) <? Dot.counter d) = false ↔
        Dot.counter d ≤ get v (Dot.actor d) ∨ Dot.counter d ≤ get w (Dot.actor d)).
Proof.
  intros Hv Hw. split_and!; [auto with distsys|apply le_merge_l|apply le_merge_r| |].
  - intros ??. by apply le_merge_iff.
  - intros d. rewrite Z.ltb_ge, get_merge. lia.
Qed.

Lemma merge_least_upper_bound_witness :
  let a := CausalActor.mk "n1" 1 in
  let v := build {[a := 2]} in
  get (merge v empty) a = 2 ∧ le v (merge v empty).
Proof.
  intros a v. split; [vm_compute; reflexivity|].
  apply (merge_least_upper_bound v empty empty);
    apply (bool_decide_unpack _); vm_compute; exact I.
Defined.

Lemma missing_loop self (d : gmap CausalActor.t (Z * Z)) l a : NoDup l.*1 →
  foldl (missing_step self) d l !! a =
  match assoc a l with
  | Some n => if get self a <? n then Some (get self a + 1, n) else d !! a
  | None => d !! a
  end.
Proof.
  revert d. induction l as [|[k n] l IH]; intros d Hnd; [done|].
  apply NoDup_cons in Hnd as [Hk Hnd]. simpl. rewrite IH by done. clear IH.
  case_decide as E; subst.
  - assert (assoc a l = None) as ->.
    { destruct (assoc a l) as [m|] eqn:E; [|done]. apply assoc_Some_elem_of in E; [|done].
      destruct Hk. apply list_elem_of_fmap. by exists (a, m). }
    destruct (get self a <? n); [by rewrite lookup_insert_eq|done].
  - destruct (get self k <? n); [by rewrite !lookup_insert_ne|done].
Qed.

(** [missing_from] lists, for every actor the required vector is ahead on, the
    range of counters this vector lacks. *)
Lemma missing_from_lookup self required a :
  wf self → wf required →
  missing_from self required !! a =
    if get self a <? get required a then Some (get self a + 1, get required a) else None.
Proof.
  intros Hs Hr. unfold missing_from, items. rewrite missing_loop.
  2:{ unfold wf in Hr. rewrite (proj1 Hr). apply NoDup_sorted_items_fst. }
  assert (get required a = default 0 (assoc a (_entries required))) as -> by done.
  destruct (assoc a (_entries required)); simpl; [by rewrite lookup_empty|].
  rewrite (proj2 (Z.ltb_ge _ _)); [done|auto with distsys].
Qed.

(** Nothing is missing exactly when the vector already dominates the
    requirement; otherwise each missing range starts right above what is known and
    ends at what is required. *)
Theorem missing_from_iff_not_dominated self required :
  wf self → wf required →
  (missing_from self required = ∅ ↔ dominates self required = true) ∧
  ∀ a lo hi, missing_from self required !! a = Some (lo, hi) ↔
    lo = get self a + 1 ∧ hi = get required a ∧ lo ≤ hi.
Proof.
  intros Hs Hr. split.
  - rewrite dominates_spec by done. split.
    + intros E a. pose proof (missing_from_lookup self required a Hs Hr) as H.
      rewrite E, lookup_empty in H. destruct (get self a <? get required a) eqn:El; [done|].
      boolify. lia.
    + intros Hle. apply map_empty. intros a. rewrite missing_from_lookup by done.
      by rewrite (proj2 (Z.ltb_ge _ _)) by apply Hle.
  - intros a lo hi. rewrite missing_from_lookup by done.
    destruct (get self a <? get required a) eqn:El; boolify; naive_solver lia.
Qed.

Lemma missing_from_iff_not_dominated_witness :
  let a := CausalActor.mk "n1" 1 in
  missing_from (build {[a := 2]}) (build {[a := 5]}) = {[a := (3, 5)]} ∧
  (missing_from (build {[a := 2]}) (build {[a := 5]}) = ∅ ↔
   dominates (build {[a := 2]}) (build {[a := 5]}) = true).
Proof.
  intros a. split; [vm_compute; reflexivity|].
  apply (missing_from_iff_not_dominated (build {[a := 2]}) (build {[a := 5]}));
    apply (bool_decide_unpack _); vm_compute; exact I.
Defined.
End VersionVector.
Export (hints) VersionVector.

(** ** [causal/token.py] *)
Module CausalToken.
Record t := mk { version : VersionVector.t }.

#[export] Instance eq_dec : EqDecision t.
Proof. solve_decision. Defined.

Definition empty : t := mk VersionVector.empty.

Definition merge (self other : t) : t := mk (VersionVector.merge (version self) (version other)).
End CausalToken.
Export (hints) CausalToken.

(** ** [causal/clock.py]

    The clock's lock makes every staged block atomic, so a block is its entry
    computation ([begin_*]), its body, and its exit ([end_*]): the exit installs
    the staged frontier when the body committed and did not raise. *)
Module CausalClock.
Record t := mk { actor : CausalActor.t; _frontier : VersionVector.t }.

Record allocation := Allocation { dot : Dot.t; frontier : VersionVector.t }.

Definition init (actor : CausalActor.t) : t := mk actor VersionVector.empty.

(** Entry of [staged_observe]: the frontier offered to the body. *)
Definition begin_observe (self : t) (version : VersionVector.t) : VersionVector.t :=
  VersionVector.merge (_frontier self) version.

Definition end_observe (self : t) (staged : VersionVector.t) (committed : bool) : t :=
  if committed then mk (actor self) staged else self.

Definition observe (self : t) (version : VersionVector.t) : VersionVector.t * t :=
  let staged := begin_observe self version in
  (staged, end_observe self staged true).

Definition restore (self : t) (version : VersionVector.t) : t := mk (actor self) version.

(** Entry of [staged_allocation]: the next dot of this actor. *)
Definition begin_allocation (self : t) (observed : option VersionVector.t) : allocation :=
  let base := match observed with
              | Some observed => VersionVector.merge (_frontier self) observed
              | None => _frontier self
              end in
  let counter := VersionVector.get base (actor self) + 1 in
  let dot := Dot.mk (actor self) counter in
  Allocation dot (VersionVector.with_dot base dot).

Definition end_allocation (self : t) (a : allocation) (committed : bool) : t :=
  if committed then mk (actor self) (frontier a) else self.

Definition allocate (self : t) (observed : option VersionVector.t) : (Dot.t * VersionVector.t) * t :=
  let a := begin_allocation self observed in
  ((dot a, frontier a), end_allocation self a true).

Definition wf (self : t) : Prop := VersionVector.wf (_frontier self).

Definition observed_wf (observed : option VersionVector.t) : Prop :=
  match observed with Some v => VersionVector.wf v | None => True end.

Lemma begin_allocation_spec c o : wf c → observed_wf o →
  let a := begin_allocation c o in
  Dot.actor (dot a) = actor c ∧
  1 ≤ Dot.counter (dot a) ∧
  VersionVector.get (_frontier c) (actor c) < Dot.counter (dot a) ∧
  VersionVector.get (frontier a) (actor c) = Dot.counter (dot a) ∧
  VersionVector.le (_frontier c) (frontier a) ∧
  (∀ v, o = Some v → VersionVector.le v (frontier a) ∧
                     VersionVector.get v (actor c) < Dot.counter (dot a)) ∧
  VersionVector.wf (frontier a).
Proof.
  intros Hc Ho. unfold begin_allocation, wf, observed_wf in *. simpl.
  set (base := match o with Some v => VersionVector.merge (_frontier c) v | None => _frontier c end).
  assert (VersionVector.wf base) as Hb by (unfold base; destruct o; auto with distsys).
  assert (VersionVector.le (_frontier c) base) as Hle.
  { destruct o; [apply VersionVector.le_merge_l|reflexivity]. }
  assert (∀ v, o = Some v → VersionVector.le v base) as Ho'.
  { intros v ->. apply VersionVector.le_merge_r. }
  assert (VersionVector.le base (VersionVector.with_dot base
            (Dot.mk (actor c) (VersionVector.get base (actor c) + 1)))) as Hw.
  { intros a. rewrite VersionVector.get_with_dot by done. simpl. case_decide; subst; lia. }
  pose proof (VersionVector.get_nonneg base (actor c) Hb).
  pose proof (Hle (actor c)).
  split_and!; [done|lia|lia| |exact (transitivity Hle Hw)|  |auto with distsys].
  - rewrite VersionVector.get_with_dot by done. simpl. rewrite decide_True by done. lia.
  - intros v E. split; [exact (transitivity (Ho' v E) Hw)|]. specialize (Ho' v E (actor c)). lia.
Qed.

(** The clock's operations as steps: what a run of the process may do with it. *)
Inductive op :=
  | Observe (version : VersionVector.t)
  | Allocate (observed : option VersionVector.t) (committed : bool).

(** The dots handed out and committed, newest first. *)
Definition step (c : t) (o : op) : t * list Dot.t :=
  match o with
  | Observe v => (snd (observe c v), [])
  | Allocate obs committed =>
      let a := begin_allocation c obs in
      (end_allocation c a committed, if committed then [dot a] else [])
  end.

Fixpoint run (c : t) (ops : list op) : t * list Dot.t :=
  match ops with
  | [] => (c, [])
  | o :: ops =>
      let '(c1, d1) := step c o in
      let '(c2, d2) := run c1 ops in
      (c2, d1 ++ d2)
  end.

Definition op_wf (o : op) : Prop :=
  match o with Observe v => VersionVector.wf v | Allocate obs _ => observed_wf obs end.

Lemma step_spec c o : wf c → op_wf o →
  let '(c', ds) := step c o in
  actor c' = actor c ∧ wf c' ∧ VersionVector.le (_frontier c) (_frontier c') ∧
  ∀ d, d ∈ ds →
    Dot.actor d = actor c ∧
    VersionVector.get (_frontier c) (actor c) < Dot.counter d ≤
      VersionVector.get (_frontier c') (actor c).
Proof.
  intros Hc Ho. destruct o as [v|obs committed]; unfold step.
  - simpl. unfold begin_observe, wf in *. simpl in *. split_and!; auto with distsys.
    + apply VersionVector.le_merge_l.
    + by intros d ?%elem_of_nil.
  - pose proof (begin_allocation_spec c obs Hc Ho) as Ha. cbv zeta in Ha.
    generalize dependent (begin_allocation c obs). intros a Ha.
    destruct Ha as (Ha & H1 & H2 & H3 & H4 & _ & H6). destruct committed; simpl.
    + split_and!; [done|done|done|]. intros d ->%list_elem_of_singleton.
      split; [done|]. lia.
    + split_and!; [done|done|reflexivity|]. by intros d ?%elem_of_nil.
Qed.

Lemma run_spec c ops : wf c → Forall op_wf ops →
  let '(c', ds) := run c ops in
  actor c' = actor c ∧ wf c' ∧ VersionVector.le (_frontier c) (_frontier c') ∧
  (∀ d, d ∈ ds →
    Dot.actor d = actor c ∧
    VersionVector.get (_frontier c) (actor c) < Dot.counter d ≤
      VersionVector.get (_frontier c') (actor c)) ∧
  StronglySorted Z.lt (Dot.counter <$> ds).
Proof.
  intros Hc Hops. revert c Hc. induction Hops as [|o ops Ho Hops IH]; intros c Hc; simpl.
  { split_and!; [done|done|reflexivity| |constructor]. by intros d ?%elem_of_nil. }
  pose proof (step_spec c o Hc Ho) as Hs. destruct (step c o) as [c1 d1] eqn:E1.
  destruct Hs as (Ha1 & Hw1 & Hle1 & Hd1). specialize (IH c1 Hw1).
  destruct (run c1 ops) as [c2 d2]. destruct IH as (Ha2 & Hw2 & Hle2 & Hd2 & Hs2).
  rewrite Ha1 in *.
  split_and!; [congruence|done|exact (transitivity Hle1 Hle2)| |].
  - intros d [Hd|Hd]%elem_of_app.
    + apply Hd1 in Hd as [? ?]. specialize (Hle2 (actor c)). split; [done|lia].
    + apply Hd2 in Hd as [? ?]. specialize (Hle1 (actor c)). split; [done|lia].
  - rewrite fmap_app. apply StronglySorted_app_2; [| |done].
    + intros x y (d & -> & Hd)%list_elem_of_fmap (d' & -> & Hd')%list_elem_of_fmap.
      apply Hd1 in Hd as [_ ?]. apply Hd2 in Hd' as [_ ?]. lia.
    + destruct o; simpl in E1; simplify_eq/=; [constructor|].
      destruct committed; repeat constructor.
Qed.

(** C4: dots are never reused.  In any run of the clock (observations of remote
    versions, committed and abandoned allocations), the dots handed out and
    committed all belong to the clock's actor and carry strictly increasing
    counters, above everything the clock had seen, and the frontier never moves
    backwards. *)
Theorem clock_dots_unique c ops :
  wf c → Forall op_wf ops →
  let '(c', ds) := run c ops in
  VersionVector.le (_frontier c) (_frontier c') ∧
  StronglySorted Z.lt (Dot.counter <$> ds) ∧
  (∀ d, d ∈ ds → Dot.actor d = actor c ∧
     VersionVector.get (_frontier c) (actor c) < Dot.counter d).
Proof.
  intros Hc Hops. pose proof (run_spec c ops Hc Hops) as H.
  destruct (run c ops) as [c' ds]. destruct H as (_ & _ & Hle & Hd & Hs).
  split_and!; [done|done|]. intros d Hin. apply Hd in Hin as [??]. split; [done|lia].
Qed.

Definition sample_actor : CausalActor.t := CausalActor.mk "n1" 3.
Definition sample_ops : list op :=
  [Allocate None true; Observe (VersionVector.build {[sample_actor := 7]});
   Allocate None false; Allocate (Some (VersionVector.build {[CausalActor.mk "n2" 1 := 4]})) true].

Lemma clock_dots_unique_witness :
  (run (init sample_actor) sample_ops).2 = [Dot.mk sample_actor 1; Dot.mk sample_actor 8] ∧
  StronglySorted Z.lt (Dot.counter <$> (run (init sample_actor) sample_ops).2).
Proof.
  split; [vm_compute; reflexivity|].
  pose proof (clock_dots_unique (init sample_actor) sample_ops) as H.
  destruct (run (init sample_actor) sample_ops) as [c' ds]. apply H.
  - apply (bool_decide_unpack _). vm_compute. exact I.
  - repeat constructor; apply (bool_decide_unpack _); vm_compute; exact I.
Defined.
End CausalClock.
