(* ===== verification/Json.v ===== *)
(** * JSON text: what the code uses of Python's [json] module

    [dumps] is [json.dumps(v, sort_keys=True, separators=(",", ":"),
    ensure_ascii=False)] and [loads] is [json.loads], on values built from null,
    booleans, integers, strings, lists and objects.  Text is UTF-8 bytes, so
    [.encode("utf-8")] is the identity.  Floating-point numbers are outside the
    model: [loads] refuses a number with a fraction or an exponent, and it refuses
    the escape of a surrogate (which [dumps] never writes).  [loads_dumps] and
    [loads_dumps_in_order] are the round trips the codecs rest on. *)

From Stdlib Require DecimalString DecimalZ DecimalPos DecimalFacts.
From Stdlib Require Import Ascii.
From S2P Require Import Prelude.

Local Open Scope Z_scope.

Inductive json :=
  | JNull
  | JBool (b : bool)
  | JInt (z : Z)
  | JStr (s : string)
  | JList (l : list json)
  | JObj (kvs : list (string * json)).

Section json_ind.
Variable P : json → Prop.
Hypothesis HNull : P JNull.
Hypothesis HBool : ∀ b, P (JBool b).
Hypothesis HInt : ∀ z, P (JInt z).
Hypothesis HStr : ∀ s, P (JStr s).
Hypothesis HList : ∀ l, Forall P l → P (JList l).
Hypothesis HObj : ∀ kvs, Forall (λ kv, P kv.2) kvs → P (JObj kvs).

Fixpoint json_ind' (j : json) : P j :=
  match j with
  | JNull => HNull
  | JBool b => HBool b
  | JInt z => HInt z
  | JStr s => HStr s
  | JList l => HList l
      ((fix go (l : list json) : Forall P l :=
          match l with
          | [] => List.Forall_nil _
          | x :: l => List.Forall_cons _ x l (json_ind' x) (go l)
          end) l)
  | JObj kvs => HObj kvs
      ((fix go (l : list (string * json)) : Forall (λ kv, P kv.2) l :=
          match l with
          | [] => List.Forall_nil _
          | kv :: l => List.Forall_cons _ kv l (json_ind' kv.2) (go l)
          end) kvs)
  end.
End json_ind.

Fixpoint json_eqb (a b : json) : bool :=
  match a, b with
  | JNull, JNull => true
  | JBool a, JBool b => Bool.eqb a b
  | JInt a, JInt b => a =? b
  | JStr a, JStr b => String.eqb a b
  | JList a, JList b =>
      (fix go (a b : list json) : bool :=
         match a, b with
         | [], [] => true
         | x :: a, y :: b => json_eqb x y && go a b
         | _, _ => false
         end) a b
  | JObj a, JObj b =>
      (fix go (a b : list (string * json)) : bool :=
         match a, b with
         | [], [] => true
         | (k, x) :: a, (k', y) :: b => String.eqb k k' && json_eqb x y && go a b
         | _, _ => false
         end) a b
  | _, _ => false
  end.

Lemma json_eqb_eq a b : json_eqb a b = true ↔ a = b.
Proof.
  revert b. induction a as [|b0|z|s|l IH|kvs IH] using json_ind'; intros b;
    destruct b as [|b1|z1|s1|l1|kvs1]; simpl; try done.
  - rewrite Bool.eqb_true_iff. naive_solver.
  - rewrite Z.eqb_eq. naive_solver.
  - rewrite String.eqb_eq. naive_solver.
  - revert l1. induction IH as [|x l Hx Hl IHl]; intros [|y l1]; try done.
    rewrite andb_true_iff, Hx, IHl. naive_solver.
  - revert kvs1. induction IH as [|[k x] l Hx Hl IHl]; intros [|[k' y] l1]; try done.
    simpl in Hx. rewrite !andb_true_iff, String.eqb_eq, Hx, IHl. naive_solver.
Qed.

#[export] Instance json_eq_dec : EqDecision json.
Proof.
  intros a b. destruct (json_eqb a b) eqn:E.
  - left. by apply json_eqb_eq.
  - right. intros H%json_eqb_eq. congruence.
Defined.

(** ** Writing *)

Definition quote : ascii := "034"%char.
Definition backslash : ascii := "092"%char.

Definition str1 (a : ascii) : string := String a "".

Definition hex_digit (n : N) : ascii :=
  if (n <? 10)%N then ascii_of_N (48 + n) else ascii_of_N (87 + n).

(** [ESCAPE]: quotation mark, backslash and the control characters. *)
Definition escape_char (a : ascii) : string :=
  let n := N_of_ascii a in
  if decide (a = quote) then String backslash (str1 quote)
  else if decide (a = backslash) then String backslash (str1 backslash)
  else if decide (n = 10)%N then String backslash "n"
  else if decide (n = 13)%N then String backslash "r"
  else if decide (n = 9)%N then String backslash "t"
  else if decide (n = 12)%N then String backslash "f"
  else if decide (n = 8)%N then String backslash "b"
  else if (n <? 32)%N
  then String backslash (String "u" (String "0" (String "0"
         (String (hex_digit (n / 16)) (str1 (hex_digit (n mod 16)))))))
  else str1 a.

Fixpoint escape (s : string) : string :=
  match s with
  | EmptyString => EmptyString
  | String a s => (escape_char a +:+ escape s)%string
  end.

Definition dump_string (s : string) : string :=
  String quote (escape s +:+ str1 quote)%string.

Fixpoint join (l : list string) : string :=
  match l with
  | [] => ""
  | [x] => x
  | x :: l => (x +:+ "," +:+ join l)%string
  end.

Fixpoint dumps (j : json) : string :=
  match j with
  | JNull => "null"
  | JBool true => "true"
  | JBool false => "false"
  | JInt z => str_of_int z
  | JStr s => dump_string s
  | JList l =>
      ("[" +:+ join ((fix go (l : list json) : list string :=
                        match l with [] => [] | x :: l => dumps x :: go l end) l) +:+ "]")%string
  | JObj kvs =>
      ("{" +:+ join ((λ kv : string * string, dump_string kv.1 +:+ ":" +:+ kv.2)%string <$>
                     merge_sort key_le
                       ((fix go (l : list (string * json)) : list (string * string) :=
                           match l with
                           | [] => []
                           | (k, x) :: l => (k, dumps x) :: go l
                           end) kvs)) +:+ "}")%string
  end.

(** [json.dumps] without [sort_keys]: members in the dictionary's order. *)
Fixpoint dumps_in_order (j : json) : string :=
  match j with
  | JNull => "null"
  | JBool true => "true"
  | JBool false => "false"
  | JInt z => str_of_int z
  | JStr s => dump_string s
  | JList l =>
      ("[" +:+ join ((fix go (l : list json) : list string :=
                        match l with [] => [] | x :: l => dumps_in_order x :: go l end) l) +:+ "]")%string
  | JObj kvs =>
      ("{" +:+ join ((fix go (l : list (string * json)) : list string :=
                        match l with
                        | [] => []
                        | (k, x) :: l => (dump_string k +:+ ":" +:+ dumps_in_order x)%string :: go l
                        end) kvs) +:+ "}")%string
  end.

(** ** Reading *)

Definition is_ws (a : ascii) : bool :=
  let n := N_of_ascii a in
  bool_decide (n = 32)%N || bool_decide (n = 10)%N || bool_decide (n = 13)%N || bool_decide (n = 9)%N.

Fixpoint skip_ws (s : string) : string :=
  match s with
  | String a r => if is_ws a then skip_ws r else s
  | EmptyString => s
  end.

Definition hex_value (a : ascii) : option N :=
  let n := N_of_ascii a in
  if (48 <=? n)%N && (n <=? 57)%N then Some (n - 48)%N
  else if (97 <=? n)%N && (n <=? 102)%N then Some (n - 87)%N
  else if (65 <=? n)%N && (n <=? 70)%N then Some (n - 55)%N
  else None.

(** UTF-8 bytes of a code point of the basic plane. *)
Definition utf8_bmp (n : N) : string :=
  if (n <? 128)%N then str1 (ascii_of_N n)
  else if (n <? 2048)%N
  then String (ascii_of_N (192 + n / 64)) (str1 (ascii_of_N (128 + n mod 64)))
  else String (ascii_of_N (224 + n / 4096))
         (String (ascii_of_N (128 + (n / 64) mod 64)) (str1 (ascii_of_N (128 + n mod 64)))).

Definition unescape_simple (a : ascii) : option ascii :=
  if decide (a = quote) then Some quote
  else if decide (a = backslash) then Some backslash
  else if decide (a = "/"%char) then Some "/"%char
  else if decide (a = "b"%char) then Some (ascii_of_N 8)
  else if decide (a = "f"%char) then Some (ascii_of_N 12)
  else if decide (a = "n"%char) then Some (ascii_of_N 10)
  else if decide (a = "r"%char) then Some (ascii_of_N 13)
  else if decide (a = "t"%char) then Some (ascii_of_N 9)
  else None.

(** The rest of a string literal, after its opening quotation mark. *)
Fixpoint scan_string (s : string) : option (string * string) :=
  match s with
  | EmptyString => None
  | String a r =>
      if decide (a = quote) then Some (EmptyString, r)
      else if decide (a = backslash) then
        match r with
        | EmptyString => None
        | String e r1 =>
            if decide (e = "u"%char) then
              match r1 with
              | String h1 (String h2 (String h3 (String h4 r2))) =>
                  v1 ← hex_value h1; v2 ← hex_value h2; v3 ← hex_value h3; v4 ← hex_value h4;
                  let n := (v1 * 4096 + v2 * 256 + v3 * 16 + v4)%N in
                  if (55296 <=? n)%N && (n <=? 57343)%N then None
                  else '(t, rest) ← scan_string r2; Some ((utf8_bmp n +:+ t)%string, rest)
              | _ => None
              end
            else
              c ← unescape_simple e;
              '(t, rest) ← scan_string r1;
              Some (String c t, rest)
        end
      else if (N_of_ascii a <? 32)%N then None
      else '(t, rest) ← scan_string r; Some (String a t, rest)
  end.

Definition is_digit (a : ascii) : bool :=
  (48 <=? N_of_ascii a)%N && (N_of_ascii a <=? 57)%N.

Fixpoint span_digits (s : string) : string * string :=
  match s with
  | String a r =>
      if is_digit a then let '(ds, rest) := span_digits r in (String a ds, rest)
      else (EmptyString, s)
  | EmptyString => (EmptyString, EmptyString)
  end.

(** A fraction or an exponent would make the number a float. *)
Definition starts_fraction (s : string) : bool :=
  match s with
  | String a _ => bool_decide (a = "."%char) || bool_decide (a = "e"%char) || bool_decide (a = "E"%char)
  | EmptyString => false
  end.

Definition scan_int (s : string) : option (Z * string) :=
  let '(neg, body) := match s with
                      | String a r => if decide (a = "-"%char) then (true, r) else (false, s)
                      | EmptyString => (false, s)
                      end in
  let '(ds, rest) := span_digits body in
  match ds with
  | EmptyString => None
  | String d ds' =>
      if decide (d = "0"%char ∧ ds' ≠ EmptyString) then None
      else if starts_fraction rest then None
      else u ← DecimalString.NilZero.uint_of_string ds;
           Some (Z.of_int (if neg then Decimal.Neg u else Decimal.Pos u), rest)
  end.

(** [d[k] = v] on the insertion-ordered items of a dictionary. *)
Fixpoint obj_set (k : string) (v : json) (kvs : list (string * json)) : list (string * json) :=
  match kvs with
  | [] => [(k, v)]
  | (k', v') :: kvs => if decide (k' = k) then (k, v) :: kvs else (k', v') :: obj_set k v kvs
  end.

Definition expect (lit : string) (j : json) (s : string) : option (json * string) :=
  if String.prefix lit s then Some (j, String.substring (String.length lit) (String.length s) s) else None.

(** [fuel] bounds the nesting depth and the number of elements read. *)
Fixpoint scan_value (fuel : nat) (s : string) : option (json * string) :=
  match fuel with
  | O => None
  | S fuel =>
      match skip_ws s with
      | EmptyString => None
      | String a r =>
          if decide (a = quote) then '(t, rest) ← scan_string r; Some (JStr t, rest)
          else if decide (a = "["%char) then
            match skip_ws r with
            | String b r' =>
                if decide (b = "]"%char) then Some (JList [], r')
                else '(l, rest) ← scan_elems fuel (String b r'); Some (JList l, rest)
            | EmptyString => None
            end
          else if decide (a = "{"%char) then
            match skip_ws r with
            | String b r' =>
                if decide (b = "}"%char) then Some (JObj [], r')
                else '(l, rest) ← scan_members fuel [] (String b r'); Some (JObj l, rest)
            | EmptyString => None
            end
          else if decide (a = "n"%char) then expect "null" JNull (String a r)
          else if decide (a = "t"%char) then expect "true" (JBool true) (String a r)
          else if decide (a = "f"%char) then expect "false" (JBool false) (String a r)
          else '(z, rest) ← scan_int (String a r); Some (JInt z, rest)
      end
  end
with scan_elems (fuel : nat) (s : string) : option (list json * string) :=
  match fuel with
  | O => None
  | S fuel =>
      '(x, r) ← scan_value fuel s;
      match skip_ws r with
      | String a r' =>
          if decide (a = ","%char) then '(l, rest) ← scan_elems fuel r'; Some (x :: l, rest)
          else if decide (a = "]"%char) then Some ([x], r')
          else None
      | EmptyString => None
      end
  end
with scan_members (fuel : nat) (acc : list (string * json)) (s : string)
    : option (list (string * json) * string) :=
  match fuel with
  | O => None
  | S fuel =>
      match skip_ws s with
      | String q r =>
          if decide (q = quote) then
            '(k, r1) ← scan_string r;
            match skip_ws r1 with
            | String c r2 =>
                if decide (c = ":"%char) then
                  '(v, r3) ← scan_value fuel r2;
                  match skip_ws r3 with
                  | String a r4 =>
                      if decide (a = ","%char) then scan_members fuel (obj_set k v acc) r4
                      else if decide (a = "}"%char) then Some (obj_set k v acc, r4)
                      else None
                  | EmptyString => None
                  end
                else None
            | EmptyString => None
            end
          else None
      | EmptyString => None
      end
  end.

(** Every recursive call has read a character or entered a bracket, so twice the
    length of the text is enough fuel. *)
Definition loads (s : string) : result json :=
  match scan_value (2 * String.length s + 2) s with
  | Some (j, rest) =>
      match skip_ws rest with
      | EmptyString => Ok j
      | _ => raise ValueError "JSONDecodeError: Extra data"
      end
  | None => raise ValueError "JSONDecodeError"
  end.

(** ** The round trip *)

(** Values whose objects list their keys in sorted order without repetition: what
    [json.loads] returns on a text written with [sort_keys=True]. *)
Fixpoint canonical (j : json) : Prop :=
  match j with
  | JList l => (fix go (l : list json) : Prop :=
                  match l with [] => True | x :: l => canonical x ∧ go l end) l
  | JObj kvs => NoDup kvs.*1 ∧ StronglySorted key_le kvs ∧
                (fix go (l : list (string * json)) : Prop :=
                   match l with [] => True | kv :: l => canonical kv.2 ∧ go l end) kvs
  | _ => True
  end.

(** Fuel [scan_value] needs to read a value back. *)
Fixpoint need (j : json) : nat :=
  S match j with
    | JList l => (fix go (l : list json) : nat :=
                    match l with [] => O | x :: l => S (Nat.max (need x) (go l)) end) l
    | JObj kvs => (fix go (l : list (string * json)) : nat :=
                     match l with [] => O | kv :: l => S (Nat.max (need kv.2) (go l)) end) kvs
    | _ => O
    end.

(** A text that does not continue a number. *)
Definition delimited (s : string) : bool :=
  match s with
  | String a _ => negb (is_digit a) && negb (starts_fraction s)
  | EmptyString => true
  end.

Lemma app_cons a s t : (String a s +:+ t = String a (s +:+ t))%string.
Proof. done. Qed.
Lemma app_nil s : ("" +:+ s = s)%string.
Proof. done. Qed.
Lemma app_nil_end s : (s +:+ "" = s)%string.
Proof. induction s as [|a s IH]; [done|]. by rewrite app_cons, IH. Qed.
Lemma app_assoc' s t u : ((s +:+ t) +:+ u = s +:+ (t +:+ u))%string.
Proof. induction s as [|a s IH]; [done|]. by rewrite !app_cons, IH. Qed.

Lemma length_str_app s t : String.length (s +:+ t)%string = (String.length s + String.length t)%nat.
Proof. induction s as [|a s IH]; [done|]. rewrite app_cons. simpl. by rewrite IH. Qed.

Lemma scan_escape_char a t :
  scan_string (escape_char a +:+ t)%string =
  ('(u, rest) ← scan_string t; Some (String a u, rest)).
Proof. by destruct a as [[] [] [] [] [] [] [] []]. Qed.

Lemma scan_escape s rest :
  scan_string (escape s +:+ String quote rest)%string = Some (s, rest).
Proof.
  induction s as [|a s IH]; [done|]. simpl. rewrite app_assoc', scan_escape_char, IH. done.
Qed.

Lemma span_digits_uint d rest :
  delimited rest = true →
  span_digits (DecimalString.NilEmpty.string_of_uint d +:+ rest)%string =
    (DecimalString.NilEmpty.string_of_uint d, rest).
Proof.
  intros Hr. induction d; simpl; rewrite ?app_cons, ?app_nil; simpl;
    try (rewrite IHd; reflexivity).
  destruct rest as [|a rest]; [done|]. simpl in *.
  destruct (is_digit a); [done|reflexivity].
Qed.

(** Digits without a superfluous leading zero. *)
Definition minimal_digits (u : Decimal.uint) : Prop :=
  u ≠ Decimal.Nil ∧ ∀ u', u = Decimal.D0 u' → u' = Decimal.Nil.

Lemma string_of_uint_minimal u : minimal_digits u →
  ∃ a t, DecimalString.NilEmpty.string_of_uint u = String a t ∧ is_digit a = true ∧
         (a = "0"%char → t = "").
Proof.
  intros [Hn H0]. destruct u; try done;
    try (eexists _, _; split_and!; [reflexivity|reflexivity|discriminate]).
  eexists _, _; split_and!; [reflexivity|reflexivity|]. intros _. by rewrite (H0 u).
Qed.

Lemma scan_int_digits (neg : bool) u rest :
  minimal_digits u → delimited rest = true →
  scan_int ((if neg then "-" else "") +:+ DecimalString.NilEmpty.string_of_uint u +:+ rest)%string =
    Some (Z.of_int (if neg then Decimal.Neg u else Decimal.Pos u), rest).
Proof.
  intros Hu Hr. destruct (string_of_uint_minimal u Hu) as (a & t & E & Ha & H0).
  pose proof (span_digits_uint u rest Hr) as Hs.
  assert (scan_int ((if neg then "-" else "") +:+ DecimalString.NilEmpty.string_of_uint u +:+ rest)%string =
    match DecimalString.NilEmpty.string_of_uint u with
    | EmptyString => None
    | String d ds' =>
        if decide (d = "0"%char ∧ ds' ≠ EmptyString) then None
        else if starts_fraction rest then None
        else u ← DecimalString.NilZero.uint_of_string (String d ds');
             Some (Z.of_int (if neg then Decimal.Neg u else Decimal.Pos u), rest)
    end) as ->.
  { destruct neg; [rewrite app_cons, app_nil; unfold scan_int; simpl; by rewrite Hs, E|].
    rewrite app_nil. unfold scan_int. rewrite E, app_cons in Hs |- *.
    rewrite decide_False by (intros ->; discriminate Ha). by rewrite Hs. }
  rewrite E. rewrite decide_False by naive_solver.
  assert (starts_fraction rest = false) as ->.
  { destruct rest; [done|]. unfold delimited in Hr. by boolify. }
  change (DecimalString.NilZero.uint_of_string (String a t))
    with (DecimalString.NilEmpty.uint_of_string (String a t)).
  rewrite <-E. by rewrite DecimalString.NilEmpty.usu.
Qed.

Lemma to_uint_minimal p : minimal_digits (Pos.to_uint p).
Proof.
  split; [apply DecimalPos.Unsigned.to_uint_nonnil|].
  intros u' E. pose proof (DecimalZ.to_of (Decimal.Pos (Pos.to_uint p))) as H.
  change (Decimal.Pos (Pos.to_uint p)) with (Z.to_int (Z.pos p)) in H at 1.
  rewrite DecimalZ.of_to in H. simpl in H. injection H as H. rewrite E in H.
  unfold Decimal.unorm in H. simpl in H.
  destruct (Decimal.nzhead u') eqn:Ez; try discriminate; [congruence|].
  by apply DecimalFacts.nzhead_nonzero in Ez.
Qed.

Lemma scan_int_str z rest :
  delimited rest = true → scan_int (str_of_int z +:+ rest)%string = Some (z, rest).
Proof.
  intros Hr. unfold str_of_int.
  assert (∀ p, DecimalString.NilZero.string_of_uint (Pos.to_uint p) =
               DecimalString.NilEmpty.string_of_uint (Pos.to_uint p)) as HN.
  { intros p. destruct (Pos.to_uint p) eqn:E; try done.
    by apply DecimalPos.Unsigned.to_uint_nonnil in E. }
  destruct z as [|p|p]; simpl.
  - apply (scan_int_digits false (Decimal.D0 Decimal.Nil)); [|done]. split; [done|congruence].
  - rewrite HN. pose proof (scan_int_digits false _ _ (to_uint_minimal p) Hr) as E.
    rewrite app_nil in E. rewrite E.
    change (Decimal.Pos (Pos.to_uint p)) with (Z.to_int (Z.pos p)). by rewrite DecimalZ.of_to.
  - rewrite HN. pose proof (scan_int_digits true _ _ (to_uint_minimal p) Hr) as E.
    cbn iota in E. rewrite app_cons, app_nil in E. rewrite app_cons, E.
    change (Decimal.Neg (Pos.to_uint p)) with (Z.to_int (Z.neg p)). by rewrite DecimalZ.of_to.
Qed.

(** What the reader sees first. *)
Definition value_head (a : ascii) : bool :=
  negb (is_ws a) && negb (bool_decide (a = "]"%char)) && negb (bool_decide (a = "}"%char)).

Lemma str_of_int_head z : ∃ a t, str_of_int z = String a t ∧
  value_head a = true ∧ a ≠ quote ∧ a ≠ "["%char ∧ a ≠ "{"%char ∧
  a ≠ "n"%char ∧ a ≠ "t"%char ∧ a ≠ "f"%char.
Proof.
  unfold str_of_int. destruct z as [|p|p]; simpl;
    [|destruct (Pos.to_uint p) eqn:E; simpl|];
    (eexists _, _; split_and!; [reflexivity|reflexivity|discriminate..]).
Qed.

Lemma dumps_head j : ∃ a t, dumps j = String a t ∧ value_head a = true.
Proof.
  destruct j as [|[]|z|s|l|kvs]; simpl; unfold dump_string; rewrite ?app_cons;
    try (eexists _, _; split; [reflexivity|reflexivity]).
  destruct (str_of_int_head z) as (a & t & -> & ? & _). eauto.
Qed.

Lemma skip_ws_head a r : value_head a = true → skip_ws (String a r) = String a r.
Proof. unfold value_head. intros. boolify. simpl. by destruct (is_ws a). Qed.

Definition elems_text (l : list json) : string := join (dumps <$> l).
Definition member_text (kv : string * json) : string :=
  (dump_string kv.1 +:+ ":" +:+ dumps kv.2)%string.
Definition members_text (kvs : list (string * json)) : string := join (member_text <$> kvs).

Lemma dumps_list l : dumps (JList l) = ("[" +:+ elems_text l +:+ "]")%string.
Proof. done. Qed.

Lemma dumps_obj kvs : NoDup kvs.*1 → StronglySorted key_le kvs →
  dumps (JObj kvs) = ("{" +:+ members_text kvs +:+ "}")%string.
Proof.
  intros Hnd Hs. unfold members_text. simpl. do 3 f_equal.
  set (printed := (λ kv : string * json, (kv.1, dumps kv.2)) <$> kvs).
  match goal with |- context [merge_sort key_le ?l] => assert (l = printed) as -> end.
  { unfold printed. clear. induction kvs as [|[k x] l IH]; [done|].
    exact (f_equal (cons (k, dumps x)) IH). }
  assert (merge_sort key_le printed = printed) as ->.
  { assert (printed.*1 = kvs.*1) as Hk.
    { unfold printed. rewrite <-list_fmap_compose. by apply list_fmap_ext. }
    apply (StronglySorted_unique_strong key_le).
    - intros [k1 v1] [k2 v2] H1 H2 Hl1 Hl2. unfold key_le in *. simpl in *.
      assert (k1 = k2) as -> by by apply (anti_symm py_le).
      rewrite merge_sort_Permutation in H1. rewrite <-Hk in Hnd.
      apply (assoc_Some_elem_of k2) in H1, H2; [|done..]. congruence.
    - apply StronglySorted_merge_sort; apply _.
    - unfold printed. apply StronglySorted_fmap with (R1 := key_le); [|done].
      unfold key_le. by intros ???.
    - apply merge_sort_Permutation. }
  f_equal. unfold printed. rewrite <-list_fmap_compose. by apply list_fmap_ext.
Qed.

Lemma canonical_list l : canonical (JList l) ↔ Forall canonical l.
Proof. simpl. induction l as [|x l IH]; [done|]. rewrite IH, Forall_cons. done. Qed.

Lemma canonical_obj kvs : canonical (JObj kvs) ↔
  NoDup kvs.*1 ∧ StronglySorted key_le kvs ∧ Forall (λ kv, canonical kv.2) kvs.
Proof.
  simpl. do 2 f_equiv. induction kvs as [|x l IH]; [done|]. rewrite IH, Forall_cons. done.
Qed.

(** A Python value: no dictionary holds a key twice. *)
Fixpoint unique_keys (j : json) : Prop :=
  match j with
  | JList l => (fix go (l : list json) : Prop :=
                  match l with [] => True | x :: l => unique_keys x ∧ go l end) l
  | JObj kvs => NoDup kvs.*1 ∧
                (fix go (l : list (string * json)) : Prop :=
                   match l with [] => True | kv :: l => unique_keys kv.2 ∧ go l end) kvs
  | _ => True
  end.

Lemma unique_list l : unique_keys (JList l) ↔ Forall unique_keys l.
Proof. simpl. induction l as [|x l IH]; [done|]. rewrite IH, Forall_cons. done. Qed.

Lemma unique_obj kvs : unique_keys (JObj kvs) ↔ NoDup kvs.*1 ∧ Forall (λ kv, unique_keys kv.2) kvs.
Proof. simpl. f_equiv. induction kvs as [|x l IH]; [done|]. rewrite IH, Forall_cons. done. Qed.

Definition elems_in_order (l : list json) : string := join (dumps_in_order <$> l).
Definition member_in_order (kv : string * json) : string :=
  (dump_string kv.1 +:+ ":" +:+ dumps_in_order kv.2)%string.
Definition members_in_order (kvs : list (string * json)) : string := join (member_in_order <$> kvs).

Lemma in_order_list l : dumps_in_order (JList l) = ("[" +:+ elems_in_order l +:+ "]")%string.
Proof. done. Qed.

Lemma in_order_obj kvs : dumps_in_order (JObj kvs) = ("{" +:+ members_in_order kvs +:+ "}")%string.
Proof.
  simpl. do 3 f_equal. unfold members_in_order. f_equal. induction kvs as [|[k x] l IH]; [done|].
  exact (f_equal (cons (member_in_order (k, x))) IH).
Qed.

Lemma in_order_head j : ∃ a t, dumps_in_order j = String a t ∧ value_head a = true.
Proof.
  destruct j as [|[]|z|s|l|kvs]; simpl; unfold dump_string; rewrite ?app_cons;
    try (eexists _, _; split; [reflexivity|reflexivity]).
  destruct (str_of_int_head z) as (a & t & -> & ? & _). eauto.
Qed.

Lemma members_in_order_cons kv l :
  members_in_order (kv :: l) =
  match l with [] => member_in_order kv | _ => (member_in_order kv +:+ "," +:+ members_in_order l)%string end.
Proof. by destruct l. Qed.

Lemma elems_in_order_cons x l :
  elems_in_order (x :: l) =
  match l with [] => dumps_in_order x | _ => (dumps_in_order x +:+ "," +:+ elems_in_order l)%string end.
Proof. by destruct l. Qed.

(** [d[k] = v] for a key that is not in the dictionary yet appends it. *)
Lemma obj_set_fresh k v acc : k ∉ acc.*1 → obj_set k v acc = acc ++ [(k, v)].
Proof.
  induction acc as [|[k' v'] acc IH]; simpl; intros Hk; [done|].
  rewrite decide_False by set_solver. rewrite IH by set_solver. done.
Qed.

Definition needs (l : list json) : nat := foldr (λ x n, S (Nat.max (need x) n)) O l.

Lemma need_list l : need (JList l) = S (needs l).
Proof. done. Qed.

Lemma need_obj kvs : need (JObj kvs) = S (needs kvs.*2).
Proof.
  simpl. f_equal. induction kvs as [|kv l IH]; [done|].
  exact (f_equal (λ n, S (Nat.max (need kv.2) n)) IH).
Qed.

(** The statement proved by induction on the value. *)
Definition reads_back (j : json) : Prop := ∀ fuel rest,
  unique_keys j → (need j ≤ fuel)%nat → delimited rest = true →
  scan_value fuel (dumps_in_order j +:+ rest)%string = Some (j, rest).

Lemma scan_elems_back l fuel rest :
  l ≠ [] → Forall reads_back l → Forall unique_keys l → (needs l ≤ fuel)%nat →
  scan_elems fuel (elems_in_order l +:+ String "]" rest)%string = Some (l, rest).
Proof.
  intros Hne Hl. revert fuel Hne. induction Hl as [|x l Hx Hl IH]; intros fuel Hne Hc Hf; [done|].
  apply Forall_cons in Hc as [Hcx Hc]. destruct fuel as [|fuel]; [simpl in Hf; lia|].
  simpl in Hf. simpl scan_elems. rewrite elems_in_order_cons. destruct l as [|y l].
  - by rewrite Hx by (done || lia).
  - rewrite !app_assoc', !app_cons, !app_nil, Hx by (done || lia). simpl.
    by rewrite IH by (done || lia).
Qed.

Lemma scan_members_back l fuel acc rest :
  l ≠ [] → NoDup (acc ++ l).*1 →
  Forall (λ kv, reads_back kv.2) l → Forall (λ kv, unique_keys kv.2) l → (needs l.*2 ≤ fuel)%nat →
  scan_members fuel acc (members_in_order l +:+ String "}" rest)%string = Some (acc ++ l, rest).
Proof.
  intros Hne Hnd Hl. revert fuel acc Hne Hnd.
  induction Hl as [|[k x] l Hx Hl IH]; intros fuel acc Hne Hnd Hc Hf; [done|].
  apply Forall_cons in Hc as [Hcx Hc]. destruct fuel as [|fuel]; [simpl in Hf; lia|].
  simpl in Hf, Hx, Hcx. assert (obj_set k x acc = acc ++ [(k, x)]) as Hset.
  { apply obj_set_fresh. rewrite fmap_app in Hnd. apply NoDup_app in Hnd as (_ & Hd & _).
    intros Hk. apply (Hd _ Hk). left. }
  cbn [scan_members]. rewrite members_in_order_cons.
  assert (∀ t, skip_ws (member_in_order (k, x) +:+ t) =
            String quote (escape k +:+ String quote (String ":" (dumps_in_order x +:+ t))))%string as Hm.
  { intros t. unfold member_in_order, dump_string. simpl.
    by rewrite !app_cons, !app_assoc'. }
  destruct l as [|y l].
  - rewrite Hm. rewrite decide_True by done. rewrite scan_escape. simpl.
    rewrite Hx by (done || lia). simpl. by rewrite Hset.
  - rewrite !app_assoc', Hm. rewrite decide_True by done. rewrite scan_escape. simpl.
    rewrite !app_cons, !app_nil. rewrite Hx by (done || lia). simpl.
    rewrite Hset. rewrite IH; [by rewrite <-app_assoc|done| |done|unfold needs in *; simpl in *; lia].
    by rewrite <-app_assoc.
Qed.

Lemma expect_ok lit j rest :
  expect lit j (lit +:+ rest)%string = Some (j, rest).
Proof.
  unfold expect.
  assert (String.prefix lit (lit +:+ rest)%string = true) as ->.
  { induction lit as [|a lit IH]; [by destruct rest|]. rewrite app_cons. simpl.
    by destruct (ascii_dec a a). }
  f_equal. f_equal. rewrite length_str_app.
  assert (∀ m, (String.length rest ≤ m)%nat →
    String.substring (String.length lit) m (lit +:+ rest)%string = rest) as H; [|apply H; lia].
  induction lit as [|a lit IH]; intros m Hm; [|rewrite app_cons; simpl; auto].
  rewrite app_nil. simpl. revert m Hm. clear.
  induction rest as [|a rest IH]; intros [|m] Hm; simpl in *; try done; [lia|].
  rewrite IH by lia. done.
Qed.

Lemma scan_value_back j : reads_back j.
Proof.
  induction j as [|b|z|s|l IH|kvs IH] using json_ind'; intros fuel rest Hc Hf Hr;
    (destruct fuel as [|fuel]; [simpl in Hf; lia|]).
  - exact (expect_ok "null" JNull rest).
  - destruct b; [exact (expect_ok "true" (JBool true) rest)|exact (expect_ok "false" (JBool false) rest)].
  - destruct (str_of_int_head z) as (a & t & E & Hh & ? & ? & ? & ? & ? & ?).
    pose proof (scan_int_str z rest Hr) as Hz. simpl dumps_in_order. cbn [scan_value].
    rewrite E, app_cons in Hz |- *. rewrite skip_ws_head by done.
    rewrite !decide_False by done. by rewrite Hz.
  - cbn [dumps_in_order]. unfold dump_string, str1. rewrite app_cons, app_assoc', app_cons, app_nil.
    cbn [scan_value]. rewrite skip_ws_head, decide_True by done. by rewrite scan_escape.
  - rewrite in_order_list. rewrite unique_list in Hc. rewrite need_list in Hf.
    rewrite !app_cons, !app_nil, app_assoc'. cbn [scan_value].
    rewrite skip_ws_head, decide_False, decide_True by done. destruct l as [|x l]; [done|].
    pose proof (in_order_head x) as (a & t & Ex & Hh).
    assert (∃ t', elems_in_order (x :: l) = String a t') as [t' Et].
    { rewrite elems_in_order_cons. destruct l; rewrite Ex, ?app_cons; eauto. }
    rewrite app_cons, app_nil. rewrite Et, app_cons, skip_ws_head by done.
    rewrite decide_False by (unfold value_head in Hh; boolify; done).
    rewrite <-app_cons, <-Et. by rewrite scan_elems_back by (done || lia).
  - apply unique_obj in Hc as [Hnd Hc]. rewrite in_order_obj.
    rewrite need_obj in Hf.
    rewrite !app_cons, !app_nil, app_assoc'. cbn [scan_value].
    rewrite skip_ws_head, !decide_False, decide_True by done. destruct kvs as [|[k x] l]; [done|].
    assert (∃ t', members_in_order ((k, x) :: l) = String quote t') as [t' Et].
    { rewrite members_in_order_cons. unfold member_in_order, dump_string.
      destruct l; rewrite ?app_cons; eauto. }
    rewrite app_cons, app_nil. rewrite Et, app_cons, skip_ws_head by done.
    rewrite decide_False by done.
    rewrite <-app_cons, <-Et. by rewrite scan_members_back by (done || lia).
Qed.

(** The fuel of [loads] is enough for every text [dumps_in_order] writes. *)
Lemma needs_length l :
  Forall (λ x, unique_keys x → need x ≤ String.length (dumps_in_order x) + 1)%nat l → Forall unique_keys l →
  (needs l ≤ String.length (elems_in_order l) + 2)%nat.
Proof.
  intros Hl Hc. induction Hl as [|x l Hx Hl IH]; [simpl; lia|].
  apply Forall_cons in Hc as [Hcx Hc]. specialize (Hx Hcx). specialize (IH Hc).
  rewrite elems_in_order_cons. change (needs (x :: l)) with (S (Nat.max (need x) (needs l))).
  destruct l as [|y l]; [change (needs []) with O; lia|].
  rewrite !length_str_app. simpl String.length. lia.
Qed.

Lemma members_in_order_length kvs :
  (String.length (elems_in_order kvs.*2) ≤ String.length (members_in_order kvs))%nat.
Proof.
  induction kvs as [|[k x] l IH]; [done|]. rewrite fmap_cons, elems_in_order_cons, members_in_order_cons.
  assert (String.length (dumps_in_order x) ≤ String.length (member_in_order (k, x)))%nat as Hm.
  { unfold member_in_order. rewrite !length_str_app. simpl. lia. }
  destruct l as [|y l]; [done|]. cbn [snd] in *. rewrite fmap_cons in IH |- *.
  rewrite !length_str_app. lia.
Qed.

Lemma need_length j : unique_keys j → (need j ≤ String.length (dumps_in_order j) + 1)%nat.
Proof.
  induction j as [|b|z|s|l IH|kvs IH] using json_ind'; intros Hc; try (simpl; lia).
  - rewrite unique_list in Hc. rewrite need_list, in_order_list, !length_str_app. simpl.
    pose proof (needs_length l IH Hc). lia.
  - apply unique_obj in Hc as [Hnd Hc]. rewrite need_obj, in_order_obj.
    rewrite !length_str_app. simpl String.length.
    pose proof (needs_length kvs.*2) as Hn. rewrite !Forall_fmap in Hn.
    pose proof (members_in_order_length kvs). specialize (Hn IH Hc). lia.
Qed.

Lemma loads_dumps_in_order j : unique_keys j → loads (dumps_in_order j) = Ok j.
Proof.
  intros Hc. unfold loads. pose proof (need_length j Hc).
  pose proof (scan_value_back j (2 * String.length (dumps_in_order j) + 2)%nat "" Hc) as Hb.
  rewrite app_nil_end in Hb. by rewrite Hb by (done || lia).
Qed.

Lemma canonical_unique j : canonical j → unique_keys j.
Proof.
  induction j as [|b|z|s|l IH|kvs IH] using json_ind'; try done.
  - rewrite canonical_list, unique_list. rewrite !Forall_forall in *. auto.
  - rewrite canonical_obj, unique_obj. intros (Hnd & _ & Hc). split; [done|]. rewrite !Forall_forall in *. auto.
Qed.

Lemma dumps_in_order_canonical j : canonical j → dumps_in_order j = dumps j.
Proof.
  induction j as [|b|z|s|l IH|kvs IH] using json_ind'; intros Hc; try done.
  - rewrite canonical_list in Hc. rewrite dumps_list. simpl. do 3 f_equal. unfold elems_text. f_equal.
    induction IH as [|x l Hx Hl IHl]; [done|]. apply Forall_cons in Hc as [Hcx Hc].
    rewrite fmap_cons. f_equal; auto.
  - apply canonical_obj in Hc as (Hnd & Hs & Hc). rewrite dumps_obj by done. simpl. do 3 f_equal.
    unfold members_text. f_equal. clear Hnd Hs.
    induction IH as [|[k x] l Hx Hl IHl]; [done|]. apply Forall_cons in Hc as [Hcx Hc].
    rewrite fmap_cons. unfold member_text at 1. simpl in *. rewrite Hx by done. f_equal. auto.
Qed.

Lemma loads_dumps j : canonical j → loads (dumps j) = Ok j.
Proof. intros Hc. rewrite <-dumps_in_order_canonical by done. by apply loads_dumps_in_order, canonical_unique. Qed.

(** ** Objects written in any key order

    [canon] is what [loads] returns on the text of a value: the same value with the
    members of every object in key order. *)
Fixpoint canon (j : json) : json :=
  match j with
  | JList l => JList ((fix go (l : list json) : list json :=
                         match l with [] => [] | x :: l => canon x :: go l end) l)
  | JObj kvs => JObj (merge_sort key_le
                  ((fix go (l : list (string * json)) : list (string * json) :=
                      match l with [] => [] | kv :: l => (kv.1, canon kv.2) :: go l end) kvs))
  | _ => j
  end.

Definition canon_member (kv : string * json) : string * json := (kv.1, canon kv.2).

Lemma canon_list l : canon (JList l) = JList (canon <$> l).
Proof. done. Qed.

Lemma canon_obj kvs : canon (JObj kvs) = JObj (merge_sort key_le (canon_member <$> kvs)).
Proof. done. Qed.

Lemma sorted_members_unique {A} (l1 l2 : list (string * A)) : NoDup l1.*1 →
  StronglySorted key_le l1 → StronglySorted key_le l2 → l1 ≡ₚ l2 → l1 = l2.
Proof.
  intros Hnd H1 H2 Hp. apply (StronglySorted_unique_strong key_le); [|done..].
  intros [k1 v1] [k2 v2] Hx Hy Hl1 Hl2. unfold key_le in *. simpl in *.
  assert (k1 = k2) as -> by by apply (anti_symm py_le). rewrite <-Hp in Hy.
  apply (assoc_Some_elem_of k2) in Hx, Hy; [|done..]. congruence.
Qed.

Lemma canon_keys kvs : (canon_member <$> kvs).*1 = kvs.*1.
Proof. rewrite <-list_fmap_compose. by apply list_fmap_ext. Qed.

Lemma NoDup_canon_keys kvs : NoDup kvs.*1 → NoDup (merge_sort key_le (canon_member <$> kvs)).*1.
Proof. intros Hnd. by rewrite merge_sort_Permutation, canon_keys. Qed.

Lemma canon_canonical j : unique_keys j → canonical (canon j).
Proof.
  induction j as [|b|z|s|l IH|kvs IH] using json_ind'; try done.
  - rewrite unique_list, canon_list, canonical_list, Forall_fmap. intros Hu.
    rewrite Forall_forall in *. intros x Hx. simpl. auto.
  - rewrite unique_obj, canon_obj, canonical_obj. intros [Hnd Hu]. split_and!.
    + by apply NoDup_canon_keys.
    + apply StronglySorted_merge_sort; apply _.
    + rewrite merge_sort_Permutation, Forall_fmap. rewrite Forall_forall in *. intros x Hx. simpl. auto.
Qed.

Lemma canon_dumps j : unique_keys j → dumps (canon j) = dumps j.
Proof.
  induction j as [|b|z|s|l IH|kvs IH] using json_ind'; try done.
  - rewrite unique_list, canon_list, !dumps_list. intros Hu. do 2 f_equal. unfold elems_text. f_equal.
    rewrite <-list_fmap_compose. apply list_fmap_ext. intros i x Hx%list_elem_of_lookup_2. simpl.
    rewrite Forall_forall in *. auto.
  - rewrite unique_obj, canon_obj. intros [Hnd Hu].
    rewrite dumps_obj by (by apply NoDup_canon_keys || (apply StronglySorted_merge_sort; apply _)).
    unfold members_text. simpl. do 3 f_equal.
    set (printed := (λ kv : string * json, (kv.1, dumps kv.2)) <$> kvs).
    match goal with |- context [merge_sort key_le ?l] =>
      lazymatch l with context [dumps] => assert (l = printed) as -> end end.
    { unfold printed. clear. induction kvs as [|[k x] l IH]; [done|]. exact (f_equal (cons (k, dumps x)) IH). }
    assert ((λ kv : string * json, (kv.1, dumps kv.2)) <$> merge_sort key_le (canon_member <$> kvs) =
            merge_sort key_le printed) as E.
    { apply sorted_members_unique.
      - rewrite <-list_fmap_compose. rewrite (list_fmap_ext _ fst) by done. by apply NoDup_canon_keys.
      - apply StronglySorted_fmap with (R1 := key_le); [by intros ???|]. apply StronglySorted_merge_sort; apply _.
      - apply StronglySorted_merge_sort; apply _.
      - rewrite !merge_sort_Permutation. unfold printed. rewrite <-list_fmap_compose.
        apply reflexive_eq, list_fmap_ext. intros i x Hx%list_elem_of_lookup_2. simpl.
        rewrite Forall_forall in *. f_equal. auto. }
    rewrite <-E, <-list_fmap_compose. done.
Qed.

Lemma loads_dumps_canon j : unique_keys j → loads (dumps j) = Ok (canon j).
Proof. intros Hu. rewrite <-canon_dumps by done. by apply loads_dumps, canon_canonical. Qed.

(** [d.get(k)]: [None] when the key is missing. *)
Definition py_get (k : string) (kvs : list (string * json)) : json := default JNull (assoc k kvs).

Lemma get_canon k kvs : NoDup kvs.*1 →
  py_get k (merge_sort key_le (canon_member <$> kvs)) = canon (py_get k kvs).
Proof.
  intros Hnd. unfold py_get. pose proof (NoDup_canon_keys kvs Hnd) as Hnd'.
  destruct (assoc k kvs) as [v|] eqn:E.
  - apply assoc_Some_elem_of in E; [|done].
    assert (assoc k (merge_sort key_le (canon_member <$> kvs)) = Some (canon v)) as ->; [|done].
    apply assoc_Some_elem_of; [done|]. rewrite merge_sort_Permutation. apply list_elem_of_fmap. by exists (k, v).
  - destruct (assoc k (merge_sort _ _)) as [v|] eqn:E'; [|done].
    apply assoc_Some_elem_of in E'; [|done]. rewrite merge_sort_Permutation in E'.
    apply list_elem_of_fmap in E' as ([k' v'] & [= -> ->] & Hin). apply assoc_Some_elem_of in Hin; [|done]. congruence.
Qed.

(** *** What the reader returns is a Python value *)
Lemma obj_set_keys k v l : NoDup l.*1 → NoDup (obj_set k v l).*1.
Proof.
  assert (∀ l, (obj_set k v l).*1 = if decide (k ∈ l.*1) then l.*1 else l.*1 ++ [k]) as E.
  { clear l. induction l as [|[k' v'] l IH]; [done|]. cbn [obj_set]. destruct (decide (k' = k)) as [->|Hne];
      rewrite !fmap_cons; cbn [fst].
    - by rewrite decide_True by left.
    - rewrite IH. repeat case_decide; try done; set_solver. }
  intros Hnd. rewrite E. case_decide; [done|]. apply NoDup_app. split_and!; [done| |apply NoDup_singleton]. set_solver.
Qed.

Lemma obj_set_values (P : json → Prop) k v l : P v → Forall (λ kv, P kv.2) l → Forall (λ kv, P kv.2) (obj_set k v l).
Proof.
  intros Hv. induction 1 as [|[k' v'] l Hx Hl IH]; simpl; [by repeat constructor|]. case_decide; by constructor.
Qed.

Ltac scan_cases :=
  repeat match goal with
  | H : context [decide ?P] |- _ => destruct (decide P)
  | H : (match ?x with _ => _ end) = Some _ |- _ => destruct x eqn:?
  | H : (_ ≫= _) = Some _ |- _ => apply bind_Some in H as (? & ? & H)
  | H : Some _ = Some _ |- _ => injection H as <- <-
  | H : None = Some _ |- _ => discriminate H
  end.

Lemma scan_unique fuel :
  (∀ s j r, scan_value fuel s = Some (j, r) → unique_keys j) ∧
  (∀ s l r, scan_elems fuel s = Some (l, r) → Forall unique_keys l) ∧
  (∀ s acc l r, NoDup acc.*1 → Forall (λ kv, unique_keys kv.2) acc →
     scan_members fuel acc s = Some (l, r) → unique_keys (JObj l)).
Proof.
  induction fuel as [|fuel (IHv & IHe & IHm)]; [done|]. split_and!.
  - intros s j r. cbn [scan_value]. intros E. unfold expect in E. scan_cases; simplify_eq; try done.
    + apply unique_list. eauto.
    + apply unique_obj. split; constructor.
    + eapply IHm; [..|eassumption]; constructor.
  - intros s l r. cbn [scan_elems]. intros E. scan_cases; simplify_eq.
    + constructor; eauto.
    + repeat constructor; eauto.
  - intros s acc l r Hnd Hacc. cbn [scan_members]. intros E. scan_cases; simplify_eq.
    + eapply IHm; [..|eassumption]; [by apply obj_set_keys|]. apply obj_set_values; eauto.
    + apply unique_obj. split; [by apply obj_set_keys|]. apply obj_set_values; eauto.
Qed.

Lemma loads_unique s j : loads s = Ok j → unique_keys j.
Proof.
  unfold loads. destruct (scan_value _ s) as [[x r]|] eqn:E; [|done]. destruct (skip_ws r); [|done].
  intros [= <-]. by eapply scan_unique.
Qed.

Definition sample : json :=
  JObj [("b", JList [JInt 0; JInt (-12); JNull; JBool true]);
        ("a", JStr (String quote (String backslash (String (ascii_of_N 10) (String (ascii_of_N 1) "x")))));
        ("c", JObj []); ("d", JList [])].

Example sample_dumps_loads : ∃ j, loads (dumps sample) = Ok j ∧ dumps j = dumps sample.
Proof. eexists. split; vm_compute; reflexivity. Qed.
