(* ===== verification/Crdt.v ===== *)
(** * State-based CRDTs: [distsys/crdt]

    [GCounter], [PNCounter], [ORSet] and [MVRegister], each with its constructor,
    its operations and its merge.  Every class instantiates [Mergeable], so the
    convergence theorems of [Lattice] apply to it. *)

From S2P Require Import Prelude Lattice Causal Json.

Local Open Scope Z_scope.

(** ** Shared: sums over dictionaries, JSON objects built by comprehension *)

Section msum.
Context {K : Type} `{Countable K}.

(** [sum(d.values())] *)
Definition msum (m : gmap K Z) : Z := sumZ (map_to_list m).*2.

Lemma msum_insert_fresh m k v : m !! k = None → msum (<[k:=v]> m) = v + msum m.
Proof. intros Hk. unfold msum. by rewrite map_to_list_insert. Qed.

Lemma msum_insert m k v : msum (<[k:=v]> m) = msum m - default 0 (m !! k) + v.
Proof.
  destruct (m !! k) as [w|] eqn:E; simpl.
  - rewrite <-(insert_delete_eq m k v). rewrite <-(insert_delete_id m k w) at 2 by done.
    rewrite !msum_insert_fresh by apply lookup_delete_eq. lia.
  - rewrite msum_insert_fresh by done. lia.
Qed.

Lemma msum_filter_nonzero m : msum (filter (λ kv, kv.2 ≠ 0) m) = msum m.
Proof.
  induction m as [|k v m Hk IH] using map_ind; [done|].
  rewrite (msum_insert_fresh m) by done. destruct (decide (v = 0)) as [->|Hv].
  - rewrite map_filter_insert_False by naive_solver. by rewrite delete_id.
  - rewrite map_filter_insert_True by done. rewrite msum_insert_fresh, IH; [done|].
    apply map_lookup_filter_None. by left.
Qed.

Lemma msum_nonneg m : map_Forall (λ _ v, 0 ≤ v) m → 0 ≤ msum m.
Proof.
  induction m as [|k v m Hk IH] using map_ind; intros Hm; [done|].
  apply map_Forall_insert in Hm as [Hv Hm]; [|done]. specialize (IH Hm).
  rewrite msum_insert_fresh by done. lia.
Qed.

Lemma sumZ_sorted_items `{PyOrd K} m : sumZ (sorted_items m).*2 = msum m.
Proof. unfold msum. by rewrite sorted_items_Permutation. Qed.

(** Two dictionaries with the same totals per key have the same sum. *)
Lemma msum_ext m1 m2 :
  (∀ k, default 0 (m1 !! k) = default 0 (m2 !! k)) → msum m1 = msum m2.
Proof.
  intros E. rewrite <-(msum_filter_nonzero m1), <-(msum_filter_nonzero m2). f_equal.
  apply map_eq. intros k. specialize (E k). apply option_eq. intros v.
  rewrite !map_lookup_filter_Some. simpl.
  destruct (m1 !! k), (m2 !! k); simpl in E; naive_solver.
Qed.
End msum.

(** [{k: v for k, v in items}] *)
Definition obj_of (items : list (string * json)) : json :=
  JObj (foldl (λ kvs kv, obj_set kv.1 kv.2 kvs) [] items).

Definition dot_dict (d : Dot.t) : json :=
  obj_of [("actor", JStr (CausalActor.wire_key (Dot.actor d))); ("counter", JInt (Dot.counter d))].

(** ** [crdt/types.py] *)
Inductive CrdtType := GCOUNTER | PNCOUNTER | ORSET | MVREGISTER.

#[export] Instance CrdtType_eq_dec : EqDecision CrdtType.
Proof. solve_decision. Defined.

Definition CrdtType_value (t : CrdtType) : string :=
  match t with
  | GCOUNTER => "gcounter" | PNCOUNTER => "pncounter" | ORSET => "orset" | MVREGISTER => "mvregister"
  end.

(** [CrdtType(value)] *)
Definition CrdtType_of (value : string) : result CrdtType :=
  if decide (value = "gcounter") then Ok GCOUNTER
  else if decide (value = "pncounter") then Ok PNCOUNTER
  else if decide (value = "orset") then Ok ORSET
  else if decide (value = "mvregister") then Ok MVREGISTER
  else raise ValueError "is not a valid CrdtType".

Lemma CrdtType_of_value t : CrdtType_of (CrdtType_value t) = Ok t.
Proof. by destruct t. Qed.

(** ** [crdt/gcounter.py] *)
Module GCounter.
Record t := mk { _components : list (CausalActor.t * Z) }.

#[export] Instance eq_dec : EqDecision t.
Proof. solve_decision. Defined.

Definition build (components : gmap CausalActor.t Z) : t := mk (normalized components).

(** [__init__] *)
Definition init (components : gmap CausalActor.t Z) : result t :=
  if existsb (λ kv, kv.2 <? 0) (map_to_list components)
  then raise ValueError "gcounter components must be non-negative"
  else Ok (build components).

Definition empty : t := build ∅.

Definition component (self : t) (actor : CausalActor.t) : Z := scan actor (_components self).

Definition components (self : t) : list (CausalActor.t * Z) := _components self.

Definition increment (self : t) (actor : CausalActor.t) (amount : Z) : result t :=
  if amount <? 1 then raise ValueError "amount must be >= 1"
  else
    let items := dict_of (_components self) in
    let items := <[actor := default 0 (items !! actor) + amount]> items in
    init items.

Definition value (self : t) : Z := sumZ (_components self).*2.

Definition merge (self other : t) : t :=
  build (max_dict (_components self) (_components other)).

Definition to_dict (self : t) : json :=
  obj_of ((λ av, (CausalActor.wire_key av.1, JInt av.2)) <$> _components self).

Definition wf (self : t) : Prop := counters_wf (_components self).

#[export] Instance wf_dec self : Decision (wf self).
Proof. unfold wf. apply _. Defined.
#[global] Typeclasses Opaque wf.

Lemma gc_init_ok m : map_Forall (λ _ n, 0 ≤ n) m → init m = Ok (build m).
Proof.
  intros Hm. unfold init. destruct (existsb _ _) eqn:E; [|done].
  apply existsb_exists in E as ([k n] & Hin & Hn). simpl in Hn. boolify.
  apply list_elem_of_In, elem_of_map_to_list, Hm in Hin. simpl in Hin. lia.
Qed.

Lemma gc_init_wf m c : init m = Ok c → wf c.
Proof.
  unfold init. destruct (existsb _ _) eqn:E; [done|]. intros [= <-].
  apply normalized_wf. intros k n Hk. destruct (Z.le_gt_cases 0 n); [done|].
  assert (existsb (λ kv : CausalActor.t * Z, kv.2 <? 0) (map_to_list m) = true); [|congruence].
  apply existsb_exists. exists (k, n). split; [|by apply Z.ltb_lt].
  by apply list_elem_of_In, elem_of_map_to_list.
Qed.

Lemma gc_wf_empty : wf empty.
Proof. apply normalized_wf, map_Forall_empty. Qed.

Lemma gc_ext a b : wf a → wf b → (∀ x, component a x = component b x) → a = b.
Proof. destruct a, b. intros. f_equal. by apply counters_ext. Qed.

Lemma gc_merge_wf a b : wf a → wf b → wf (merge a b).
Proof. apply merged_wf. Qed.

(** The constructor's check never fires inside [merge]. *)
Lemma merge_init a b : wf a → wf b →
  init (max_dict (_components a) (_components b)) = Ok (merge a b).
Proof. intros. apply gc_init_ok. by apply max_dict_nonneg. Qed.

Lemma component_merge a b x : component (merge a b) x = Z.max (component a x) (component b x).
Proof. apply scan_merged. Qed.

Lemma component_nonneg a x : wf a → 0 ≤ component a x.
Proof. apply scan_nonneg. Qed.

Lemma value_msum a : wf a → value a = msum (dict_of (_components a)).
Proof. intros [E _]. unfold value. rewrite E at 1. by rewrite sumZ_sorted_items. Qed.

(** [value] only depends on the components. *)
Lemma value_components a m : wf a → (∀ x, component a x = default 0 (m !! x)) → value a = msum m.
Proof.
  intros Ha E. rewrite value_msum by done. apply msum_ext. intros x.
  rewrite <-E. symmetry. by apply scan_wf.
Qed.

Lemma increment_ok a x n : wf a → 1 ≤ n → ∃ b, increment a x n = Ok b ∧ wf b ∧
  (∀ y, component b y = component a y + if decide (x = y) then n else 0) ∧
  value b = value a + n.
Proof.
  intros Ha Hn. unfold increment. rewrite (proj2 (Z.ltb_ge _ _)) by lia.
  set (d := dict_of (_components a)).
  assert (default 0 (d !! x) = component a x) as Hx by (symmetry; by apply scan_wf).
  pose proof (component_nonneg a x Ha).
  assert (map_Forall (λ _ n, 0 ≤ n) d) as Hd.
  { intros k m E. apply Ha in E. simpl in E. lia. }
  rewrite gc_init_ok; [|apply map_Forall_insert_2; [lia|done]].
  eexists. split; [done|]. assert (wf (build (<[x:=default 0 (d !! x) + n]> d))) as Hb.
  { apply updated_wf; [done|]. fold d. lia. }
  split; [done|]. split.
  - intros y. unfold component, build. simpl. unfold d. rewrite scan_updated by done.
    fold d. case_decide; subst; [rewrite Hx; done|]. fold (component a y). lia.
  - rewrite (value_components _ (<[x:=default 0 (d !! x) + n]> d)) by
      (done || (intros y; apply scan_normalized)).
    rewrite msum_insert. rewrite (value_msum a Ha). fold d. lia.
Qed.

#[export] Hint Resolve gc_wf_empty gc_merge_wf component_nonneg : distsys.

Lemma gc_merge_idemp a : wf a → merge a a = a.
Proof. intros. apply gc_ext; auto with distsys. intros x. rewrite component_merge. lia. Qed.

Lemma gc_merge_comm a b : wf a → wf b → merge a b = merge b a.
Proof. intros. apply gc_ext; auto with distsys. intros x. rewrite !component_merge. lia. Qed.

Lemma gc_merge_assoc a b c : wf a → wf b → wf c → merge (merge a b) c = merge a (merge b c).
Proof. intros. apply gc_ext; auto with distsys. intros x. rewrite !component_merge. lia. Qed.

#[export] Instance mergeable : Mergeable t.
Proof.
  refine {| m_wf := wf; m_merge := λ v w, Ok (merge v w) |}.
  - intros a b c Ha Hb [= <-]. auto with distsys.
  - intros a Ha. by rewrite gc_merge_idemp.
  - intros a b Ha Hb. by rewrite gc_merge_comm.
  - intros a b c Ha Hb Hc. simpl. by rewrite gc_merge_assoc.
Defined.

Lemma value_merge_ge a b : wf a → wf b → value a ≤ value (merge a b).
Proof.
  intros Ha Hb. set (m := dict_of (_components (merge a b))).
  set (da := dict_of (_components a)).
  rewrite (value_msum (merge a b)) by auto with distsys. rewrite (value_msum a) by done.
  fold m da. cut (∀ x, default 0 (da !! x) ≤ default 0 (m !! x)).
  2:{ intros x. unfold da, m. rewrite <-!scan_wf by (done || by apply gc_merge_wf).
      fold (component a x). fold (component (merge a b) x). rewrite component_merge. lia. }
  assert (map_Forall (λ _ n, 0 ≤ n) m) as Hm.
  { intros k n E. apply (gc_merge_wf a b Ha Hb) in E. simpl in E. lia. }
  generalize dependent m. clearbody da. induction da as [|k v da Hk IH] using map_ind; intros m Hm H.
  - by apply msum_nonneg.
  - rewrite msum_insert_fresh by done.
    assert (msum m = default 0 (m !! k) + msum (delete k m)) as ->.
    { destruct (m !! k) as [w|] eqn:E; simpl; [|by rewrite delete_id].
      rewrite <-(insert_delete_id m k w) at 1 by done.
      by rewrite msum_insert_fresh by apply lookup_delete_eq. }
    pose proof (H k) as Hv. rewrite lookup_insert_eq in Hv. simpl in Hv.
    cut (msum da ≤ msum (delete k m)); [lia|]. apply IH; [by apply map_Forall_delete|].
    intros x. specialize (H x). destruct (decide (k = x)) as [->|].
    + rewrite lookup_delete_eq, Hk. done.
    + rewrite lookup_insert_ne in H by done. by rewrite lookup_delete_ne.
Qed.
End GCounter.
Export (hints) GCounter.

(** ** [crdt/pncounter.py] *)
Module PNCounter.
Record t := mk { positive : GCounter.t; negative : GCounter.t }.

#[export] Instance eq_dec : EqDecision t.
Proof. solve_decision. Defined.

Definition empty : t := mk GCounter.empty GCounter.empty.

Definition increment (self : t) (actor : CausalActor.t) (amount : Z) : result t :=
  p ← GCounter.increment (positive self) actor amount; Ok (mk p (negative self)).

Definition decrement (self : t) (actor : CausalActor.t) (amount : Z) : result t :=
  n ← GCounter.increment (negative self) actor amount; Ok (mk (positive self) n).

Definition value (self : t) : Z := GCounter.value (positive self) - GCounter.value (negative self).

Definition merge (self other : t) : t :=
  mk (GCounter.merge (positive self) (positive other))
     (GCounter.merge (negative self) (negative other)).

Definition to_dict (self : t) : json :=
  obj_of [("positive", GCounter.to_dict (positive self)); ("negative", GCounter.to_dict (negative self))].

Definition wf (self : t) : Prop := GCounter.wf (positive self) ∧ GCounter.wf (negative self).

#[export] Instance wf_dec self : Decision (wf self).
Proof. unfold wf. apply _. Defined.
#[global] Typeclasses Opaque wf.

Lemma pn_wf_empty : wf empty.
Proof. split; apply GCounter.gc_wf_empty. Qed.

#[export] Instance mergeable : Mergeable t.
Proof.
  refine {| m_wf := wf; m_merge := λ v w, Ok (merge v w) |}.
  - intros a b c [] [] [= <-]. split; simpl; auto with distsys.
  - intros [p n] [Hp Hn]. unfold merge. simpl in *. by rewrite !GCounter.gc_merge_idemp.
  - intros [p n] [p' n'] [Hp Hn] [Hp' Hn']. unfold merge. simpl in *.
    by rewrite (GCounter.gc_merge_comm p), (GCounter.gc_merge_comm n).
  - intros [p n] [p' n'] [p'' n''] [Hp Hn] [Hp' Hn'] [Hp'' Hn'']. unfold merge. simpl in *.
    by rewrite !GCounter.gc_merge_assoc.
Defined.
End PNCounter.
Export (hints) PNCounter.

(** ** [crdt/orset.py] *)
Module ORSet.
Record t := mk { _adds : list (string * gset Dot.t); _removed : gset Dot.t }.

#[export] Instance eq_dec : EqDecision t.
Proof. solve_decision. Defined.

(** [__init__]; elements are strings by their type. *)
Definition init (adds : gmap string (gset Dot.t)) (removed : gset Dot.t) : t :=
  mk (sorted_items adds) removed.

Definition empty : t := init ∅ ∅.

Definition _add_map (self : t) : gmap string (gset Dot.t) := dict_of (_adds self).

(** [adds.get(element, frozenset())] *)
Definition dots_of (adds : gmap string (gset Dot.t)) (element : string) : gset Dot.t :=
  default ∅ (adds !! element).

Definition add (self : t) (element : string) (dot : Dot.t) : t :=
  let adds := _add_map self in
  init (<[element := dots_of adds element ∪ {[dot]}]> adds) (_removed self).

Definition remove (self : t) (element : string) : t :=
  let active := dots_of (_add_map self) element ∖ _removed self in
  init (_add_map self) (_removed self ∪ active).

Definition value (self : t) : gset string :=
  list_to_set (filter (λ ed, ed.2 ∖ _removed self ≠ ∅) (_adds self)).*1.

Definition contains (self : t) (element : string) : bool := bool_decide (element ∈ value self).

Definition merge_adds (adds : gmap string (gset Dot.t)) (others : list (string * gset Dot.t))
    : gmap string (gset Dot.t) :=
  foldl (λ adds ed, <[ed.1 := dots_of adds ed.1 ∪ ed.2]> adds) adds others.

Definition merge (self other : t) : t :=
  init (merge_adds (_add_map self) (_adds other)) (_removed self ∪ _removed other).

Definition to_dict (self : t) : json :=
  obj_of [("adds", obj_of ((λ ed, (ed.1, JList (dot_dict <$> py_sorted ed.2))) <$> _adds self));
          ("removed", JList (dot_dict <$> py_sorted (_removed self)))].

Definition wf (self : t) : Prop := _adds self = sorted_items (dict_of (_adds self)).

#[export] Instance wf_dec self : Decision (wf self).
Proof. unfold wf. apply _. Defined.
#[global] Typeclasses Opaque wf.

(** A dot that keeps [element] in the set. *)
Definition live (self : t) (element : string) (dot : Dot.t) : Prop :=
  dot ∈ dots_of (_add_map self) element ∧ dot ∉ _removed self.

Lemma or_init_wf adds removed : wf (init adds removed).
Proof. unfold wf, init. simpl. by rewrite dict_of_sorted_items. Qed.

Lemma add_map_init adds removed : _add_map (init adds removed) = adds.
Proof. unfold _add_map, init. simpl. apply dict_of_sorted_items. Qed.

Lemma or_ext a b : wf a → wf b → _add_map a = _add_map b → _removed a = _removed b → a = b.
Proof.
  destruct a as [la ra], b as [lb rb]. unfold wf, _add_map. simpl.
  intros Ha Hb E ->. f_equal. congruence.
Qed.

Lemma lookup_merge_adds adds d e :
  merge_adds adds (sorted_items d) !! e = union_with (λ x y, Some (x ∪ y)) (adds !! e) (d !! e).
Proof.
  unfold merge_adds. pose proof (NoDup_sorted_items_fst d) as Hnd.
  rewrite <-(assoc_sorted_items d e). generalize dependent (sorted_items d). intros l Hnd.
  revert adds. induction l as [|[k v] l IH]; intros adds.
  { simpl. by destruct (adds !! e). }
  apply NoDup_cons in Hnd as [Hk Hnd]. simpl. rewrite IH by done. case_decide as E; subst.
  - rewrite lookup_insert_eq.
    assert (assoc e l = None) as ->.
    { destruct (assoc e l) as [w|] eqn:E; [|done]. apply assoc_Some_elem_of in E; [|done].
      destruct Hk. apply list_elem_of_fmap. by exists (e, w). }
    unfold dots_of. destruct (adds !! e); simpl; f_equal; set_solver.
  - by rewrite lookup_insert_ne.
Qed.

Lemma add_map_merge a b : wf b →
  _add_map (merge a b) = union_with (λ x y, Some (x ∪ y)) (_add_map a) (_add_map b).
Proof.
  intros Hb. unfold merge, wf in *. rewrite add_map_init. apply map_eq. intros e.
  rewrite Hb at 1. rewrite lookup_merge_adds, lookup_union_with. done.
Qed.

Lemma removed_merge a b : _removed (merge a b) = _removed a ∪ _removed b.
Proof. done. Qed.

Lemma dots_of_merge a b e : wf b →
  dots_of (_add_map (merge a b)) e = dots_of (_add_map a) e ∪ dots_of (_add_map b) e.
Proof.
  intros Hb. unfold dots_of. rewrite add_map_merge, lookup_union_with by done.
  destruct (_add_map a !! e), (_add_map b !! e); simpl; set_solver.
Qed.

Lemma elem_of_value a e : wf a → e ∈ value a ↔ ∃ d, live a e d.
Proof.
  intros Ha. unfold wf, value, live, dots_of, _add_map in *.
  rewrite elem_of_list_to_set, list_elem_of_fmap. split.
  - intros ([e' ds] & -> & [Hne Hin]%list_elem_of_filter). simpl in *.
    rewrite Ha, elem_of_sorted_items in Hin. simpl in Hin. rewrite Hin. simpl.
    apply set_choose_L in Hne as [d Hd]. exists d. set_solver.
  - intros (d & Hd & Hr). destruct (dict_of (_adds a) !! e) as [ds|] eqn:E; simpl in Hd; [|by apply elem_of_empty in Hd].
    exists (e, ds). split; [done|]. apply list_elem_of_filter. split.
    + simpl. set_solver.
    + rewrite Ha. by apply elem_of_sorted_items.
Qed.

Lemma live_merge a b e d : wf b →
  live (merge a b) e d ↔
  (d ∈ dots_of (_add_map a) e ∨ d ∈ dots_of (_add_map b) e) ∧ (d ∉ _removed a) ∧ (d ∉ _removed b).
Proof. intros Hb. unfold live. rewrite dots_of_merge, removed_merge by done. set_solver. Qed.

Lemma live_add a e d e' d' :
  live (add a e d) e' d' ↔ live a e' d' ∨ (e = e' ∧ d = d' ∧ d ∉ _removed a).
Proof.
  unfold live, add. rewrite add_map_init. unfold dots_of. rewrite lookup_insert.
  case_decide; subst; simpl; rewrite ?elem_of_union, ?elem_of_singleton; naive_solver.
Qed.

Lemma live_remove a e e' d :
  live (remove a e) e' d ↔ live a e' d ∧ d ∉ dots_of (_add_map a) e.
Proof.
  unfold live, remove. rewrite add_map_init. simpl.
  rewrite not_elem_of_union, not_elem_of_difference. naive_solver.
Qed.

#[export] Instance mergeable : Mergeable t.
Proof.
  refine {| m_wf := wf; m_merge := λ v w, Ok (merge v w) |}.
  - intros a b c Ha Hb [= <-]. apply or_init_wf.
  - intros a Ha. f_equal. apply or_ext; [apply or_init_wf|done| |].
    + rewrite add_map_merge by done. apply map_eq. intros e. rewrite lookup_union_with.
      destruct (_add_map a !! e); simpl; f_equal. by rewrite union_idemp_L.
    + rewrite removed_merge. by rewrite union_idemp_L.
  - intros a b Ha Hb. unfold equiv; simpl. apply or_ext; [apply or_init_wf..| |].
    + rewrite !add_map_merge by done. apply map_eq. intros e. rewrite !lookup_union_with.
      destruct (_add_map a !! e), (_add_map b !! e); simpl; f_equal. by rewrite union_comm_L.
    + rewrite !removed_merge. by rewrite union_comm_L.
  - intros a b c Ha Hb Hc. unfold equiv; simpl. apply or_ext; [apply or_init_wf..| |].
    + rewrite !add_map_merge by (done || apply or_init_wf). apply map_eq. intros e.
      rewrite !lookup_union_with.
      destruct (_add_map a !! e), (_add_map b !! e), (_add_map c !! e); simpl; f_equal.
      by rewrite union_assoc_L.
    + rewrite !removed_merge. by rewrite union_assoc_L.
Defined.
End ORSet.
Export (hints) ORSet.

(** ** [crdt/mvregister.py] *)
Module MVRegister.
Record t := mk { _values : list (Dot.t * string); _superseded : gset Dot.t }.

#[export] Instance eq_dec : EqDecision t.
Proof. solve_decision. Defined.

(** [__init__] *)
Definition init (values : gmap Dot.t string) (superseded : gset Dot.t) : t :=
  mk (sorted_items values) superseded.

Definition empty : t := init ∅ ∅.

Definition _canonical_json (value : json) : string := dumps value.

Definition _value_map (self : t) : gmap Dot.t string := dict_of (_values self).

Definition write (self : t) (value : json) (dot : Dot.t) : t :=
  let encoded := _canonical_json value in
  let visible := list_to_set (filter (λ d, d ∉ _superseded self) (_values self).*1) in
  let values := <[dot := encoded]> (_value_map self) in
  init values (_superseded self ∪ visible).

Definition values (self : t) : result (list json) :=
  mapM_result (λ de, loads de.2) (filter (λ de, de.1 ∉ _superseded self) (_values self)).

(** The loop of [merge]: the first conflicting dot raises. *)
Fixpoint merge_values (values : gmap Dot.t string) (others : list (Dot.t * string))
    : result (gmap Dot.t string) :=
  match others with
  | [] => Ok values
  | (dot, encoded) :: others =>
      match values !! dot with
      | Some existing =>
          if decide (existing ≠ encoded)
          then raise ValueError "same Dot cannot identify different register values"
          else merge_values (<[dot := encoded]> values) others
      | None => merge_values (<[dot := encoded]> values) others
      end
  end.

Definition merge (self other : t) : result t :=
  values ← merge_values (_value_map self) (_values other);
  Ok (init values (_superseded self ∪ _superseded other)).

Definition to_dict (self : t) : result json :=
  values ← mapM_result (λ de : Dot.t * string,
      value ← loads de.2;
      Ok (obj_of [("actor", JStr (CausalActor.wire_key (Dot.actor de.1)));
                  ("counter", JInt (Dot.counter de.1)); ("value", value)])) (_values self);
  Ok (obj_of [("values", JList values);
              ("superseded", JList (dot_dict <$> py_sorted (_superseded self)))]).

Definition wf (self : t) : Prop := _values self = sorted_items (dict_of (_values self)).

#[export] Instance wf_dec self : Decision (wf self).
Proof. unfold wf. apply _. Defined.
#[global] Typeclasses Opaque wf.

(** A dot and the text it carries, when nothing has overwritten it. *)
Definition visible (self : t) (dot : Dot.t) (encoded : string) : Prop :=
  _value_map self !! dot = Some encoded ∧ dot ∉ _superseded self.

(** No dot carries two texts. *)
Definition agree (m1 m2 : gmap Dot.t string) : Prop :=
  ∀ d x y, m1 !! d = Some x → m2 !! d = Some y → x = y.

Lemma mv_init_wf values superseded : wf (init values superseded).
Proof. unfold wf, init. simpl. by rewrite dict_of_sorted_items. Qed.

Lemma value_map_init values superseded : _value_map (init values superseded) = values.
Proof. unfold _value_map, init. simpl. apply dict_of_sorted_items. Qed.

Lemma mv_ext a b : wf a → wf b → _value_map a = _value_map b → _superseded a = _superseded b → a = b.
Proof.
  destruct a as [la ra], b as [lb rb]. unfold wf, _value_map. simpl.
  intros Ha Hb E ->. f_equal. congruence.
Qed.

Lemma agree_insert m l d x : m !! d = Some x ∨ m !! d = None → d ∉ l.*1 →
  agree (<[d:=x]> m) (dict_of l) ↔ agree m (dict_of l).
Proof.
  intros Hx Hd. assert (dict_of l !! d = None) as Hn.
  { destruct (dict_of l !! d) as [y|] eqn:E; [|done]. exfalso. revert E. clear -Hd.
    induction l as [|[k v] l IH] using rev_ind; [done|]. rewrite dict_of_snoc.
    rewrite fmap_app in Hd. rewrite lookup_insert_ne by set_solver. apply IH. set_solver. }
  unfold agree. split; intros H d' x' y'; destruct (decide (d = d')) as [<-|];
    rewrite ?lookup_insert_eq, ?lookup_insert_ne by done; try congruence; eauto.
  intros. apply (H d'); [by rewrite lookup_insert_ne|done].
Qed.

Lemma merge_values_spec m l : NoDup l.*1 →
  (agree m (dict_of l) → merge_values m l = Ok (m ∪ dict_of l)) ∧
  (¬ agree m (dict_of l) → ∃ e, merge_values m l = Err e).
Proof.
  intros Hnd. revert m. induction l as [|[d x] l IH]; intros m; simpl.
  { change (dict_of []) with (∅ : gmap Dot.t string).
    split; [by rewrite right_id_L by apply _|]. intros []. intros ????. by rewrite lookup_empty. }
  apply NoDup_cons in Hnd as [Hd Hnd]. specialize (IH Hnd (<[d:=x]> m)) as [IH1 IH2].
  assert (dict_of ((d, x) :: l) !! d = Some x) as Hdx.
  { rewrite dict_of_NoDup by (by apply NoDup_cons). simpl. by rewrite lookup_insert_eq. }
  assert (∀ d', d ≠ d' → dict_of ((d, x) :: l) !! d' = dict_of l !! d') as Hrest.
  { intros d' Hne. rewrite !dict_of_NoDup by (done || by apply NoDup_cons). simpl.
    by rewrite lookup_insert_ne. }
  assert (dict_of l !! d = None) as Hln.
  { rewrite dict_of_NoDup by done. by apply not_elem_of_list_to_map_1. }
  assert (m !! d = Some x ∨ m !! d = None →
    (agree m (dict_of ((d, x) :: l)) ↔ agree (<[d:=x]> m) (dict_of l))) as Hag.
  { intros Hx. rewrite agree_insert by done. unfold agree. split; intros H d' x' y' H1 H2;
      (destruct (decide (d = d')) as [<-|Hne]; [|eapply (H d'); rewrite ?Hrest in * by done; eauto]);
      destruct Hx as [Hx|Hx]; congruence. }
  assert (<[d:=x]> m ∪ dict_of l = m ∪ dict_of ((d, x) :: l) ∨ ¬ (m !! d = Some x ∨ m !! d = None)) as Hun.
  { destruct (m !! d) as [y|] eqn:E; [destruct (decide (y = x)) as [->|Hyx]|].
    3:{ left. apply map_eq. intros d'. rewrite !lookup_union. destruct (decide (d = d')) as [<-|].
        - by rewrite lookup_insert_eq, E, Hdx, Hln.
        - by rewrite lookup_insert_ne, Hrest. }
    2:{ right. naive_solver. }
    left. rewrite insert_id by done. apply map_eq. intros d'. rewrite !lookup_union.
    destruct (decide (d = d')) as [<-|]; [by rewrite E, Hdx, Hln|by rewrite Hrest]. }
  destruct (m !! d) as [y|] eqn:E; [case_decide as Hyx|].
  - split; [|eauto]. intros H. destruct Hyx. by apply (H d).
  - subst y. destruct Hun as [<-|[]]; [|auto]. rewrite Hag by auto. auto.
  - destruct Hun as [<-|[]]; [|auto]. rewrite Hag by auto. auto.
Qed.

Lemma values_NoDup a : wf a → NoDup (_values a).*1.
Proof. unfold wf. intros ->. apply NoDup_sorted_items_fst. Qed.

Lemma merge_ok a b : wf b → agree (_value_map a) (_value_map b) →
  merge a b = Ok (init (_value_map a ∪ _value_map b) (_superseded a ∪ _superseded b)).
Proof.
  intros Hb Hag. unfold merge. assert (NoDup (_values b).*1) as Hnd by by apply values_NoDup.
  by rewrite (proj1 (merge_values_spec _ _ Hnd)).
Qed.

Lemma merge_inv a b c : wf b → merge a b = Ok c →
  agree (_value_map a) (_value_map b) ∧
  c = init (_value_map a ∪ _value_map b) (_superseded a ∪ _superseded b).
Proof.
  intros Hb E. assert (NoDup (_values b).*1) as Hnd by by apply values_NoDup.
  destruct (merge_values_spec (_value_map a) _ Hnd) as [H1 H2]. unfold merge in E.
  apply bind_Ok_inv in E as (m & Em & [= <-]).
  assert (agree (_value_map a) (_value_map b)) as Hag.
  { intros d x y Hx Hy. destruct (decide (x = y)) as [|Hne]; [done|].
    destruct H2 as [e He]; [|congruence]. intros Hag. apply Hne. by apply (Hag d). }
  split; [done|]. rewrite H1 in Em by done. by simplify_eq.
Qed.

Lemma merge_err a b : wf b → ¬ agree (_value_map a) (_value_map b) → ∃ e, merge a b = Err e.
Proof.
  intros Hb Hn. destruct (merge a b) as [c|e] eqn:E; [|eauto].
  by apply merge_inv in E as [? _].
Qed.

Lemma agree_sym m1 m2 : agree m1 m2 → agree m2 m1.
Proof. intros H d x y Hx Hy. symmetry. by apply (H d). Qed.

Lemma agree_union_l m1 m2 m3 : agree m1 m2 →
  agree (m1 ∪ m2) m3 ↔ agree m1 m3 ∧ agree m2 m3.
Proof.
  intros H12. split.
  - intros H. split; intros d x y Hx Hy.
    + apply (H d x y); [|done]. by apply lookup_union_Some_l.
    + destruct (m1 !! d) as [z|] eqn:Ez.
      * rewrite <-(H12 d z x Ez Hx). apply (H d z y); [|done]. by apply lookup_union_Some_l.
      * apply (H d x y); [|done]. by rewrite lookup_union_r.
  - intros [H1 H2] d x y [Hx|[_ Hx]]%lookup_union_Some_raw Hy; eauto.
Qed.

Lemma agree_union_comm m1 m2 : agree m1 m2 → m1 ∪ m2 = m2 ∪ m1.
Proof.
  intros H. apply map_eq. intros d. rewrite !lookup_union.
  destruct (m1 !! d) as [x|] eqn:Ex, (m2 !! d) as [y|] eqn:Ey; try done.
  apply (f_equal Some (H d x y Ex Ey)).
Qed.

(** Where the two sides agree both merges return; where they do not, both
    raise. *)
Lemma merge_agree_equiv a b r : wf b →
  (agree (_value_map a) (_value_map b) →
     Ok (init (_value_map a ∪ _value_map b) (_superseded a ∪ _superseded b)) ≡ r) →
  (¬ agree (_value_map a) (_value_map b) → ∃ e, r = Err e) →
  merge a b ≡ r.
Proof.
  intros Hb H1 H2. destruct (merge a b) as [c|e] eqn:E.
  - apply merge_inv in E as [Hag ->]; auto.
  - destruct H2 as [e' ->]; [|done]. intros Hag. by rewrite merge_ok in E.
Qed.

Lemma mv_merge_comm a b : wf a → wf b → merge a b ≡ merge b a.
Proof.
  intros Ha Hb. apply merge_agree_equiv; [done| |].
  - intros Hag. rewrite (merge_ok b a) by (done || by apply agree_sym).
    by rewrite (agree_union_comm (_value_map a)), (union_comm_L (_superseded a)).
  - intros Hn. apply merge_err; [done|]. intros Hag. by apply Hn, agree_sym.
Qed.

Lemma mv_merge_idemp a : wf a → merge a a = Ok a.
Proof.
  intros Ha. rewrite merge_ok; [|done|intros d x y; congruence]. f_equal.
  apply mv_ext; [apply mv_init_wf|done| |].
  - rewrite value_map_init. apply map_eq. intros d. rewrite lookup_union.
    by destruct (_value_map a !! d).
  - simpl. by rewrite union_idemp_L.
Qed.

Lemma merge_three a b c : wf a → wf b → wf c →
  (merge a b ≫= λ ab, merge ab c) ≡ (merge b c ≫= λ bc, merge a bc).
Proof.
  intros Ha Hb Hc. set (ma := _value_map a). set (mb := _value_map b). set (mc := _value_map c).
  assert (∀ v s, wf (init v s)) as Hi by (intros; apply mv_init_wf).
  destruct (merge a b) as [ab|e] eqn:E1; simpl.
  - apply merge_inv in E1 as [Hab ->]; [|done]. apply merge_agree_equiv; [done| |];
      rewrite value_map_init; fold ma mb mc in Hab |- *.
    + intros Hag. apply agree_union_l in Hag as [Hac Hbc]; [|done].
      rewrite (merge_ok b c) by done. simpl. fold mb mc.
      rewrite merge_ok; [|done|rewrite value_map_init; apply agree_sym, agree_union_l;
                               [done|split; by apply agree_sym]].
      rewrite value_map_init. fold ma. simpl. by rewrite !(assoc_L (∪)).
    + intros Hn. destruct (merge b c) as [bc|e] eqn:E2; simpl; [|eauto].
      apply merge_inv in E2 as [Hbc ->]; [|done]. apply merge_err; [done|].
      rewrite value_map_init. intros Hag%agree_sym.
      apply agree_union_l in Hag as [Hba Hca]; [|done].
      apply Hn, agree_union_l; [done|]. split; [by apply agree_sym|done].
  - destruct (merge b c) as [bc|e2] eqn:E2; simpl; [|done].
    apply merge_inv in E2 as [Hbc ->]; [|done].
    destruct (merge a (init _ _)) as [abc|e3] eqn:E3; [|done].
    apply merge_inv in E3 as [Hag _]; [|done]. rewrite value_map_init in Hag.
    apply agree_sym, agree_union_l in Hag as [Hba _]; [|done].
    rewrite (merge_ok a b) in E1 by (done || by apply agree_sym). done.
Qed.

#[export] Instance mergeable : Mergeable t.
Proof.
  refine {| m_wf := wf; m_merge := merge |}.
  - intros a b c Ha Hb [_ ->]%merge_inv; [apply mv_init_wf|done].
  - apply mv_merge_idemp.
  - apply mv_merge_comm.
  - apply merge_three.
Defined.

Lemma visible_merge a b c d x : wf b → merge a b = Ok c →
  visible c d x ↔ (_value_map a !! d = Some x ∨ _value_map b !! d = Some x) ∧
                  (d ∉ _superseded a) ∧ (d ∉ _superseded b).
Proof.
  intros Hb [Hag ->]%merge_inv; [|done]. unfold visible. rewrite value_map_init. simpl.
  rewrite lookup_union_Some_raw, not_elem_of_union. split; [naive_solver|].
  intros [[Hx|Hy] ?]; [naive_solver|]. split; [|done].
  destruct (_value_map a !! d) as [z|] eqn:E; [|naive_solver].
  left. f_equal. by apply (Hag d).
Qed.

(** The dots [write] overwrites. *)
Lemma visible_write a v d d' x : wf a → d ∉ _superseded a → _value_map a !! d = None →
  visible (write a v d) d' x ↔ d' = d ∧ x = dumps v.
Proof.
  intros Ha Hd Hf. unfold visible, write. rewrite value_map_init. simpl.
  assert (∀ k, k ∈ (_values a).*1 ↔ is_Some (_value_map a !! k)) as Hk.
  { intros k. unfold wf in Ha. rewrite Ha, list_elem_of_fmap. split.
    - intros ([k' y] & -> & Hin%elem_of_sorted_items). eauto.
    - intros [y Hy]. exists (k, y). split; [done|]. by apply elem_of_sorted_items. }
  rewrite not_elem_of_union, elem_of_list_to_set, list_elem_of_filter, Hk.
  destruct (decide (d' = d)) as [->|Hne].
  - rewrite lookup_insert_eq, Hf. unfold _canonical_json.
    split; [naive_solver|]. intros [_ ->]. split_and!; [done|done|]. by intros [_ [??]].
  - rewrite lookup_insert_ne by done. split; [|by intros [??]].
    intros (Hx & Hs & Hv). destruct Hv. eauto.
Qed.

(** [values()] decodes exactly the visible entries, in dot order. *)
Lemma values_visible a : wf a → ∃ l,
  values a = mapM_result (λ de, loads de.2) l ∧ NoDup l.*1 ∧
  ∀ d x, (d, x) ∈ l ↔ visible a d x.
Proof.
  intros Ha. eexists. split_and!; [reflexivity| |].
  - eapply sublist_NoDup; [by apply values_NoDup|]. apply fmap_sublist, sublist_filter.
  - intros d x. rewrite list_elem_of_filter. unfold visible, _value_map. simpl.
    unfold wf in Ha. rewrite Ha at 1. rewrite elem_of_sorted_items. naive_solver.
Qed.
End MVRegister.
Export (hints) MVRegister.

(** ** Replicated counters

    Every node increments and decrements the components of its own actor and
    merges the states of other nodes in any order.  [up] and [down] are the
    totals a sequential counter would keep. *)
Module ReplicatedCounter.
Record t := mk {
  reps : gmap CausalActor.t PNCounter.t;
  up : gmap CausalActor.t Z;
  down : gmap CausalActor.t Z;
}.

Definition initial : t := mk ∅ ∅ ∅.

Definition rep (s : t) (a : CausalActor.t) : PNCounter.t := default PNCounter.empty (reps s !! a).

Definition tally (m : gmap CausalActor.t Z) (a : CausalActor.t) (n : Z) : gmap CausalActor.t Z :=
  <[a := default 0 (m !! a) + n]> m.

Inductive step : t → t → Prop :=
  | step_increment s a n c :
      PNCounter.increment (rep s a) a n = Ok c →
      step s (mk (<[a := c]> (reps s)) (tally (up s) a n) (down s))
  | step_decrement s a n c :
      PNCounter.decrement (rep s a) a n = Ok c →
      step s (mk (<[a := c]> (reps s)) (up s) (tally (down s) a n))
  | step_merge s a b :
      step s (mk (<[a := PNCounter.merge (rep s a) (rep s b)]> (reps s)) (up s) (down s)).

(** One half of a counter: nobody is ahead of an actor's own replica, which holds
    the actor's total. *)
Definition half (g : CausalActor.t → GCounter.t) (total : gmap CausalActor.t Z) : Prop :=
  (∀ a, GCounter.wf (g a)) ∧
  (∀ a b, GCounter.component (g a) b ≤ default 0 (total !! b)) ∧
  (∀ a, GCounter.component (g a) a = default 0 (total !! a)).

Definition inv (s : t) : Prop :=
  half (λ a, PNCounter.positive (rep s a)) (up s) ∧ half (λ a, PNCounter.negative (rep s a)) (down s).

Lemma half_increment g total a n c g' :
  half g total → GCounter.increment (g a) a n = Ok c →
  (∀ b, g' b = if decide (a = b) then c else g b) → half g' (tally total a n).
Proof.
  intros (Hw & Hle & Heq) Hc Hg'.
  destruct (Z.le_gt_cases 1 n) as [Hn|Hn].
  2:{ unfold GCounter.increment in Hc. rewrite (proj2 (Z.ltb_lt _ _)) in Hc by lia. done. }
  destruct (GCounter.increment_ok (g a) a n (Hw a) Hn) as (c' & Hc' & Hwc & Hcomp & _).
  rewrite Hc in Hc'. injection Hc' as <-. unfold half, tally. split_and!; intros b.
  - rewrite Hg'. by case_decide.
  - intros b'. rewrite Hg', lookup_insert. specialize (Hle b b').
    pose proof (Hle) as Hle'. specialize (Heq b').
    case_decide; subst; [rewrite Hcomp|]; case_decide; subst; simpl; lia.
  - rewrite Hg', lookup_insert. specialize (Heq b).
    case_decide; subst; [rewrite Hcomp, decide_True by done|]; simpl; lia.
Qed.

Lemma half_merge g total a b g' :
  half g total → (∀ c, g' c = if decide (a = c) then GCounter.merge (g a) (g b) else g c) →
  half g' total.
Proof.
  intros (Hw & Hle & Heq) Hg'. unfold half. split_and!; intros c.
  - rewrite Hg'. case_decide; auto with distsys.
  - intros d. rewrite Hg'. case_decide; subst; [|done]. rewrite GCounter.component_merge.
    pose proof (Hle c d). pose proof (Hle b d). lia.
  - rewrite Hg'. case_decide; subst; [|done]. rewrite GCounter.component_merge.
    pose proof (Heq c). pose proof (Hle b c). lia.
Qed.

Lemma half_ext g g' total : (∀ a, g' a = g a) → half g total → half g' total.
Proof. intros E (? & ? & ?). unfold half. split_and!; intros; rewrite ?E; auto. Qed.

Lemma rep_insert s a c up down b :
  rep (mk (<[a := c]> (reps s)) up down) b = if decide (a = b) then c else rep s b.
Proof. unfold rep. simpl. rewrite lookup_insert. by case_decide. Qed.

Lemma step_inv s s' : inv s → step s s' → inv s'.
Proof.
  intros [Hp Hn] Hs. destruct Hs as [s a n c Hc|s a n c Hc|s a b].
  - apply bind_Ok_inv in Hc as (g & Hg & [= <-]). split; simpl.
    + eapply half_increment; [done..|]. intros b. rewrite rep_insert. by case_decide.
    + eapply half_ext; [|done]. intros b. simpl. rewrite rep_insert. case_decide; by subst.
  - apply bind_Ok_inv in Hc as (g & Hg & [= <-]). split; simpl.
    + eapply half_ext; [|done]. intros b. simpl. rewrite rep_insert. case_decide; by subst.
    + eapply half_increment; [done..|]. intros b. rewrite rep_insert. by case_decide.
  - split; simpl; (eapply (half_merge _ _ a b); [done|]); intros c; rewrite rep_insert; by case_decide.
Qed.

Lemma initial_inv : inv initial.
Proof.
  split; (split_and!; intros a; [apply GCounter.gc_wf_empty|intros b; done|done]).
Qed.

Lemma reachable_inv s : reachable step initial s → inv s.
Proof. apply reachable_invariant; [apply initial_inv|]. apply step_inv. Qed.

(** A half that has merged every replica holds every actor's total. *)
Lemma half_complete g total a :
  half g total → (∀ b, GCounter.merge (g b) (g a) = g a) → GCounter.value (g a) = msum total.
Proof.
  intros (Hw & Hle & Heq) Hall. apply GCounter.value_components; [done|]. intros b.
  apply Z.le_antisymm; [done|]. rewrite <-(Heq b), <-(Hall b), GCounter.component_merge. lia.
Qed.

Lemma pn_complete s a :
  inv s → (∀ b, m_le (rep s b) (rep s a)) →
  PNCounter.value (rep s a) = msum (up s) - msum (down s).
Proof.
  intros [Hp Hn] Hall.
  assert (∀ b, PNCounter.merge (rep s b) (rep s a) = rep s a) as HM.
  { intros b. by specialize (Hall b). }
  unfold PNCounter.value. rewrite <-(half_complete _ _ a Hp), <-(half_complete _ _ a Hn); [done|..];
    intros b; specialize (HM b); unfold PNCounter.merge in HM; rewrite <-HM at 2; done.
Qed.

(** C3: however increments, decrements and merges interleave across nodes, a
    replica that has merged the state of every node reports exactly the sum of all
    increments minus the sum of all decrements: no update is lost and none is
    counted twice. *)
Theorem pncounter_counts_every_update s a :
  reachable step initial s → (∀ b, m_le (rep s b) (rep s a)) →
  PNCounter.value (rep s a) = msum (up s) - msum (down s).
Proof. intros Hs. by apply pn_complete, reachable_inv. Qed.

Definition n1 : CausalActor.t := CausalActor.mk "n1" 1.
Definition n2 : CausalActor.t := CausalActor.mk "n2" 1.

Definition run_update (s : t) (u : CausalActor.t * Z) : t :=
  let '(a, n) := u in
  match (if 0 <? n then PNCounter.increment (rep s a) a n
         else PNCounter.decrement (rep s a) a (- n)) with
  | Ok c => if 0 <? n then mk (<[a := c]> (reps s)) (tally (up s) a n) (down s)
            else mk (<[a := c]> (reps s)) (up s) (tally (down s) a (- n))
  | Err _ => s
  end.

Definition sample : t :=
  let s := run_update (run_update (run_update initial (n1, 5)) (n2, 7)) (n1, -2) in
  mk (<[n2 := PNCounter.merge (rep s n2) (rep s n1)]> (reps s)) (up s) (down s).

Lemma run_update_step s a n c :
  (if 0 <? n then PNCounter.increment (rep s a) a n
   else PNCounter.decrement (rep s a) a (- n)) = Ok c → step s (run_update s (a, n)).
Proof.
  intros E. unfold run_update. rewrite E. destruct (0 <? n); by constructor.
Qed.

Lemma pncounter_counts_every_update_witness :
  PNCounter.value (rep sample n2) = 10 ∧
  PNCounter.value (rep sample n2) = msum (up sample) - msum (down sample).
Proof.
  split; [reflexivity|]. apply (pncounter_counts_every_update sample n2).
  - apply reachable_step with (2 := step_merge _ n2 n1).
    do 3 (eapply reachable_step; [|eapply run_update_step; vm_compute; reflexivity]).
    apply reachable_init.
  - intros b. destruct (decide (b = n1)) as [->|]; [vm_compute; reflexivity|].
    destruct (decide (b = n2)) as [->|]; [vm_compute; reflexivity|].
    assert (rep sample b = PNCounter.empty) as ->; [|vm_compute; reflexivity].
    assert (dom (reps sample) = {[n1; n2]}) as Hd by (vm_compute; reflexivity).
    unfold rep. rewrite (not_elem_of_dom_1 (reps sample) b); [reflexivity|].
    rewrite Hd, not_elem_of_union, !not_elem_of_singleton. split; assumption.
Defined.
End ReplicatedCounter.

(** ** Observed-remove sets: the abstract specification

    A replica knows a set of events; a remove event carries the dots it observed.
    An element is in the set when some known add of it was observed by no known
    remove.  [history s H] relates a concrete set to the events it was built from. *)
Module ORSetSpec.
Inductive event :=
  | EAdd (element : string) (dot : Dot.t)
  | ERemove (element : string) (observed : gset Dot.t).

Definition removed_by (H : list event) (d : Dot.t) : Prop :=
  ∃ e ds, ERemove e ds ∈ H ∧ d ∈ ds.

Definition member (H : list event) (e : string) : Prop :=
  ∃ d, EAdd e d ∈ H ∧ ¬ removed_by H d.

Inductive history : ORSet.t → list event → Prop :=
  | history_empty : history ORSet.empty []
  | history_add s H e d : history s H → history (ORSet.add s e d) (EAdd e d :: H)
  | history_remove s H e ds :
      history s H →
      (∀ d, d ∈ ds ↔ EAdd e d ∈ H ∧ ¬ removed_by H d) →
      history (ORSet.remove s e) (ERemove e ds :: H)
  | history_merge s1 H1 s2 H2 :
      history s1 H1 → history s2 H2 → history (ORSet.merge s1 s2) (H1 ++ H2).

(** The concrete state that represents a set of events. *)
Definition represents (s : ORSet.t) (H : list event) : Prop :=
  ORSet.wf s ∧
  (∀ e d, d ∈ ORSet.dots_of (ORSet._add_map s) e ↔ EAdd e d ∈ H) ∧
  (∀ d, d ∈ ORSet._removed s ↔ removed_by H d).

Lemma removed_by_cons_add e d H d' : removed_by (EAdd e d :: H) d' ↔ removed_by H d'.
Proof. unfold removed_by. setoid_rewrite elem_of_cons. naive_solver. Qed.

Lemma removed_by_cons_remove e ds H d : removed_by (ERemove e ds :: H) d ↔ d ∈ ds ∨ removed_by H d.
Proof. unfold removed_by. setoid_rewrite elem_of_cons. naive_solver. Qed.

Lemma removed_by_app H1 H2 d : removed_by (H1 ++ H2) d ↔ removed_by H1 d ∨ removed_by H2 d.
Proof. unfold removed_by. setoid_rewrite elem_of_app. naive_solver. Qed.

Lemma history_represents s H : history s H → represents s H.
Proof.
  induction 1 as [|s H e d _ (Hw & Ha & Hr)|s H e ds _ (Hw & Ha & Hr) Hds
                 |s1 H1 s2 H2 _ (Hw1 & Ha1 & Hr1) _ (Hw2 & Ha2 & Hr2)].
  - split_and!; [apply ORSet.or_init_wf|..].
    + intros e d. split; [by intros ?%elem_of_empty|by intros ?%elem_of_nil].
    + intros d. split; [by intros ?%elem_of_empty|by intros (? & ? & ?%elem_of_nil & _)].
  - split_and!; [apply ORSet.or_init_wf|..].
    + intros e' d'. unfold ORSet.add. rewrite ORSet.add_map_init, elem_of_cons, <-Ha.
      unfold ORSet.dots_of. rewrite lookup_insert.
      case_decide; subst; simpl; rewrite ?elem_of_union, ?elem_of_singleton; naive_solver.
    + intros d'. by rewrite removed_by_cons_add, <-Hr.
  - split_and!; [apply ORSet.or_init_wf|..].
    + intros e' d'. unfold ORSet.remove. rewrite ORSet.add_map_init, elem_of_cons, <-Ha.
      naive_solver.
    + intros d. unfold ORSet.remove. simpl.
      rewrite removed_by_cons_remove, elem_of_union, elem_of_difference, Ha, Hr, Hds. naive_solver.
  - split_and!; [apply ORSet.or_init_wf|..].
    + intros e d. rewrite ORSet.dots_of_merge, elem_of_union, elem_of_app, Ha1, Ha2; done.
    + intros d. by rewrite ORSet.removed_merge, elem_of_union, removed_by_app, Hr1, Hr2.
Qed.

Lemma represents_contains s H e : represents s H → ORSet.contains s e = true ↔ member H e.
Proof.
  intros (Hw & Ha & Hr). unfold ORSet.contains. rewrite bool_decide_eq_true.
  rewrite ORSet.elem_of_value by done. unfold ORSet.live, member.
  by setoid_rewrite Ha; setoid_rewrite Hr.
Qed.

(** C2: the ORSet implements the observed-remove specification.  However a set
    was built by adds, removes and merges, it contains an element exactly when
    some add of it is known that no known remove had observed. *)
Theorem orset_refines_observed_remove s H e :
  history s H → ORSet.contains s e = true ↔ member H e.
Proof. intros Hs. by apply represents_contains, history_represents. Qed.

Definition d1 : Dot.t := Dot.mk (CausalActor.mk "n1" 1) 1.
Definition d2 : Dot.t := Dot.mk (CausalActor.mk "n2" 1) 1.
Definition one : ORSet.t := ORSet.add ORSet.empty "x" d1.

(** One replica removes ["x"] while another adds it again: the add wins. *)
Lemma orset_refines_observed_remove_witness :
  ORSet.contains (ORSet.merge (ORSet.remove one "x") (ORSet.add one "x" d2)) "x" = true ∧
  member ([ERemove "x" {[d1]}; EAdd "x" d1] ++ [EAdd "x" d2; EAdd "x" d1]) "x".
Proof.
  split; [vm_compute; reflexivity|].
  apply (orset_refines_observed_remove
           (ORSet.merge (ORSet.remove one "x") (ORSet.add one "x" d2))
           ([ERemove "x" {[d1]}; EAdd "x" d1] ++ [EAdd "x" d2; EAdd "x" d1])).
  - assert (history one [EAdd "x" d1]) as H1 by apply history_add, history_empty.
    apply history_merge; [apply history_remove; [done|]|by apply history_add].
    intros d. rewrite elem_of_singleton, list_elem_of_singleton. split.
    + intros ->. split; [done|]. intros (? & ? & Hin & _). by apply list_elem_of_singleton in Hin.
    + by intros [[= ->] _].
  - vm_compute. reflexivity.
Defined.

(** Add-wins.  An add whose dot the other replica has never seen survives a
    concurrent remove of the same element at that replica, whichever side
    merges. *)
Theorem orset_concurrent_add_wins s s' e d :
  ORSet.wf s → ORSet.wf s' →
  d ∉ ORSet._removed s → d ∉ ORSet._removed s' → d ∉ ORSet.dots_of (ORSet._add_map s') e →
  ORSet.contains (ORSet.merge (ORSet.add s e d) (ORSet.remove s' e)) e = true ∧
  ORSet.contains (ORSet.merge (ORSet.remove s' e) (ORSet.add s e d)) e = true.
Proof.
  intros Hs Hs' H1 H2 H3. unfold ORSet.contains. rewrite !bool_decide_eq_true.
  assert (d ∈ ORSet.dots_of (ORSet._add_map (ORSet.add s e d)) e) as Hin.
  { unfold ORSet.add. rewrite ORSet.add_map_init. unfold ORSet.dots_of. rewrite lookup_insert_eq.
    simpl. set_solver. }
  assert (d ∉ ORSet._removed (ORSet.remove s' e)) as Hnr.
  { unfold ORSet.remove. simpl. rewrite not_elem_of_union, not_elem_of_difference. auto. }
  rewrite !ORSet.elem_of_value by apply ORSet.or_init_wf.
  split; exists d; apply ORSet.live_merge; [apply ORSet.or_init_wf| |apply ORSet.or_init_wf|]; auto.
Qed.

Lemma orset_concurrent_add_wins_witness :
  ORSet.contains (ORSet.remove one "x") "x" = false ∧
  ORSet.contains (ORSet.merge (ORSet.add one "x" d2) (ORSet.remove one "x")) "x" = true ∧
  ORSet.contains (ORSet.merge (ORSet.remove one "x") (ORSet.add one "x" d2)) "x" = true.
Proof.
  split; [vm_compute; reflexivity|].
  apply (orset_concurrent_add_wins one one "x" d2); apply (bool_decide_unpack _); vm_compute; exact I.
Defined.
End ORSetSpec.

(** ** Multi-value registers *)
Module MVRegisterSpec.

(** Writing replaces everything the writer has seen: the register then reads
    back exactly the value written, decoded from its stored text. *)
Theorem mvregister_write_then_read r v d :
  MVRegister.wf r → canonical v →
  d ∉ MVRegister._superseded r → MVRegister._value_map r !! d = None →
  MVRegister.values (MVRegister.write r v d) = Ok [v].
Proof.
  intros Hr Hv Hd Hf.
  destruct (MVRegister.values_visible (MVRegister.write r v d)) as (l & -> & Hnd & Hl);
    [apply MVRegister.mv_init_wf|].
  assert (l = [(d, dumps v)]) as ->; [|simpl; by rewrite loads_dumps].
  assert (∀ d' x, (d', x) ∈ l ↔ d' = d ∧ x = dumps v) as Hl'.
  { intros d' x. rewrite Hl. by apply MVRegister.visible_write. }
  destruct l as [|[d1 x1] [|[d2 x2] l]].
  - assert ((d, dumps v) ∈ @nil (Dot.t * string)) as Hin by by apply Hl'.
    by apply elem_of_nil in Hin.
  - destruct (proj1 (Hl' d1 x1)) as [-> ->]; [left|done].
  - destruct (proj1 (Hl' d1 x1)) as [-> ->]; [left|].
    destruct (proj1 (Hl' d2 x2)) as [-> ->]; [right; left|].
    simpl in Hnd. apply NoDup_cons in Hnd as [[] _]. left.
Qed.

Definition a1 : CausalActor.t := CausalActor.mk "n1" 1.
Definition r1 : MVRegister.t := MVRegister.write MVRegister.empty (JInt 1) (Dot.mk a1 1).

Lemma mvregister_write_then_read_witness :
  MVRegister.values (MVRegister.write r1 (JStr "two") (Dot.mk a1 2)) = Ok [JStr "two"].
Proof.
  apply (mvregister_write_then_read r1 (JStr "two") (Dot.mk a1 2));
    [| exact I | |]; apply (bool_decide_unpack _); vm_compute; exact I.
Defined.

(** Two concurrent writes to a shared register are both kept: after either
    replica merges the other, the visible entries are exactly the two written
    ones. *)
Theorem mvregister_concurrent_writes_kept r v1 d1 v2 d2 m :
  MVRegister.wf r → d1 ≠ d2 →
  d1 ∉ MVRegister._superseded r → MVRegister._value_map r !! d1 = None →
  d2 ∉ MVRegister._superseded r → MVRegister._value_map r !! d2 = None →
  MVRegister.merge (MVRegister.write r v1 d1) (MVRegister.write r v2 d2) = Ok m →
  ∀ d x, MVRegister.visible m d x ↔ (d = d1 ∧ x = dumps v1) ∨ (d = d2 ∧ x = dumps v2).
Proof.
  intros Hr Hne Hs1 Hf1 Hs2 Hf2 Hm d x.
  rewrite (MVRegister.visible_merge _ _ _ _ _ (MVRegister.mv_init_wf _ _) Hm).
  pose proof (MVRegister.visible_write r v1 d1 d x Hr Hs1 Hf1) as H1.
  pose proof (MVRegister.visible_write r v2 d2 d x Hr Hs2 Hf2) as H2.
  unfold MVRegister.visible in H1, H2.
  assert (MVRegister._superseded (MVRegister.write r v1 d1) =
          MVRegister._superseded (MVRegister.write r v2 d2)) as Hsup by done.
  rewrite <-H1, <-H2, Hsup. naive_solver.
Qed.

Lemma mvregister_concurrent_writes_kept_witness :
  ∃ m, MVRegister.merge (MVRegister.write r1 (JInt 2) (Dot.mk a1 2))
                        (MVRegister.write r1 (JInt 3) (Dot.mk (CausalActor.mk "n2" 1) 1)) = Ok m ∧
       MVRegister.values m = Ok [JInt 2; JInt 3] ∧
       MVRegister.visible m (Dot.mk a1 2) (dumps (JInt 2)).
Proof.
  eexists. split; [vm_compute; reflexivity|]. split; [vm_compute; reflexivity|].
  eapply (mvregister_concurrent_writes_kept r1 (JInt 2) (Dot.mk a1 2) (JInt 3)
            (Dot.mk (CausalActor.mk "n2" 1) 1));
    [apply (bool_decide_unpack _); vm_compute; exact I..|vm_compute; reflexivity|by left].
Defined.
End MVRegisterSpec.

(** ** Updates are inflations: merging the old state into the new one changes
    nothing. *)
Module Inflation.
Lemma increment_inflates c a n c' : GCounter.wf c → GCounter.increment c a n = Ok c' → GCounter.merge c c' = c'.
Proof.
  intros Hc E. assert (1 ≤ n) as Hn. { unfold GCounter.increment in E. case_match eqn:En; [done|]. lia. }
  destruct (GCounter.increment_ok c a n Hc Hn) as (b & Eb & Hb & Hcomp & _).
  rewrite E in Eb. injection Eb as <-. apply GCounter.gc_ext; [by apply GCounter.gc_merge_wf|done|].
  intros x. rewrite GCounter.component_merge, Hcomp. case_decide; lia.
Qed.

Lemma add_inflates c v d : ORSet.merge c (ORSet.add c v d) = ORSet.add c v d.
Proof.
  apply ORSet.or_ext; [apply ORSet.or_init_wf..| |].
  - rewrite ORSet.add_map_merge by apply ORSet.or_init_wf. unfold ORSet.add. rewrite ORSet.add_map_init.
    apply map_eq. intros e. rewrite lookup_union_with, lookup_insert. unfold ORSet.dots_of.
    case_decide; subst; destruct (ORSet._add_map c !! _); simpl; try done; f_equal; set_solver.
  - rewrite ORSet.removed_merge. simpl. set_solver.
Qed.

Lemma remove_inflates c v : ORSet.merge c (ORSet.remove c v) = ORSet.remove c v.
Proof.
  apply ORSet.or_ext; [apply ORSet.or_init_wf..| |].
  - rewrite ORSet.add_map_merge by apply ORSet.or_init_wf. unfold ORSet.remove. rewrite ORSet.add_map_init.
    apply map_eq. intros e. rewrite lookup_union_with. destruct (ORSet._add_map c !! e); simpl; [|done].
    f_equal. set_solver.
  - rewrite ORSet.removed_merge. simpl. set_solver.
Qed.

Lemma write_inflates c v d : MVRegister._value_map c !! d = None →
  MVRegister.merge c (MVRegister.write c v d) = Ok (MVRegister.write c v d).
Proof.
  intros Hd. assert (MVRegister._value_map (MVRegister.write c v d) =
    <[d := MVRegister._canonical_json v]> (MVRegister._value_map c)) as Hv by apply MVRegister.value_map_init.
  rewrite MVRegister.merge_ok; [|apply MVRegister.mv_init_wf|].
  - f_equal. apply MVRegister.mv_ext; [apply MVRegister.mv_init_wf..| |].
    + rewrite MVRegister.value_map_init, Hv. apply map_eq. intros x.
      destruct (decide (x = d)) as [->|Hne]; [by rewrite lookup_union, Hd, lookup_insert_eq|].
      rewrite lookup_union, lookup_insert_ne by done. by destruct (_ !! x).
    + simpl. set_solver.
  - rewrite Hv. intros x y z Hy. destruct (decide (x = d)) as [->|Hne]; [congruence|].
    rewrite lookup_insert_ne by done. congruence.
Qed.
End Inflation.
