(* ===== verification/Storage.v ===== *)
(** * CRDT storage: [distsys/storage]

    [StoredCrdtEntry], [merge_entries] and the in-memory [CrdtStore].  Every store
    method runs under the store's locks, so it is one atomic step; a method that
    raises leaves the entries as they were. *)

From S2P Require Import Prelude Lattice Causal Json Crdt.

Local Open Scope Z_scope.

(** ** [storage/models.py] *)

Inductive CrdtState :=
  | SGCounter (s : GCounter.t)
  | SPNCounter (s : PNCounter.t)
  | SORSet (s : ORSet.t)
  | SMVRegister (s : MVRegister.t).

#[export] Instance CrdtState_eq_dec : EqDecision CrdtState.
Proof. solve_decision. Defined.

(** [type(state)], as the [CrdtType] [_EXPECTED_STATE] associates with it. *)
Definition type_of_state (s : CrdtState) : CrdtType :=
  match s with
  | SGCounter _ => GCOUNTER | SPNCounter _ => PNCOUNTER | SORSet _ => ORSET
  | SMVRegister _ => MVREGISTER
  end.

Definition state_wf (s : CrdtState) : Prop :=
  match s with
  | SGCounter s => GCounter.wf s
  | SPNCounter s => PNCounter.wf s
  | SORSet s => ORSet.wf s
  | SMVRegister s => MVRegister.wf s
  end.

#[export] Instance state_wf_dec s : Decision (state_wf s).
Proof. destruct s; simpl; apply _. Defined.
#[global] Typeclasses Opaque state_wf.

(** [_merge_state] *)
Definition _merge_state (left right : CrdtState) : result CrdtState :=
  match left, right with
  | SGCounter l, SGCounter r => Ok (SGCounter (GCounter.merge l r))
  | SPNCounter l, SPNCounter r => Ok (SPNCounter (PNCounter.merge l r))
  | SORSet l, SORSet r => Ok (SORSet (ORSet.merge l r))
  | SMVRegister l, SMVRegister r => m ← MVRegister.merge l r; Ok (SMVRegister m)
  | _, _ => raise TypeError "cannot merge different CRDT state types"
  end.

Lemma merge_state_type a b c : _merge_state a b = Ok c →
  type_of_state c = type_of_state a ∧ type_of_state b = type_of_state a.
Proof.
  destruct a, b; simpl; try done; [by intros [= <-]..|].
  intros (m & _ & [= <-])%bind_Ok_inv. done.
Qed.

#[export] Instance state_mergeable : Mergeable CrdtState.
Proof.
  refine {| m_wf := state_wf; m_merge := _merge_state |}.
  - intros [] [] c; simpl; try done; intros Ha Hb; [intros [= <-]..|].
    + exact (m_merge_wf (A:=GCounter.t) s s0 _ Ha Hb eq_refl).
    + exact (m_merge_wf (A:=PNCounter.t) s s0 _ Ha Hb eq_refl).
    + exact (m_merge_wf (A:=ORSet.t) s s0 _ Ha Hb eq_refl).
    + intros (m & Hm & [= <-])%bind_Ok_inv. exact (m_merge_wf (A:=MVRegister.t) s s0 m Ha Hb Hm).
  - intros [s|s|s|s] Hs; simpl in *.
    + pose proof (m_merge_idemp (A:=GCounter.t) s Hs) as E. simpl in E. congruence.
    + pose proof (m_merge_idemp (A:=PNCounter.t) s Hs) as E. simpl in E. congruence.
    + pose proof (m_merge_idemp (A:=ORSet.t) s Hs) as E. simpl in E. congruence.
    + by rewrite MVRegister.mv_merge_idemp.
  - intros [s|s|s|s] [s'|s'|s'|s'] Hs Hs'; simpl in *; try done.
    + unfold equiv; simpl. f_equal. exact (m_merge_comm (A:=GCounter.t) s s' Hs Hs').
    + unfold equiv; simpl. f_equal. exact (m_merge_comm (A:=PNCounter.t) s s' Hs Hs').
    + unfold equiv; simpl. f_equal. exact (m_merge_comm (A:=ORSet.t) s s' Hs Hs').
    + by rewrite (MVRegister.mv_merge_comm s s').
  - intros [a|a|a|a] [b|b|b|b] [c|c|c|c] Ha Hb Hc; simpl in *; try done;
      try (by destruct (MVRegister.merge a b)); try (by destruct (MVRegister.merge b c)).
    + unfold equiv; simpl. f_equal. exact (m_merge_assoc (A:=GCounter.t) a b c Ha Hb Hc).
    + unfold equiv; simpl. f_equal. exact (m_merge_assoc (A:=PNCounter.t) a b c Ha Hb Hc).
    + unfold equiv; simpl. f_equal. exact (m_merge_assoc (A:=ORSet.t) a b c Ha Hb Hc).
    + pose proof (MVRegister.merge_three a b c Ha Hb Hc) as H3.
      destruct (MVRegister.merge a b) as [ab|], (MVRegister.merge b c) as [bc|]; simpl in *;
        try (destruct (MVRegister.merge ab c)); try (destruct (MVRegister.merge a bc)); try done.
      unfold equiv in *; simpl in *. congruence.
Defined.

Lemma merge_state_idemp s : state_wf s → _merge_state s s = Ok s.
Proof. exact (m_merge_idemp s). Qed.

Lemma merge_state_comm a b : state_wf a → state_wf b → _merge_state a b ≡ _merge_state b a.
Proof. exact (m_merge_comm a b). Qed.

Lemma merge_state_assoc a b c : state_wf a → state_wf b → state_wf c →
  (_merge_state a b ≫= λ ab, _merge_state ab c) ≡ (_merge_state b c ≫= λ bc, _merge_state a bc).
Proof. exact (m_merge_assoc a b c). Qed.

Module StoredCrdtEntry.
Record t := mk {
  key : string;
  crdt_type : CrdtType;
  state : CrdtState;
  state_version : VersionVector.t;
  causal_context : VersionVector.t;
}.

#[export] Instance eq_dec : EqDecision t.
Proof. solve_decision. Defined.

(** [__post_init__] *)
Definition make (key : string) (crdt_type : CrdtType) (state : CrdtState)
    (state_version causal_context : VersionVector.t) : result t :=
  if negb (nonempty key) then raise ValueError "key must not be empty"
  else if negb (bool_decide (type_of_state state = crdt_type))
  then raise TypeError "state does not match crdt_type"
  else Ok (mk key crdt_type state state_version causal_context).

Definition with_context (self : t) (causal_context : VersionVector.t) : result t :=
  make (key self) (crdt_type self) (state self) (state_version self) causal_context.

Definition wf (e : t) : Prop :=
  key e ≠ "" ∧ type_of_state (state e) = crdt_type e ∧ state_wf (state e) ∧
  VersionVector.wf (state_version e) ∧ VersionVector.wf (causal_context e).

#[export] Instance wf_dec e : Decision (wf e).
Proof. unfold wf. apply _. Defined.
#[global] Typeclasses Opaque wf.

Lemma entry_make_ok k ty s v c : k ≠ "" → type_of_state s = ty → make k ty s v c = Ok (mk k ty s v c).
Proof.
  intros Hk Hs. unfold make, nonempty.
  by rewrite bool_decide_eq_false_2, bool_decide_eq_true_2.
Qed.

Lemma with_context_ok e c : wf e →
  with_context e c = Ok (mk (key e) (crdt_type e) (state e) (state_version e) c).
Proof. intros (? & ? & _). by apply entry_make_ok. Qed.
End StoredCrdtEntry.
Export (hints) StoredCrdtEntry.
Import StoredCrdtEntry (key, crdt_type, state, state_version, causal_context).

(** ** [storage/crdt_store.py] *)

Definition merge_entries (left right : StoredCrdtEntry.t) : result StoredCrdtEntry.t :=
  if negb (bool_decide (key left = key right))
  then raise ValueError "cannot merge entries with different keys"
  else if negb (bool_decide (crdt_type left = crdt_type right))
  then raise TypeError "cannot merge different CRDT types for one key"
  else
    merged ← _merge_state (state left) (state right);
    StoredCrdtEntry.make (key left) (crdt_type left) merged
      (VersionVector.merge (state_version left) (state_version right))
      (VersionVector.merge (causal_context left) (causal_context right)).

(** What [merge_entries] does on well-formed entries. *)
Lemma merge_entries_cases l r : StoredCrdtEntry.wf l → StoredCrdtEntry.wf r →
  merge_entries l r ≡
  if bool_decide (key l = key r ∧ crdt_type l = crdt_type r) then
    s ← _merge_state (state l) (state r);
    Ok (StoredCrdtEntry.mk (key l) (crdt_type l) s
          (VersionVector.merge (state_version l) (state_version r))
          (VersionVector.merge (causal_context l) (causal_context r)))
  else raise ValueError "".
Proof.
  intros (Hk & Ht & _) Hr. unfold merge_entries.
  destruct (decide (key l = key r)) as [Ek|Ek].
  - rewrite (bool_decide_eq_true_2 (key l = key r)) by done. simpl.
    destruct (decide (crdt_type l = crdt_type r)) as [Et|Et].
    + rewrite !bool_decide_eq_true_2 by done. simpl.
      apply result_bind_ext. intros s [Hs _]%merge_state_type.
      by rewrite StoredCrdtEntry.entry_make_ok by congruence.
    + rewrite (bool_decide_eq_false_2 (crdt_type l = crdt_type r)) by done.
      by rewrite (bool_decide_eq_false_2 (key l = key r ∧ _)) by naive_solver.
  - rewrite (bool_decide_eq_false_2 (key l = key r)) by done.
    by rewrite (bool_decide_eq_false_2 (key l = key r ∧ _)) by naive_solver.
Qed.

Lemma merge_entries_inv l r e : StoredCrdtEntry.wf l → StoredCrdtEntry.wf r →
  merge_entries l r = Ok e →
  key l = key r ∧ crdt_type l = crdt_type r ∧ key e = key l ∧ crdt_type e = crdt_type l ∧
  _merge_state (state l) (state r) = Ok (state e) ∧
  state_version e = VersionVector.merge (state_version l) (state_version r) ∧
  causal_context e = VersionVector.merge (causal_context l) (causal_context r).
Proof.
  intros Hl Hr E. pose proof (merge_entries_cases l r Hl Hr) as H. rewrite E in H.
  case_bool_decide as Hd; [|done]. destruct Hd as [Hk Ht].
  destruct (_merge_state (state l) (state r)) as [s|]; [|done].
  unfold equiv in H; simpl in H; subst. by split_and!.
Qed.

Lemma merge_entries_wf l r e : StoredCrdtEntry.wf l → StoredCrdtEntry.wf r →
  merge_entries l r = Ok e → StoredCrdtEntry.wf e.
Proof.
  intros Hl Hr E. destruct (merge_entries_inv l r e Hl Hr E) as (?&?&Ek&Et&Es&Ev&Ec).
  destruct Hl as (Hk & Ht & Hs & Hv & Hc), Hr as (Hk' & Ht' & Hs' & Hv' & Hc').
  pose proof (merge_state_type _ _ _ Es) as [HT _].
  unfold StoredCrdtEntry.wf. rewrite Ek, Et, Ev, Ec. split_and!; auto with distsys.
  - congruence.
  - exact (m_merge_wf (A:=CrdtState) (state l) (state r) _ Hs Hs' Es).
Qed.

(** Entries of one register. *)
Definition same_slot (l r : StoredCrdtEntry.t) : Prop :=
  key l = key r ∧ crdt_type l = crdt_type r.

Lemma merge_entries_slot l r e : StoredCrdtEntry.wf l → StoredCrdtEntry.wf r →
  merge_entries l r = Ok e → same_slot l r ∧ same_slot e l ∧ StoredCrdtEntry.wf e.
Proof.
  intros Hl Hr E. pose proof (merge_entries_wf _ _ _ Hl Hr E).
  apply merge_entries_inv in E as (?&?&?&?&_); [|done..]. by split_and!.
Qed.

Lemma merge_entries_err l r e : StoredCrdtEntry.wf l → StoredCrdtEntry.wf r → same_slot l r →
  merge_entries l r = Err e → ∃ e', _merge_state (state l) (state r) = Err e'.
Proof.
  intros Hl Hr Hs E. pose proof (merge_entries_cases l r Hl Hr) as C. rewrite E in C.
  rewrite bool_decide_eq_true_2 in C by done.
  destruct (_merge_state (state l) (state r)); [done|eauto].
Qed.

Lemma merge_entries_state_err l r e : StoredCrdtEntry.wf l → StoredCrdtEntry.wf r →
  _merge_state (state l) (state r) = Err e → ∃ e', merge_entries l r = Err e'.
Proof.
  intros Hl Hr E. destruct (merge_entries l r) as [x|] eqn:Ex; [|eauto].
  apply merge_entries_inv in Ex as (_&_&_&_&?&_); [congruence|done..].
Qed.

Lemma merge_entries_assoc_same a b c :
  StoredCrdtEntry.wf a → StoredCrdtEntry.wf b → StoredCrdtEntry.wf c →
  same_slot a b → same_slot b c →
  (merge_entries a b ≫= λ ab, merge_entries ab c) ≡ (merge_entries b c ≫= λ bc, merge_entries a bc).
Proof.
  intros Ha Hb Hc [K1 T1] [K2 T2].
  pose proof Ha as (_ & _ & Hsa & Hva & Hca). pose proof Hb as (_ & _ & Hsb & Hvb & Hcb).
  pose proof Hc as (_ & _ & Hsc & Hvc & Hcc).
  pose proof (merge_state_assoc _ _ _ Hsa Hsb Hsc) as HA.
  destruct (merge_entries a b) as [ab|e] eqn:E1, (merge_entries b c) as [bc|e'] eqn:E2; simpl;
    try (pose proof (merge_entries_wf _ _ _ Ha Hb E1));
    try (pose proof (merge_entries_wf _ _ _ Hb Hc E2)); [..|done].
  - apply merge_entries_inv in E1 as (_&_&Ek&Et&Es&Ev&Ec); [|done..].
    apply merge_entries_inv in E2 as (_&_&Ek'&Et'&Es'&Ev'&Ec'); [|done..].
    rewrite Es, Es' in HA. simpl in HA. rewrite !merge_entries_cases by done.
    rewrite !bool_decide_eq_true_2 by (split; congruence).
    rewrite Ev, Ev', Ec, Ec', !VersionVector.vv_merge_assoc, Ek, Et by done. by rewrite HA.
  - apply merge_entries_err in E2 as [x Ex]; [|done..].
    apply merge_entries_inv in E1 as (_&_&_&_&Es&_); [|done..]. rewrite Es, Ex in HA. simpl in HA.
    destruct (_merge_state (state ab) (state c)) as [|y] eqn:Ey; [done|].
    apply merge_entries_state_err in Ey as [? ->]; done.
  - apply merge_entries_err in E1 as [x Ex]; [|done..].
    apply merge_entries_inv in E2 as (_&_&_&_&Es&_); [|done..]. rewrite Es, Ex in HA. simpl in HA.
    destruct (_merge_state (state a) (state bc)) as [|y] eqn:Ey; [done|].
    apply merge_entries_state_err in Ey as [? ->]; done.
Qed.

Lemma merge_entries_assoc a b c :
  StoredCrdtEntry.wf a → StoredCrdtEntry.wf b → StoredCrdtEntry.wf c →
  (merge_entries a b ≫= λ ab, merge_entries ab c) ≡ (merge_entries b c ≫= λ bc, merge_entries a bc).
Proof.
  intros Ha Hb Hc. destruct (decide (same_slot a b ∧ same_slot b c)) as [[??]|Hn].
  { by apply merge_entries_assoc_same. }
  unfold same_slot in Hn.
  destruct (merge_entries a b) as [ab|e] eqn:E1, (merge_entries b c) as [bc|e'] eqn:E2; simpl;
    [|destruct (merge_entries ab c) eqn:E3|destruct (merge_entries a bc) eqn:E3|]; try done.
  - apply merge_entries_slot in E1 as ([]&[]&?); [|done..].
    apply merge_entries_slot in E2 as ([]&[]&?); [|done..]. destruct Hn. split; split; congruence.
  - apply merge_entries_slot in E1 as ([]&[]&?); [|done..].
    apply merge_entries_slot in E3 as ([]&[]&?); [|done..]. destruct Hn. split; split; congruence.
  - apply merge_entries_slot in E2 as ([]&[]&?); [|done..].
    apply merge_entries_slot in E3 as ([]&[]&?); [|done..]. destruct Hn. split; split; congruence.
Qed.

Lemma merge_entries_idemp e : StoredCrdtEntry.wf e → merge_entries e e = Ok e.
Proof.
  intros He. apply result_equiv_Ok. rewrite merge_entries_cases by done.
  rewrite bool_decide_eq_true_2 by done. destruct He as (_ & _ & Hs & Hv & Hc).
  rewrite merge_state_idemp by done. simpl.
  rewrite !VersionVector.vv_merge_idemp by done. by destruct e.
Qed.

Lemma merge_entries_comm a b : StoredCrdtEntry.wf a → StoredCrdtEntry.wf b →
  merge_entries a b ≡ merge_entries b a.
Proof.
  intros Ha Hb. rewrite !merge_entries_cases by done.
  pose proof Ha as (_ & _ & Hs & Hv & Hc). pose proof Hb as (_ & _ & Hs' & Hv' & Hc').
  rewrite (bool_decide_ext (key b = key a ∧ crdt_type b = crdt_type a)
             (key a = key b ∧ crdt_type a = crdt_type b)) by naive_solver.
  case_bool_decide as E; [|done]. destruct E as [-> ->].
  rewrite (merge_state_comm (state a)) by done.
  by rewrite (VersionVector.vv_merge_comm (state_version a)),
    (VersionVector.vv_merge_comm (causal_context a)).
Qed.

#[export] Instance entry_mergeable : Mergeable StoredCrdtEntry.t := {|
  m_wf := StoredCrdtEntry.wf; m_merge := merge_entries;
  m_merge_wf := merge_entries_wf; m_merge_idemp := merge_entries_idemp;
  m_merge_comm := merge_entries_comm; m_merge_assoc := merge_entries_assoc;
|}.

Module CrdtStore.
(** [_entries]; the lock dictionaries only order the steps. *)
Abbreviation t := (gmap string StoredCrdtEntry.t).

Definition init : t := ∅.

Definition get (key : string) : M t (option StoredCrdtEntry.t) := gets (lookup key).

Definition snapshot (key : string) : M t (option StoredCrdtEntry.t) := get key.

Definition put_if_absent (entry : StoredCrdtEntry.t) : M t StoredCrdtEntry.t :=
  existing ← get (key entry);
  match existing with
  | None => _ ← modifyM <[key entry := entry]>; mret entry
  | Some existing =>
      if negb (bool_decide (crdt_type existing = crdt_type entry))
      then raiseM TypeError "cannot change CRDT type for existing key"
      else mret existing
  end.

Definition replace (entry : StoredCrdtEntry.t) (expected_type : option CrdtType)
    : M t StoredCrdtEntry.t :=
  existing ← get (key entry);
  match existing with
  | Some existing =>
      match expected_type with
      | Some expected =>
          if negb (bool_decide (crdt_type existing = expected))
          then raiseM TypeError "existing CRDT type does not match expected type"
          else if negb (bool_decide (crdt_type existing = crdt_type entry))
          then raiseM TypeError "cannot change CRDT type for existing key"
          else _ ← modifyM <[key entry := entry]>; mret entry
      | None =>
          if negb (bool_decide (crdt_type existing = crdt_type entry))
          then raiseM TypeError "cannot change CRDT type for existing key"
          else _ ← modifyM <[key entry := entry]>; mret entry
      end
  | None => _ ← modifyM <[key entry := entry]>; mret entry
  end.

Definition merge_entry (incoming : StoredCrdtEntry.t) : M t StoredCrdtEntry.t :=
  existing ← get (key incoming);
  match existing with
  | None => replace incoming None
  | Some existing =>
      merged ← liftM (merge_entries existing incoming);
      replace merged (Some (crdt_type existing))
  end.

Definition merge_metadata (k : string) (context : VersionVector.t) : M t (option StoredCrdtEntry.t) :=
  existing ← get k;
  match existing with
  | None => mret None
  | Some existing =>
      updated ← liftM (StoredCrdtEntry.with_context existing
                         (VersionVector.merge (causal_context existing) context));
      r ← replace updated (Some (crdt_type existing));
      mret (Some r)
  end.

Definition keys : M t (list string) := gets (λ s, py_sorted (dom s)).

(** [entries[:limit]] of the entries in key order. *)
Definition snapshot_all (limit : option Z) : M t (list StoredCrdtEntry.t) :=
  entries ← gets (λ s, (sorted_items s).*2);
  match limit with
  | None => mret entries
  | Some limit =>
      if limit <? 0 then raiseM ValueError "limit must be non-negative"
      else mret (take (Z.to_nat limit) entries)
  end.

(** Every entry is stored under its own key and is well formed. *)
Definition wf (s : t) : Prop :=
  map_Forall (λ k e, key e = k ∧ StoredCrdtEntry.wf e) s.

#[export] Instance wf_dec s : Decision (wf s).
Proof. unfold wf. apply _. Defined.
#[global] Typeclasses Opaque wf.

Lemma store_wf_init : wf init.
Proof. apply map_Forall_empty. Qed.

Lemma store_wf_insert s e : wf s → StoredCrdtEntry.wf e → wf (<[key e := e]> s).
Proof. intros Hs He. by apply map_Forall_insert_2. Qed.

(** [merge_entry] on a well-formed store: the merge of the two entries, or an
    exception that leaves the store alone. *)
Lemma merge_entry_spec s e : wf s → StoredCrdtEntry.wf e →
  merge_entry e s =
  match s !! key e with
  | None => (Ok e, <[key e := e]> s)
  | Some x => match merge_entries x e with
              | Ok m => (Ok m, <[key e := m]> s)
              | Err err => (Err err, s)
              end
  end.
Proof.
  intros Hs He. unfold merge_entry, get, replace, gets, mbind, M_bind, liftM. simpl.
  destruct (s !! key e) as [x|] eqn:E; simpl; [|by rewrite E].
  destruct (merge_entries x e) as [m|err] eqn:Em; [|done]. apply Hs in E as E'.
  destruct E' as [Ek Hx]. apply merge_entries_inv in Em as (K1&T1&K2&T2&_); [|done..].
  assert (key m = key e) as -> by congruence. rewrite E. simpl.
  by rewrite !bool_decide_eq_true_2.
Qed.

Lemma merge_entry_wf s e : wf s → StoredCrdtEntry.wf e → wf (merge_entry e s).2.
Proof.
  intros Hs He. rewrite merge_entry_spec by done. destruct (s !! key e) as [x|] eqn:E; simpl.
  - apply Hs in E as [Ek Hx]. destruct (merge_entries x e) as [m|] eqn:Em; [|done]. simpl.
    pose proof (merge_entries_wf _ _ _ Hx He Em). apply merge_entries_inv in Em as (?&?&?&?&_); [|done..].
    assert (key e = key m) as -> by congruence. by apply store_wf_insert.
  - by apply store_wf_insert.
Qed.

(** The entry whose context has learned [c]. *)
Definition learned (e : StoredCrdtEntry.t) (c : VersionVector.t) : StoredCrdtEntry.t :=
  StoredCrdtEntry.mk (key e) (crdt_type e) (state e) (state_version e)
    (VersionVector.merge (causal_context e) c).

Lemma learned_wf e c : StoredCrdtEntry.wf e → VersionVector.wf c → StoredCrdtEntry.wf (learned e c).
Proof. intros (? & ? & ? & ? & ?) ?. split_and!; simpl; auto with distsys. Qed.

Lemma merge_metadata_spec k c s : wf s →
  merge_metadata k c s =
  match s !! k with
  | None => (Ok None, s)
  | Some x => (Ok (Some (learned x c)), <[k := learned x c]> s)
  end.
Proof.
  intros Hs. unfold merge_metadata, get, gets, mbind, M_bind, liftM.
  destruct (s !! k) as [x|] eqn:E; [|done]. pose proof (Hs _ _ E) as [<- Hx].
  rewrite StoredCrdtEntry.with_context_ok by done. unfold replace, get, gets, mbind, M_bind. simpl.
  rewrite E. by rewrite !bool_decide_eq_true_2.
Qed.

Lemma merge_metadata_wf k c s : wf s → VersionVector.wf c → wf (merge_metadata k c s).2.
Proof.
  intros Hs Hc. rewrite merge_metadata_spec by done. destruct (s !! k) as [x|] eqn:E; [|done]. simpl.
  apply Hs in E as [<- Hx]. apply (store_wf_insert s (learned x c)); [done|by apply learned_wf].
Qed.

Lemma replace_cases e t s :
  replace e t s = (Ok e, <[key e := e]> s) ∨ ∃ msg, replace e t s = (raise TypeError msg, s).
Proof.
  unfold replace, get, gets, mbind, M_bind. destruct (s !! key e) as [x|] eqn:E; [|by left].
  destruct t as [t|]; simpl; repeat case_bool_decide; simpl; eauto.
Qed.

(** A replica that receives the entries of [l] one by one. *)
Fixpoint deliver_all (s : t) (l : list StoredCrdtEntry.t) : result t :=
  match l with
  | [] => Ok s
  | e :: l => match merge_entry e s with
              | (Ok _, s') => deliver_all s' l
              | (Err err, _) => Err err
              end
  end.

(** What becomes of one key. *)
Definition key_outcome (o : option StoredCrdtEntry.t) (l : list StoredCrdtEntry.t)
    : result (option StoredCrdtEntry.t) :=
  match o, l with
  | None, [] => Ok None
  | None, e :: l => m ← merge_all e l; Ok (Some m)
  | Some e, l => m ← merge_all e l; Ok (Some m)
  end.

Definition for_key (k : string) (l : list StoredCrdtEntry.t) : list StoredCrdtEntry.t :=
  filter (λ e, key e = k) l.

Lemma for_key_wf k l : Forall StoredCrdtEntry.wf l → Forall StoredCrdtEntry.wf (for_key k l).
Proof. rewrite !Forall_forall. intros H e [_ He]%list_elem_of_filter. auto. Qed.

Lemma key_outcome_cons o e l :
  key_outcome o (e :: l) =
  match o with
  | None => key_outcome (Some e) l
  | Some x => m ← merge_entries x e; key_outcome (Some m) l
  end.
Proof. destruct o as [x|]; [|done]. simpl. by destruct (merge_entries x e). Qed.

Lemma deliver_all_keys s l s' : wf s → Forall StoredCrdtEntry.wf l →
  deliver_all s l = Ok s' → ∀ k, key_outcome (s !! k) (for_key k l) = Ok (s' !! k).
Proof.
  intros Hs Hl. revert s Hs. induction Hl as [|e l He Hl IH]; intros s Hs E k; simpl in E.
  { simplify_eq. simpl. by destruct (s' !! k). }
  pose proof (merge_entry_wf s e Hs He) as Hs1. rewrite merge_entry_spec in E, Hs1 by done.
  unfold for_key. rewrite filter_cons. destruct (s !! key e) as [x|] eqn:Ex;
    [destruct (merge_entries x e) as [m|] eqn:Em; [|done]|];
    specialize (IH _ Hs1 E k); cbn [snd] in IH; (case_decide as Hk; [subst k|by rewrite lookup_insert_ne in IH]).
  - rewrite lookup_insert_eq in IH. by rewrite Ex, key_outcome_cons, Em.
  - rewrite lookup_insert_eq in IH. by rewrite Ex, key_outcome_cons.
Qed.

Lemma deliver_all_ok s l : wf s → Forall StoredCrdtEntry.wf l →
  (∀ k, is_ok (key_outcome (s !! k) (for_key k l)) = true) → ∃ s', deliver_all s l = Ok s'.
Proof.
  intros Hs Hl. revert s Hs. induction Hl as [|e l He Hl IH]; intros s Hs Hk; simpl; [eauto|].
  pose proof (merge_entry_wf s e Hs He) as Hs1. rewrite merge_entry_spec in Hs1 |- * by done.
  pose proof (Hk (key e)) as Hke. unfold for_key in Hke.
  rewrite filter_cons, decide_True, key_outcome_cons in Hke by done.
  destruct (s !! key e) as [x|] eqn:Ex; [destruct (merge_entries x e) as [m|] eqn:Em; [|done]|];
    (apply IH; [done|]); intros k; (destruct (decide (key e = k)) as [<-|Hne];
      [by rewrite lookup_insert_eq|]); rewrite lookup_insert_ne by done;
    specialize (Hk k); unfold for_key in Hk; by rewrite filter_cons, decide_False in Hk.
Qed.

Lemma merge_all_head_swap e l e' l' :
  StoredCrdtEntry.wf e → Forall StoredCrdtEntry.wf l → StoredCrdtEntry.wf e' →
  Forall StoredCrdtEntry.wf l' → (∀ x, x ∈ e :: l ↔ x ∈ e' :: l') →
  merge_all e l ≡ merge_all e' l'.
Proof.
  intros He Hl He' Hl' Hset.
  assert (∀ x k, StoredCrdtEntry.wf x → merge_all x (x :: k) = merge_all x k) as Hid.
  { intros x k Hx. simpl. by rewrite merge_entries_idemp. }
  rewrite <-(Hid e) by done.
  rewrite (merge_all_same_set e (e :: l) (e' :: l')) by (done || by apply Forall_cons).
  assert (merge_all e (e' :: l') ≡ merge_all e' (e :: l')) as ->.
  { simpl. by rewrite (merge_entries_comm e e'). }
  rewrite <-(Hid e' (e :: l')), <-(Hid e' l') by done.
  apply merge_all_same_set; [done|rewrite !Forall_cons; done|].
  intros x. assert (e ∈ e' :: l') as Hin by (apply Hset; left). split.
  - intros [->|[->|Hx]%elem_of_cons]%elem_of_cons; [left|done|by right].
  - intros [->|Hx]%elem_of_cons; [left|by do 2 right].
Qed.

Lemma key_outcome_same_set o l1 l2 :
  match o with Some x => StoredCrdtEntry.wf x | None => True end →
  Forall StoredCrdtEntry.wf l1 → Forall StoredCrdtEntry.wf l2 →
  (∀ x, x ∈ l1 ↔ x ∈ l2) → key_outcome o l1 ≡ key_outcome o l2.
Proof.
  intros Ho H1 H2 Hset. destruct o as [x|]; simpl.
  - by rewrite (merge_all_same_set x l1 l2).
  - destruct l1 as [|e1 l1], l2 as [|e2 l2].
    + done.
    + exfalso. apply (not_elem_of_nil e2), Hset. left.
    + exfalso. apply (not_elem_of_nil e1), Hset. left.
    + apply Forall_cons in H1 as [??]. apply Forall_cons in H2 as [??].
      by rewrite (merge_all_head_swap e1 l1 e2 l2).
Qed.

Lemma deliver_all_converges s l1 l2 s1 :
  wf s → Forall StoredCrdtEntry.wf l1 → (∀ e, e ∈ l1 ↔ e ∈ l2) →
  deliver_all s l1 = Ok s1 → deliver_all s l2 = Ok s1.
Proof.
  intros Hs H1 Hset E.
  assert (Forall StoredCrdtEntry.wf l2) as H2.
  { rewrite Forall_forall in *. intros e He. by apply H1, Hset. }
  assert (∀ k, key_outcome (s !! k) (for_key k l2) = Ok (s1 !! k)) as Hk.
  { intros k. apply result_equiv_Ok. rewrite <-(deliver_all_keys s l1 s1 Hs H1 E k).
    apply key_outcome_same_set; [|by apply for_key_wf..|].
    - destruct (s !! k) eqn:Ek; [|done]. by apply Hs in Ek as [_ ?].
    - intros x. unfold for_key. rewrite !list_elem_of_filter. by rewrite Hset. }
  destruct (deliver_all_ok s l2 Hs H2) as [s2 E2]; [intros k; by rewrite Hk|].
  rewrite E2. f_equal. apply map_eq. intros k.
  pose proof (deliver_all_keys s l2 s2 Hs H2 E2 k) as Hk2. rewrite Hk in Hk2. congruence.
Qed.

(** C1: strong eventual consistency of the store.  Replication, gossip and
    anti-entropy may deliver entries in any order and any number of times: two
    stores that start equal and receive the same set of entries end in the same
    state, and if every merge succeeds in one order it succeeds in every other. *)
Theorem store_strong_eventual_consistency s l1 l2 s1 :
  wf s → Forall StoredCrdtEntry.wf l1 → (∀ e, e ∈ l1 ↔ e ∈ l2) →
  deliver_all s l1 = Ok s1 → deliver_all s l2 = Ok s1.
Proof. apply deliver_all_converges. Qed.

Definition a1 : CausalActor.t := CausalActor.mk "n1" 1.
Definition a2 : CausalActor.t := CausalActor.mk "n2" 1.
Definition sample_register (a : CausalActor.t) (v : json) : StoredCrdtEntry.t :=
  let version := VersionVector.build {[a := 1]} in
  StoredCrdtEntry.mk "k" MVREGISTER
    (SMVRegister (MVRegister.write MVRegister.empty v (Dot.mk a 1))) version version.
Definition sample_set (a : CausalActor.t) : StoredCrdtEntry.t :=
  let version := VersionVector.build {[a := 2]} in
  StoredCrdtEntry.mk "s" ORSET (SORSet (ORSet.add ORSet.empty "x" (Dot.mk a 2))) version version.

Lemma store_strong_eventual_consistency_witness :
  ∃ s1, deliver_all init [sample_register a1 (JInt 1); sample_set a1; sample_register a2 (JStr "b")] = Ok s1 ∧
    size s1 = 2%nat ∧
    deliver_all init [sample_register a2 (JStr "b"); sample_register a1 (JInt 1);
                      sample_register a2 (JStr "b"); sample_set a1] = Ok s1.
Proof.
  eexists. split; [vm_compute; reflexivity|]. split; [vm_compute; reflexivity|].
  eapply (store_strong_eventual_consistency init
            [sample_register a1 (JInt 1); sample_set a1; sample_register a2 (JStr "b")]).
  - apply (bool_decide_unpack _). vm_compute. exact I.
  - apply (bool_decide_unpack _). vm_compute. exact I.
  - intros e. rewrite !elem_of_cons, elem_of_nil. tauto.
  - vm_compute. reflexivity.
Defined.

(** Merging is monotone: an entry delivered to a store is contained in what
    the store then holds under its key (merging it again changes nothing), and no
    other key is touched. *)
Theorem merge_entry_contains_incoming s e m :
  wf s → StoredCrdtEntry.wf e → (merge_entry e s).1 = Ok m →
  let s' := (merge_entry e s).2 in
  wf s' ∧ s' !! key e = Some m ∧ m_le e m ∧
  (∀ x, s !! key e = Some x → m_le x m) ∧ ∀ k, k ≠ key e → s' !! k = s !! k.
Proof.
  intros Hs He Hm. pose proof (merge_entry_wf s e Hs He) as Hw.
  rewrite merge_entry_spec in Hm, Hw |- * by done. cbv zeta.
  destruct (s !! key e) as [x|] eqn:Ex; [destruct (merge_entries x e) as [y|] eqn:Ey; [|done]|];
    simpl in *; simplify_eq; (split_and!; [done|by rewrite lookup_insert_eq|..]).
  - apply Hs in Ex as [_ Hx]. by apply (m_le_merge_r x e).
  - intros ? [= <-]. apply Hs in Ex as [_ Hx]. by apply (m_le_merge_l x e).
  - intros k Hk. by rewrite lookup_insert_ne.
  - by apply m_le_refl.
  - done.
  - intros k Hk. by rewrite lookup_insert_ne.
Qed.

Lemma merge_entry_contains_incoming_witness :
  ∃ m, (merge_entry (sample_register a2 (JInt 2)) {["k" := sample_register a1 (JInt 1)]}).1 = Ok m ∧
       m_le (sample_register a2 (JInt 2)) m.
Proof.
  eexists. split; [vm_compute; reflexivity|].
  refine (proj1 (proj2 (proj2 (merge_entry_contains_incoming
            {["k" := sample_register a1 (JInt 1)]} (sample_register a2 (JInt 2)) _ _ _ _)))).
  - apply (bool_decide_unpack _). vm_compute. exact I.
  - apply (bool_decide_unpack _). vm_compute. exact I.
  - vm_compute. reflexivity.
Defined.


End CrdtStore.
Export (hints) CrdtStore.
