(* ===== verification/Resilience.v ===== *)
(** * Resilience primitives: [distsys/resilience]

    Admission control, circuit breaker, deadlines, retries and the token bucket.
    A clock reading is an argument of the operation that reads it.  Times and
    durations of the breaker, the deadline and the retry loop are integers in
    an arbitrary fixed unit; the token bucket, which multiplies them by a rate,
    uses rationals.  Floating-point rounding is not modelled. *)

From Stdlib Require Import QArith Lqa.
From stdpp Require Import numbers.
From S2P Require Import Prelude.

Local Open Scope Z_scope.

(** ** [resilience/backpressure.py] *)
Module BackpressureController.
Record t := mk { capacity : Z; _in_flight : Z }.

Definition init (capacity : Z) : result t :=
  if capacity <? 1 then raise ValueError "capacity must be at least 1" else Ok (mk capacity 0).

Definition try_acquire : M t bool :=
  self ← getM;
  if capacity self <=? _in_flight self then mret false
  else _ ← putM (mk (capacity self) (_in_flight self + 1)); mret true.

Definition release : M t unit :=
  self ← getM;
  if _in_flight self <=? 0 then raiseM RuntimeError "backpressure release underflow"
  else putM (mk (capacity self) (_in_flight self - 1)).

(** What callers do: acquire, and release what they acquired. *)
Inductive op := Acquire | Release.

Definition perform (o : op) (s : t * Z) : t * Z :=
  let '(c, held) := s in
  match o with
  | Acquire => let '(r, c') := try_acquire c in
               (c', match r with Ok true => held + 1 | _ => held end)
  | Release => if 0 <? held then ((release c).2, held - 1) else s
  end.

Definition inv (s : t * Z) : Prop :=
  _in_flight s.1 = s.2 ∧ 0 ≤ s.2 ≤ capacity s.1.

Lemma perform_inv o s : inv s → inv (perform o s) ∧ capacity (perform o s).1 = capacity s.1.
Proof.
  destruct s as [c held]. unfold inv, perform, try_acquire, release, mbind, M_bind, getM, putM.
  simpl. intros [Hh Hc]. destruct o; cases; boolify; simpl in *; split_and?; try lia; done.
Qed.

(** Admission control is exact.  However callers interleave acquisitions and
    releases of what they hold, the number admitted and not released never
    exceeds the capacity, equals the controller's counter, and a release of a held
    slot never raises. *)
Theorem backpressure_bounded cap ops c :
  init cap = Ok c →
  let '(c', held) := foldl (λ s o, perform o s) (c, 0) ops in
  0 ≤ held ≤ cap ∧ _in_flight c' = held ∧
  ((try_acquire c').1 = Ok (held <? cap)) ∧
  (0 < held → (release c').1 = Ok tt).
Proof.
  unfold init. destruct (cap <? 1) eqn:Ec; [done|]. intros [= <-]. boolify.
  assert (∀ s, inv s → capacity s.1 = cap →
    inv (foldl (λ s o, perform o s) s ops) ∧ capacity (foldl (λ s o, perform o s) s ops).1 = cap) as H.
  { induction ops as [|o ops IH]; intros s Hs Hc; [done|]. simpl.
    destruct (perform_inv o s Hs) as [Hi He]. apply IH; [done|congruence]. }
  destruct (H (mk cap 0, 0)) as [Hi Hcap]; [split; simpl; lia|done|].
  destruct (foldl _ _ _) as [c' held]. unfold inv in Hi. simpl in *. destruct Hi as [Hi Hb].
  unfold try_acquire, release, mbind, M_bind, getM, putM. rewrite Hcap, Hi in *.
  split_and!; [lia..|lia| |].
  - destruct (held <? cap) eqn:E, (cap <=? held) eqn:E'; boolify; (lia || done).
  - intros Hh. by rewrite (proj2 (Z.leb_gt held 0)).
Qed.

Lemma backpressure_bounded_witness :
  let '(c', held) := foldl (λ s o, perform o s) (mk 2 0, 0) [Acquire; Acquire; Acquire; Release] in
  held = 1 ∧ _in_flight c' = held.
Proof.
  pose proof (backpressure_bounded 2 [Acquire; Acquire; Acquire; Release] (mk 2 0) eq_refl) as H.
  simpl in H. split; [reflexivity|apply H].
Defined.
End BackpressureController.

(** ** [resilience/circuit_breaker.py] *)
Module CircuitBreaker.
Inductive CircuitState := CLOSED | OPEN | HALF_OPEN.

#[export] Instance CircuitState_eq_dec : EqDecision CircuitState.
Proof. solve_decision. Defined.

Record t := mk {
  failure_threshold : Z;
  recovery_timeout_seconds : Z;
  half_open_max_calls : Z;
  _state : CircuitState;
  _failure_count : Z;
  _opened_at : option Z;
  _half_open_in_flight : Z;
}.

Definition init (failure_threshold recovery_timeout_seconds half_open_max_calls : Z) : result t :=
  if failure_threshold <? 1 then raise ValueError "failure_threshold must be at least 1"
  else if recovery_timeout_seconds <=? 0
  then raise ValueError "recovery_timeout_seconds must be greater than zero"
  else if half_open_max_calls <? 1 then raise ValueError "half_open_max_calls must be at least 1"
  else Ok (mk failure_threshold recovery_timeout_seconds half_open_max_calls CLOSED 0 None 0).

(** Field updates. *)
Definition set_state (st : CircuitState) (b : t) : t :=
  mk (failure_threshold b) (recovery_timeout_seconds b) (half_open_max_calls b)
     st (_failure_count b) (_opened_at b) (_half_open_in_flight b).
Definition set_failure_count (n : Z) (b : t) : t :=
  mk (failure_threshold b) (recovery_timeout_seconds b) (half_open_max_calls b)
     (_state b) n (_opened_at b) (_half_open_in_flight b).
Definition set_opened_at (o : option Z) (b : t) : t :=
  mk (failure_threshold b) (recovery_timeout_seconds b) (half_open_max_calls b)
     (_state b) (_failure_count b) o (_half_open_in_flight b).
Definition set_in_flight (n : Z) (b : t) : t :=
  mk (failure_threshold b) (recovery_timeout_seconds b) (half_open_max_calls b)
     (_state b) (_failure_count b) (_opened_at b) n.

(** [now] is the reading of the breaker's clock. *)
Definition _before_call (now : Z) : M t CircuitState :=
  b ← getM;
  _ ← match _state b with
      | OPEN =>
          match _opened_at b with
          | None => raiseM AssertionError ""
          | Some opened_at =>
              if recovery_timeout_seconds b <=? now - opened_at
              then putM (set_in_flight 0 (set_state HALF_OPEN b))
              else raiseM CircuitOpenError "circuit breaker is open"
          end
      | _ => mret tt
      end;
  b ← getM;
  let state_at_start := _state b in
  match state_at_start with
  | HALF_OPEN =>
      if half_open_max_calls b <=? _half_open_in_flight b
      then raiseM CircuitOpenError "circuit breaker half-open probe limit reached"
      else _ ← putM (set_in_flight (_half_open_in_flight b + 1) b); mret state_at_start
  | _ => mret state_at_start
  end.

Definition _record_success (state_at_start : CircuitState) : M t unit :=
  _ ← match state_at_start with
      | HALF_OPEN => modifyM (λ b, set_opened_at None (set_state CLOSED
                       (set_in_flight (Z.max 0 (_half_open_in_flight b - 1)) b)))
      | _ => mret tt
      end;
  modifyM (set_failure_count 0).

Definition _record_failure (state_at_start : CircuitState) (now : Z) : M t unit :=
  match state_at_start with
  | HALF_OPEN =>
      modifyM (λ b, set_failure_count (failure_threshold b) (set_opened_at (Some now)
                 (set_state OPEN (set_in_flight (Z.max 0 (_half_open_in_flight b - 1)) b))))
  | _ =>
      _ ← modifyM (λ b, set_failure_count (_failure_count b + 1) b);
      b ← getM;
      if failure_threshold b <=? _failure_count b
      then putM (set_opened_at (Some now) (set_state OPEN b))
      else mret tt
  end.

(** [call] when nothing else uses the breaker meanwhile: [operation] is what the
    awaited operation returned or raised, at clock reading [finished]. *)
Definition call {A} (started finished : Z) (operation : result A) : M t A :=
  state_at_start ← _before_call started;
  match operation with
  | Ok r => _ ← _record_success state_at_start; mret r
  | Err e =>
      if isinstance e [Exception]
      then _ ← _record_failure state_at_start finished; failM e
      else failM e
  end.

(** *** Concurrent callers

    [await operation()] lets other calls run: the system is the breaker and the
    calls in flight, each with the state it started in.  A call ends by
    returning, by raising an [Exception], or by being cancelled, which [call] does
    not intercept. *)
Record sys := Sys { breaker : t; calls : list CircuitState }.

Inductive step : bool → sys → sys → Prop :=
  | step_begin c s now st b' :
      _before_call now (breaker s) = (Ok st, b') → step c s (Sys b' (st :: calls s))
  | step_refused c s now e b' :
      _before_call now (breaker s) = (Err e, b') → step c s (Sys b' (calls s))
  | step_success c b l1 st l2 :
      step c (Sys b (l1 ++ st :: l2)) (Sys (_record_success st b).2 (l1 ++ l2))
  | step_failure c b l1 st l2 now :
      step c (Sys b (l1 ++ st :: l2)) (Sys (_record_failure st now b).2 (l1 ++ l2))
  | step_cancelled b l1 st l2 :
      step true (Sys b (l1 ++ st :: l2)) (Sys b (l1 ++ l2)).

Definition probes (l : list CircuitState) : Z :=
  Z.of_nat (length (filter (λ st, st = HALF_OPEN) l)).

Lemma probes_cons st l : probes (st :: l) = (if decide (st = HALF_OPEN) then 1 else 0) + probes l.
Proof. unfold probes. rewrite filter_cons. case_decide; simpl; lia. Qed.

Lemma probes_mid l1 st l2 :
  probes (l1 ++ st :: l2) = (if decide (st = HALF_OPEN) then 1 else 0) + probes (l1 ++ l2).
Proof.
  unfold probes. rewrite !filter_app, !length_app, filter_cons. case_decide; simpl; lia.
Qed.

Lemma probes_nonneg l : 0 ≤ probes l.
Proof. unfold probes. lia. Qed.

(** Configuration checks, and what every reachable breaker satisfies. *)
Definition wf (b : t) : Prop :=
  1 ≤ failure_threshold b ∧ 0 < recovery_timeout_seconds b ∧ 1 ≤ half_open_max_calls b ∧
  0 ≤ _failure_count b ∧
  (_state b = OPEN → is_Some (_opened_at b)) ∧
  (_state b = CLOSED → _failure_count b < failure_threshold b) ∧
  0 ≤ _half_open_in_flight b ≤ half_open_max_calls b.

Lemma init_breaker_wf ft rt mx b : init ft rt mx = Ok b → wf b.
Proof.
  unfold init. cases; try done. intros [= <-]. boolify. unfold wf. simpl. split_and!; (lia || done).
Qed.

(** The outcomes of [_before_call]. *)
Lemma before_call_cases now b r b' : wf b → _before_call now b = (r, b') →
  wf b' ∧ failure_threshold b' = failure_threshold b ∧
  match r with
  | Err e => exn_cls e = CircuitOpenError ∧
      ((b' = b ∧ ∃ o, _state b = OPEN ∧ _opened_at b = Some o ∧ now - o < recovery_timeout_seconds b) ∨
       (b' = b ∧ _state b = HALF_OPEN ∧ _half_open_in_flight b = half_open_max_calls b))
  | Ok CLOSED => _state b = CLOSED ∧ b' = b
  | Ok OPEN => False
  | Ok HALF_OPEN => _state b' = HALF_OPEN ∧
      ((_state b = HALF_OPEN ∧ _half_open_in_flight b' = _half_open_in_flight b + 1) ∨
       (_state b = OPEN ∧ _half_open_in_flight b' = 1))
  end.
Proof.
  intros (Hft & Hrt & Hmx & Hfc & Hop & Hcl & Hin). unfold _before_call, mbind, M_bind, getM. simpl.
  destruct (_state b) eqn:Es; simpl.
  - rewrite Es. intros [= <- <-]. unfold wf. rewrite Es. split_and!; try (lia || done).
  - destruct (Hop eq_refl) as [o Ho]. rewrite Ho.
    destruct (recovery_timeout_seconds b <=? now - o) eqn:El; simpl; boolify.
    + rewrite (proj2 (Z.leb_gt _ _)) by lia. simpl. intros [= <- <-]. unfold wf. simpl.
      split_and!; try (lia || done). right. split; [done|lia].
    + intros [= <- <-]. unfold wf. rewrite Es. split_and!; try (lia || done); eauto 10.
  - rewrite Es. destruct (half_open_max_calls b <=? _half_open_in_flight b) eqn:El; boolify.
    + intros [= <- <-]. unfold wf. rewrite Es. split_and!; try (lia || done).
      simpl. split; [done|]. right. split_and!; (done || lia).
    + intros [= <- <-]. unfold wf. simpl. rewrite Es. split_and!; try (lia || done). by left.
Qed.

Lemma record_success_wf st b : wf b →
  wf (_record_success st b).2 ∧
  _half_open_in_flight (_record_success st b).2 =
    if decide (st = HALF_OPEN) then Z.max 0 (_half_open_in_flight b - 1) else _half_open_in_flight b.
Proof.
  intros (Hft & Hrt & Hmx & Hfc & Hop & Hcl & Hin).
  unfold _record_success, wf. destruct st; simpl; split_and!; try (lia || done); auto.
Qed.

Lemma record_failure_wf st now b : wf b →
  wf (_record_failure st now b).2 ∧
  _half_open_in_flight (_record_failure st now b).2 =
    if decide (st = HALF_OPEN) then Z.max 0 (_half_open_in_flight b - 1) else _half_open_in_flight b.
Proof.
  intros (Hft & Hrt & Hmx & Hfc & Hop & Hcl & Hin).
  unfold _record_failure, mbind, M_bind, modifyM, getM, putM, wf.
  destruct st; simpl; cases; boolify; simpl in *; split_and!; try (lia || done); auto; eauto;
    intros; try lia; try done.
Qed.

Lemma step_wf c s s' : wf (breaker s) → step c s s' → wf (breaker s').
Proof.
  intros Hw Hs. destruct Hs; simpl in *.
  - by apply before_call_cases in H as [? _].
  - by apply before_call_cases in H as [? _].
  - by apply record_success_wf.
  - by apply record_failure_wf.
  - done.
Qed.

(** Without cancellation every counted probe is a call in flight. *)
Definition counted (s : sys) : Prop :=
  wf (breaker s) ∧ _half_open_in_flight (breaker s) ≤ probes (calls s).

Lemma step_counted s s' : counted s → step false s s' → counted s'.
Proof.
  intros [Hw Hc] Hs. split; [by eapply step_wf|]. inversion Hs; subst; simpl in *.
  - apply before_call_cases in H as (_ & _ & H); [|done]. rewrite probes_cons.
    pose proof (probes_nonneg (calls s)).
    destruct st; simpl; [destruct H as [_ ->]; lia|done|]. naive_solver lia.
  - apply before_call_cases in H as (_ & _ & H); [|done]. naive_solver lia.
  - rewrite (proj2 (record_success_wf st b Hw)). rewrite probes_mid in Hc.
    pose proof (probes_nonneg (l1 ++ l2)). case_decide; lia.
  - rewrite (proj2 (record_failure_wf st now b Hw)). rewrite probes_mid in Hc.
    pose proof (probes_nonneg (l1 ++ l2)). case_decide; lia.
Qed.

Lemma reachable_counted ft rt mx b s :
  init ft rt mx = Ok b → reachable (step false) (Sys b []) s → counted s.
Proof.
  intros Hi. apply reachable_invariant; [|apply step_counted].
  split; [by eapply init_breaker_wf|]. unfold init in Hi. revert Hi. cases; try done.
  by intros [= <-].
Qed.

Lemma reachable_wf c ft rt mx b s :
  init ft rt mx = Ok b → reachable (step c) (Sys b []) s → wf (breaker s).
Proof.
  intros Hi. apply (reachable_invariant (step c) (λ s, wf (breaker s))).
  - by eapply init_breaker_wf.
  - intros ?? Hw Hs. by eapply step_wf.
Qed.

(** The breaker's states stay consistent under any interleaving of calls,
    cancellations included: an open breaker always knows when it opened (the
    assertion of [_before_call] never fails), a closed one is below its failure
    threshold, at most [half_open_max_calls] probes are admitted, and a refusal is
    [CircuitOpenError]. *)
Theorem breaker_states_consistent ft rt mx b s :
  init ft rt mx = Ok b → reachable (step true) (Sys b []) s →
  wf (breaker s) ∧
  ∀ now e b', _before_call now (breaker s) = (Err e, b') → exn_cls e = CircuitOpenError.
Proof.
  intros Hi Hs. assert (wf (breaker s)) as Hw by by eapply reachable_wf.
  split; [done|]. intros now e b' He. apply before_call_cases in He as (_ & _ & [? _]); done.
Qed.

Definition ready (b : t) (now : Z) : Prop :=
  match _state b, _opened_at b with
  | OPEN, Some o => recovery_timeout_seconds b ≤ now - o
  | _, _ => True
  end.

(** The breaker recovers.  As long as calls end by returning or raising,
    a breaker with no call in flight whose recovery timeout has elapsed admits the
    next call, and when that call succeeds the breaker is closed with a cleared
    failure count. *)
Theorem breaker_recovers ft rt mx b s now :
  init ft rt mx = Ok b → reachable (step false) (Sys b []) s →
  calls s = [] → ready (breaker s) now →
  ∃ st b', _before_call now (breaker s) = (Ok st, b') ∧
    _state (_record_success st b').2 = CLOSED ∧ _failure_count (_record_success st b').2 = 0.
Proof.
  intros Hi Hs Hc Hr. pose proof (reachable_counted _ _ _ _ _ Hi Hs) as [Hw Hn]. rewrite Hc in Hn.
  destruct (_before_call now (breaker s)) as [[st|e] b'] eqn:E.
  - exists st, b'. split; [done|]. apply before_call_cases in E as (_ & _ & H); [|done].
    destruct st; [|done|done]. simpl. destruct H as [H ->]. done.
  - exfalso. apply before_call_cases in E as (_ & _ & _ & H); [|done].
    destruct Hw as (_ & _ & Hmx & _). unfold ready in Hr.
    destruct H as [(_ & o & Hs1 & Hs2 & Hlt)|(_ & Hs1 & Hs2)].
    + rewrite Hs1, Hs2 in Hr. lia.
    + unfold probes in Hn. simpl in Hn. lia.
Qed.

(** A breaker whose probe slots are all taken and never given back. *)
Definition wedged (b : t) : Prop :=
  _state b = HALF_OPEN ∧ half_open_max_calls b ≤ _half_open_in_flight b.

(** A cancelled probe wedges the breaker.  [call] records a failure only for
    [Exception], and [CancelledError] is not one: when the single half-open probe
    is cancelled (a deadline's [wait_for] does that), the breaker stays half-open
    with its slot taken, and every later call is refused whatever the time. *)
Theorem cancelled_probe_wedges_breaker {A} b start finish (operation : result A) :
  wf b → half_open_max_calls b = 1 →
  (∃ o, _state b = OPEN ∧ _opened_at b = Some o ∧ recovery_timeout_seconds b ≤ start - o) →
  (∃ e, operation = Err e ∧ exn_cls e = CancelledError) →
  let b' := (call start finish operation b).2 in
  wedged b' ∧
  ∀ B s f (op : result B), call s f op b' =
    (raise CircuitOpenError "circuit breaker half-open probe limit reached", b').
Proof.
  intros Hw Hm (o & Ho & Hoa & Hrt) (e & -> & He).
  assert (∀ b, wedged b → ∀ B s f (op : result B), call s f op b =
    (raise CircuitOpenError "circuit breaker half-open probe limit reached", b)) as Hwd.
  { intros b0 [Hs0 Hm0] B s f op. unfold call, _before_call, mbind, M_bind, getM.
    rewrite Hs0. simpl. rewrite Hs0. by rewrite (proj2 (Z.leb_le _ _)). }
  cbv zeta. match goal with |- wedged ?b' ∧ _ => cut (wedged b'); [by auto|] end.
  assert (isinstance e [Exception] = false) as Hi.
  { unfold isinstance. rewrite He. reflexivity. }
  unfold call, _before_call, mbind, M_bind, getM, putM. rewrite Ho, Hoa. simpl.
  rewrite (proj2 (Z.leb_le _ _)) by lia. simpl. rewrite Hm. simpl. rewrite Hi.
  unfold wedged. simpl. split; [done|lia].
Qed.

Definition opened : t := mk 1 10 1 OPEN 1 (Some 0) 0.

Lemma cancelled_probe_wedges_breaker_witness :
  let b' := (call (A:=unit) 10 11 (raise CancelledError "") opened).2 in
  wedged b' ∧ (call (A:=unit) 1000000 1000001 (Ok tt) b').1 =
    raise CircuitOpenError "circuit breaker half-open probe limit reached".
Proof.
  assert (wf opened) as Hw.
  { unfold wf, opened. simpl. split_and!; try lia; done. }
  destruct (cancelled_probe_wedges_breaker (A:=unit) opened 10 11 (raise CancelledError "") Hw eq_refl)
    as [Hb Hall].
  - exists 0. split_and!; [reflexivity|reflexivity|simpl; lia].
  - eexists. split; reflexivity.
  - cbv zeta. split; [exact Hb|]. rewrite Hall. reflexivity.
Defined.

Lemma opened_reachable c : reachable (step c) (Sys (mk 1 10 1 CLOSED 0 None 0) []) (Sys opened []).
Proof.
  eapply reachable_step; [eapply reachable_step; [apply reachable_init|]|].
  - apply (step_begin _ _ 0). vm_compute. reflexivity.
  - exact (step_failure c (mk 1 10 1 CLOSED 0 None 0) [] CLOSED [] 0).
Qed.

Lemma breaker_states_consistent_witness :
  wf (breaker (Sys opened [])) ∧ exn_cls (Exn CircuitOpenError "circuit breaker is open" 0) = CircuitOpenError.
Proof.
  destruct (breaker_states_consistent 1 10 1 (mk 1 10 1 CLOSED 0 None 0) (Sys opened [])) as [Hw He].
  - reflexivity.
  - apply opened_reachable.
  - split; [exact Hw|]. apply (He 5 _ opened). vm_compute. reflexivity.
Defined.

Lemma breaker_recovers_witness :
  ∃ st b', _before_call 10 opened = (Ok st, b') ∧ _state (_record_success st b').2 = CLOSED ∧
    _failure_count (_record_success st b').2 = 0.
Proof.
  apply (breaker_recovers 1 10 1 (mk 1 10 1 CLOSED 0 None 0) (Sys opened []) 10).
  - reflexivity.
  - apply opened_reachable.
  - reflexivity.
  - unfold ready. simpl. lia.
Defined.

Lemma call_closed_failure {A} s f e b : _state b = CLOSED → isinstance e [Exception] = true →
  (call (A:=A) s f (Err e) b).2 =
  (let b := set_failure_count (_failure_count b + 1) b in
   if failure_threshold b <=? _failure_count b then set_opened_at (Some f) (set_state OPEN b) else b).
Proof.
  intros Hs He. unfold call, _before_call, mbind, M_bind, getM. rewrite Hs. simpl. rewrite Hs, He.
  unfold _record_failure, mbind, M_bind, modifyM, getM, putM. simpl.
  by destruct (failure_threshold b <=? _failure_count b + 1).
Qed.

(** A closed breaker opens exactly at its threshold: [failure_threshold]
    consecutive failing calls take it from a fresh state to open, one fewer leave
    it closed, and while it is open and the timeout has not elapsed it raises
    without running the operation or changing state. *)
Theorem breaker_opens_at_threshold {A B} ft rt mx b e (n : nat) now (op : result B) :
  init ft rt mx = Ok b → isinstance e [Exception] = true → 0 ≤ Z.of_nat n ≤ ft →
  let b' := foldl (λ b _, (call (A:=A) now now (Err e) b).2) b (replicate n tt) in
  (_state b' = OPEN ↔ Z.of_nat n = ft) ∧ _failure_count b' = Z.of_nat n ∧
  (Z.of_nat n = ft → ∀ s f, s - now < rt →
     call s f op b' = (raise CircuitOpenError "circuit breaker is open", b')).
Proof.
  intros Hi He Hn. unfold init in Hi. revert Hi. cases; try done. intros [= <-]. boolify.
  cbv zeta. set (b0 := mk ft rt mx CLOSED 0 None 0).
  assert (∀ k : nat, Z.of_nat k ≤ ft →
    foldl (λ b _, (call (A:=A) now now (Err e) b).2) b0 (replicate k tt) =
    mk ft rt mx (if Z.of_nat k =? ft then OPEN else CLOSED) (Z.of_nat k)
       (if Z.of_nat k =? ft then Some now else None) 0) as Hk.
  { induction k as [|k IH]; intros Hle.
    - cbn [replicate foldl]. by rewrite (proj2 (Z.eqb_neq (Z.of_nat 0) ft)) by lia.
    - rewrite replicate_S_end, foldl_app, IH by lia. simpl foldl.
      rewrite (proj2 (Z.eqb_neq (Z.of_nat k) ft)) by lia.
      rewrite call_closed_failure by done. unfold set_failure_count. cbv zeta.
      cbn [failure_threshold _failure_count].
      replace (Z.of_nat k + 1) with (Z.of_nat (S k)) by lia.
      destruct (Z.of_nat (S k) =? ft) eqn:E2; boolify.
      + by rewrite (proj2 (Z.leb_le ft (Z.of_nat (S k)))) by lia.
      + by rewrite (proj2 (Z.leb_gt ft (Z.of_nat (S k)))) by lia. }
  rewrite Hk by lia. cbn [_state _failure_count].
  destruct (Z.of_nat n =? ft) eqn:E; boolify.
  - split_and!; [done|done|]. intros _ s f Hs. unfold call, _before_call, mbind, M_bind, getM. simpl.
    by rewrite (proj2 (Z.leb_gt _ _)).
  - split_and!; [done|done|lia].
Qed.

Lemma breaker_opens_at_threshold_witness :
  let b' := foldl (λ b _, (call (A:=unit) 0 0 (raise RuntimeError "") b).2) (mk 2 5 1 CLOSED 0 None 0)
              (replicate 2 tt) in
  _state b' = OPEN ∧ call 3 4 (Ok tt) b' = (raise CircuitOpenError "circuit breaker is open", b').
Proof.
  destruct (breaker_opens_at_threshold (A:=unit) 2 5 1 (mk 2 5 1 CLOSED 0 None 0)
              (Exn RuntimeError "" 0) 2 0 (Ok tt)) as (H1 & H2 & H3).
  - reflexivity.
  - reflexivity.
  - lia.
  - cbv zeta. split; [apply H1; reflexivity|]. apply H3; [reflexivity|lia].
Defined.
End CircuitBreaker.

(** ** [resilience/deadline.py] *)
Module Deadline.
Record t := mk { _expires_at : Z }.

Definition after (now seconds : Z) : result t :=
  if seconds <=? 0 then raise ValueError "deadline seconds must be greater than zero"
  else Ok (mk (now + seconds)).

Definition remaining (self : t) (now : Z) : Z := Z.max 0 (_expires_at self - now).

Definition expired (self : t) (now : Z) : bool := remaining self now <=? 0.

(** What an awaitable does when it is left alone: it takes [takes] time units and
    then returns or raises. *)
Record awaitable (A : Type) := Awaitable { takes : Z; outcome : result A }.
Arguments Awaitable {A} _ _.
Arguments takes {A} _.
Arguments outcome {A} _.

(** [asyncio.wait_for]: the outcome if it comes before the timeout, otherwise the
    awaitable is cancelled and [TimeoutError] is raised; with the time spent. *)
Definition wait_for {A} (a : awaitable A) (timeout : Z) : result A * Z :=
  if takes a <? timeout then (outcome a, takes a) else (raise TimeoutError "", timeout).

(** [run], returning the outcome and the time at which it is known. *)
Definition run {A} (self : t) (now : Z) (a : awaitable A) : result A * Z :=
  let timeout := remaining self now in
  if timeout <=? 0 then (raise DeadlineExceeded "request deadline exceeded", now)
  else
    match wait_for a timeout with
    | (Ok r, spent) => (Ok r, now + spent)
    | (Err e, spent) =>
        if isinstance e [TimeoutError]
        then (raise DeadlineExceeded "request deadline exceeded", now + spent)
        else (Err e, now + spent)
    end.

(** [Deadline.run] never outlives the deadline: it is over by the expiry time
    (or at once, if the deadline had expired), a value is returned only if it was
    ready strictly before the expiry, and whatever does not finish in time is
    reported as [DeadlineExceeded]. *)
Theorem deadline_run_bounded {A} d now (a : awaitable A) :
  0 ≤ takes a →
  let '(r, finished) := run d now a in
  now ≤ finished ≤ Z.max now (_expires_at d) ∧
  (∀ v, r = Ok v → outcome a = Ok v ∧ finished = now + takes a ∧ finished < _expires_at d) ∧
  (_expires_at d ≤ now + takes a → r = raise DeadlineExceeded "request deadline exceeded").
Proof.
  intros Ht. unfold run, wait_for, remaining.
  destruct (Z.max 0 (_expires_at d - now) <=? 0) eqn:E1; boolify.
  - split_and!; [lia|lia|done|done].
  - destruct (takes a <? Z.max 0 (_expires_at d - now)) eqn:E2; boolify; [destruct (outcome a) as [v|e]|].
    + split_and!; [lia|lia| |lia]. intros ? [= <-]. split_and!; [done|lia|lia].
    + destruct (isinstance e [TimeoutError]); (split_and!; [lia|lia|done|intros; try done; lia]).
    + simpl. split_and!; [lia|lia|done|done].
Qed.

Lemma deadline_run_bounded_witness :
  run (mk 10) 4 (Awaitable 9 (Ok tt)) = (raise DeadlineExceeded "request deadline exceeded", 10) ∧
  (run (mk 10) 4 (Awaitable 9 (Ok tt))).1 = raise DeadlineExceeded "request deadline exceeded".
Proof.
  split; [reflexivity|].
  apply (deadline_run_bounded (mk 10) 4 (Awaitable 9 (Ok tt))); simpl; lia.
Defined.
End Deadline.

(** ** [resilience/retry.py] *)
Module Retry.
Record RetryPolicy := Policy {
  max_attempts : Z; base_delay_seconds : Z; max_delay_seconds : Z }.

(** [__post_init__] *)
Definition make_policy (max_attempts base_delay_seconds max_delay_seconds : Z) : result RetryPolicy :=
  if max_attempts <? 1 then raise ValueError "max_attempts must be at least 1"
  else if base_delay_seconds <? 0 then raise ValueError "base_delay_seconds cannot be negative"
  else if max_delay_seconds <? 0 then raise ValueError "max_delay_seconds cannot be negative"
  else if max_delay_seconds <? base_delay_seconds
  then raise ValueError "max_delay_seconds cannot be less than base_delay_seconds"
  else Ok (Policy max_attempts base_delay_seconds max_delay_seconds).

Section retry.
Context {A : Type}.
(** The operation's behaviour at each attempt, what the caller retries, and the
    jitter source: [random_fn(0.0, cap)]. *)
Variable operation : Z → Deadline.awaitable A.
Variable should_retry : exn → bool.
Variable random_fn : Z → Z.
Variable policy : RetryPolicy.
Variable deadline : option Deadline.t.

(** What an observer sees of the loop: the clock, the times at which attempts
    started and the delays slept. *)
Record world := World { now : Z; started : list Z; slept : list Z }.

Definition attempts (w : world) : Z := Z.of_nat (length (started w)).

Definition cap (attempt_index : Z) : Z :=
  Z.min (max_delay_seconds policy) (base_delay_seconds policy * 2 ^ attempt_index).

Definition deadline_expired (w : world) : bool :=
  match deadline with Some d => Deadline.expired d (now w) | None => false end.

(** The backoff after a retryable failure: the sleep, or the deadline error. *)
Definition backoff (attempt_index : Z) (w : world) : result world :=
  let cap := cap attempt_index in
  let delay := if 0 <? cap then random_fn cap else 0 in
  if match deadline with
     | Some d => let remaining := Deadline.remaining d (now w) in
                 (remaining <=? 0) || (remaining <=? delay)
     | None => false
     end
  then raise DeadlineExceeded "request deadline exceeded during retry backoff"
  else Ok (if 0 <? delay then World (now w + delay) (started w) (slept w ++ [delay]) else w).

Fixpoint retry_loop (n : nat) (attempt_index : Z) (w : world) : result A * world :=
  match n with
  | O => (raise RuntimeError "retry loop exhausted unexpectedly", w)
  | S n =>
      if deadline_expired w
      then (raise DeadlineExceeded "request deadline exceeded before retry attempt", w)
      else
        let a := operation attempt_index in
        let w := World (now w + Deadline.takes a) (started w ++ [now w]) (slept w) in
        match Deadline.outcome a with
        | Ok r => (Ok r, w)
        | Err exc =>
            if negb (isinstance exc [Exception]) then (Err exc, w)
            else
              let is_last := max_attempts policy <=? attempt_index + 1 in
              if is_last || negb (should_retry exc) then (Err exc, w)
              else
                match backoff attempt_index w with
                | Ok w => retry_loop n (attempt_index + 1) w
                | Err e => (Err e, w)
                end
        end
  end.

(** [for attempt_index in range(policy.max_attempts)]. *)
Definition retry_async (w : world) : result A * world :=
  retry_loop (Z.to_nat (max_attempts policy)) 0 w.

Definition before_deadline (t : Z) : Prop :=
  match deadline with Some d => t < Deadline._expires_at d | None => True end.

(** What every state of the loop satisfies. *)
Definition orderly (w : world) : Prop :=
  (∀ d, d ∈ slept w → 0 < d ≤ max_delay_seconds policy) ∧
  (∀ t, t ∈ started w → before_deadline t) ∧
  (∀ k, 0 ≤ k < attempts w - 1 → ∃ e, Deadline.outcome (operation k) = Err e ∧
     isinstance e [Exception] = true ∧ should_retry e = true).

(** How a run may end. *)
Definition ended (r : result A) (w : world) : Prop :=
  (1 ≤ attempts w ∧ Deadline.outcome (operation (attempts w - 1)) = r ∧
   ∀ e, r = Err e → attempts w = max_attempts policy ∨ should_retry e = false ∨
                    isinstance e [Exception] = false) ∨
  (is_Some deadline ∧ ∃ msg, r = raise DeadlineExceeded msg).

Hypothesis random_in_range : ∀ c, 0 < c → 0 ≤ random_fn c ≤ c.

Lemma backoff_ok i w w' : backoff i w = Ok w' →
  started w' = started w ∧
  ∀ d, d ∈ slept w' → d ∈ slept w ∨ 0 < d ≤ max_delay_seconds policy.
Proof.
  unfold backoff. intros H.
  set (delay := if 0 <? cap i then random_fn (cap i) else 0) in *.
  assert (0 < delay → delay ≤ max_delay_seconds policy) as Hd.
  { unfold delay. destruct (0 <? cap i) eqn:E; boolify; [|lia].
    pose proof (random_in_range (cap i) E). unfold cap in *. lia. }
  cbv zeta in H. destruct (match deadline with Some d => _ | None => _ end); [done|].
  injection H as <-. destruct (0 <? delay) eqn:E; boolify; simpl; [|eauto].
  split; [done|]. intros x [Hx| ->%list_elem_of_singleton]%elem_of_app; [by left|right; lia].
Qed.

Lemma attempts_snoc n l t s : attempts (World n (l ++ [t]) s) = Z.of_nat (length l) + 1.
Proof. unfold attempts. simpl. rewrite length_app. simpl. lia. Qed.

Lemma retry_loop_spec n i w r w' :
  i = attempts w → Z.of_nat n = max_attempts policy - i → (0 < n)%nat →
  orderly w → (∀ k, 0 ≤ k < i → ∃ e, Deadline.outcome (operation k) = Err e ∧
     isinstance e [Exception] = true ∧ should_retry e = true) →
  retry_loop n i w = (r, w') →
  orderly w' ∧ ended r w' ∧ attempts w' ≤ max_attempts policy.
Proof.
  revert i w. induction n as [|n IH]; intros i w Hi Hl Hpos Hw Hprev; [lia|]. simpl.
  destruct (deadline_expired w) eqn:Ed.
  { intros [= <- <-]. split_and!; [done| |unfold attempts in *; lia]. right.
    unfold deadline_expired in Ed. destruct deadline; [|done]. eauto. }
  set (a := operation i). set (w1 := World (now w + Deadline.takes a) (started w ++ [now w]) (slept w)).
  assert (attempts w1 = i + 1) as Hw1 by (unfold w1; rewrite attempts_snoc, Hi; done).
  assert (orderly w1) as Ho.
  { destruct Hw as (Hs & Ht & _). split_and!; [done| |rewrite Hw1; intros; apply Hprev; lia].
    intros t [Hin| ->%list_elem_of_singleton]%elem_of_app; [by apply Ht|].
    unfold before_deadline, deadline_expired, Deadline.expired, Deadline.remaining in *.
    destruct deadline; [|done]. boolify. lia. }
  assert (∀ e, Deadline.outcome a = Err e → (attempts w1 = max_attempts policy ∨
     should_retry e = false ∨ isinstance e [Exception] = false) →
     ended (Err e) w1) as Hend.
  { intros e He Hc. left. rewrite Hw1. replace (i + 1 - 1) with i by lia.
    split_and!; [unfold attempts in Hi; lia|done|]. intros ? [= <-]. by rewrite Hw1 in Hc. }
  destruct (Deadline.outcome a) as [v|e] eqn:Ea.
  { intros [= <- <-]. split_and!; [done| |lia]. left. rewrite Hw1.
    replace (i + 1 - 1) with i by lia. split_and!; [unfold attempts in Hi; lia|done|done]. }
  destruct (isinstance e [Exception]) eqn:Ee; simpl.
  2:{ intros [= <- <-]. split_and!; [done|by auto|lia]. }
  destruct ((max_attempts policy <=? i + 1) || negb (should_retry e)) eqn:Elast.
  { intros [= <- <-]. split_and!; [done| |lia]. apply Hend; [done|].
    apply orb_true_iff in Elast as [?|?]; boolify; [left; lia|by right; left]. }
  boolify. destruct (backoff i w1) as [w2|e2] eqn:Eb.
  - apply backoff_ok in Eb as [Hst Hsl]. destruct Ho as (Hs & Ht & Hp).
    assert (attempts w2 = i + 1) as Hw2 by (unfold attempts; rewrite Hst; exact Hw1).
    apply IH; [lia|lia|lia| |].
    + split_and!; [intros d [?|?]%Hsl; auto|by rewrite Hst|].
      intros k Hk. apply Hp. lia.
    + intros k Hk. destruct (decide (k = i)) as [->|]; [eauto|]. apply Hprev. lia.
  - intros [= <- <-]. split_and!; [done| |lia]. right.
    unfold backoff in Eb. destruct deadline; [|done].
    cbv zeta in Eb. destruct (_ || _); [|done]. injection Eb as <-. eauto.
Qed.
End retry.

(** C37: the retry loop makes between zero and [max_attempts] attempts and never
    falls off its end: it finishes with the outcome of its last attempt (the
    budget used up, or an error not worth a retry) or with [DeadlineExceeded] when
    a deadline is given; every earlier attempt failed with a retryable error,
    every sleep is within [max_delay_seconds], and no attempt starts after the
    deadline. *)
Theorem retry_bounded_and_faithful {A} (operation : Z → Deadline.awaitable A)
    should_retry random_fn ma bd md policy deadline start r w :
  (∀ c, 0 < c → 0 ≤ random_fn c ≤ c) → make_policy ma bd md = Ok policy →
  retry_async operation should_retry random_fn policy deadline (World start [] []) = (r, w) →
  0 ≤ attempts w ≤ ma ∧ ended operation should_retry policy deadline r w ∧
  orderly operation should_retry policy deadline w.
Proof.
  intros Hr Hp Hrun. unfold make_policy in Hp. revert Hp. cases; try done. intros [= <-]. boolify.
  apply retry_loop_spec in Hrun as (Ho & He & Hle); [|done|done|unfold attempts; simpl; lia|simpl; lia| |].
  - split_and!; [unfold attempts; lia|exact Hle|done|done].
  - split_and!; [by intros ? ?%elem_of_nil..|]. unfold attempts. simpl. lia.
  - unfold attempts. simpl. lia.
Qed.

(** Two failures, then a success. *)
Definition flaky (i : Z) : Deadline.awaitable Z :=
  if i <? 2 then Deadline.Awaitable 1 (raise ConnectionError "refused") else Deadline.Awaitable 1 (Ok 7).

Lemma retry_bounded_and_faithful_witness :
  ∃ r w, retry_async flaky (λ _, true) (λ c, c) (Policy 3 5 50) (Some (Deadline.mk 100)) (World 0 [] []) = (r, w) ∧
    r = Ok 7 ∧ slept w = [5; 10] ∧ 0 ≤ attempts w ≤ 3.
Proof.
  eexists _, _. split; [vm_compute; reflexivity|]. split; [reflexivity|]. split; [reflexivity|].
  eapply (retry_bounded_and_faithful flaky (λ _, true) (λ c, c) 3 5 50 (Policy 3 5 50)
            (Some (Deadline.mk 100)) 0).
  - intros c Hc. lia.
  - reflexivity.
  - vm_compute. reflexivity.
Defined.
End Retry.

(** ** [resilience/rate_limiter.py] *)
Module TokenBucketRateLimiter.
Local Open Scope Q_scope.

Record t := mk { rate_per_second : Q; burst : Q; _tokens : Q; _last_refill : Q }.

Definition qmin (a b : Q) : Q := if Qle_bool a b then a else b.
Definition qmax (a b : Q) : Q := if Qle_bool a b then b else a.

(** [now] is the reading of the limiter's clock. *)
Definition init (rate_per_second : Q) (burst : Z) (now : Q) : result t :=
  if Qle_bool rate_per_second 0 then raise ValueError "rate_per_second must be greater than zero"
  else if (burst <? 1)%Z then raise ValueError "burst must be at least 1"
  else Ok (mk rate_per_second (inject_Z burst) (inject_Z burst) now).

Definition _refill (now : Q) : M t unit := modifyM (λ self,
  let elapsed := qmax 0 (now - _last_refill self) in
  mk (rate_per_second self) (burst self)
     (qmin (burst self) (_tokens self + elapsed * rate_per_second self)) now).

Definition available_tokens (now : Q) : M t Q := _ ← _refill now; gets _tokens.

Definition allow (now cost : Q) : M t bool :=
  if Qle_bool cost 0 then raiseM ValueError "cost must be greater than zero"
  else
    _ ← _refill now;
    self ← getM;
    if negb (Qle_bool cost (_tokens self)) then mret false
    else
      _ ← putM (mk (rate_per_second self) (burst self) (_tokens self - cost) (_last_refill self));
      mret true.

(** A sequence of requests, each with its clock reading and cost, and the total
    cost admitted. *)
Fixpoint run (self : t) (requests : list (Q * Q)) : t * Q :=
  match requests with
  | [] => (self, 0)
  | (now, cost) :: requests =>
      match allow now cost self with
      | (Ok true, self') => let '(s, total) := run self' requests in (s, cost + total)
      | (_, self') => run self' requests
      end
  end.

Definition wf (s : t) : Prop := 0 < rate_per_second s ∧ 0 <= _tokens s ∧ _tokens s <= burst s.

Lemma qmin_spec a b : qmin a b <= a ∧ qmin a b <= b ∧ (qmin a b = a ∨ qmin a b = b).
Proof.
  unfold qmin. destruct (Qle_bool a b) eqn:E.
  - apply Qle_bool_iff in E. split_and!; [lra|lra|auto].
  - assert (¬ a <= b) as H by (rewrite <-Qle_bool_iff; congruence). apply Qnot_le_lt in H.
    split_and!; [lra|lra|auto].
Qed.

Lemma qmax_0 x : 0 <= x → qmax 0 x = x.
Proof. intros H. unfold qmax. apply Qle_bool_iff in H. by rewrite H. Qed.

(** One request at a later time: what is spent plus what is left is covered by
    what there was plus what was earned. *)
Lemma allow_spec s now cost r s' : wf s → _last_refill s <= now → allow now cost s = (r, s') →
  wf s' ∧ rate_per_second s' = rate_per_second s ∧ burst s' = burst s ∧
  _last_refill s <= _last_refill s' ∧ _last_refill s' <= now ∧
  (match r with Ok true => cost | _ => 0 end) + _tokens s' <=
    _tokens s + (_last_refill s' - _last_refill s) * rate_per_second s.
Proof.
  intros (Hr & H0 & Hb) Hn. unfold allow. destruct (Qle_bool cost 0) eqn:Ec.
  { intros [= <- <-]. unfold wf. simpl. split_and!; try done; lra. }
  unfold _refill, mbind, M_bind, modifyM, getM, putM. simpl.
  rewrite qmax_0 by lra.
  set (tok := qmin (burst s) (_tokens s + (now - _last_refill s) * rate_per_second s)).
  assert (0 <= (now - _last_refill s) * rate_per_second s) as Hpos.
  { apply Qmult_le_0_compat; lra. }
  assert (0 <= tok ∧ tok <= burst s ∧ tok <= _tokens s + (now - _last_refill s) * rate_per_second s)
    as (T0 & T1 & T2).
  { destruct (qmin_spec (burst s) (_tokens s + (now - _last_refill s) * rate_per_second s))
      as (H1 & H2 & H3). fold tok in H1, H2, H3. split_and!; [|done|done]. destruct H3 as [-> | ->]; lra. }
  destruct (Qle_bool cost tok) eqn:El; simpl; intros [= <- <-].
  - apply Qle_bool_iff in El. assert (¬ cost <= 0) as Hc by (rewrite <-Qle_bool_iff; congruence).
    apply Qnot_le_lt in Hc. unfold wf; simpl. split_and!; try done; lra.
  - unfold wf; simpl. split_and!; try done; lra.
Qed.

(** Clock readings that never go back. *)
Fixpoint monotone (t0 : Q) (requests : list (Q * Q)) : Prop :=
  match requests with
  | [] => True
  | (now, _) :: requests => t0 <= now ∧ monotone now requests
  end.

Fixpoint last_time (t0 : Q) (requests : list (Q * Q)) : Q :=
  match requests with [] => t0 | (now, _) :: requests => last_time now requests end.

Lemma monotone_weaken t0 t1 l : t0 <= t1 → monotone t1 l → monotone t0 l.
Proof. destruct l as [|[now c] l]; simpl; [done|]. intros ? [? ?]. split; [lra|done]. Qed.

Lemma monotone_last t0 l : monotone t0 l → t0 <= last_time t0 l.
Proof.
  revert t0. induction l as [|[now c] l IH]; intros t0; simpl; [lra|]. intros [? H].
  specialize (IH now H). lra.
Qed.

Lemma run_budget s l : wf s → monotone (_last_refill s) l → ∀ tend,
  last_time (_last_refill s) l <= tend →
  (run s l).2 + _tokens (run s l).1 <= _tokens s + (tend - _last_refill s) * rate_per_second s ∧
  wf (run s l).1.
Proof.
  revert s. induction l as [|[now cost] l IH]; intros s Hs Hm tend Ht; simpl in *.
  { split; [|done]. assert (0 <= (tend - _last_refill s) * rate_per_second s); [|lra].
    destruct Hs as [? _]. apply Qmult_le_0_compat; lra. }
  destruct Hm as [Hn Hm]. destruct (allow now cost s) as [r s'] eqn:E.
  destruct (allow_spec s now cost r s' Hs Hn E) as (Hs' & Hr & Hb & Hl1 & Hl2 & Hbud).
  specialize (IH s' Hs' (monotone_weaken _ _ _ Hl2 Hm)).
  assert (last_time (_last_refill s') l <= tend) as Ht'.
  { destruct l as [|[n2 c2] l]; [exact (Qle_trans _ _ _ Hl2 Ht)|exact Ht]. }
  specialize (IH tend Ht'). rewrite Hr in IH.
  assert ((tend - _last_refill s) * rate_per_second s ==
    (_last_refill s' - _last_refill s) * rate_per_second s + (tend - _last_refill s') * rate_per_second s)
    as Heq by ring.
  destruct r as [[|]|]; simpl in *; [|split; [lra|apply IH]..].
  destruct (run s' l) as [s2 total]. simpl in *. split; [lra|apply IH].
Qed.

(** C38: the token bucket enforces its rate: whatever requests arrive, with clock
    readings that do not go back, the total cost admitted up to time [tend] is at
    most the burst plus the rate times the time elapsed since the limiter was
    created. *)
Theorem rate_limiter_enforces_rate rate b t0 s requests tend :
  init rate b t0 = Ok s → monotone t0 requests → last_time t0 requests <= tend →
  (run s requests).2 <= inject_Z b + (tend - t0) * rate.
Proof.
  unfold init. destruct (Qle_bool rate 0) eqn:Er; [done|].
  destruct (b <? 1)%Z eqn:Eb; [done|]. intros [= <-] Hm Ht. boolify.
  assert (¬ rate <= 0) as Hr by (rewrite <-Qle_bool_iff; congruence). apply Qnot_le_lt in Hr.
  destruct (run_budget (mk rate (inject_Z b) (inject_Z b) t0) requests) with (tend := tend)
    as [H (_ & H0 & _)]; [|done|done|simpl in *; lra].
  unfold wf. simpl. split_and!; [done| |lra]. rewrite <-(Zle_Qle 0). lia.
Qed.

Definition burst_of_ten : list (Q * Q) := replicate 10 (1, 1).

Lemma rate_limiter_enforces_rate_witness :
  (run (mk 2 3 3 0) burst_of_ten).2 == 3 ∧ (run (mk 2 3 3 0) burst_of_ten).2 <= inject_Z 3 + (1 - 0) * 2.
Proof.
  split; [vm_compute; reflexivity|].
  apply (rate_limiter_enforces_rate 2 3 0 (mk 2 3 3 0) burst_of_ten 1).
  - reflexivity.
  - unfold burst_of_ten. simpl. split_and!; lra || done.
  - vm_compute. discriminate.
Defined.
End TokenBucketRateLimiter.
