(* ===== verification/Membership.v ===== *)
(** * Cluster membership: [distsys/cluster/member.py], [distsys/cluster/membership.py]

    Members, seed addresses and the membership table with its SWIM-style merge
    rules.  Every table method holds the table's lock, so it is one step; [now] is
    the clock reading the method takes. *)

From Stdlib Require Import Ascii.
From S2P Require Import Prelude.

Local Open Scope Z_scope.

(** ** [cluster/member.py] *)

Inductive MemberStatus := ALIVE | SUSPECT | DEAD.

#[export] Instance MemberStatus_eq_dec : EqDecision MemberStatus.
Proof. solve_decision. Defined.

(** The [IntEnum] values, which [<] compares. *)
Definition MemberStatus_value (s : MemberStatus) : Z :=
  match s with ALIVE => 1 | SUSPECT => 2 | DEAD => 3 end.

(** [MemberStatus(value)] *)
Definition MemberStatus_of (value : Z) : result MemberStatus :=
  if value =? 1 then Ok ALIVE else if value =? 2 then Ok SUSPECT else if value =? 3 then Ok DEAD
  else raise ValueError "is not a valid MemberStatus".

Lemma MemberStatus_value_inj s s' : MemberStatus_value s = MemberStatus_value s' → s = s'.
Proof. by destruct s, s'. Qed.

Module ClusterMember.
Record t := mk {
  node_id : string; host : string; port : Z; status : MemberStatus; incarnation : Z }.

#[export] Instance eq_dec : EqDecision t.
Proof. solve_decision. Defined.

(** [__post_init__] *)
Definition make (node_id host : string) (port : Z) (status : MemberStatus) (incarnation : Z) : result t :=
  if negb (nonempty node_id) then raise ValueError "node_id is required"
  else if negb (nonempty host) then raise ValueError "host is required"
  else if negb ((1 <=? port) && (port <=? 65535))
  then raise ValueError "port must be between 1 and 65535"
  else if incarnation <? 1 then raise ValueError "incarnation must be positive"
  else Ok (mk node_id host port status incarnation).

Definition valid (m : t) : Prop :=
  node_id m ≠ "" ∧ host m ≠ "" ∧ 1 ≤ port m ≤ 65535 ∧ 1 ≤ incarnation m.

#[export] Instance valid_dec m : Decision (valid m).
Proof. unfold valid. apply _. Defined.

Lemma make_iff n h p s i m :
  make n h p s i = Ok m ↔ m = mk n h p s i ∧ valid (mk n h p s i).
Proof.
  unfold make, valid, nonempty. simpl. split.
  - cases; try done. intros [= <-]. boolify. split_and!; try done; lia.
  - intros [-> (Hn & Hh & Hp & Hi)]. rewrite !bool_decide_eq_false_2 by done. simpl.
    rewrite !(proj2 (Z.leb_le _ _)) by lia. simpl. by rewrite (proj2 (Z.ltb_ge _ _)) by lia.
Qed.

(** [dataclasses.replace(member, status=...)] and [..., incarnation=...]: the
    constructor's checks pass again on what was valid. *)
Definition with_status (s : MemberStatus) (m : t) : t :=
  mk (node_id m) (host m) (port m) s (incarnation m).
Definition with_incarnation (i : Z) (m : t) : t :=
  mk (node_id m) (host m) (port m) (status m) i.
End ClusterMember.
Export (hints) ClusterMember.
Import ClusterMember (node_id, host, port, status, incarnation, with_status, with_incarnation).

(** *** String methods [SeedAddress.parse] uses (ASCII text) *)

(** White space that [str.strip] removes. *)
Definition is_space (a : ascii) : bool :=
  let n := N_of_ascii a in
  ((9 <=? n) && (n <=? 13) || (28 <=? n) && (n <=? 32))%N%bool.

Fixpoint lstrip (s : string) : string :=
  match s with
  | String a r => if is_space a then lstrip r else s
  | EmptyString => s
  end.

Fixpoint rev_string (s acc : string) : string :=
  match s with EmptyString => acc | String a r => rev_string r (String a acc) end.

Definition strip (s : string) : string := rev_string (lstrip (rev_string (lstrip s) "")) "".

(** [s.split(c, 1)] when [c] occurs in [s]. *)
Fixpoint split_first (c : ascii) (s : string) : option (string * string) :=
  match s with
  | EmptyString => None
  | String a r =>
      if decide (a = c) then Some ("", r)
      else '(l, rest) ← split_first c r; Some (String a l, rest)
  end.

(** [c in s] *)
Definition has_char (c : ascii) (s : string) : bool :=
  match split_first c s with Some _ => true | None => false end.

(** [s.rsplit(c, 1)] when [c] occurs in [s]. *)
Fixpoint split_last (c : ascii) (s : string) : option (string * string) :=
  match s with
  | EmptyString => None
  | String a r =>
      match split_last c r with
      | Some (l, rest) => Some (String a l, rest)
      | None => if decide (a = c) then Some ("", r) else None
      end
  end.

Definition digit_of (a : ascii) : option Z :=
  let n := Z.of_N (N_of_ascii a) in
  if (48 <=? n) && (n <=? 57) then Some (n - 48) else None.

(** Decimal digits with single underscores between them; [prev] says whether the
    last character was a digit. *)
Fixpoint parse_digits (s : string) (acc : Z) (prev : bool) : option Z :=
  match s with
  | EmptyString => if prev then Some acc else None
  | String a r =>
      match digit_of a with
      | Some d => parse_digits r (10 * acc + d) true
      | None => if decide (a = "_"%char) then (if prev then parse_digits r acc false else None) else None
      end
  end.

(** [int(s)] *)
Definition py_int (s : string) : option Z :=
  match strip s with
  | String a r =>
      if decide (a = "-"%char) then z ← parse_digits r 0 false; Some (- z)
      else if decide (a = "+"%char) then parse_digits r 0 false
      else parse_digits (String a r) 0 false
  | EmptyString => None
  end.

Module SeedAddress.
Record t := mk { host : string; port : Z; node_id : option string }.

#[export] Instance eq_dec : EqDecision t.
Proof. solve_decision. Defined.

(** [__post_init__] *)
Definition make (host : string) (port : Z) (node_id : option string) : result t :=
  if negb (nonempty host) then raise ValueError "seed host is required"
  else if negb ((1 <=? port) && (port <=? 65535))
  then raise ValueError "seed port must be between 1 and 65535"
  else Ok (mk host port node_id).

Definition parse (raw : string) : result t :=
  let value := strip raw in
  if negb (nonempty value) || negb (has_char ":" value)
  then raise ValueError "invalid seed address"
  else
    '(node_id, endpoint) ←
      match split_first "@" value with
      | Some (raw_node_id, endpoint) =>
          let node_id := strip raw_node_id in
          if negb (nonempty node_id) then raise ValueError "seed node_id is required"
          else Ok (Some node_id, endpoint)
      | None => Ok (None, value)
      end;
    match split_last ":" endpoint with
    | None => raise ValueError "not enough values to unpack (expected 2, got 1)"
    | Some (host, raw_port) =>
        let host := strip host in
        if negb (nonempty host) then raise ValueError "seed host is required"
        else
          match py_int raw_port with
          | None => raise ValueError "invalid seed port"
          | Some port => make host port node_id
          end
    end.
End SeedAddress.
Export (hints) SeedAddress.

Example parse_seed : SeedAddress.parse " n2@10.0.0.2:7000 " = Ok (SeedAddress.mk "10.0.0.2" 7000 (Some "n2")).
Proof. vm_compute. reflexivity. Qed.
Example parse_seed_plain : SeedAddress.parse "::1:7000" = Ok (SeedAddress.mk "::1" 7000 None).
Proof. vm_compute. reflexivity. Qed.
Example parse_seed_bad : SeedAddress.parse "n2@:7000" = raise ValueError "seed host is required".
Proof. vm_compute. reflexivity. Qed.

(** ** [cluster/membership.py] *)
Module MembershipTable.
Record t := mk {
  local_node_id : string;
  suspicion_timeout_seconds : Z;
  dead_retention_seconds : Z;
  _members : gmap string ClusterMember.t;
  _suspected_at : gmap string Z;
  _dead_at : gmap string Z;
  _version : Z;
}.

Definition init (local_member : ClusterMember.t) (suspicion_timeout_seconds dead_retention_seconds : Z)
    : result t :=
  if suspicion_timeout_seconds <=? 0
  then raise ValueError "suspicion timeout must be greater than zero"
  else if dead_retention_seconds <=? suspicion_timeout_seconds
  then raise ValueError "dead retention must exceed suspicion timeout"
  else Ok (mk (node_id local_member) suspicion_timeout_seconds dead_retention_seconds
              {[node_id local_member := local_member]} ∅ ∅ 1).

(** Assignments to the table's fields. *)
Definition set_member (n : string) (m : ClusterMember.t) (s : t) : t :=
  mk (local_node_id s) (suspicion_timeout_seconds s) (dead_retention_seconds s)
     (<[n := m]> (_members s)) (_suspected_at s) (_dead_at s) (_version s).
Definition pop_member (n : string) (s : t) : t :=
  mk (local_node_id s) (suspicion_timeout_seconds s) (dead_retention_seconds s)
     (delete n (_members s)) (_suspected_at s) (_dead_at s) (_version s).
Definition set_timers (suspected dead : gmap string Z) (s : t) : t :=
  mk (local_node_id s) (suspicion_timeout_seconds s) (dead_retention_seconds s)
     (_members s) suspected dead (_version s).
Definition bump_version (s : t) : t :=
  mk (local_node_id s) (suspicion_timeout_seconds s) (dead_retention_seconds s)
     (_members s) (_suspected_at s) (_dead_at s) (_version s + 1).

Definition snapshot (s : t) : list ClusterMember.t := (sorted_items (_members s)).*2.

Definition get (n : string) (s : t) : option ClusterMember.t := _members s !! n.

Definition alive_members (include_self : bool) (s : t) : list ClusterMember.t :=
  (filter (λ nm, status nm.2 = ALIVE ∧ (include_self = true ∨ nm.1 ≠ local_node_id s))
     (sorted_items (_members s))).*2.

Definition probe_candidates (s : t) : list ClusterMember.t :=
  (filter (λ nm, nm.1 ≠ local_node_id s ∧ (status nm.2 = ALIVE ∨ status nm.2 = SUSPECT))
     (sorted_items (_members s))).*2.

(** [d.setdefault(k, v)] *)
Definition setdefault (k : string) (v : Z) (d : gmap string Z) : gmap string Z :=
  match d !! k with Some _ => d | None => <[k := v]> d end.

Definition _record_timer_state (now : Z) (m : ClusterMember.t) (s : t) : t :=
  match status m with
  | ALIVE => set_timers (delete (node_id m) (_suspected_at s)) (delete (node_id m) (_dead_at s)) s
  | SUSPECT => set_timers (setdefault (node_id m) now (_suspected_at s)) (delete (node_id m) (_dead_at s)) s
  | DEAD => set_timers (delete (node_id m) (_suspected_at s)) (setdefault (node_id m) now (_dead_at s)) s
  end.

(** [_merge_one_locked]; [None] stands for the failed assertion. *)
Definition _merge_one_locked (now : Z) (incoming : ClusterMember.t) (s : t) : option (bool * t) :=
  let current := _members s !! node_id incoming in
  if decide (node_id incoming = local_node_id s) then
    match current with
    | None => None
    | Some current =>
        if bool_decide (status incoming = SUSPECT ∨ status incoming = DEAD) &&
           (incarnation current <=? incarnation incoming)
        then
          let refuted := with_incarnation (incarnation incoming + 1) (with_status ALIVE current) in
          Some (true, _record_timer_state now refuted (set_member (local_node_id s) refuted s))
        else Some (false, s)
    end
  else
    match current with
    | None => Some (true, _record_timer_state now incoming (set_member (node_id incoming) incoming s))
    | Some current =>
        if incarnation incoming <? incarnation current then Some (false, s)
        else if incarnation current <? incarnation incoming
        then Some (true, _record_timer_state now incoming (set_member (node_id incoming) incoming s))
        else if MemberStatus_value (status current) <? MemberStatus_value (status incoming)
        then
          let updated := with_status (status incoming) current in
          Some (true, _record_timer_state now updated (set_member (node_id incoming) updated s))
        else Some (false, s)
    end.

Fixpoint merge_records (now : Z) (records : list ClusterMember.t) (s : t) (changed : bool)
    : option (bool * t) :=
  match records with
  | [] => Some (changed, s)
  | r :: records =>
      match _merge_one_locked now r s with
      | None => None
      | Some (c, s) => merge_records now records s (c || changed)
      end
  end.

(** [merge] *)
Definition merge (now : Z) (records : list ClusterMember.t) : M t bool := λ s,
  match merge_records now records s false with
  | None => (raise AssertionError "", s)
  | Some (changed, s) => (Ok changed, if changed then bump_version s else s)
  end.

Definition mark_suspect (now : Z) (n : string) : M t bool := λ s,
  match _members s !! n with
  | None => (Ok false, s)
  | Some current =>
      if decide (n = local_node_id s) then (Ok false, s)
      else if negb (bool_decide (status current = ALIVE)) then (Ok false, s)
      else
        let updated := with_status SUSPECT current in
        (Ok true, bump_version (_record_timer_state now updated (set_member n updated s)))
  end.

(** One iteration of each loop of [advance_timeouts_and_purge]. *)
Definition expire_suspect (now : Z) (acc : t * bool) (item : string * Z) : t * bool :=
  let '(s, changed) := acc in
  let '(n, suspected_at) := item in
  match _members s !! n with
  | None => (set_timers (delete n (_suspected_at s)) (_dead_at s) s, changed)
  | Some member =>
      if negb (bool_decide (status member = SUSPECT))
      then (set_timers (delete n (_suspected_at s)) (_dead_at s) s, changed)
      else if suspicion_timeout_seconds s <=? now - suspected_at
      then
        let s := set_member n (with_status DEAD member) s in
        (set_timers (delete n (_suspected_at s)) (<[n := now]> (_dead_at s)) s, true)
      else (s, changed)
  end.

Definition purge_dead (now : Z) (acc : t * bool) (item : string * Z) : t * bool :=
  let '(s, changed) := acc in
  let '(n, dead_at) := item in
  if decide (n = local_node_id s) then (s, changed)
  else
    match _members s !! n with
    | None => (set_timers (_suspected_at s) (delete n (_dead_at s)) s, changed)
    | Some member =>
        if negb (bool_decide (status member = DEAD))
        then (set_timers (_suspected_at s) (delete n (_dead_at s)) s, changed)
        else if dead_retention_seconds s <=? now - dead_at
        then
          let s := pop_member n s in
          (set_timers (_suspected_at s) (delete n (_dead_at s)) s, true)
        else (s, changed)
    end.

Definition advance_timeouts_and_purge (now : Z) : M t bool := λ s,
  let '(s, changed) := foldl (expire_suspect now) (s, false) (map_to_list (_suspected_at s)) in
  let '(s, changed) := foldl (purge_dead now) (s, changed) (map_to_list (_dead_at s)) in
  (Ok changed, if changed then bump_version s else s).

(** *** What the table knows about one node *)

Record view := View { v_member : option ClusterMember.t; v_suspected : option Z; v_dead : option Z }.

Definition view_of (s : t) (n : string) : view :=
  View (_members s !! n) (_suspected_at s !! n) (_dead_at s !! n).

(** A node's record is valid and stored under its own name, and exactly the timer
    of its status is running. *)
Definition view_ok (n : string) (v : view) : Prop :=
  match v_member v with
  | None => v_suspected v = None ∧ v_dead v = None
  | Some m =>
      node_id m = n ∧ ClusterMember.valid m ∧
      match status m with
      | ALIVE => v_suspected v = None ∧ v_dead v = None
      | SUSPECT => is_Some (v_suspected v) ∧ v_dead v = None
      | DEAD => v_suspected v = None ∧ is_Some (v_dead v)
      end
  end.

Definition local_alive (s : t) : Prop :=
  ∃ m, _members s !! local_node_id s = Some m ∧ status m = ALIVE.

Definition config (s : t) : string * Z * Z :=
  (local_node_id s, suspicion_timeout_seconds s, dead_retention_seconds s).

Definition inv (s : t) : Prop :=
  0 < suspicion_timeout_seconds s < dead_retention_seconds s ∧ local_alive s ∧
  ∀ n, view_ok n (view_of s n).

Lemma init_inv m st dt s : ClusterMember.valid m → status m = ALIVE → init m st dt = Ok s → inv s.
Proof.
  intros Hv Ha. unfold init. cases; try done. intros [= <-]. boolify.
  split_and!; simpl; [lia|lia| |].
  - exists m. simpl. by rewrite lookup_singleton_eq.
  - intros n. unfold view_of, view_ok. simpl. rewrite lookup_singleton. case_decide as E; simpl.
    + rewrite Ha. by split_and!.
    + by rewrite !lookup_empty.
Qed.

(** Storing a record and setting its timer: the only thing that changes is what
    the table knows about that node. *)
Definition store (now : Z) (m : ClusterMember.t) (s : t) : t :=
  _record_timer_state now m (set_member (node_id m) m s).

Lemma store_view now m s n : n ≠ node_id m → view_of (store now m s) n = view_of s n.
Proof.
  intros Hn. unfold store, _record_timer_state, view_of, setdefault.
  destruct (status m); simpl; rewrite ?lookup_insert_ne, ?lookup_delete_ne by done; cases;
    by rewrite ?lookup_insert_ne.
Qed.

Lemma store_members now m s : _members (store now m s) = <[node_id m := m]> (_members s).
Proof. unfold store, _record_timer_state. by destruct (status m). Qed.

Lemma store_config now m s : config (store now m s) = config s ∧ _version (store now m s) = _version s.
Proof. unfold store, _record_timer_state. by destruct (status m). Qed.

Lemma store_view_ok now m s : ClusterMember.valid m →
  view_ok (node_id m) (view_of (store now m s) (node_id m)).
Proof.
  intros Hv. unfold view_ok. assert (v_member (view_of (store now m s) (node_id m)) = Some m) as ->.
  { simpl. by rewrite store_members, lookup_insert_eq. }
  split_and!; [done|done|]. unfold store, _record_timer_state, view_of, setdefault.
  destruct (status m); simpl; rewrite ?lookup_delete_eq; split; try done; cases; eauto;
    rewrite lookup_insert_eq; eauto.
Qed.

Lemma store_inv now m s : inv s → ClusterMember.valid m →
  (node_id m = local_node_id s → status m = ALIVE) → inv (store now m s).
Proof.
  intros (Ht & (l & Hl & Hal) & Hn) Hv Hloc.
  destruct (store_config now m s) as [Hc _]. unfold config in Hc. injection Hc as Hc1 Hc2 Hc3.
  split_and!; [lia|lia| |].
  - unfold local_alive. rewrite Hc1, store_members, lookup_insert. case_decide; eauto.
  - intros n. destruct (decide (n = node_id m)) as [->|Hne]; [by apply store_view_ok|].
    by rewrite store_view.
Qed.

Lemma bump_inv s : inv s → inv (bump_version s).
Proof. done. Qed.

(** The records [replace] builds are valid. *)
Lemma with_status_valid st m : ClusterMember.valid m → ClusterMember.valid (with_status st m).
Proof. done. Qed.
Lemma with_incarnation_valid i m : 1 ≤ i → ClusterMember.valid m → ClusterMember.valid (with_incarnation i m).
Proof. intros ? (?&?&?&?). unfold ClusterMember.valid. simpl. split_and!; (done || lia). Qed.

Lemma inv_member s n m : inv s → _members s !! n = Some m → node_id m = n ∧ ClusterMember.valid m.
Proof.
  intros (_ & _ & Hn) E. specialize (Hn n). unfold view_ok, view_of in Hn. simpl in Hn.
  rewrite E in Hn. naive_solver.
Qed.

(** [_merge_one_locked] is either a no-op or the store of one record, which is
    the incoming one, the current one with a worse status, or the refutation of the
    local member. *)
Lemma merge_one_cases now r s : inv s → ClusterMember.valid r →
  ∃ c s', _merge_one_locked now r s = Some (c, s') ∧
    (if c then ∃ m, s' = store now m s ∧ node_id m = node_id r ∧ ClusterMember.valid m ∧
       (node_id r = local_node_id s → status m = ALIVE)
     else s' = s).
Proof.
  intros Hi Hr. pose proof Hi as (_ & (l & Hl & Hal) & _). unfold _merge_one_locked.
  case_decide as Hloc.
  - rewrite Hloc, Hl. destruct (inv_member s _ l Hi Hl) as [Hln Hlv].
    destruct (bool_decide _ && _) eqn:E; [|by exists false, s]. boolify. eexists _, _. split; [done|]. simpl.
    exists (with_incarnation (incarnation r + 1) (with_status ALIVE l)).
    split; [|split; [|split]]; simpl; [|congruence| |done].
    + unfold store. simpl. by rewrite Hln.
    + destruct Hr as (_ & _ & _ & ?). apply with_incarnation_valid; [lia|done].
  - destruct (_members s !! node_id r) as [m|] eqn:Em.
    + destruct (inv_member s _ m Hi Em) as [Hmn Hmv].
      destruct (incarnation r <? incarnation m); [by exists false, s|].
      destruct (incarnation m <? incarnation r).
      { eexists _, _. split; [done|]. exists r. by split_and!. }
      destruct (_ <? _); [|by exists false, s]. eexists _, _. split; [done|].
      exists (with_status (status r) m). split; [|done].
      unfold store. simpl. by rewrite Hmn.
    + eexists _, _. split; [done|]. exists r. by split_and!.
Qed.

Lemma merge_one_inv now r s c s' : inv s → ClusterMember.valid r →
  _merge_one_locked now r s = Some (c, s') → inv s'.
Proof.
  intros Hi Hr E. destruct (merge_one_cases now r s Hi Hr) as (c1 & s1 & E1 & H).
  rewrite E in E1. injection E1 as <- <-. destruct c; [|by subst].
  destruct H as (m & -> & Hm & Hv & Hl). apply store_inv; [done|done|]. rewrite Hm. done.
Qed.

Lemma merge_records_inv now rs s c : inv s → Forall ClusterMember.valid rs →
  ∃ c' s', merge_records now rs s c = Some (c', s') ∧ inv s' ∧ config s' = config s ∧
           _version s' = _version s ∧ (c' = false → s' = s).
Proof.
  intros Hi Hrs. revert s c Hi. induction Hrs as [|r rs Hr Hrs IH]; intros s c Hi; simpl; [eauto 10|].
  destruct (merge_one_cases now r s Hi Hr) as (c1 & s1 & E1 & H1). rewrite E1.
  pose proof (merge_one_inv _ _ _ _ _ Hi Hr E1) as Hi1.
  assert (config s1 = config s ∧ _version s1 = _version s) as [Hc Hv].
  { destruct c1; [|by subst]. destruct H1 as (m & -> & _). apply store_config. }
  destruct (IH s1 (c1 || c) Hi1) as (c' & s' & E & Hi' & Hc' & Hv' & Hf). rewrite E.
  exists c', s'. split_and!; [done|done|congruence|congruence|].
  intros ->. assert (merge_records now rs s1 (c1 || c) = Some (false, s')) as E' by done.
  rewrite (Hf eq_refl) in *. destruct c1; [|done]. exfalso. clear -E'. simpl in E'.
  assert (∀ l s s', merge_records now l s true ≠ Some (false, s')) as HT; [|by eapply HT].
  induction l as [|x l IHl]; intros s0 s0'; simpl; [done|].
  destruct (_merge_one_locked now x s0) as [[c0 s2]|]; [|done].
  rewrite orb_true_r. apply IHl.
Qed.

Lemma merge_spec now rs s : inv s → Forall ClusterMember.valid rs →
  ∃ changed s', merge now rs s = (Ok changed, s') ∧ inv s' ∧ config s' = config s ∧
    (if changed then _version s' = _version s + 1 else s' = s).
Proof.
  intros Hi Hrs. destruct (merge_records_inv now rs s false Hi Hrs) as (c & s' & E & Hi' & Hc & Hv & Hf).
  unfold merge. rewrite E. eexists _, _. split; [done|]. destruct c.
  - split_and!; [by apply bump_inv|done|]. simpl. lia.
  - split_and!; auto.
Qed.

Lemma mark_suspect_spec now n s : inv s →
  ∃ changed s', mark_suspect now n s = (Ok changed, s') ∧ inv s' ∧ config s' = config s ∧
    (if changed then _version s' = _version s + 1 ∧
       ∃ m, _members s !! n = Some m ∧ status m = ALIVE ∧ n ≠ local_node_id s ∧
            _members s' = <[n := with_status SUSPECT m]> (_members s)
     else s' = s).
Proof.
  intros Hi. unfold mark_suspect. destruct (_members s !! n) as [m|] eqn:Em; [|eauto 10].
  case_decide as Hl; [eauto 10|]. destruct (bool_decide (status m = ALIVE)) eqn:Ea; simpl; [|eauto 10].
  boolify. destruct (inv_member s n m Hi Em) as [Hn Hv].
  assert (_record_timer_state now (with_status SUSPECT m) (set_member n (with_status SUSPECT m) s)
          = store now (with_status SUSPECT m) s) as -> by (unfold store; simpl; by rewrite Hn).
  eexists _, _. split; [done|]. split_and!.
  - apply bump_inv, store_inv; [done|done|]. simpl. congruence.
  - done.
  - done.
  - exists m. split_and!; try done. change (_members (bump_version ?x)) with (_members x).
    rewrite store_members. simpl. by rewrite Hn.
Qed.

(** *** The two sweeps of [advance_timeouts_and_purge] *)

(** What one iteration does to the node it is about. *)
Definition expire_view (now timeout : Z) (suspected_at : Z) (v : view) : view :=
  match v_member v with
  | Some m =>
      if bool_decide (status m = SUSPECT) then
        if timeout <=? now - suspected_at
        then View (Some (with_status DEAD m)) None (Some now)
        else v
      else View (v_member v) None (v_dead v)
  | None => View None None (v_dead v)
  end.

Definition purge_view (now retention : Z) (dead_at : Z) (v : view) : view :=
  match v_member v with
  | Some m =>
      if bool_decide (status m = DEAD) then
        if retention <=? now - dead_at then View None (v_suspected v) None else v
      else View (v_member v) (v_suspected v) None
  | None => View None (v_suspected v) None
  end.

Lemma expire_suspect_view now s c n x n' :
  config (expire_suspect now (s, c) (n, x)).1 = config s ∧
  view_of (expire_suspect now (s, c) (n, x)).1 n' =
    if decide (n = n') then expire_view now (suspicion_timeout_seconds s) x (view_of s n')
    else view_of s n'.
Proof.
  unfold expire_suspect, expire_view, view_of. simpl.
  destruct (_members s !! n) as [m|] eqn:Em; [destruct (bool_decide (status m = SUSPECT)) eqn:Es;
    [destruct (_ <=? _) eqn:El|]|]; simpl; (split; [done|]);
    (destruct (decide (n = n')) as [<-|Hne]); rewrite ?Em; simpl; rewrite ?Es, ?El;
    by rewrite ?lookup_insert_eq, ?lookup_delete_eq, ?lookup_insert_ne, ?lookup_delete_ne, ?Em by done.
Qed.

Lemma purge_dead_view now s c n x n' :
  config (purge_dead now (s, c) (n, x)).1 = config s ∧
  view_of (purge_dead now (s, c) (n, x)).1 n' =
    if decide (n = n') then
      if decide (n = local_node_id s) then view_of s n'
      else purge_view now (dead_retention_seconds s) x (view_of s n')
    else view_of s n'.
Proof.
  unfold purge_dead, purge_view, view_of. simpl. case_decide as Hl.
  { split; [done|]. by destruct (decide (n = n')). }
  destruct (_members s !! n) as [m|] eqn:Em; [destruct (bool_decide (status m = DEAD)) eqn:Es;
    [destruct (_ <=? _) eqn:El|]|]; simpl; (split; [done|]);
    (destruct (decide (n = n')) as [<-|Hne]); rewrite ?(decide_False (P := n = local_node_id s)) by done;
    rewrite ?Em; simpl; rewrite ?Es, ?El;
    by rewrite ?lookup_insert_eq, ?lookup_delete_eq, ?lookup_insert_ne, ?lookup_delete_ne, ?Em by done.
Qed.

(** A loop whose iterations each touch one node only. *)
Lemma foldl_view (f : t * bool → string * Z → t * bool) (g : string * Z * Z → string → Z → view → view) :
  (∀ s c n x n', config (f (s, c) (n, x)).1 = config s ∧
     view_of (f (s, c) (n, x)).1 n' =
       if decide (n = n') then g (config s) n x (view_of s n') else view_of s n') →
  ∀ l s c, NoDup l.*1 →
    config (foldl f (s, c) l).1 = config s ∧
    ∀ n, view_of (foldl f (s, c) l).1 n =
      match assoc n l with Some x => g (config s) n x (view_of s n) | None => view_of s n end.
Proof.
  intros Hf. induction l as [|[n x] l IH]; intros s c Hnd; [done|].
  apply NoDup_cons in Hnd as [Hn Hnd]. simpl. destruct (f (s, c) (n, x)) as [s1 c1] eqn:E.
  destruct (IH s1 c1 Hnd) as [Hc Hv]. pose proof (λ n', Hf s c n x n') as Hs. rewrite E in Hs. simpl in Hs.
  split; [rewrite Hc; apply (Hs n)|]. intros n'. rewrite Hv. destruct (Hs n') as [Hc1 Hv1].
  rewrite Hc1, Hv1. case_decide as En; subst; [|done].
  assert (assoc n' l = None) as ->; [|done].
  destruct (assoc n' l) as [y|] eqn:Ea; [|done]. apply assoc_Some_elem_of in Ea; [|done].
  destruct Hn. apply list_elem_of_fmap. by exists (n', y).
Qed.

Lemma assoc_map_to_list (d : gmap string Z) n : assoc n (map_to_list d) = d !! n.
Proof.
  apply option_eq. intros v. by rewrite assoc_Some_elem_of, elem_of_map_to_list by apply NoDup_fst_map_to_list.
Qed.

(** What a sweep at time [now] does to a node: a suspect whose timeout elapsed is
    declared dead, a dead member whose retention elapsed is forgotten. *)
Definition advance_view (s : t) (now : Z) (n : string) : view :=
  let v := view_of s n in
  let v := match v_suspected v with
           | Some x => expire_view now (suspicion_timeout_seconds s) x v
           | None => v
           end in
  match v_dead v with
  | Some x => if decide (n = local_node_id s) then v else purge_view now (dead_retention_seconds s) x v
  | None => v
  end.

Lemma advance_spec now s r s' : advance_timeouts_and_purge now s = (r, s') →
  config s' = config s ∧ ∀ n, view_of s' n = advance_view s now n.
Proof.
  unfold advance_timeouts_and_purge.
  destruct (foldl_view (expire_suspect now) (λ cfg _ x v, expire_view now cfg.1.2 x v)
              (λ s c n x n', expire_suspect_view now s c n x n')
              (map_to_list (_suspected_at s)) s false (NoDup_fst_map_to_list _)) as [Hc1 Hv1].
  destruct (foldl (expire_suspect now) _ _) as [s1 c1]. simpl in Hc1, Hv1.
  destruct (foldl_view (purge_dead now)
              (λ cfg n x v, if decide (n = cfg.1.1) then v else purge_view now cfg.2 x v)
              (λ s c n x n', purge_dead_view now s c n x n')
              (map_to_list (_dead_at s1)) s1 c1 (NoDup_fst_map_to_list _)) as [Hc2 Hv2].
  destruct (foldl (purge_dead now) _ _) as [s2 c2]. simpl in Hc2, Hv2. intros [= <- <-].
  assert (∀ x : t, config (if c2 then bump_version x else x) = config x ∧
    ∀ n, view_of (if c2 then bump_version x else x) n = view_of x n) as Hb by (by destruct c2).
  destruct (Hb s2) as [Hb1 Hb2]. split; [congruence|]. intros n. rewrite Hb2, Hv2, assoc_map_to_list.
  change (_dead_at s1 !! n) with (v_dead (view_of s1 n)). rewrite Hv1, assoc_map_to_list.
  unfold config in Hc1. injection Hc1 as Hl Hs Hd. rewrite Hl, Hd. done.
Qed.

(** The flag a sweep returns: nothing changed unless it says so. *)
Definition flagged (f : t * bool → string * Z → t * bool) : Prop :=
  ∀ s c i, let '(s', c') := f (s, c) i in
    _version s' = _version s ∧ (c' = false → c = false ∧ _members s' = _members s).

Lemma expire_suspect_flagged now : flagged (expire_suspect now).
Proof. intros s c [n x]. unfold expire_suspect. cases; try done; by split. Qed.

Lemma purge_dead_flagged now : flagged (purge_dead now).
Proof. intros s c [n x]. unfold purge_dead. cases; try done; by split. Qed.

Lemma foldl_flagged f : flagged f → ∀ l s c,
  let '(s', c') := foldl f (s, c) l in
  _version s' = _version s ∧ (c' = false → c = false ∧ _members s' = _members s).
Proof.
  intros Hf. induction l as [|i l IH]; intros s c; simpl; [done|].
  pose proof (Hf s c i) as H1. destruct (f (s, c) i) as [s1 c1]. specialize (IH s1 c1).
  destruct (foldl f (s1, c1) l) as [s2 c2]. destruct H1 as [E1 H1], IH as [E2 H2].
  split; [congruence|]. intros Hc. destruct (H2 Hc) as [-> E3]. destruct (H1 eq_refl) as [-> E4].
  split; [done|congruence].
Qed.

Lemma advance_flag now s : ∃ changed s',
  advance_timeouts_and_purge now s = (Ok changed, s') ∧
  if changed then _version s' = _version s + 1 else _version s' = _version s ∧ _members s' = _members s.
Proof.
  unfold advance_timeouts_and_purge.
  pose proof (foldl_flagged _ (expire_suspect_flagged now) (map_to_list (_suspected_at s)) s false) as H1.
  destruct (foldl (expire_suspect now) _ _) as [s1 c1]. destruct H1 as [V1 F1].
  pose proof (foldl_flagged _ (purge_dead_flagged now) (map_to_list (_dead_at s1)) s1 c1) as H2.
  destruct (foldl (purge_dead now) _ _) as [s2 c2]. destruct H2 as [V2 F2].
  eexists _, _. split; [done|]. destruct c2; simpl; [lia|].
  destruct (F2 eq_refl) as [-> E2]. destruct (F1 eq_refl) as [_ E1]. split; congruence.
Qed.

Lemma advance_view_ok s now n : 0 < dead_retention_seconds s →
  view_ok n (view_of s n) → view_ok n (advance_view s now n).
Proof.
  intros Ht Hn. unfold advance_view, view_ok in *.
  destruct (view_of s n) as [[m|] vs vd]; simpl in *; [|by destruct Hn as [-> ->]].
  destruct Hn as (Hk & Hvd & Hst). destruct (status m) eqn:Est.
  - destruct Hst as [-> ->]. simpl. by rewrite Est.
  - destruct Hst as [[x ->] ->]. simpl. unfold expire_view. simpl.
    rewrite bool_decide_eq_true_2 by done. destruct (_ <=? _); simpl; [|rewrite Est; by split_and!].
    case_decide; simpl; [by split_and!|]. unfold purge_view. simpl.
    rewrite (proj2 (Z.leb_gt _ _)) by lia. simpl. by split_and!.
  - destruct Hst as [-> [x ->]]. simpl. case_decide; simpl; [rewrite Est; by split_and!|].
    unfold purge_view. simpl. rewrite bool_decide_eq_true_2 by done.
    destruct (_ <=? _); simpl; [done|]. rewrite Est. by split_and!.
Qed.

Lemma advance_inv s now r s' : inv s → advance_timeouts_and_purge now s = (r, s') →
  is_ok r = true ∧ inv s'.
Proof.
  intros (Ht & (l & Hloc & Hal) & Hn) E. split.
  - unfold advance_timeouts_and_purge in E. destruct (foldl (expire_suspect now) _ _).
    destruct (foldl (purge_dead now) _ _). by injection E as <- _.
  - apply advance_spec in E as [Hc Hv]. unfold config in Hc. injection Hc as Hl Hs Hd.
    split_and!; simpl; [lia|lia| |].
    + exists l. split; [|done]. rewrite Hl. change (v_member (view_of s' (local_node_id s)) = Some l).
      rewrite Hv. unfold advance_view. specialize (Hn (local_node_id s)). unfold view_ok, view_of in *.
      simpl in *. rewrite Hloc, Hal in Hn. destruct Hn as (_ & _ & -> & ->). done.
    + intros k. rewrite Hv. apply advance_view_ok; [lia|done].
Qed.

(** C29: the membership table stays consistent.  Whatever valid records are
    merged, whichever nodes are suspected and whenever timeouts are swept, every
    record is valid and stored under its own name, exactly the timer of its status
    runs, and the local member is present and alive; no operation raises. *)
Theorem membership_invariant now rs n s :
  inv s → Forall ClusterMember.valid rs →
  is_ok (merge now rs s).1 = true ∧ inv (merge now rs s).2 ∧
  is_ok (mark_suspect now n s).1 = true ∧ inv (mark_suspect now n s).2 ∧
  is_ok (advance_timeouts_and_purge now s).1 = true ∧ inv (advance_timeouts_and_purge now s).2.
Proof.
  intros Hi Hrs. destruct (merge_spec now rs s Hi Hrs) as (c & s1 & -> & Hi1 & _).
  destruct (mark_suspect_spec now n s Hi) as (c2 & s2 & -> & Hi2 & _).
  destruct (advance_timeouts_and_purge now s) as [r s3] eqn:E.
  apply advance_inv in E as [Hr Hi3]; [|done].
  split; [|split; [|split; [|split; [|split]]]]; done.
Qed.

(** The local member refutes rumours of its death: after merging a record
    that calls it suspect or dead with an incarnation at least its own, it is alive
    with a strictly higher incarnation than the rumour; a stale rumour changes
    nothing. *)
Theorem local_member_refutes now r s l :
  inv s → ClusterMember.valid r → node_id r = local_node_id s →
  _members s !! local_node_id s = Some l → status r = SUSPECT ∨ status r = DEAD →
  (incarnation l ≤ incarnation r →
     ∃ s', merge now [r] s = (Ok true, s') ∧
       _members s' !! local_node_id s = Some (with_incarnation (incarnation r + 1) (with_status ALIVE l)) ∧
       _suspected_at s' !! local_node_id s = None ∧ _dead_at s' !! local_node_id s = None) ∧
  (incarnation r < incarnation l → merge now [r] s = (Ok false, s)).
Proof.
  intros Hi Hv Hn Hl Hst. destruct (inv_member s _ l Hi Hl) as [Hln _].
  unfold merge. simpl. unfold _merge_one_locked. rewrite decide_True, Hn, Hl by done.
  rewrite (bool_decide_eq_true_2 _ Hst). simpl. split; intros Hle.
  - rewrite (proj2 (Z.leb_le _ _)) by done. eexists. split; [done|]. simpl. unfold _record_timer_state.
    simpl. rewrite lookup_insert_eq, Hln, !lookup_delete_eq. done.
  - by rewrite (proj2 (Z.leb_gt _ _)).
Qed.

(** The suspicion time line.  A sweep at time [now] declares dead exactly the
    suspects whose timeout has elapsed, starting their retention at [now]; it
    forgets exactly the dead members whose retention has elapsed; and it leaves
    every other member as it was. *)
Theorem sweep_follows_timers now s n m :
  inv s → _members s !! n = Some m →
  let s' := (advance_timeouts_and_purge now s).2 in
  (status m = ALIVE → _members s' !! n = Some m) ∧
  (∀ at_, _suspected_at s !! n = Some at_ →
     if suspicion_timeout_seconds s <=? now - at_
     then _members s' !! n = Some (with_status DEAD m) ∧ _dead_at s' !! n = Some now
     else _members s' !! n = Some m ∧ _suspected_at s' !! n = Some at_) ∧
  (∀ at_, _dead_at s !! n = Some at_ →
     if dead_retention_seconds s <=? now - at_ then _members s' !! n = None
     else _members s' !! n = Some m ∧ _dead_at s' !! n = Some at_).
Proof.
  intros Hi Hm. destruct (advance_timeouts_and_purge now s) as [r s'] eqn:E. simpl.
  apply advance_spec in E as [_ Hv]. specialize (Hv n).
  pose proof Hi as (Ht & (l & Hl & Hal) & Hn). specialize (Hn n).
  assert (n = local_node_id s → status m = ALIVE) as Hloc by (intros ->; congruence).
  unfold advance_view, view_ok, view_of, expire_view, purge_view in *. simpl in *. rewrite Hm in *. simpl in *.
  destruct Hn as (Hnn & Hvalid & Hst). destruct (status m) eqn:Est.
  - destruct Hst as [H1 H2]. rewrite H1, H2 in *. injection Hv as -> _ _. done.
  - destruct Hst as [[x H1] H2]. rewrite H1, H2 in *. simpl in Hv.
    split; [done|]. split; [|done]. intros ? [= <-].
    rewrite ?bool_decide_eq_true_2 in Hv by done.
    destruct (suspicion_timeout_seconds s <=? now - x) eqn:El; simpl in Hv.
    + rewrite decide_False in Hv by (intros ?; by specialize (Hloc H)).
      rewrite (proj2 (Z.leb_gt _ _)) in Hv by lia. simpl in Hv. by injection Hv as -> _ ->.
    + by injection Hv as -> -> _.
  - destruct Hst as [H1 [x H2]]. rewrite H1, H2 in *. simpl in Hv.
    split; [done|]. split; [done|]. intros ? [= <-].
    rewrite decide_False in Hv by (intros ?; by specialize (Hloc H)).
    rewrite ?bool_decide_eq_true_2 in Hv by done.
    destruct (dead_retention_seconds s <=? now - x) eqn:El; simpl in Hv.
    + by injection Hv as -> _ _.
    + by injection Hv as -> _ ->.
Qed.

(** *** Gossip converges *)

(** The order of the merge rules: a higher incarnation wins, then a worse status. *)
Definition supersedes (a b : ClusterMember.t) : bool :=
  (incarnation b <? incarnation a) ||
  ((incarnation a =? incarnation b) &&
   (MemberStatus_value (status b) <? MemberStatus_value (status a))).

Definition adopt (current : option ClusterMember.t) (r : ClusterMember.t) : option ClusterMember.t :=
  match current with
  | None => Some r
  | Some c => if supersedes r c then Some r else Some c
  end.

(** Records of one incarnation of a node agree on its address. *)
Definition same_address (a b : ClusterMember.t) : Prop :=
  node_id a = node_id b → incarnation a = incarnation b → host a = host b ∧ port a = port b.

Lemma merge_one_adopts now r s c s' : inv s → ClusterMember.valid r → node_id r ≠ local_node_id s →
  (∀ m, _members s !! node_id r = Some m → same_address m r) →
  _merge_one_locked now r s = Some (c, s') →
  ∀ n, _members s' !! n =
    if decide (n = node_id r) then adopt (_members s !! n) r else _members s !! n.
Proof.
  intros Hi Hr Hne Hsa. unfold _merge_one_locked. rewrite decide_False by done.
  assert (∀ m s0, node_id m = node_id r → ∀ n,
    _members (_record_timer_state now m (set_member (node_id r) m s0)) !! n =
    if decide (n = node_id r) then Some m else _members s0 !! n) as Hst.
  { intros m s0 Hm n. rewrite <-Hm. fold (store now m s0). rewrite store_members, lookup_insert.
    destruct (decide (node_id m = n)) as [<-|]; [by rewrite decide_True|by rewrite decide_False]. }
  destruct (_members s !! node_id r) as [m|] eqn:Em; unfold adopt, supersedes.
  2:{ intros [= <- <-] n. rewrite Hst by done. case_decide; subst; [by rewrite Em|done]. }
  destruct (inv_member s _ m Hi Em) as [Hmn _].
  destruct (incarnation r <? incarnation m) eqn:E1; boolify.
  { intros [= <- <-] n. case_decide; subst; [|done]. rewrite Em.
    rewrite (proj2 (Z.ltb_ge _ _)), (proj2 (Z.eqb_neq _ _)) by lia. done. }
  destruct (incarnation m <? incarnation r) eqn:E2; boolify.
  { intros [= <- <-] n. rewrite Hst by done. case_decide; subst; [|done]. rewrite Em.
    by rewrite (proj2 (Z.ltb_lt _ _)) by lia. }
  assert (incarnation r = incarnation m) as Hinc by lia.
  destruct (Hsa m eq_refl Hmn (eq_sym Hinc)) as [Hh Hp].
  destruct (_ <? _) eqn:E3; intros [= <- <-] n.
  - rewrite Hst by done. case_decide; subst; [|done]. rewrite Em.
    rewrite (proj2 (Z.ltb_ge _ _)), (proj2 (Z.eqb_eq _ _)), E3 by lia. simpl. f_equal.
    destruct r, m; simpl in *. unfold with_status. simpl. by subst.
  - case_decide; subst; [|done]. rewrite Em.
    by rewrite (proj2 (Z.ltb_ge _ _)), (proj2 (Z.eqb_eq _ _)), E3 by lia.
Qed.

Definition about (n : string) (rs : list ClusterMember.t) : list ClusterMember.t :=
  filter (λ r, node_id r = n) rs.

(** The records a table and a batch hold. *)
Definition known (s : t) (rs : list ClusterMember.t) (r : ClusterMember.t) : Prop :=
  _members s !! node_id r = Some r ∨ r ∈ rs.

Lemma merge_records_adopt now rs s c c' s' : inv s → Forall ClusterMember.valid rs →
  Forall (λ r, node_id r ≠ local_node_id s) rs →
  (∀ a b, known s rs a → known s rs b → same_address a b) →
  merge_records now rs s c = Some (c', s') →
  ∀ n, _members s' !! n = foldl adopt (_members s !! n) (about n rs).
Proof.
  intros Hi Hv. revert s c Hi. induction Hv as [|r rs Hr Hv IH]; intros s c Hi Hloc Hsa E n; simpl in E.
  { by simplify_eq. }
  apply Forall_cons in Hloc as [Hrl Hloc].
  destruct (merge_one_cases now r s Hi Hr) as (c1 & s1 & E1 & H1). rewrite E1 in E.
  pose proof (merge_one_inv _ _ _ _ _ Hi Hr E1) as Hi1.
  assert (local_node_id s1 = local_node_id s) as Hl1.
  { destruct c1; [|by subst]. destruct H1 as (m & -> & _).
    pose proof (store_config now m s) as [Hc _]. unfold config in Hc. congruence. }
  assert (∀ k, _members s1 !! k = if decide (k = node_id r) then adopt (_members s !! k) r else _members s !! k) as Had.
  { eapply merge_one_adopts; [done..| |done]. intros m Hm. apply Hsa; [|by right; left].
    left. destruct (inv_member s _ m Hi Hm) as [-> _]. done. }
  rewrite (IH s1 (c1 || c) Hi1); [|by rewrite Hl1| |done].
  - unfold about. rewrite filter_cons, Had. destruct (decide (n = node_id r)) as [->|Hn].
    + by rewrite decide_True.
    + by rewrite decide_False by congruence.
  - assert (∀ a, known s1 rs a → known s (r :: rs) a) as Hk.
    { intros a [Ha|Ha]; [|right; by right]. rewrite Had in Ha. case_decide as Ea; [|by left].
      unfold adopt in Ha. destruct (_members s !! node_id a) as [x|] eqn:Ex.
      - destruct (supersedes r x); simplify_eq; [right; left|by left].
      - simplify_eq. right. left. }
    intros a b Ha Hb. apply Hsa; auto.
Qed.

Lemma adopt_best o l m : foldl adopt o l = Some m →
  (o = Some m ∨ m ∈ l) ∧ ∀ x, o = Some x ∨ x ∈ l → supersedes x m = false.
Proof.
  assert (∀ x, supersedes x x = false) as Hirr.
  { intros x. unfold supersedes. by rewrite !Z.ltb_irrefl, andb_false_r. }
  revert o. induction l as [|r l IH]; intros o; simpl.
  { intros ->. split; [by left|]. intros x [[= <-]|?%elem_of_nil]; done. }
  intros E. apply IH in E as [Hin Hmax]. unfold adopt in *.
  destruct o as [c|]; [destruct (supersedes r c) eqn:Es|].
  - split; [destruct Hin as [[= ->]|?]; right; [left|by right]|].
    intros x [[= <-]|[->|?]%elem_of_cons]; [|auto..].
    specialize (Hmax r (or_introl eq_refl)). unfold supersedes in *.
    apply orb_true_iff in Es as [Es|Es]; boolify;
      destruct (incarnation m <? incarnation c) eqn:F1, (incarnation c =? incarnation m) eqn:F2,
        (incarnation r =? incarnation m) eqn:F3; simpl in *; boolify; try lia; try apply Z.ltb_ge; lia.
  - split; [destruct Hin as [[= ->]|?]; [by left|right; by right]|].
    intros x [[= <-]|[->|?]%elem_of_cons]; [auto| |auto].
    specialize (Hmax c (or_introl eq_refl)). unfold supersedes in *. boolify.
    destruct (incarnation m <? incarnation r) eqn:F1, (incarnation r =? incarnation m) eqn:F2,
      (incarnation r =? incarnation c) eqn:F3, (incarnation c =? incarnation m) eqn:F4;
      simpl in *; boolify; try lia; try apply Z.ltb_ge; lia.
  - split; [destruct Hin as [[= ->]|?]; right; [left|by right]|].
    intros x [?|[->|?]%elem_of_cons]; [done|auto..].
Qed.

Lemma adopt_none o l : foldl adopt o l = None ↔ o = None ∧ l = [].
Proof.
  revert o. induction l as [|r l IH]; intros o; simpl; [naive_solver|]. rewrite IH.
  unfold adopt. destruct o as [c|]; [destruct (supersedes r c)|]; naive_solver.
Qed.

Lemma supersedes_antisym a b : supersedes a b = false → supersedes b a = false →
  incarnation a = incarnation b ∧ status a = status b.
Proof.
  unfold supersedes. intros H1 H2. boolify. assert (incarnation a = incarnation b) as E by lia.
  split; [done|]. rewrite E, Z.eqb_refl in *. simpl in *. boolify. apply MemberStatus_value_inj. lia.
Qed.


(** *** Concrete tables *)
Definition n1 : ClusterMember.t := ClusterMember.mk "n1" "h1" 7001 ALIVE 5.
Definition n2 (st : MemberStatus) (i : Z) : ClusterMember.t := ClusterMember.mk "n2" "h2" 7002 st i.
Definition table1 : t := mk "n1" 3 10 {["n1" := n1]} ∅ ∅ 1.

Lemma table1_inv : inv table1.
Proof. apply (init_inv n1 3 10); [apply (bool_decide_unpack _); vm_compute; exact I|done|done]. Qed.

Lemma membership_invariant_witness :
  status <$> get "n2" (mark_suspect 7 "n2" (merge 5 [n2 ALIVE 1] table1).2).2 = Some SUSPECT ∧
  inv (merge 5 [n2 ALIVE 1] table1).2.
Proof.
  split; [vm_compute; reflexivity|].
  apply (membership_invariant 5 [n2 ALIVE 1] "n2" table1).
  - exact table1_inv.
  - apply (bool_decide_unpack _). vm_compute. exact I.
Defined.

Lemma local_member_refutes_witness :
  ∃ s', merge 9 [with_status DEAD n1] table1 = (Ok true, s') ∧
    _members s' !! "n1" = Some (with_incarnation 6 n1) ∧
    _suspected_at s' !! "n1" = None ∧ _dead_at s' !! "n1" = None.
Proof.
  apply (local_member_refutes 9 (with_status DEAD n1) table1 n1).
  - exact table1_inv.
  - apply (bool_decide_unpack _). vm_compute. exact I.
  - reflexivity.
  - reflexivity.
  - by right.
  - simpl. lia.
Defined.

Definition table2 : t := (merge 0 [n2 SUSPECT 1] table1).2.

Lemma table2_inv : inv table2.
Proof.
  destruct (merge_spec 0 [n2 SUSPECT 1] table1) as (c & s' & E & Hi & _).
  - exact table1_inv.
  - apply (bool_decide_unpack _). vm_compute. exact I.
  - unfold table2. by rewrite E.
Qed.

Lemma sweep_follows_timers_witness :
  _members (advance_timeouts_and_purge 3 table2).2 !! "n2" = Some (n2 DEAD 1) ∧
  _dead_at (advance_timeouts_and_purge 3 table2).2 !! "n2" = Some 3.
Proof.
  refine (proj1 (proj2 (sweep_follows_timers 3 table2 "n2" (n2 SUSPECT 1) _ _)) 0 _).
  - exact table2_inv.
  - vm_compute. reflexivity.
  - vm_compute. reflexivity.
Defined.

End MembershipTable.
