(* ===== verification/Ring.v ===== *)
(** * Key placement: [distsys/cluster/consistent_hash.py],
      [distsys/replication/replica_selector.py]

    The consistent-hash ring and the replica selector built on it.  SHA-256 is
    the parameter [_hash]: nothing is assumed of it, collisions included. *)

From S2P Require Import Prelude Membership.
Import ClusterMember (node_id, host, port, status, incarnation).

Local Open Scope Z_scope.

(** [bisect.bisect_left] on a sorted list: how many positions come before [x]. *)
Fixpoint bisect_left (l : list Z) (x : Z) : nat :=
  match l with
  | [] => O
  | p :: l => if p <? x then S (bisect_left l x) else O
  end.

Module ConsistentHashRing.
Section ring.
Variable _hash : string → Z.

Record t := mk { virtual_nodes : Z; _positions : list Z; _owners : list ClusterMember.t }.

Definition init (virtual_nodes : Z) : result t :=
  if virtual_nodes <? 1 then raise ValueError "virtual_nodes must be at least 1"
  else Ok (mk virtual_nodes [] []).

(** [f"{member.node_id}#{index}"] *)
Definition point_name (m : ClusterMember.t) (index : nat) : string :=
  (node_id m +:+ "#" +:+ str_of_int (Z.of_nat index))%string.

Definition member_points (virtual_nodes : Z) (m : ClusterMember.t) : list (Z * ClusterMember.t) :=
  (λ index, (_hash (point_name m index), m)) <$> seq 0 (Z.to_nat virtual_nodes).

(** The points of the alive members, in the order the loops append them. *)
Definition points (virtual_nodes : Z) (members : list ClusterMember.t) : list (Z * ClusterMember.t) :=
  members ≫= λ m, if decide (status m = ALIVE) then member_points virtual_nodes m else [].

(** [key=lambda item: (item[0], item[1].node_id)] *)
Definition point_le (p q : Z * ClusterMember.t) : Prop := py_le (p.1, node_id p.2) (q.1, node_id q.2).

#[export] Instance point_le_dec : RelDecision point_le.
Proof. intros p q. unfold point_le. apply _. Defined.
#[export] Instance point_le_total : Total point_le.
Proof. intros p q. apply (total py_le). Qed.
#[export] Instance point_le_trans : Transitive point_le.
Proof. intros p q r H1 H2. unfold point_le in *. exact (transitivity H1 H2). Qed.

Definition rebuild (members : list ClusterMember.t) (self : t) : t :=
  let points := merge_sort point_le (points (virtual_nodes self) members) in
  mk (virtual_nodes self) points.*1 points.*2.

(** The loop of [candidates]: one owner per offset, each node once. *)
Fixpoint collect (owners : list ClusterMember.t) (start : nat) (offsets : list nat)
    (seen : gset string) : list ClusterMember.t :=
  match offsets with
  | [] => []
  | offset :: offsets =>
      match owners !! ((start + offset) mod length owners)%nat with
      | None => collect owners start offsets seen
      | Some member =>
          if decide (node_id member ∈ seen) then collect owners start offsets seen
          else member :: collect owners start offsets ({[node_id member]} ∪ seen)
      end
  end.

Definition candidates (key : string) (self : t) : result (list ClusterMember.t) :=
  match _positions self with
  | [] => raise NoRouteError "no ALIVE cluster members are available"
  | _ =>
      let start := bisect_left (_positions self) (_hash key) in
      Ok (collect (_owners self) start (seq 0 (length (_owners self))) ∅)
  end.

Definition owner (key : string) (self : t) : result ClusterMember.t :=
  l ← candidates key self;
  match l with [] => raise IndexError "list index out of range" | m :: _ => Ok m end.

(** ** The walk round the ring *)

Fixpoint dedup (l : list ClusterMember.t) (seen : gset string) : list ClusterMember.t :=
  match l with
  | [] => []
  | m :: l => if decide (node_id m ∈ seen) then dedup l seen
              else m :: dedup l ({[node_id m]} ∪ seen)
  end.

(** First the points at or after the key's position, then the others. *)
Definition walk (h : Z) (pts : list (Z * ClusterMember.t)) : list (Z * ClusterMember.t) :=
  filter (λ p, h ≤ p.1) pts ++ filter (λ p, p.1 < h) pts.

Lemma collect_dedup owners start offsets seen :
  (0 < length owners)%nat →
  collect owners start offsets seen =
  dedup (omap (λ o, owners !! ((start + o) mod length owners)%nat) offsets) seen.
Proof.
  intros Hl. revert seen. induction offsets as [|o offsets IH]; intros seen; simpl; [done|].
  destruct (owners !! _) as [m|] eqn:E; simpl; [|done]. case_decide; [done|]. by rewrite IH.
Qed.

Lemma omap_seq_drop {A} (l : list A) k n : (k + n = length l)%nat →
  omap (λ i, l !! i) (seq k n) = drop k l.
Proof.
  revert k. induction n as [|n IH]; intros k Hk; simpl.
  - by rewrite drop_ge by lia.
  - destruct (l !! k) as [x|] eqn:E; [|apply lookup_ge_None in E; lia].
    simpl. rewrite IH by lia. by rewrite (drop_S l x k).
Qed.

(** Reading a list round from index [start] is rotating it. *)
Lemma omap_rotate {A} (l : list A) start : (start ≤ length l)%nat → (0 < length l)%nat →
  omap (λ o, l !! ((start + o) mod length l)%nat) (seq 0 (length l)) = drop start l ++ take start l.
Proof.
  intros Hs Hl. replace (seq 0 (length l)) with (seq 0 ((length l - start) + start)) by (f_equal; lia).
  rewrite seq_app, omap_app. f_equal.
  - rewrite <-(omap_seq_drop l start (length l - start)) by lia.
    assert (∀ n k, (start + k + n = length l)%nat →
      omap (λ o, l !! ((start + o) mod length l)%nat) (seq k n) = omap (λ i, l !! i) (seq (start + k) n)) as H.
    { induction n as [|n IH]; intros k Hk; [done|]. simpl. rewrite Nat.mod_small by lia.
      rewrite IH by lia. by rewrite Nat.add_succ_r. }
    rewrite H by lia. by rewrite Nat.add_0_r.
  - set (d := (length l - start)%nat). assert (∀ n k, (k + n = start)%nat →
      omap (λ o, l !! ((start + o) mod length l)%nat) (seq (d + k) n) =
      omap (λ i, take start l !! i) (seq k n)) as H.
    { induction n as [|n IH]; intros k Hk; [done|]. cbn [seq].
      assert ((start + (d + k)) mod length l = k)%nat as Hmod.
      { replace (start + (d + k))%nat with (k + 1 * length l)%nat by lia.
        rewrite Nat.Div0.mod_add. apply Nat.mod_small. lia. }
      change (omap ?f (?x :: ?r)) with (match f x with Some y => y :: omap f r | None => omap f r end).
      cbv beta. rewrite Hmod, lookup_take, decide_True by lia.
      rewrite <-Nat.add_succ_r, IH by lia. done. }
    specialize (H start 0%nat eq_refl). rewrite Nat.add_0_r in H. simpl plus. rewrite H.
    rewrite omap_seq_drop; [done|]. rewrite length_take. lia.
Qed.

Lemma point_le_pos p q : point_le p q → p.1 ≤ q.1.
Proof. unfold point_le, py_le; simpl. unfold prod_le; simpl. intros [[_ ?]|[-> _]]; simpl in *; lia. Qed.

Lemma bisect_split pts h : StronglySorted point_le pts →
  drop (bisect_left pts.*1 h) pts = filter (λ p, h ≤ p.1) pts ∧
  take (bisect_left pts.*1 h) pts = filter (λ p, p.1 < h) pts ∧
  (bisect_left pts.*1 h ≤ length pts)%nat.
Proof.
  induction 1 as [|p pts Hs IH Hp]; [done|]. rewrite fmap_cons. cbn [bisect_left].
  destruct (p.1 <? h) eqn:E; boolify.
  - destruct IH as (IH1 & IH2 & IH3). rewrite !filter_cons.
    rewrite decide_False, decide_True by lia. rewrite <-IH1, <-IH2. split_and!; [done|done|simpl; lia].
  - assert (∀ q, q ∈ pts → h ≤ q.1) as Hall.
    { rewrite Forall_forall in Hp. intros q Hq. apply Hp, point_le_pos in Hq. lia. }
    simpl. rewrite !filter_cons, decide_True, decide_False by lia.
    assert (filter (λ q : Z * ClusterMember.t, h ≤ q.1) pts = pts) as ->.
    { clear -Hall. induction pts as [|q pts IH]; [done|]. rewrite filter_cons, decide_True by (apply Hall; left).
      rewrite IH; [done|]. intros; apply Hall; by right. }
    assert (filter (λ q : Z * ClusterMember.t, q.1 < h) pts = []) as ->; [|split_and!; [done|done|lia]].
    clear -Hall. induction pts as [|q pts IH]; [done|]. rewrite filter_cons, decide_False.
    + apply IH. intros; apply Hall; by right.
    + specialize (Hall q ltac:(left)). lia.
Qed.

Definition sorted_points (v : Z) (members : list ClusterMember.t) : list (Z * ClusterMember.t) :=
  merge_sort point_le (points v members).

Lemma sorted_points_sorted v ms : StronglySorted point_le (sorted_points v ms).
Proof. apply StronglySorted_merge_sort; apply _. Qed.

(** [candidates] on a rebuilt ring is the walk with repeated owners dropped. *)
Lemma candidates_rebuild key ms s :
  candidates key (rebuild ms s) =
  match points (virtual_nodes s) ms with
  | [] => raise NoRouteError "no ALIVE cluster members are available"
  | _ => Ok (dedup (walk (_hash key) (sorted_points (virtual_nodes s) ms)).*2 ∅)
  end.
Proof.
  unfold candidates, rebuild. simpl. fold (sorted_points (virtual_nodes s) ms).
  set (pts := sorted_points (virtual_nodes s) ms).
  assert (pts ≡ₚ points (virtual_nodes s) ms) as HP by apply merge_sort_Permutation.
  destruct (points (virtual_nodes s) ms) as [|p0 l0] eqn:E0.
  { symmetry in HP. apply Permutation_nil in HP. by rewrite HP. }
  assert (length pts ≠ 0%nat) as Hlen by (rewrite HP; done).
  destruct pts.*1 as [|x xs] eqn:Ex; [destruct pts; done|]. rewrite <-Ex. f_equal.
  destruct (bisect_split pts (_hash key)) as (Hd & Ht & Hle); [apply sorted_points_sorted|].
  rewrite collect_dedup by (rewrite length_fmap; lia).
  rewrite omap_rotate by (rewrite length_fmap; lia).
  rewrite <-fmap_drop, <-fmap_take, Hd, Ht, <-fmap_app. done.
Qed.

(** ** Dropping repeated owners *)

Lemma elem_of_dedup l seen m : m ∈ dedup l seen → m ∈ l ∧ (node_id m ∉ seen).
Proof.
  revert seen. induction l as [|x l IH]; intros seen; simpl; [by intros ?%elem_of_nil|].
  case_decide as Hx.
  - intros [Hin Hs]%IH. split; [by right|done].
  - intros [->|[Hin Hs]%IH]%elem_of_cons; [split; [left|done]|]. split; [by right|].
    rewrite not_elem_of_union in Hs. apply Hs.
Qed.

Lemma dedup_covers l seen m : m ∈ l → (node_id m ∉ seen) →
  ∃ m', m' ∈ dedup l seen ∧ node_id m' = node_id m.
Proof.
  revert seen. induction l as [|x l IH]; intros seen; simpl; [by intros ?%elem_of_nil|].
  intros Hin Hs. destruct (decide (node_id x = node_id m)) as [E|E].
  - rewrite decide_False by congruence. exists x. split; [left|done].
  - apply elem_of_cons in Hin as [->|Hin]; [done|]. case_decide; [by apply IH|].
    destruct (IH ({[node_id x]} ∪ seen) Hin) as (m' & Hm & Em).
    { rewrite not_elem_of_union, not_elem_of_singleton. split; [congruence|done]. }
    exists m'. split; [by right|done].
Qed.

Lemma NoDup_dedup l seen : NoDup (node_id <$> dedup l seen).
Proof.
  revert seen. induction l as [|x l IH]; intros seen; simpl; [constructor|].
  case_decide; [done|]. rewrite fmap_cons. apply NoDup_cons. split; [|done].
  rewrite list_elem_of_fmap. intros (m & Em & [_ Hm]%elem_of_dedup).
  rewrite <-Em, not_elem_of_union, not_elem_of_singleton in Hm. naive_solver.
Qed.

Lemma dedup_filter n l seen1 seen2 :
  (∀ x, x ≠ n → x ∈ seen1 ↔ x ∈ seen2) →
  dedup (filter (λ m, node_id m ≠ n) l) seen1 = filter (λ m, node_id m ≠ n) (dedup l seen2).
Proof.
  revert seen1 seen2. induction l as [|x l IH]; intros seen1 seen2 Hs; [done|].
  rewrite filter_cons. simpl. case_decide as Hx.
  - simpl. destruct (decide (node_id x ∈ seen2)) as [Hin|Hin].
    + rewrite decide_True by by apply Hs. by apply IH.
    + rewrite decide_False by by rewrite Hs. rewrite filter_cons, decide_True by done. f_equal.
      apply IH. intros y Hy. rewrite !elem_of_union. by rewrite Hs.
  - subst n. case_decide as Hin; [by apply IH|].
    rewrite filter_cons, decide_False by naive_solver. apply IH. intros y Hy.
    rewrite elem_of_union, elem_of_singleton, Hs by done. naive_solver.
Qed.

(** ** The points of a ring *)

Lemma elem_of_points v ms p :
  p ∈ points v ms ↔ ∃ m i, m ∈ ms ∧ status m = ALIVE ∧ (i < Z.to_nat v)%nat ∧
                       p = (_hash (point_name m i), m).
Proof.
  unfold points. rewrite list_elem_of_bind. split.
  - intros (m & Hp & Hm). case_decide; [|by apply elem_of_nil in Hp].
    apply list_elem_of_fmap in Hp as (i & -> & Hi%elem_of_seq). exists m, i. split_and!; (done || lia).
  - intros (m & i & Hm & Ha & Hi & ->). exists m. split; [|done]. rewrite decide_True by done.
    apply list_elem_of_fmap. exists i. split; [done|]. apply elem_of_seq. lia.
Qed.

Lemma elem_of_walk h pts p : p ∈ walk h pts ↔ p ∈ pts.
Proof.
  unfold walk. rewrite elem_of_app, !list_elem_of_filter. split; [naive_solver|].
  intros Hp. destruct (Z.le_gt_cases h p.1); [left|right]; done.
Qed.

(** Members with the same name are the same member. *)
Definition unique_names (ms : list ClusterMember.t) : Prop :=
  ∀ a b, a ∈ ms → b ∈ ms → node_id a = node_id b → a = b.

Lemma NoDup_unique_names ms : NoDup (node_id <$> ms) → unique_names ms.
Proof.
  induction ms as [|m ms IH]; intros Hnd a b Ha Hb E; [by apply elem_of_nil in Ha|].
  rewrite fmap_cons in Hnd. apply NoDup_cons in Hnd as [Hm Hnd].
  rewrite list_elem_of_fmap in Hm.
  apply elem_of_cons in Ha as [->|Ha]; apply elem_of_cons in Hb as [->|Hb]; [done| | |by apply IH];
    destruct Hm; eauto.
Qed.

Lemma points_unique v ms p q : unique_names ms → p ∈ points v ms → q ∈ points v ms →
  point_le p q → point_le q p → p = q.
Proof.
  intros Hu Hp Hq H1 H2. unfold point_le in *.
  assert ((p.1, node_id p.2) = (q.1, node_id q.2)) as [= E1 E2] by by apply (anti_symm py_le).
  apply elem_of_points in Hp as (m & i & Hm & _ & _ & ->), Hq as (m' & i' & Hm' & _ & _ & ->).
  simpl in *. f_equal; [done|]. by apply Hu.
Qed.

(** The sorted list of points only depends on which points there are. *)
Lemma sorted_points_ext v ms l : unique_names ms →
  StronglySorted point_le l → l ≡ₚ points v ms → sorted_points v ms = l.
Proof.
  intros Hu Hs HP. apply (StronglySorted_unique_strong point_le).
  - intros p q Hp Hq. apply (points_unique v ms); [done| |by rewrite <-HP].
    unfold sorted_points in Hp. by rewrite merge_sort_Permutation in Hp.
  - apply sorted_points_sorted.
  - done.
  - unfold sorted_points. by rewrite merge_sort_Permutation, HP.
Qed.

Lemma points_Permutation v ms1 ms2 : ms1 ≡ₚ ms2 → points v ms1 ≡ₚ points v ms2.
Proof. intros HP. unfold points. by rewrite HP. Qed.

Lemma points_filter v ms n :
  points v (filter (λ m, node_id m ≠ n) ms) = filter (λ p, node_id p.2 ≠ n) (points v ms).
Proof.
  unfold points. induction ms as [|m ms IH]; [done|].
  rewrite filter_cons, bind_cons, filter_app, <-IH.
  assert (∀ Q : Prop, ∀ dq : Decision Q, filter (λ p : Z * ClusterMember.t, node_id p.2 ≠ n)
    (if dq then member_points v m else []) =
    if decide (node_id m ≠ n) then (if dq then member_points v m else []) else []) as HF.
  { intros Q [|]; [|by case_decide]. unfold member_points. generalize (seq 0 (Z.to_nat v)).
    intros l. induction l as [|i l IHl]; [by case_decide|].
    rewrite fmap_cons, filter_cons. simpl. destruct (decide (node_id m ≠ n)); [by rewrite IHl|done]. }
  rewrite HF. by destruct (decide (node_id m ≠ n)).
Qed.

Lemma sorted_points_filter v ms n : unique_names ms →
  sorted_points v (filter (λ m, node_id m ≠ n) ms) = filter (λ p, node_id p.2 ≠ n) (sorted_points v ms).
Proof.
  intros Hu. apply sorted_points_ext.
  - intros a b [_ Ha]%list_elem_of_filter [_ Hb]%list_elem_of_filter. by apply Hu.
  - apply StronglySorted_filter, sorted_points_sorted.
  - rewrite points_filter. unfold sorted_points. by rewrite merge_sort_Permutation.
Qed.

Lemma walk_filter h pts n :
  (walk h (filter (λ p, node_id p.2 ≠ n) pts)).*2 = filter (λ m, node_id m ≠ n) (walk h pts).*2.
Proof.
  assert (∀ l : list (Z * ClusterMember.t), (filter (λ p, node_id p.2 ≠ n) l).*2 =
    filter (λ m, node_id m ≠ n) l.*2) as Hf.
  { induction l as [|p l IH]; [done|]. rewrite fmap_cons, !filter_cons.
    case_decide; rewrite ?fmap_cons, IH; done. }
  rewrite <-Hf. f_equal. unfold walk. rewrite filter_app.
  f_equal; rewrite !list_filter_filter; apply list_filter_iff; intros p; naive_solver.
Qed.

(** ** The ring's promises *)

Lemma candidates_spec key ms s :
  1 ≤ virtual_nodes s → NoDup (node_id <$> ms) →
  match candidates key (rebuild ms s) with
  | Ok l => NoDup (node_id <$> l) ∧ ∀ m, m ∈ l ↔ m ∈ ms ∧ status m = ALIVE
  | Err e => exn_cls e = NoRouteError ∧ ∀ m, m ∈ ms → status m ≠ ALIVE
  end.
Proof.
  intros Hv Hnd. apply NoDup_unique_names in Hnd as Hu. rewrite candidates_rebuild.
  assert (∀ m, m ∈ ms → status m = ALIVE → (_hash (point_name m 0), m) ∈ points (virtual_nodes s) ms) as Hp0.
  { intros m Hm Ha. apply elem_of_points. exists m, 0%nat. split_and!; (done || lia). }
  destruct (points (virtual_nodes s) ms) as [|p0 l0] eqn:E0.
  { simpl. split; [done|]. intros m Hm Ha. specialize (Hp0 m Hm Ha). by apply elem_of_nil in Hp0. }
  split; [apply NoDup_dedup|]. intros m.
  set (owners := (walk (_hash key) (sorted_points (virtual_nodes s) ms)).*2).
  assert (∀ x, x ∈ owners ↔ x ∈ ms ∧ status x = ALIVE) as Ho.
  { intros x. unfold owners. rewrite list_elem_of_fmap. setoid_rewrite elem_of_walk.
    unfold sorted_points. setoid_rewrite merge_sort_Permutation. rewrite E0. split.
    - intros (p & -> & Hp). rewrite <-E0 in Hp.
      apply elem_of_points in Hp as (y & i & Hy & Ha & _ & ->). done.
    - intros [Hx Ha]. eexists. split; [|by apply (Hp0 x)]. done. }
  split.
  - intros [Hm _]%elem_of_dedup. by apply Ho.
  - intros [Hm Ha]. destruct (dedup_covers owners ∅ m) as (m' & Hm' & En).
    + by apply Ho.
    + apply not_elem_of_empty.
    + apply elem_of_dedup in Hm' as Hx. destruct Hx as [Hx _]. apply Ho in Hx as [Hx _].
      by rewrite <-(Hu m' m Hx Hm En).
Qed.

(** Placement is total and fair to membership.  On a ring rebuilt from
    distinctly named members, [candidates] lists every alive member exactly once
    and nothing else, and [NoRouteError] is raised exactly when no member is
    alive. *)
Theorem candidates_are_alive_members key ms s :
  1 ≤ virtual_nodes s → NoDup (node_id <$> ms) →
  match candidates key (rebuild ms s) with
  | Ok l => NoDup (node_id <$> l) ∧ ∀ m, m ∈ l ↔ m ∈ ms ∧ status m = ALIVE
  | Err e => exn_cls e = NoRouteError ∧ ∀ m, m ∈ ms → status m ≠ ALIVE
  end.
Proof. apply candidates_spec. Qed.

(** Nodes agree on placement.  Two nodes whose tables hold the same members,
    in whatever order, build the same ring, so they send every key to the same
    candidates in the same order. *)
Theorem rings_agree ms1 ms2 s :
  NoDup (node_id <$> ms1) → ms1 ≡ₚ ms2 → rebuild ms1 s = rebuild ms2 s.
Proof.
  intros Hnd HP. apply NoDup_unique_names in Hnd as Hu. unfold rebuild.
  assert (sorted_points (virtual_nodes s) ms1 = sorted_points (virtual_nodes s) ms2) as E.
  { apply sorted_points_ext; [done|apply sorted_points_sorted|].
    unfold sorted_points. rewrite merge_sort_Permutation. symmetry. by apply points_Permutation. }
  unfold sorted_points in E. by rewrite E.
Qed.

Lemma candidates_filter key ms s n l l' :
  NoDup (node_id <$> ms) →
  candidates key (rebuild ms s) = Ok l →
  candidates key (rebuild (filter (λ m, node_id m ≠ n) ms) s) = Ok l' →
  l' = filter (λ m, node_id m ≠ n) l.
Proof.
  intros Hnd. apply NoDup_unique_names in Hnd as Hu. rewrite !candidates_rebuild.
  destruct (points _ ms); [done|]. intros [= <-].
  destruct (points _ (filter _ ms)); [done|]. intros [= <-].
  rewrite sorted_points_filter, walk_filter by done. by apply dedup_filter.
Qed.

(** C35: minimal disruption.  When one node leaves, every key keeps the candidates
    it had, in the same order, less that node: only the keys the node owned move. *)
Theorem node_leaving_moves_only_its_keys key ms s n l l' :
  NoDup (node_id <$> ms) →
  candidates key (rebuild ms s) = Ok l →
  candidates key (rebuild (filter (λ m, node_id m ≠ n) ms) s) = Ok l' →
  l' = filter (λ m, node_id m ≠ n) l ∧
  (∀ m, owner key (rebuild ms s) = Ok m → node_id m ≠ n →
        owner key (rebuild (filter (λ m, node_id m ≠ n) ms) s) = Ok m).
Proof.
  intros Hnd E E'. pose proof (candidates_filter key ms s n l l' Hnd E E') as ->.
  split; [done|]. intros m. unfold owner. rewrite E, E'. simpl. destruct l as [|x l]; [done|].
  intros [= ->] Hn. by rewrite filter_cons, decide_True.
Qed.
End ring.
End ConsistentHashRing.

(** ** [replication/replica_selector.py] *)
Module ReplicaSelector.
Section selector.
Variable _hash : string → Z.

Record t := mk { ring : ConsistentHashRing.t; replication_factor : Z }.

Definition init (ring : ConsistentHashRing.t) (replication_factor : Z) : result t :=
  if replication_factor <? 1 then raise ValueError "replication_factor must be >= 1"
  else Ok (mk ring replication_factor).

Definition replicas (key : string) (self : t) : result (list ClusterMember.t) :=
  l ← ConsistentHashRing.candidates _hash key (ring self);
  Ok (take (Z.to_nat (replication_factor self)) l).

Definition is_replica (name key : string) (self : t) : result bool :=
  l ← replicas key self;
  Ok (existsb (λ m, bool_decide (node_id m = name)) l).

Definition first_remote_replica (local_node_id key : string) (self : t)
    : result (option ClusterMember.t) :=
  l ← replicas key self;
  Ok (head (filter (λ m, node_id m ≠ local_node_id) l)).

Lemma take_filter_keeps {A} (P : A → Prop) `{∀ x, Decision (P x)} (k : nat) l x :
  x ∈ take k l → P x → x ∈ take k (filter P l).
Proof.
  revert k. induction l as [|y l IH]; intros [|k] Hx HPx; simpl in *; try by apply elem_of_nil in Hx.
  rewrite filter_cons. apply elem_of_cons in Hx as [->|Hx].
  - rewrite decide_True by done. simpl. left.
  - case_decide; simpl; [right; auto|]. specialize (IH k Hx HPx).
    destruct (filter P l) as [|z f]; [by rewrite take_nil in IH|].
    rewrite <-(take_drop k (take (S k) (z :: f))), elem_of_app, take_take.
    left. by rewrite Nat.min_l by lia.
Qed.

(** Replica sets are stable and complete.  A key's replicas are distinct
    alive members, as many as the replication factor asks for (or all there are),
    and when a node leaves, every other replica of the key remains one of its
    replicas. *)
Theorem replicas_distinct_and_stable key ms r s n l l' :
  1 ≤ ConsistentHashRing.virtual_nodes r → NoDup (node_id <$> ms) →
  init (ConsistentHashRing.rebuild _hash ms r) (replication_factor s) = Ok s →
  replicas key s = Ok l →
  replicas key (mk (ConsistentHashRing.rebuild _hash (filter (λ m, node_id m ≠ n) ms) r)
                   (replication_factor s)) = Ok l' →
  NoDup (node_id <$> l) ∧
  (∀ m, m ∈ l → m ∈ ms ∧ status m = ALIVE) ∧
  length l = Nat.min (Z.to_nat (replication_factor s)) (length (filter (λ m, status m = ALIVE) ms)) ∧
  (∀ m, m ∈ l → node_id m ≠ n → m ∈ l').
Proof.
  intros Hv Hnd Hs Hl Hl'. unfold init in Hs. destruct (_ <? 1); [done|]. injection Hs as Hs.
  unfold replicas in Hl, Hl'. rewrite <-Hs in Hl. simpl in Hl, Hl'.
  pose proof (ConsistentHashRing.candidates_spec _hash key ms r Hv Hnd) as Hc.
  destruct (ConsistentHashRing.candidates _hash key (ConsistentHashRing.rebuild _hash ms r)) as [c|] eqn:E; [|done].
  destruct (ConsistentHashRing.candidates _hash key (ConsistentHashRing.rebuild _hash (filter _ ms) r))
    as [c'|] eqn:E'; [|done].
  pose proof (ConsistentHashRing.candidates_filter _hash key ms r n c c' Hnd E E') as ->.
  simpl in Hl, Hl'. injection Hl as <-. injection Hl' as <-. destruct Hc as [Hcn Hc].
  set (k := Z.to_nat (replication_factor s)). split_and!.
  - rewrite fmap_take. by apply NoDup_take.
  - intros m Hm. apply Hc. by apply (elem_of_take_weak k).
  - rewrite length_take. f_equal.
    apply (Permutation_length (l:=c)). apply NoDup_Permutation.
    + by apply (NoDup_fmap_1 node_id).
    + apply NoDup_filter. by apply (NoDup_fmap_1 node_id).
    + intros m. rewrite Hc, list_elem_of_filter. naive_solver.
  - intros m Hm Hn. by apply take_filter_keeps.
Qed.
End selector.
End ReplicaSelector.

(** ** A concrete ring *)
Module RingSample.
Fixpoint toy_hash_from (s : string) (h : Z) : Z :=
  match s with
  | EmptyString => h
  | String a s => toy_hash_from s ((h * 31 + Z.of_N (Ascii.N_of_ascii a)) mod 1009)
  end.
Definition toy_hash (s : string) : Z := toy_hash_from s 7.

Definition member (name : string) (st : MemberStatus) : ClusterMember.t :=
  ClusterMember.mk name "h" 7000 st 1.
Definition ms : list ClusterMember.t :=
  [member "n1" ALIVE; member "n2" ALIVE; member "n3" DEAD; member "n4" ALIVE].
Definition ring0 : ConsistentHashRing.t := ConsistentHashRing.mk 3 [] [].

Lemma ms_names : NoDup (node_id <$> ms).
Proof. apply (bool_decide_unpack _). vm_compute. exact I. Qed.

Lemma candidates_are_alive_members_witness :
  ∃ l, ConsistentHashRing.candidates toy_hash "k" (ConsistentHashRing.rebuild toy_hash ms ring0) = Ok l ∧
    length l = 3%nat ∧ (member "n4" ALIVE ∈ l).
Proof.
  pose proof (ConsistentHashRing.candidates_are_alive_members toy_hash "k" ms ring0) as H.
  destruct (ConsistentHashRing.candidates toy_hash "k" (ConsistentHashRing.rebuild toy_hash ms ring0))
    as [l|e] eqn:E; [|vm_compute in E; discriminate].
  exists l. split; [reflexivity|]. split; [vm_compute in E; injection E as <-; reflexivity|].
  apply H; [simpl; lia|exact ms_names|].
  split; [|reflexivity]. apply (bool_decide_unpack _). vm_compute. exact I.
Defined.

Lemma rings_agree_witness :
  ConsistentHashRing.rebuild toy_hash ms ring0 = ConsistentHashRing.rebuild toy_hash (reverse ms) ring0 ∧
  length (ConsistentHashRing._positions (ConsistentHashRing.rebuild toy_hash ms ring0)) = 9%nat.
Proof.
  split; [|vm_compute; reflexivity].
  apply (ConsistentHashRing.rings_agree toy_hash ms (reverse ms) ring0);
    [exact ms_names|symmetry; apply reverse_Permutation].
Defined.

Lemma node_leaving_moves_only_its_keys_witness :
  ∃ l l', ConsistentHashRing.candidates toy_hash "k" (ConsistentHashRing.rebuild toy_hash ms ring0) = Ok l ∧
    ConsistentHashRing.candidates toy_hash "k"
      (ConsistentHashRing.rebuild toy_hash (filter (λ m, node_id m ≠ "n2") ms) ring0) = Ok l' ∧
    l' = filter (λ m, node_id m ≠ "n2") l.
Proof.
  eexists _, _. split; [vm_compute; reflexivity|]. split; [vm_compute; reflexivity|].
  eapply (ConsistentHashRing.node_leaving_moves_only_its_keys toy_hash "k" ms ring0 "n2");
    [exact ms_names|vm_compute; reflexivity|vm_compute; reflexivity].
Defined.

Lemma replicas_distinct_and_stable_witness :
  ∃ l, ReplicaSelector.replicas toy_hash "k"
         (ReplicaSelector.mk (ConsistentHashRing.rebuild toy_hash ms ring0) 2) = Ok l ∧
    length l = 2%nat ∧ NoDup (node_id <$> l).
Proof.
  eexists. split; [vm_compute; reflexivity|]. split; [reflexivity|].
  eapply (ReplicaSelector.replicas_distinct_and_stable toy_hash "k" ms ring0
            (ReplicaSelector.mk (ConsistentHashRing.rebuild toy_hash ms ring0) 2) "n2");
    [simpl; lia|exact ms_names|reflexivity|vm_compute; reflexivity|vm_compute; reflexivity].
Defined.
End RingSample.
