(* ===== verification/Proto.v ===== *)
(** * The wire messages: [proto/messages.proto]

    One record per protobuf message the code builds, with the fields of the
    schema: enum fields are their integers, a singular message field whose presence
    the code never asks about is its value (absent reads as the default), and one
    whose presence it asks about ([HasField], [WhichOneof]) is an option.
    Protobuf itself is outside the model: [Wire] is what the code relies on, a
    serializer and a parser that are inverse on messages whose integers fit their
    fields.  [countable_wire] shows the contract can be met. *)

From Stdlib Require Import Ascii.
From S2P Require Import Prelude.

Local Open Scope Z_scope.

Definition uint32 (z : Z) : bool := (0 <=? z) && (z <? 2 ^ 32).
Definition uint64 (z : Z) : bool := (0 <=? z) && (z <? 2 ^ 64).
Definition enum32 (z : Z) : bool := (- 2 ^ 31 <=? z) && (z <? 2 ^ 31).

(** The integers of a message fit the widths of the schema; assigning one that
    does not raises [ValueError]. *)
Class Ranged (T : Type) := in_range : T → bool.

Class Wire (T : Type) `{Ranged T} := {
  SerializeToString : T → string;
  ParseFromString : string → option T;
  parse_serialize m : in_range m = true → ParseFromString (SerializeToString m) = Some m;
}.

(** Building a message and serializing it. *)
Definition serialize {T} `{Wire T} (m : T) : result string :=
  if in_range m then Ok (SerializeToString m) else raise ValueError "Value out of range".
Arguments serialize : simpl never.

(** [msg.ParseFromString(data)] with [ProtobufDecodeError] turned into
    [DecodeError(label)]. *)
Definition parse {T} `{Wire T} (label data : string) : result T :=
  match ParseFromString data with
  | Some m => Ok m
  | None => raise DecodeError label
  end.

Lemma parse_of_serialize {T} `{Wire T} label (m : T) data :
  serialize m = Ok data → parse label data = Ok m ∧ in_range m = true.
Proof.
  unfold serialize, parse. destruct (in_range m) eqn:E; [|done]. intros [= <-].
  by rewrite parse_serialize.
Qed.

Lemma ParseFromString_of_serialize {T} `{Wire T} (m : T) data :
  serialize m = Ok data → ParseFromString data = Some m.
Proof. unfold serialize. destruct (in_range m) eqn:E; [|done]. intros [= <-]. by apply parse_serialize. Qed.

Lemma serialize_ok {T} `{Wire T} (m : T) : in_range m = true → ∃ data, serialize m = Ok data.
Proof. intros E. unfold serialize. rewrite E. eauto. Qed.

(** ** A serializer for any countable message type *)
Section countable_wire.
Fixpoint string_of_pos (p : positive) : string :=
  match p with
  | xH => "."
  | xO p => String "0"%char (string_of_pos p)
  | xI p => String "1"%char (string_of_pos p)
  end.

Fixpoint pos_of_string (s : string) : option positive :=
  match s with
  | EmptyString => None
  | String a s =>
      if decide (a = "."%char) then (if decide (s = "") then Some xH else None)
      else p ← pos_of_string s;
           if decide (a = "0"%char) then Some (xO p)
           else if decide (a = "1"%char) then Some (xI p) else None
  end.

Lemma pos_of_string_of_pos p : pos_of_string (string_of_pos p) = Some p.
Proof. induction p as [p IH|p IH|]; simpl; by rewrite ?IH. Qed.

Definition countable_wire {T} `{Ranged T, Countable T} : Wire T.
Proof.
  refine {| SerializeToString := λ m, string_of_pos (encode m);
            ParseFromString := λ s, p ← pos_of_string s; decode p |}.
  intros m _. rewrite pos_of_string_of_pos. simpl. apply decode_encode.
Defined.
End countable_wire.

(** ** The schema *)
Module pb.

(** [enum ErrorCode] *)
Definition UNKNOWN_TASK : Z := 1.
Definition INVALID_REQUEST : Z := 2.
Definition INTERNAL_ERROR : Z := 3.
Definition TIMEOUT : Z := 4.
Definition OVERLOADED : Z := 5.
Definition RATE_LIMITED : Z := 6.
Definition NO_ROUTE : Z := 7.
Definition PEER_UNAVAILABLE : Z := 8.
Definition CAUSAL_UNAVAILABLE : Z := 9.
Definition REPLICATION_BACKPRESSURE : Z := 10.
Definition KEY_NOT_FOUND : Z := 11.
Definition PERSISTENCE_UNAVAILABLE : Z := 12.
Definition PERSISTENCE_BACKPRESSURE : Z := 13.
Definition RECOVERY_IN_PROGRESS : Z := 14.

(** [enum CrdtType] *)
Definition GCOUNTER : Z := 1.
Definition PNCOUNTER : Z := 2.
Definition ORSET : Z := 3.
Definition MVREGISTER : Z := 4.

Record Envelope := mkEnvelope {
  sender_id : string; correlation_id : string; timestamp_ms : Z; ttl : Z; payload : string;
  traceparent : string; tracestate : string }.

Record TaskRequest := mkTaskRequest { task_name : string; payload_json : string; routing_key : string }.

Record Error := mkError { err_code : Z; err_message : string }.

Record TaskResponse := mkTaskResponse {
  tr_success : bool; result_json : string; tr_error : Error; processing_time_us : Z }.

Record ClusterMember := mkClusterMember {
  node_id : string; host : string; port : Z; status : Z; incarnation : Z }.

Record JoinRequest := mkJoinRequest { jr_member : ClusterMember }.
Record JoinResponse := mkJoinResponse { jr_members : list ClusterMember }.
Record Ping := mkPing { ping_gossip : list ClusterMember }.
Record Ack := mkAck { ack_success : bool; ack_target : string; ack_gossip : list ClusterMember }.
Record PingRequest := mkPingRequest { pr_target : ClusterMember; pr_gossip : list ClusterMember }.
Record Gossip := mkGossip { g_members : list ClusterMember }.
Record ForwardedTaskRequest := mkForwarded {
  fwd_request : TaskRequest; fwd_origin : string; fwd_remaining_timeout_ms : Z }.

Record CausalActor := mkCausalActor { ca_node_id : string; ca_incarnation : Z }.
Record Dot := mkDot { dot_actor : CausalActor; dot_counter : Z }.
Record VersionVector := mkVersionVector { vv_entries : list (CausalActor * Z) }.
Record CausalToken := mkCausalToken { token_version : VersionVector }.

Record GCounterState := mkGCounterState { gc_components : list (CausalActor * Z) }.
Record PNCounterState := mkPNCounterState { pn_positive : GCounterState; pn_negative : GCounterState }.
Record ORSetState := mkORSetState { or_adds : list (string * list Dot); or_removed : list Dot }.
Record MVRegisterState := mkMVRegisterState { mv_values : list (Dot * string); mv_superseded : list Dot }.

(** [oneof state] *)
Definition state_oneof : Type :=
  option (GCounterState + PNCounterState + ORSetState + MVRegisterState)%type.

Record CrdtState := mkCrdtState {
  cs_key : string; cs_type : Z; cs_state_version : VersionVector; cs_causal_context : VersionVector;
  cs_state : state_oneof }.

(** [oneof mutation]; each alternative has one field. *)
Inductive mutation := increment (amount : Z) | decrement (amount : Z)
  | set_add (element : string) | set_remove (element : string) | register_write (value_json : string).

Record CrdtMutationRequest := mkMutation {
  mu_key : string; mu_type : Z; mu_token : CausalToken; mu_forwarded : bool; mu_origin : string;
  mu_remaining_timeout_ms : Z; mu_mutation : option mutation }.

Record CrdtReadRequest := mkRead {
  rd_key : string; rd_token : CausalToken; rd_forwarded : bool; rd_origin : string;
  rd_remaining_timeout_ms : Z }.

Record CrdtReplicate := mkReplicate { rep_state : CrdtState }.
Record CrdtFetch := mkFetch { fetch_key : string }.
Record CrdtDigestEntry := mkDigestEntry {
  de_key : string; de_type : Z; de_state_version : VersionVector; de_causal_context : VersionVector }.
Record CrdtDigest := mkDigest {
  dg_requester : string; dg_entries : list CrdtDigestEntry; dg_batch_size : Z }.
Record CrdtDigestResponse := mkDigestResponse { dr_entries : list CrdtDigestEntry }.
Record CrdtResponse := mkResponse {
  rs_success : bool; rs_type : Z; rs_value_json : string; rs_token : CausalToken; rs_served_by : string;
  rs_repair_performed : bool; rs_error : Error; rs_state : option CrdtState;
  rs_peer_frontier : option VersionVector }.

(** *** Ranges *)
#[export] Instance Envelope_ranged : Ranged Envelope := λ m, uint64 (timestamp_ms m) && uint32 (ttl m).
#[export] Instance TaskRequest_ranged : Ranged TaskRequest := λ _, true.
#[export] Instance Error_ranged : Ranged Error := λ m, enum32 (err_code m).
#[export] Instance TaskResponse_ranged : Ranged TaskResponse := λ m,
  in_range (tr_error m) && uint64 (processing_time_us m).
#[export] Instance ClusterMember_ranged : Ranged ClusterMember := λ m,
  uint32 (port m) && enum32 (status m) && uint64 (incarnation m).
#[export] Instance JoinRequest_ranged : Ranged JoinRequest := λ m, in_range (jr_member m).
#[export] Instance JoinResponse_ranged : Ranged JoinResponse := λ m, forallb in_range (jr_members m).
#[export] Instance Ping_ranged : Ranged Ping := λ m, forallb in_range (ping_gossip m).
#[export] Instance Ack_ranged : Ranged Ack := λ m, forallb in_range (ack_gossip m).
#[export] Instance PingRequest_ranged : Ranged PingRequest := λ m,
  in_range (pr_target m) && forallb in_range (pr_gossip m).
#[export] Instance Gossip_ranged : Ranged Gossip := λ m, forallb in_range (g_members m).
#[export] Instance Forwarded_ranged : Ranged ForwardedTaskRequest := λ m,
  in_range (fwd_request m) && uint32 (fwd_remaining_timeout_ms m).
#[export] Instance CausalActor_ranged : Ranged CausalActor := λ m, uint64 (ca_incarnation m).
#[export] Instance counted_actor_ranged : Ranged (CausalActor * Z) := λ m, in_range m.1 && uint64 m.2.
#[export] Instance Dot_ranged : Ranged Dot := λ m, in_range (dot_actor m) && uint64 (dot_counter m).
#[export] Instance VersionVector_ranged : Ranged VersionVector := λ m, forallb in_range (vv_entries m).
#[export] Instance CausalToken_ranged : Ranged CausalToken := λ m, in_range (token_version m).
#[export] Instance GCounterState_ranged : Ranged GCounterState := λ m, forallb in_range (gc_components m).
#[export] Instance PNCounterState_ranged : Ranged PNCounterState := λ m,
  in_range (pn_positive m) && in_range (pn_negative m).
#[export] Instance ORSetState_ranged : Ranged ORSetState := λ m,
  forallb (λ a, forallb in_range a.2) (or_adds m) && forallb in_range (or_removed m).
#[export] Instance MVRegisterState_ranged : Ranged MVRegisterState := λ m,
  forallb (λ v, in_range v.1) (mv_values m) && forallb in_range (mv_superseded m).
#[export] Instance state_oneof_ranged : Ranged state_oneof := λ m,
  match m with
  | Some (inl (inl (inl g))) => in_range g
  | Some (inl (inl (inr p))) => in_range p
  | Some (inl (inr o)) => in_range o
  | Some (inr v) => in_range v
  | None => true
  end.
#[export] Instance CrdtState_ranged : Ranged CrdtState := λ m,
  enum32 (cs_type m) && in_range (cs_state_version m) && in_range (cs_causal_context m) &&
  in_range (cs_state m).
#[export] Instance mutation_ranged : Ranged mutation := λ m,
  match m with increment n | decrement n => uint64 n | _ => true end.
#[export] Instance Mutation_ranged : Ranged CrdtMutationRequest := λ m,
  enum32 (mu_type m) && in_range (mu_token m) && uint32 (mu_remaining_timeout_ms m) &&
  match mu_mutation m with Some x => in_range x | None => true end.
#[export] Instance Read_ranged : Ranged CrdtReadRequest := λ m,
  in_range (rd_token m) && uint32 (rd_remaining_timeout_ms m).
#[export] Instance Replicate_ranged : Ranged CrdtReplicate := λ m, in_range (rep_state m).
#[export] Instance Fetch_ranged : Ranged CrdtFetch := λ _, true.
#[export] Instance DigestEntry_ranged : Ranged CrdtDigestEntry := λ m,
  enum32 (de_type m) && in_range (de_state_version m) && in_range (de_causal_context m).
#[export] Instance Digest_ranged : Ranged CrdtDigest := λ m,
  forallb in_range (dg_entries m) && uint32 (dg_batch_size m).
#[export] Instance DigestResponse_ranged : Ranged CrdtDigestResponse := λ m, forallb in_range (dr_entries m).
#[export] Instance Response_ranged : Ranged CrdtResponse := λ m,
  enum32 (rs_type m) && in_range (rs_token m) && in_range (rs_error m) &&
  match rs_state m with Some s => in_range s | None => true end &&
  match rs_peer_frontier m with Some v => in_range v | None => true end.

(** *** Countability, for [countable_wire] *)
Ltac eqd := solve_decision.
#[export] Instance Envelope_eq : EqDecision Envelope. Proof. eqd. Defined.
#[export] Instance TaskRequest_eq : EqDecision TaskRequest. Proof. eqd. Defined.
#[export] Instance ClusterMember_eq : EqDecision ClusterMember. Proof. eqd. Defined.
#[export] Instance Ack_eq : EqDecision Ack. Proof. eqd. Defined.
#[export] Instance JoinRequest_eq : EqDecision JoinRequest. Proof. eqd. Defined.
#[export] Instance JoinResponse_eq : EqDecision JoinResponse. Proof. eqd. Defined.
#[export] Instance Ping_eq : EqDecision Ping. Proof. eqd. Defined.
#[export] Instance PingRequest_eq : EqDecision PingRequest. Proof. eqd. Defined.
#[export] Instance Gossip_eq : EqDecision Gossip. Proof. eqd. Defined.
#[export] Instance Forwarded_eq : EqDecision ForwardedTaskRequest. Proof. eqd. Defined.
#[export] Instance CausalActor_eq : EqDecision CausalActor. Proof. eqd. Defined.
#[export] Instance Dot_eq : EqDecision Dot. Proof. eqd. Defined.
#[export] Instance VersionVector_eq : EqDecision VersionVector. Proof. eqd. Defined.
#[export] Instance CausalToken_eq : EqDecision CausalToken. Proof. eqd. Defined.
#[export] Instance GCounterState_eq : EqDecision GCounterState. Proof. eqd. Defined.
#[export] Instance PNCounterState_eq : EqDecision PNCounterState. Proof. eqd. Defined.
#[export] Instance ORSetState_eq : EqDecision ORSetState. Proof. eqd. Defined.
#[export] Instance MVRegisterState_eq : EqDecision MVRegisterState. Proof. eqd. Defined.
#[export] Instance CrdtState_eq : EqDecision CrdtState. Proof. unfold state_oneof. eqd. Defined.
#[export] Instance CrdtReplicate_eq : EqDecision CrdtReplicate. Proof. eqd. Defined.
#[export] Instance mutation_eq : EqDecision mutation. Proof. eqd. Defined.
#[export] Instance Mutation_eq : EqDecision CrdtMutationRequest. Proof. eqd. Defined.
#[export] Instance Error_eq : EqDecision Error. Proof. eqd. Defined.
#[export] Instance TaskResponse_eq : EqDecision TaskResponse. Proof. eqd. Defined.
#[export] Instance Read_eq : EqDecision CrdtReadRequest. Proof. eqd. Defined.
#[export] Instance Fetch_eq : EqDecision CrdtFetch. Proof. eqd. Defined.
#[export] Instance DigestEntry_eq : EqDecision CrdtDigestEntry. Proof. eqd. Defined.
#[export] Instance Digest_eq : EqDecision CrdtDigest. Proof. eqd. Defined.
#[export] Instance DigestResponse_eq : EqDecision CrdtDigestResponse. Proof. eqd. Defined.
#[export] Instance Response_eq : EqDecision CrdtResponse. Proof. eqd. Defined.

#[export] Program Instance Envelope_countable : Countable Envelope := inj_countable
  (λ m, (sender_id m, correlation_id m, timestamp_ms m, ttl m, payload m, traceparent m, tracestate m))
  (λ '(a, b, c, d, e, f, g), Some (mkEnvelope a b c d e f g)) _.
Next Obligation. by intros []. Qed.
#[export] Program Instance TaskRequest_countable : Countable TaskRequest := inj_countable
  (λ m, (task_name m, payload_json m, routing_key m)) (λ '(a, b, c), Some (mkTaskRequest a b c)) _.
Next Obligation. by intros []. Qed.
#[export] Program Instance ClusterMember_countable : Countable ClusterMember := inj_countable
  (λ m, (node_id m, host m, port m, status m, incarnation m))
  (λ '(a, b, c, d, e), Some (mkClusterMember a b c d e)) _.
Next Obligation. by intros []. Qed.
#[export] Program Instance Ack_countable : Countable Ack := inj_countable
  (λ m, (ack_success m, ack_target m, ack_gossip m)) (λ '(a, b, c), Some (mkAck a b c)) _.
Next Obligation. by intros []. Qed.
#[export] Program Instance JoinRequest_countable : Countable JoinRequest := inj_countable
  jr_member (λ a, Some (mkJoinRequest a)) _.
Next Obligation. by intros []. Qed.
#[export] Program Instance JoinResponse_countable : Countable JoinResponse := inj_countable
  jr_members (λ a, Some (mkJoinResponse a)) _.
Next Obligation. by intros []. Qed.
#[export] Program Instance Ping_countable : Countable Ping := inj_countable
  ping_gossip (λ a, Some (mkPing a)) _.
Next Obligation. by intros []. Qed.
#[export] Program Instance PingRequest_countable : Countable PingRequest := inj_countable
  (λ m, (pr_target m, pr_gossip m)) (λ '(a, b), Some (mkPingRequest a b)) _.
Next Obligation. by intros []. Qed.
#[export] Program Instance Gossip_countable : Countable Gossip := inj_countable
  g_members (λ a, Some (mkGossip a)) _.
Next Obligation. by intros []. Qed.
#[export] Program Instance Forwarded_countable : Countable ForwardedTaskRequest := inj_countable
  (λ m, (fwd_request m, fwd_origin m, fwd_remaining_timeout_ms m)) (λ '(a, b, c), Some (mkForwarded a b c)) _.
Next Obligation. by intros []. Qed.
#[export] Program Instance CausalActor_countable : Countable CausalActor := inj_countable
  (λ m, (ca_node_id m, ca_incarnation m)) (λ '(a, b), Some (mkCausalActor a b)) _.
Next Obligation. by intros []. Qed.
#[export] Program Instance Dot_countable : Countable Dot := inj_countable
  (λ m, (dot_actor m, dot_counter m)) (λ '(a, b), Some (mkDot a b)) _.
Next Obligation. by intros []. Qed.
#[export] Program Instance VersionVector_countable : Countable VersionVector := inj_countable
  vv_entries (λ a, Some (mkVersionVector a)) _.
Next Obligation. by intros []. Qed.
#[export] Program Instance CausalToken_countable : Countable CausalToken := inj_countable
  token_version (λ a, Some (mkCausalToken a)) _.
Next Obligation. by intros []. Qed.
#[export] Program Instance GCounterState_countable : Countable GCounterState := inj_countable
  gc_components (λ a, Some (mkGCounterState a)) _.
Next Obligation. by intros []. Qed.
#[export] Program Instance PNCounterState_countable : Countable PNCounterState := inj_countable
  (λ m, (pn_positive m, pn_negative m)) (λ '(a, b), Some (mkPNCounterState a b)) _.
Next Obligation. by intros []. Qed.
#[export] Program Instance ORSetState_countable : Countable ORSetState := inj_countable
  (λ m, (or_adds m, or_removed m)) (λ '(a, b), Some (mkORSetState a b)) _.
Next Obligation. by intros []. Qed.
#[export] Program Instance MVRegisterState_countable : Countable MVRegisterState := inj_countable
  (λ m, (mv_values m, mv_superseded m)) (λ '(a, b), Some (mkMVRegisterState a b)) _.
Next Obligation. by intros []. Qed.
#[export] Instance state_oneof_countable : Countable state_oneof.
Proof. unfold state_oneof. apply _. Defined.
#[export] Program Instance CrdtState_countable : Countable CrdtState := inj_countable
  (λ m, (cs_key m, cs_type m, cs_state_version m, cs_causal_context m, cs_state m))
  (λ '(a, b, c, d, e), Some (mkCrdtState a b c d e)) _.
Next Obligation. by intros []. Qed.
#[export] Program Instance CrdtReplicate_countable : Countable CrdtReplicate := inj_countable
  rep_state (λ a, Some (mkReplicate a)) _.
Next Obligation. by intros []. Qed.
#[export] Program Instance mutation_countable : Countable mutation := inj_countable
  (λ m, match m with
        | increment n => inl (inl n) | decrement n => inl (inr n)
        | set_add s => inr (inl s) | set_remove s => inr (inr (inl s))
        | register_write s => inr (inr (inr s)) end)
  (λ x, Some match x with
        | inl (inl n) => increment n | inl (inr n) => decrement n
        | inr (inl s) => set_add s | inr (inr (inl s)) => set_remove s
        | inr (inr (inr s)) => register_write s end) _.
Next Obligation. by intros []. Qed.
#[export] Program Instance Mutation_countable : Countable CrdtMutationRequest := inj_countable
  (λ m, (mu_key m, mu_type m, mu_token m, mu_forwarded m, mu_origin m, mu_remaining_timeout_ms m,
         mu_mutation m))
  (λ '(a, b, c, d, e, f, g), Some (mkMutation a b c d e f g)) _.
Next Obligation. by intros []. Qed.
#[export] Program Instance Error_countable : Countable Error := inj_countable
  (λ m, (err_code m, err_message m)) (λ '(a, b), Some (mkError a b)) _.
Next Obligation. by intros []. Qed.
#[export] Program Instance TaskResponse_countable : Countable TaskResponse := inj_countable
  (λ m, (tr_success m, result_json m, tr_error m, processing_time_us m))
  (λ '(a, b, c, d), Some (mkTaskResponse a b c d)) _.
Next Obligation. by intros []. Qed.
#[export] Program Instance Read_countable : Countable CrdtReadRequest := inj_countable
  (λ m, (rd_key m, rd_token m, rd_forwarded m, rd_origin m, rd_remaining_timeout_ms m))
  (λ '(a, b, c, d, e), Some (mkRead a b c d e)) _.
Next Obligation. by intros []. Qed.
#[export] Program Instance Fetch_countable : Countable CrdtFetch := inj_countable
  fetch_key (λ a, Some (mkFetch a)) _.
Next Obligation. by intros []. Qed.
#[export] Program Instance DigestEntry_countable : Countable CrdtDigestEntry := inj_countable
  (λ m, (de_key m, de_type m, de_state_version m, de_causal_context m))
  (λ '(a, b, c, d), Some (mkDigestEntry a b c d)) _.
Next Obligation. by intros []. Qed.
#[export] Program Instance Digest_countable : Countable CrdtDigest := inj_countable
  (λ m, (dg_requester m, dg_entries m, dg_batch_size m)) (λ '(a, b, c), Some (mkDigest a b c)) _.
Next Obligation. by intros []. Qed.
#[export] Program Instance DigestResponse_countable : Countable CrdtDigestResponse := inj_countable
  dr_entries (λ a, Some (mkDigestResponse a)) _.
Next Obligation. by intros []. Qed.
#[export] Program Instance Response_countable : Countable CrdtResponse := inj_countable
  (λ m, (rs_success m, rs_type m, rs_value_json m, rs_token m, rs_served_by m, rs_repair_performed m,
         rs_error m, rs_state m, rs_peer_frontier m))
  (λ '(a, b, c, d, e, f, g, h, i), Some (mkResponse a b c d e f g h i)) _.
Next Obligation. by intros []. Qed.
End pb.
Export (hints) pb.
