(* ===== verification/Protocol.v ===== *)
(** * The framed TCP protocol: [distsys/protocol]

    Messages, the envelope and task codecs, and framing.  A byte string is a
    [string]; a frame is an 8-byte header ([!2sBBI]) followed by a protobuf
    envelope. *)

From Stdlib Require Import Ascii.
From S2P Require Import Prelude Json Proto.

Local Open Scope Z_scope.

(** ** [protocol/message.py] *)

Inductive MessageType :=
  | REQUEST | RESPONSE | ERROR | HEARTBEAT | JOIN_REQUEST | JOIN_RESPONSE | PING | ACK | PING_REQ
  | GOSSIP | FORWARDED_REQUEST | CRDT_MUTATE_REQUEST | CRDT_READ_REQUEST | CRDT_REPLICATE
  | CRDT_FETCH | CRDT_DIGEST | CRDT_DIGEST_RESPONSE | CRDT_RESPONSE.

#[export] Instance MessageType_eq_dec : EqDecision MessageType.
Proof. solve_decision. Defined.

Definition MessageType_all : list MessageType :=
  [REQUEST; RESPONSE; ERROR; HEARTBEAT; JOIN_REQUEST; JOIN_RESPONSE; PING; ACK; PING_REQ; GOSSIP;
   FORWARDED_REQUEST; CRDT_MUTATE_REQUEST; CRDT_READ_REQUEST; CRDT_REPLICATE; CRDT_FETCH;
   CRDT_DIGEST; CRDT_DIGEST_RESPONSE; CRDT_RESPONSE].

(** The [IntEnum] values, 1 to 18 in the order of the declaration. *)
Definition MessageType_value (t : MessageType) : Z :=
  match t with
  | REQUEST => 1 | RESPONSE => 2 | ERROR => 3 | HEARTBEAT => 4 | JOIN_REQUEST => 5
  | JOIN_RESPONSE => 6 | PING => 7 | ACK => 8 | PING_REQ => 9 | GOSSIP => 10
  | FORWARDED_REQUEST => 11 | CRDT_MUTATE_REQUEST => 12 | CRDT_READ_REQUEST => 13
  | CRDT_REPLICATE => 14 | CRDT_FETCH => 15 | CRDT_DIGEST => 16 | CRDT_DIGEST_RESPONSE => 17
  | CRDT_RESPONSE => 18
  end.

(** [msg_type.name] *)
Definition MessageType_name (t : MessageType) : string :=
  match t with
  | REQUEST => "REQUEST" | RESPONSE => "RESPONSE" | ERROR => "ERROR" | HEARTBEAT => "HEARTBEAT"
  | JOIN_REQUEST => "JOIN_REQUEST" | JOIN_RESPONSE => "JOIN_RESPONSE" | PING => "PING" | ACK => "ACK"
  | PING_REQ => "PING_REQ" | GOSSIP => "GOSSIP" | FORWARDED_REQUEST => "FORWARDED_REQUEST"
  | CRDT_MUTATE_REQUEST => "CRDT_MUTATE_REQUEST" | CRDT_READ_REQUEST => "CRDT_READ_REQUEST"
  | CRDT_REPLICATE => "CRDT_REPLICATE" | CRDT_FETCH => "CRDT_FETCH" | CRDT_DIGEST => "CRDT_DIGEST"
  | CRDT_DIGEST_RESPONSE => "CRDT_DIGEST_RESPONSE" | CRDT_RESPONSE => "CRDT_RESPONSE"
  end.

(** [MessageType(value)] *)
Definition MessageType_of (value : Z) : option MessageType :=
  find (λ t, MessageType_value t =? value) MessageType_all.

Lemma MessageType_of_value t : MessageType_of (MessageType_value t) = Some t.
Proof. by destruct t. Qed.

Module Message.
Record t := mk {
  msg_type : MessageType;
  sender_id : string;
  correlation_id : string;
  timestamp_ms : Z;
  ttl : Z;
  payload : string;
  traceparent : string;
  tracestate : string;
}.

#[export] Instance eq_dec : EqDecision t.
Proof. solve_decision. Defined.

(** [now_ms] is [int(time.time() * 1000)] and [fresh_id] is [str(uuid.uuid4())]. *)
Definition new_request (now_ms : Z) (fresh_id : string) (sender_id payload : string)
    (correlation_id : option string) (ttl : Z) (msg_type : MessageType)
    (traceparent tracestate : string) : t :=
  let correlation_id := match correlation_id with
                        | Some c => if nonempty c then c else fresh_id
                        | None => fresh_id
                        end in
  mk msg_type sender_id correlation_id now_ms ttl payload traceparent tracestate.

Definition new_response (now_ms : Z) (sender_id correlation_id payload : string)
    (msg_type : MessageType) (ttl : Z) (traceparent tracestate : string) : t :=
  mk msg_type sender_id correlation_id now_ms ttl payload traceparent tracestate.
End Message.
Export (hints) Message.

(** ** [protocol/codec.py] *)

Record TaskRequestData := mkTaskRequestData {
  task_name : string; request_payload : json; routing_key : string }.

Record TaskResponseData := mkTaskResponseData {
  success : bool; response_result : json; error_code : Z; error_message : string;
  processing_time_us : Z }.

Section codec.
Context `{!Wire pb.Envelope, !Wire pb.TaskRequest, !Wire pb.TaskResponse}.

Definition encode_envelope (m : Message.t) : result string :=
  serialize (pb.mkEnvelope (Message.sender_id m) (Message.correlation_id m) (Message.timestamp_ms m)
    (Message.ttl m) (Message.payload m) (Message.traceparent m) (Message.tracestate m)).

Definition decode_envelope (msg_type : MessageType) (data : string) : result Message.t :=
  envelope ← parse (T:=pb.Envelope) "invalid protobuf envelope" data;
  if negb (nonempty (pb.sender_id envelope)) then raise DecodeError "sender_id is required"
  else if negb (nonempty (pb.correlation_id envelope)) then raise DecodeError "correlation_id is required"
  else Ok (Message.mk msg_type (pb.sender_id envelope) (pb.correlation_id envelope)
             (pb.timestamp_ms envelope) (pb.ttl envelope) (pb.payload envelope)
             (pb.traceparent envelope) (pb.tracestate envelope)).

(** [json.dumps(value, separators=(",", ":"), ensure_ascii=False).encode("utf-8")] *)
Definition _json_dump (value : json) : string := dumps_in_order value.

Definition _json_load (data : string) : result json :=
  if nonempty data then
    match loads data with
    | Ok v => Ok v
    | Err _ => raise DecodeError "invalid JSON application payload"
    end
  else Ok JNull.

Definition encode_task_request (task_name : string) (payload : json) (routing_key : string) : result string :=
  if negb (nonempty task_name) then raise DecodeError "task_name is required"
  else serialize (pb.mkTaskRequest task_name (_json_dump payload) routing_key).

Definition decode_task_request (data : string) : result TaskRequestData :=
  request ← parse (T:=pb.TaskRequest) "invalid TaskRequest protobuf" data;
  if negb (nonempty (pb.task_name request)) then raise DecodeError "task_name is required"
  else
    payload ← _json_load (pb.payload_json request);
    Ok (mkTaskRequestData (pb.task_name request) payload (pb.routing_key request)).

Definition encode_task_response (success : bool) (result : json) (error_code : Z)
    (error_message : string) (processing_time_us : Z) : Prelude.result string :=
  serialize (pb.mkTaskResponse success (if success then _json_dump result else "")
    (if success then pb.mkError 0 "" else pb.mkError error_code error_message) processing_time_us).

Definition decode_task_response (data : string) : result TaskResponseData :=
  response ← parse (T:=pb.TaskResponse) "invalid TaskResponse protobuf" data;
  result ← (if pb.tr_success response then _json_load (pb.result_json response) else Ok JNull);
  Ok (mkTaskResponseData (pb.tr_success response) result
        (pb.err_code (pb.tr_error response)) (pb.err_message (pb.tr_error response))
        (pb.processing_time_us response)).

Lemma nonempty_true s : s ≠ "" → nonempty s = true.
Proof. intros H. unfold nonempty. by rewrite bool_decide_eq_false_2. Qed.

Lemma dumps_nonempty j : dumps j ≠ "".
Proof. destruct (dumps_head j) as (a & t & -> & _). done. Qed.

Lemma json_dump_load j : unique_keys j → _json_load (_json_dump j) = Ok j.
Proof.
  intros Hj. unfold _json_load, _json_dump. destruct (in_order_head j) as (a & t & E & _).
  rewrite nonempty_true by by rewrite E. by rewrite loads_dumps_in_order.
Qed.

(** Envelopes that name a sender and a correlation id decode to themselves. *)
Lemma decode_encode_envelope m data :
  Message.sender_id m ≠ "" → Message.correlation_id m ≠ "" →
  encode_envelope m = Ok data → decode_envelope (Message.msg_type m) data = Ok m.
Proof.
  intros Hs Hc E. unfold encode_envelope, decode_envelope in *.
  apply (parse_of_serialize "invalid protobuf envelope") in E as [-> _]. simpl.
  rewrite !nonempty_true by done. by destruct m.
Qed.
End codec.

(** ** [protocol/framing.py] *)

Definition MAGIC : string := "DS".
Definition PROTOCOL_VERSION : Z := 1.
Definition HEADER_SIZE : nat := 8.
Definition DEFAULT_MAX_FRAME_SIZE : Z := 4 * 1024 * 1024.

Definition byte (z : Z) : ascii := ascii_of_N (Z.to_N z).
Definition unbyte (a : ascii) : Z := Z.of_N (N_of_ascii a).

(** [struct.Struct("!2sBBI").pack(...)]: network byte order. *)
Definition pack_header (magic : string) (version raw_type body_length : Z) : result string :=
  if (0 <=? version) && (version <=? 255) && (0 <=? raw_type) && (raw_type <=? 255) &&
     (0 <=? body_length) && (body_length <? 2 ^ 32)
  then Ok (magic +:+
           String (byte version) (String (byte raw_type)
             (String (byte (body_length / 2 ^ 24)) (String (byte (body_length / 2 ^ 16 mod 256))
               (String (byte (body_length / 2 ^ 8 mod 256)) (String (byte (body_length mod 256)) ""))))))%string
  else raise StructError "argument out of range".

(** [HEADER_STRUCT.unpack(header)] of eight bytes. *)
Definition unpack_header (header : string) : option (string * Z * Z * Z) :=
  match header with
  | String m1 (String m2 (String v (String t (String b3 (String b2 (String b1 (String b0 ""))))))) =>
      Some (String m1 (String m2 ""), unbyte v, unbyte t,
            unbyte b3 * 2 ^ 24 + unbyte b2 * 2 ^ 16 + unbyte b1 * 2 ^ 8 + unbyte b0)
  | _ => None
  end.

Definition _validate_header (magic : string) (version raw_type body_length max_frame_size : Z)
    : result MessageType :=
  if decide (magic ≠ MAGIC) then raise InvalidMagic "expected b'DS'"
  else if decide (version ≠ PROTOCOL_VERSION) then raise UnsupportedVersion "unsupported protocol version"
  else
    match MessageType_of raw_type with
    | None => raise InvalidMessageType "unknown message type"
    | Some msg_type =>
        if body_length <=? 0 then raise InvalidFrameLength "body length must be > 0"
        else if max_frame_size <? body_length then raise FrameTooLarge "frame body exceeds limit"
        else Ok msg_type
    end.

(** [s[:n]] and [s[n:]] *)
Fixpoint str_take (n : nat) (s : string) : string :=
  match n, s with
  | O, _ => ""
  | S n, String a s => String a (str_take n s)
  | S _, EmptyString => ""
  end.
Fixpoint str_drop (n : nat) (s : string) : string :=
  match n, s with
  | O, _ => s
  | S n, String _ s => str_drop n s
  | S _, EmptyString => ""
  end.

Lemma length_str_take n s : String.length (str_take n s) = Nat.min n (String.length s).
Proof. revert s. induction n as [|n IH]; intros [|a s]; simpl; auto. Qed.

Lemma length_str_drop n s : String.length (str_drop n s) = (String.length s - n)%nat.
Proof. revert s. induction n as [|n IH]; intros [|a s]; simpl; auto. Qed.

Lemma str_take_app_le n s t : (n ≤ String.length s)%nat → str_take n (s +:+ t)%string = str_take n s.
Proof.
  revert s. induction n as [|n IH]; intros [|a s] H; simpl in *; try done; [lia|].
  by rewrite IH by lia.
Qed.

Lemma str_drop_app_le n s t : (n ≤ String.length s)%nat →
  str_drop n (s +:+ t)%string = (str_drop n s +:+ t)%string.
Proof.
  revert s. induction n as [|n IH]; intros [|a s] H; simpl in *; try done; [lia|].
  by rewrite IH by lia.
Qed.

Lemma str_take_exact s t : str_take (String.length s) (s +:+ t)%string = s.
Proof. induction s as [|a s IH]; [done|]. rewrite app_cons. simpl. by rewrite IH. Qed.

Lemma str_drop_exact s t : str_drop (String.length s) (s +:+ t)%string = t.
Proof. induction s as [|a s IH]; [done|]. rewrite app_cons. simpl. by rewrite IH. Qed.

Lemma str_drop_drop n m s : str_drop n (str_drop m s) = str_drop (m + n) s.
Proof. revert s. induction m as [|m IH]; intros [|a s]; simpl; auto. by destruct n. Qed.

(** *** The header *)

Lemma unbyte_byte z : 0 ≤ z < 256 → unbyte (byte z) = z.
Proof. intros Hz. unfold unbyte, byte. rewrite N_ascii_embedding by lia. lia. Qed.

(** The four bytes of a 32-bit number in network order. *)
Lemma big_endian_32 n : 0 ≤ n < 2 ^ 32 →
  n / 2 ^ 24 * 2 ^ 24 + (n / 2 ^ 16 mod 256) * 2 ^ 16 + (n / 2 ^ 8 mod 256) * 2 ^ 8 + n mod 256 = n.
Proof.
  intros Hn. change (2 ^ 24) with 16777216. change (2 ^ 16) with 65536. change (2 ^ 8) with 256.
  change (2 ^ 32) with 4294967296 in Hn.
  pose proof (Z.div_mod n 256). pose proof (Z.div_mod (n / 256) 256). pose proof (Z.div_mod (n / 65536) 256).
  assert (n / 256 / 256 = n / 65536) by (rewrite Z.div_div by lia; reflexivity).
  assert (n / 65536 / 256 = n / 16777216) by (rewrite Z.div_div by lia; reflexivity). lia.
Qed.

Lemma pack_unpack_header v t n h :
  pack_header MAGIC v t n = Ok h →
  String.length h = HEADER_SIZE ∧ unpack_header h = Some (MAGIC, v, t, n) ∧ 0 ≤ n < 2 ^ 32.
Proof.
  unfold pack_header. destruct (_ && _) eqn:E; [|done]. intros [= <-]. boolify. split; [done|].
  unfold MAGIC. rewrite !app_cons, app_nil. cbn [unpack_header].
  rewrite !unbyte_byte; [|try (apply Z.mod_pos_bound; lia)..|lia|lia].
  - rewrite big_endian_32 by lia. split; [done|lia].
  - split; [apply Z.div_pos; lia|]. apply Z.div_lt_upper_bound; lia.
Qed.

Lemma validate_header_ok t n limit : 0 < n ≤ limit →
  _validate_header MAGIC PROTOCOL_VERSION (MessageType_value t) n limit = Ok t.
Proof.
  intros Hn. unfold _validate_header. rewrite !decide_False by (intros H; by apply H).
  rewrite MessageType_of_value. rewrite (proj2 (Z.leb_gt _ _)), (proj2 (Z.ltb_ge _ _)) by lia. done.
Qed.

Section framing.
Context `{!Wire pb.Envelope}.

Definition encode_frame (message : Message.t) (max_frame_size : Z) : result string :=
  body ← encode_envelope message;
  if negb (nonempty body) then raise InvalidFrameLength "encoded envelope is empty"
  else if max_frame_size <? Z.of_nat (String.length body) then raise FrameTooLarge "frame body exceeds limit"
  else
    header ← pack_header MAGIC PROTOCOL_VERSION (MessageType_value (Message.msg_type message))
               (Z.of_nat (String.length body));
    Ok (header +:+ body)%string.

(** [reader.readexactly(n)]: the stream is the bytes that will arrive before
    end of file. *)
Definition readexactly (n : nat) : M string string := λ s,
  if decide (n ≤ String.length s)%nat then (Ok (str_take n s), str_drop n s)
  else (raise IncompleteReadError "", "").

Definition read_message (max_frame_size : Z) : M string Message.t :=
  header ← readexactly HEADER_SIZE;
  match unpack_header header with
  | None => raiseM StructError ""
  | Some (magic, version, raw_type, body_length) =>
      msg_type ← liftM (_validate_header magic version raw_type body_length max_frame_size);
      body ← readexactly (Z.to_nat body_length);
      liftM (decode_envelope msg_type body)
  end.
End framing.

Module FrameDecoder.
Section decoder.
Context `{!Wire pb.Envelope}.

Record t := mk { max_frame_size : Z; _buffer : string }.

Definition init (max_frame_size : Z) : t := mk max_frame_size "".

(** One iteration of the [while True] loop of [feed]: the buffer holds no whole
    frame yet, the loop raises, or a message is taken off the buffer. *)
Inductive iteration :=
  | Break
  | Raise (e : exn) (buffer : string)
  | Append (m : Message.t) (buffer : string).

Definition iterate (limit : Z) (buffer : string) : iteration :=
  if decide (String.length buffer < HEADER_SIZE)%nat then Break
  else
    match unpack_header (str_take HEADER_SIZE buffer) with
    | None => Raise (Exn StructError "" 0) buffer
    | Some (magic, version, raw_type, body_length) =>
        match _validate_header magic version raw_type body_length limit with
        | Err e => Raise e buffer
        | Ok msg_type =>
            let frame_size := (HEADER_SIZE + Z.to_nat body_length)%nat in
            if decide (String.length buffer < frame_size)%nat then Break
            else
              let body := str_take (Z.to_nat body_length) (str_drop HEADER_SIZE buffer) in
              let buffer := str_drop frame_size buffer in
              match decode_envelope msg_type body with
              | Err e => Raise e buffer
              | Ok m => Append m buffer
              end
        end
    end.

(** Every iteration that goes on removes a frame, so the buffer's length is
    enough fuel. *)
Fixpoint loop (fuel : nat) (limit : Z) (buffer : string) (messages : list Message.t)
    : result (list Message.t) * string :=
  match fuel with
  | O => (Ok messages, buffer)
  | S fuel =>
      match iterate limit buffer with
      | Break => (Ok messages, buffer)
      | Raise e buffer => (Err e, buffer)
      | Append m buffer => loop fuel limit buffer (messages ++ [m])
      end
  end.

Definition feed (data : string) : M t (list Message.t) := λ self,
  let buffer := (_buffer self +:+ data)%string in
  let '(r, buffer) := loop (S (String.length buffer)) (max_frame_size self) buffer [] in
  (r, mk (max_frame_size self) buffer).

(** Feeding the chunks of a stream one by one. *)
Fixpoint feed_all (chunks : list string) : M t (list Message.t) :=
  match chunks with
  | [] => mret []
  | c :: chunks => ms ← feed c; rest ← feed_all chunks; mret (ms ++ rest)
  end.

Fixpoint concat_str (l : list string) : string :=
  match l with [] => "" | s :: l => (s +:+ concat_str l)%string end.

Lemma iterate_append limit s t m b : iterate limit s = Append m b →
  iterate limit (s +:+ t)%string = Append m (b +:+ t)%string ∧ (String.length b < String.length s)%nat.
Proof.
  unfold iterate. case_decide as H1; [done|].
  rewrite decide_False by (rewrite length_str_app; lia). rewrite str_take_app_le by lia.
  destruct (unpack_header _) as [[[[mg v] ty] n]|]; [|done].
  destruct (_validate_header mg v ty n limit) as [mt|]; [|done].
  cbv zeta. case_decide as H2; [done|]. rewrite decide_False by (rewrite length_str_app; lia).
  rewrite (str_drop_app_le HEADER_SIZE), str_take_app_le, (str_drop_app_le (HEADER_SIZE + _)) by
    (rewrite ?length_str_drop; lia).
  assert (String.length (str_drop (HEADER_SIZE + Z.to_nat n) s) < String.length s)%nat as Hlt.
  { rewrite length_str_drop. unfold HEADER_SIZE in *. lia. }
  generalize dependent (str_drop (HEADER_SIZE + Z.to_nat n) s). intros rest Hlt.
  destruct (decode_envelope mt _) as [x|]; [|done]. by intros [= <- <-].
Qed.

Lemma iterate_raise limit s t e b : iterate limit s = Raise e b →
  iterate limit (s +:+ t)%string = Raise e (b +:+ t)%string.
Proof.
  unfold iterate. case_decide as H1; [done|].
  rewrite decide_False by (rewrite length_str_app; lia). rewrite str_take_app_le by lia.
  destruct (unpack_header _) as [[[[mg v] ty] n]|]; [|by intros [= <- <-]].
  destruct (_validate_header mg v ty n limit) as [mt|]; [|by intros [= <- <-]].
  cbv zeta. case_decide as H2; [done|]. rewrite decide_False by (rewrite length_str_app; lia).
  rewrite (str_drop_app_le HEADER_SIZE), str_take_app_le, (str_drop_app_le (HEADER_SIZE + _)) by
    (rewrite ?length_str_drop; lia).
  generalize (str_drop (HEADER_SIZE + Z.to_nat n) s). intros rest.
  destruct (decode_envelope mt _) as [x|]; [done|]. by intros [= <- <-].
Qed.

(** More fuel than the buffer is long changes nothing. *)
Lemma loop_fuel limit f1 f2 s acc : (String.length s < f1)%nat → (String.length s < f2)%nat →
  loop f1 limit s acc = loop f2 limit s acc.
Proof.
  revert f2 s acc. induction f1 as [|f1 IH]; intros [|f2] s acc H1 H2; try lia. simpl.
  destruct (iterate limit s) as [|e b|m b] eqn:E; [done|done|].
  pose proof (iterate_append limit s "" m b E) as [_ Hlt]. apply IH; lia.
Qed.

Lemma loop_acc limit f s acc :
  loop f limit s acc =
  match loop f limit s [] with (Ok ms, b) => (Ok (acc ++ ms), b) | (Err e, b) => (Err e, b) end.
Proof.
  revert s acc. induction f as [|f IH]; intros s acc; simpl; [by rewrite app_nil_r|].
  destruct (iterate limit s) as [|e b|m b]; [by rewrite app_nil_r|done|].
  rewrite (IH b (acc ++ [m])), (IH b [m]). destruct (loop f limit b []) as [[ms|e] b']; [|done].
  by rewrite <-app_assoc.
Qed.

Lemma loop_append limit f s acc m b : iterate limit s = Append m b →
  loop (S f) limit s acc = loop f limit b (acc ++ [m]).
Proof. intros E. simpl. by rewrite E. Qed.

(** Data that arrives later continues where the loop stopped. *)
Lemma loop_app limit s t ms b :
  loop (S (String.length s)) limit s [] = (Ok ms, b) →
  loop (S (String.length (s +:+ t)%string)) limit (s +:+ t)%string [] =
  loop (S (String.length (b +:+ t)%string)) limit (b +:+ t)%string ms.
Proof.
  remember (S (String.length s)) as f eqn:Hf. assert (String.length s < f)%nat as Hlt by lia. clear Hf.
  revert s ms Hlt. induction f as [|f IH]; intros s ms Hlt E; [lia|]. simpl in E.
  destruct (iterate limit s) as [|e b'|m b'] eqn:Ei; [by simplify_eq|done|].
  destruct (iterate_append limit s t m b' Ei) as [Hi Hl].
  rewrite loop_acc in E. destruct (loop f limit b' []) as [[ms'|e] b2] eqn:E'; [|done].
  simplify_eq. rewrite (loop_append limit _ (s +:+ t)%string _ m (b' +:+ t)%string Hi), (loop_acc limit _ (b' +:+ t)%string).
  rewrite (loop_fuel limit _ (S (String.length (b' +:+ t)%string))) by
    (rewrite ?length_str_app in *; lia).
  rewrite (IH b' ms' ltac:(lia) E'), (loop_acc limit _ (b +:+ t)%string ms').
  rewrite (loop_acc limit _ (b +:+ t)%string (_ :: _)).
  by destruct (loop _ limit (b +:+ t)%string []) as [[l|e] b3].
Qed.

Lemma loop_raises limit f s t e b acc : loop f limit s acc = (Err e, b) →
  ∀ f' acc', (String.length (s +:+ t)%string < f')%nat →
  ∃ b', loop f' limit (s +:+ t)%string acc' = (Err e, b').
Proof.
  revert s acc. induction f as [|f IH]; intros s acc E [|f'] acc' Hf; try lia; simpl in *; [done|].
  destruct (iterate limit s) as [|e' b'|m b'] eqn:Ei; [done| |].
  - simplify_eq. rewrite (iterate_raise limit s t _ _ Ei). eauto.
  - destruct (iterate_append limit s t m b' Ei) as [-> Hl]. eapply IH; [done|].
    rewrite length_str_app in *. lia.
Qed.

Lemma loop_idle limit s ms b : loop (S (String.length s)) limit s [] = (Ok ms, b) →
  loop (S (String.length b)) limit b [] = (Ok [], b).
Proof.
  intros E. pose proof (loop_app limit s "" ms b E) as H. rewrite !app_nil_end, E in H.
  rewrite loop_acc in H. destruct (loop _ limit b []) as [[l|e] b'] eqn:El; [|done].
  simplify_eq. assert (l = []) as ->; [|done].
  match goal with H : ms = ms ++ l |- _ => rewrite <-(app_nil_r ms) in H at 1; by apply app_inv_head in H end.
Qed.

Lemma feed_all_loop limit chunks b ms out :
  loop (S (String.length b)) limit b [] = (Ok [], b) →
  loop (S (String.length (b +:+ concat_str chunks)%string)) limit (b +:+ concat_str chunks)%string [] = (Ok ms, out) →
  feed_all chunks (mk limit b) = (Ok ms, mk limit out).
Proof.
  revert b ms. induction chunks as [|c chunks IH]; intros b ms Hb E; cbn [concat_str feed_all] in *.
  { rewrite app_nil_end, Hb in E. by simplify_eq. }
  rewrite <-app_assoc' in E.
  destruct (loop (S (String.length (b +:+ c)%string)) limit (b +:+ c)%string []) as [r b1] eqn:E1.
  destruct r as [ms1|e].
  - rewrite (loop_app limit _ (concat_str chunks) ms1 b1 E1), loop_acc in E.
    destruct (loop _ limit (b1 +:+ concat_str chunks)%string []) as [[ms2|e] b2] eqn:E2; [|done].
    simplify_eq. unfold mbind, M_bind, feed. cbn [_buffer max_frame_size]. rewrite E1.
    pose proof (loop_idle limit _ _ _ E1) as Hb1.
    by rewrite (IH b1 ms2 Hb1 E2).
  - destruct (loop_raises limit _ _ (concat_str chunks) _ _ _ E1
               (S (String.length ((b +:+ c) +:+ concat_str chunks)%string)) []) as [b' Hb']; [lia|].
    rewrite Hb' in E. done.
Qed.

Lemma iterate_frame limit m f t :
  Message.sender_id m ≠ "" → Message.correlation_id m ≠ "" →
  encode_frame m limit = Ok f → iterate limit (f +:+ t)%string = Append m t.
Proof.
  intros Hs Hc Hf. unfold encode_frame in Hf. apply bind_Ok_inv in Hf as (body & Hb & Hf).
  destruct (nonempty body) eqn:En; [|done]. simpl in Hf.
  destruct (limit <? Z.of_nat (String.length body)) eqn:El; [done|]. boolify.
  apply bind_Ok_inv in Hf as (h & Hh & [= <-]).
  apply pack_unpack_header in Hh as (Hlen & Hun & Hr).
  assert (0 < Z.of_nat (String.length body)) as Hpos.
  { unfold nonempty in En. boolify. destruct body; [done|simpl; lia]. }
  unfold iterate. rewrite app_assoc'. rewrite <-Hlen.
  rewrite decide_False by (rewrite length_str_app; lia). rewrite str_take_exact, Hun.
  rewrite validate_header_ok by lia. rewrite Nat2Z.id.
  rewrite decide_False by (rewrite !length_str_app; lia).
  rewrite <-(str_drop_drop _ (String.length h)), !str_drop_exact, str_take_exact.
  by rewrite (decode_encode_envelope m body Hs Hc Hb).
Qed.

Lemma loop_frames limit ms frames fuel :
  Forall2 (λ m f, Message.sender_id m ≠ "" ∧ Message.correlation_id m ≠ "" ∧
                  encode_frame m limit = Ok f) ms frames →
  (String.length (concat_str frames) < fuel)%nat →
  loop fuel limit (concat_str frames) [] = (Ok ms, "").
Proof.
  intros HF. revert fuel. induction HF as [|m f ms frames (Hs & Hc & Hf) HF IH]; intros fuel Hl.
  { destruct fuel; [simpl in Hl; lia|done]. }
  destruct fuel as [|fuel]; [lia|]. simpl.
  pose proof (iterate_frame limit m f (concat_str frames) Hs Hc Hf) as Hi. rewrite Hi.
  pose proof (iterate_append limit _ "" _ _ Hi) as [_ Hlt]. simpl in Hl.
  rewrite loop_acc, IH by lia. done.
Qed.

(** C31: framing survives any TCP chunking.  However the bytes of a sequence of
    encoded frames are cut into chunks (inside a header, inside a body, many frames
    at once), feeding the chunks one by one yields exactly the messages sent, in
    order, with nothing left in the buffer. *)
Theorem decoder_chunking_invariant limit ms frames chunks :
  Forall2 (λ m f, Message.sender_id m ≠ "" ∧ Message.correlation_id m ≠ "" ∧
                  encode_frame m limit = Ok f) ms frames →
  concat_str chunks = concat_str frames →
  feed_all chunks (init limit) = (Ok ms, init limit).
Proof.
  intros HF Hc. apply feed_all_loop; [done|]. rewrite Hc, app_nil. apply loop_frames; [done|lia].
Qed.

(** An oversized or malformed frame is refused as soon as its header is
    there: with at least eight bytes buffered whose header is not acceptable,
    [feed] raises the protocol error of the check that failed, before any byte of
    the body is needed and without consuming the header. *)
Theorem decoder_rejects_bad_header self data magic version raw_type n e :
  let buffer := (_buffer self +:+ data)%string in
  (HEADER_SIZE ≤ String.length buffer)%nat →
  unpack_header (str_take HEADER_SIZE buffer) = Some (magic, version, raw_type, n) →
  _validate_header magic version raw_type n (max_frame_size self) = Err e →
  feed data self = (Err e, mk (max_frame_size self) buffer) ∧
  issubclass (exn_cls e) ProtocolError = true ∧
  (magic = MAGIC → version = PROTOCOL_VERSION → max_frame_size self < n → 0 < n →
   is_Some (MessageType_of raw_type) → exn_cls e = FrameTooLarge).
Proof.
  intros buffer Hl Hu Hv. split; [|split].
  - unfold feed. fold buffer. simpl. unfold iterate. rewrite decide_False by lia.
    by rewrite Hu, Hv.
  - revert Hv. unfold _validate_header. cases; intros [= <-]; done.
  - intros -> -> Hn H0 [mt Hmt]. unfold _validate_header in Hv.
    rewrite !decide_False, Hmt in Hv by (intros H; by apply H).
    rewrite (proj2 (Z.leb_gt _ _)), (proj2 (Z.ltb_lt _ _)) in Hv by lia. by injection Hv as <-.
Qed.

(** The bytes a message occupies on the wire. *)
Lemma read_frame limit m f rest :
  Message.sender_id m ≠ "" → Message.correlation_id m ≠ "" →
  encode_frame m limit = Ok f → read_message limit (f +:+ rest)%string = (Ok m, rest).
Proof.
  intros Hs Hc Hf. unfold encode_frame in Hf. apply bind_Ok_inv in Hf as (body & Hb & Hf).
  destruct (nonempty body) eqn:En; [|done]. simpl in Hf.
  destruct (limit <? Z.of_nat (String.length body)) eqn:El; [done|]. boolify.
  apply bind_Ok_inv in Hf as (h & Hh & [= <-]).
  apply pack_unpack_header in Hh as (Hlen & Hun & Hr).
  assert (0 < Z.of_nat (String.length body)) as Hpos.
  { unfold nonempty in En. boolify. destruct body; [done|simpl; lia]. }
  unfold read_message, readexactly, mbind, M_bind. rewrite app_assoc', <-Hlen.
  rewrite decide_True by (rewrite length_str_app; lia). rewrite str_take_exact, str_drop_exact, Hun.
  unfold liftM. rewrite validate_header_ok, Nat2Z.id by lia.
  rewrite decide_True by (rewrite length_str_app; lia). rewrite str_take_exact, str_drop_exact.
  by rewrite (decode_encode_envelope m body Hs Hc Hb).
Qed.

(** A frame written by [encode_frame] is read back by [read_message] as the
    same message, whatever follows it in the stream, and exactly its bytes are
    consumed. *)
Theorem frame_roundtrip limit m f rest :
  Message.sender_id m ≠ "" → Message.correlation_id m ≠ "" →
  encode_frame m limit = Ok f → read_message limit (f +:+ rest)%string = (Ok m, rest).
Proof. apply read_frame. Qed.
End decoder.
End FrameDecoder.

(** ** Concrete frames *)
Module ProtocolSample.
#[local] Instance envelope_wire : Wire pb.Envelope := countable_wire.

Definition m1 : Message.t := Message.mk PING "n1" "c1" 5 8 "" "" "".

Lemma frame_roundtrip_witness :
  ∃ f, encode_frame m1 100000 = Ok f ∧ read_message 100000 (f +:+ "tail")%string = (Ok m1, "tail").
Proof.
  destruct (encode_frame m1 100000) as [f|e] eqn:E; [|vm_compute in E; discriminate].
  exists f. split; [reflexivity|].
  apply (FrameDecoder.frame_roundtrip 100000 m1 f "tail"); [discriminate|discriminate|exact E].
Defined.

Lemma decoder_chunking_invariant_witness :
  ∃ f, encode_frame m1 100000 = Ok f ∧
    FrameDecoder.feed_all [str_take 3 f; ""; str_drop 3 f] (FrameDecoder.init 100000) =
      (Ok [m1], FrameDecoder.init 100000).
Proof.
  destruct (encode_frame m1 100000) as [f|e] eqn:E; [|vm_compute in E; discriminate].
  exists f. split; [reflexivity|].
  apply (FrameDecoder.decoder_chunking_invariant 100000 [m1] [f]).
  - constructor; [|constructor]. split; [discriminate|]. split; [discriminate|exact E].
  - vm_compute in E. injection E as <-. vm_compute. reflexivity.
Defined.

Definition big_header : string :=
  match pack_header MAGIC PROTOCOL_VERSION 7 5000 with Ok h => h | Err _ => "" end.

Lemma decoder_rejects_bad_header_witness :
  (FrameDecoder.feed big_header (FrameDecoder.init 4096)).1 = raise FrameTooLarge "frame body exceeds limit".
Proof.
  destruct (FrameDecoder.decoder_rejects_bad_header (FrameDecoder.init 4096) big_header
              MAGIC PROTOCOL_VERSION 7 5000 (Exn FrameTooLarge "frame body exceeds limit" 0)) as [H _].
  - vm_compute. lia.
  - vm_compute. reflexivity.
  - vm_compute. reflexivity.
  - rewrite H. reflexivity.
Defined.
End ProtocolSample.
