(* ===== verification/Cluster.v ===== *)
(** * The cluster control plane: [distsys/cluster]

    The cluster codec, the failure detector, the gossip loop, the task router and
    the cluster service that ties them to the membership table and the hash ring.

    Nothing awaits while it holds the table's lock, so table methods and
    [sync_ring] are atomic.  A peer call awaits the network, and other tasks of the
    node may run meanwhile: it is a computation on the service state that may
    change it ([PeerOps]). *)

From S2P Require Import Prelude Json Proto Protocol Membership Ring.
Import ClusterMember (node_id, host, port, status, incarnation).

Local Open Scope Z_scope.

(** ** [cluster/codec.py] *)

Record AckData := mkAckData {
  ack_success : bool; target_node_id : string; ack_gossip : list ClusterMember.t }.

Record ForwardedTaskData := mkForwardedTaskData {
  forwarded_task : TaskRequestData; origin_node_id : string; remaining_timeout_ms : Z }.

Definition member_to_proto (m : ClusterMember.t) : pb.ClusterMember :=
  pb.mkClusterMember (node_id m) (host m) (port m) (MemberStatus_value (status m)) (incarnation m).

Definition member_from_proto (value : pb.ClusterMember) : result ClusterMember.t :=
  if negb (nonempty (pb.node_id value)) || negb (nonempty (pb.host value))
  then raise DecodeError "cluster member node_id and host are required"
  else
    match (status ← MemberStatus_of (pb.status value);
           ClusterMember.make (pb.node_id value) (pb.host value) (pb.port value) status
             (pb.incarnation value)) with
    | Ok m => Ok m
    | Err e => if isinstance e [ValueError] then raise DecodeError (exn_msg e) else Err e
    end.

Definition _parse {T} `{Wire T} (label data : string) : result T :=
  parse ("invalid " +:+ label +:+ " protobuf")%string data.

Section codec.
Context `{!Wire pb.JoinRequest, !Wire pb.JoinResponse, !Wire pb.Ping, !Wire pb.Ack,
          !Wire pb.PingRequest, !Wire pb.Gossip, !Wire pb.TaskRequest, !Wire pb.ForwardedTaskRequest}.

Definition encode_join_request (m : ClusterMember.t) : result string :=
  serialize (pb.mkJoinRequest (member_to_proto m)).

Definition decode_join_request (data : string) : result ClusterMember.t :=
  value ← _parse (T:=pb.JoinRequest) "JoinRequest" data;
  member_from_proto (pb.jr_member value).

Definition encode_join_response (ms : list ClusterMember.t) : result string :=
  serialize (pb.mkJoinResponse (member_to_proto <$> ms)).

Definition decode_join_response (data : string) : result (list ClusterMember.t) :=
  value ← _parse (T:=pb.JoinResponse) "JoinResponse" data;
  mapM_result member_from_proto (pb.jr_members value).

Definition encode_ping (gossip : list ClusterMember.t) : result string :=
  serialize (pb.mkPing (member_to_proto <$> gossip)).

Definition decode_ping (data : string) : result (list ClusterMember.t) :=
  value ← _parse (T:=pb.Ping) "Ping" data;
  mapM_result member_from_proto (pb.ping_gossip value).

Definition encode_ack (success : bool) (target : string) (gossip : list ClusterMember.t) : result string :=
  serialize (pb.mkAck success target (member_to_proto <$> gossip)).

Definition decode_ack (data : string) : result AckData :=
  value ← _parse (T:=pb.Ack) "Ack" data;
  gossip ← mapM_result member_from_proto (pb.ack_gossip value);
  Ok (mkAckData (pb.ack_success value) (pb.ack_target value) gossip).

Definition encode_ping_request (target : ClusterMember.t) (gossip : list ClusterMember.t) : result string :=
  serialize (pb.mkPingRequest (member_to_proto target) (member_to_proto <$> gossip)).

Definition decode_ping_request (data : string) : result (ClusterMember.t * list ClusterMember.t) :=
  value ← _parse (T:=pb.PingRequest) "PingRequest" data;
  target ← member_from_proto (pb.pr_target value);
  gossip ← mapM_result member_from_proto (pb.pr_gossip value);
  Ok (target, gossip).

Definition encode_gossip (ms : list ClusterMember.t) : result string :=
  serialize (pb.mkGossip (member_to_proto <$> ms)).

Definition decode_gossip (data : string) : result (list ClusterMember.t) :=
  value ← _parse (T:=pb.Gossip) "Gossip" data;
  mapM_result member_from_proto (pb.g_members value).

Definition encode_forwarded_request (task_name : string) (payload : json) (routing_key origin : string)
    (remaining : Z) : result string :=
  if negb (nonempty origin) then raise DecodeError "origin_node_id is required"
  else if remaining <? 0 then raise DecodeError "remaining_timeout_ms cannot be negative"
  else
    data ← encode_task_request task_name payload routing_key;
    match ParseFromString data with
    | None => raise Exception "google.protobuf.message.DecodeError"
    | Some task => serialize (pb.mkForwarded task origin remaining)
    end.

Definition decode_forwarded_request (data : string) : result ForwardedTaskData :=
  value ← _parse (T:=pb.ForwardedTaskRequest) "ForwardedTaskRequest" data;
  if negb (nonempty (pb.fwd_origin value)) then raise DecodeError "origin_node_id is required"
  else
    data ← serialize (pb.fwd_request value);
    task ← decode_task_request data;
    Ok (mkForwardedTaskData task (pb.fwd_origin value) (pb.fwd_remaining_timeout_ms value)).

Lemma MemberStatus_of_value st : MemberStatus_of (MemberStatus_value st) = Ok st.
Proof. by destruct st. Qed.

Lemma member_roundtrip m : ClusterMember.valid m → member_from_proto (member_to_proto m) = Ok m.
Proof.
  intros Hv. pose proof Hv as (Hn & Hh & Hp & Hi). unfold member_from_proto, member_to_proto. simpl.
  rewrite !nonempty_true by done. simpl. rewrite MemberStatus_of_value. simpl.
  assert (ClusterMember.make (node_id m) (host m) (port m) (status m) (incarnation m) = Ok m) as ->; [|done].
  apply ClusterMember.make_iff. by destruct m.
Qed.

Lemma members_roundtrip ms : Forall ClusterMember.valid ms →
  mapM_result member_from_proto (member_to_proto <$> ms) = Ok ms.
Proof.
  induction 1 as [|m ms Hm Hms IH]; [done|]. rewrite fmap_cons. simpl.
  rewrite member_roundtrip by done. simpl. by rewrite IH.
Qed.

Lemma member_from_proto_valid p m : member_from_proto p = Ok m → ClusterMember.valid m.
Proof.
  unfold member_from_proto. destruct (_ || _); [done|].
  destruct (MemberStatus_of (pb.status p)) as [st|e]; simpl; [|destruct (isinstance e _); done].
  destruct (ClusterMember.make _ _ _ _ _) as [x|e] eqn:E; [|destruct (isinstance e _); done].
  intros [= <-]. apply ClusterMember.make_iff in E as [-> ?]. done.
Qed.

Lemma members_from_proto_valid ps ms : mapM_result member_from_proto ps = Ok ms →
  Forall ClusterMember.valid ms.
Proof.
  revert ms. induction ps as [|p ps IH]; simpl; intros ms; [intros [= <-]; constructor|].
  intros (m & Hm & (ms' & Hms & [= <-])%bind_Ok_inv)%bind_Ok_inv.
  constructor; [by eapply member_from_proto_valid|auto].
Qed.
End codec.

(** ** Peer calls *)

Record PeerOps (S : Type) := {
  ping : ClusterMember.t → list ClusterMember.t → M S AckData;
  ping_request : ClusterMember.t → ClusterMember.t → list ClusterMember.t → M S AckData;
  gossip : ClusterMember.t → list ClusterMember.t → M S AckData;
  join : SeedAddress.t → ClusterMember.t → M S (list ClusterMember.t);
}.
Arguments ping {S} _ _ _.
Arguments ping_request {S} _ _ _ _.
Arguments gossip {S} _ _ _.
Arguments join {S} _ _ _.

(** [except (ConnectionError, TimeoutError, OSError)] *)
Definition network_errors : list exn_class := [ConnectionError; TimeoutError; OSError].

(** [try: r = await op except (ConnectionError, TimeoutError, OSError): r = None] *)
Definition attempt {S A} (op : M S A) : M S (option A) :=
  catchM (r ← op; mret (Some r)) network_errors (λ _, mret None).

(** ** [cluster/service.py] *)
Module ClusterService.
Section service.
Variable _hash : string → Z.

Record t := mk {
  local_member : ClusterMember.t;
  bootstrap_seeds : list SeedAddress.t;
  membership : MembershipTable.t;
  ring : ConsistentHashRing.t;
  _ring_version : Z;
}.

(** [__init__]: [settings.node_id], [advertise_host or host], the bound port,
    [incarnation or fresh_incarnation()], the cluster settings and the seeds. *)
Definition init (name advertised : string) (bound_port incarnation suspicion retention virtual_nodes : Z)
    (seeds : list SeedAddress.t) : result t :=
  local ← ClusterMember.make name advertised bound_port ALIVE incarnation;
  membership ← MembershipTable.init local suspicion retention;
  ring ← ConsistentHashRing.init virtual_nodes;
  Ok (mk local seeds membership ring (-1)).

Definition with_membership (m : MembershipTable.t) (s : t) : t :=
  mk (local_member s) (bootstrap_seeds s) m (ring s) (_ring_version s).

(** A method of [self.membership]. *)
Definition on_table {A} (op : M MembershipTable.t A) : M t A := λ s,
  let '(r, m) := op (membership s) in (r, with_membership m s).

Definition sync_ring : M t unit := λ s,
  let version := MembershipTable._version (membership s) in
  if version =? _ring_version s then (Ok tt, s)
  else (Ok tt, mk (local_member s) (bootstrap_seeds s) (membership s)
                  (ConsistentHashRing.rebuild _hash (MembershipTable.snapshot (membership s)) (ring s))
                  version).

Section peers.
Variable peers : PeerOps t.

(** [for seed in candidates: try join ...]; [now] is the clock at the merge. *)
Fixpoint try_seeds (now : Z) (candidates : list SeedAddress.t) : M t unit :=
  match candidates with
  | [] => raiseM ClusterBootstrapError "unable to contact any configured cluster seed"
  | seed :: candidates =>
      local ← gets local_member;
      snapshot ← attempt (join peers seed local);
      match snapshot with
      | None => try_seeds now candidates
      | Some snapshot =>
          _ ← on_table (MembershipTable.merge now snapshot);
          sync_ring
      end
  end.

Definition bootstrap (now : Z) : M t unit :=
  _ ← sync_ring;
  s ← getM;
  match bootstrap_seeds s with
  | [] => mret tt
  | seeds =>
      let candidates := filter (λ seed, ¬ (SeedAddress.host seed = host (local_member s) ∧
                                           SeedAddress.port seed = port (local_member s))) seeds in
      match candidates with
      | [] => raiseM ClusterBootstrapError "configured cluster seeds contain only the local node"
      | _ => try_seeds now candidates
      end
  end.

(** [handle_control]: the payload decoded, the state changed, and the encoded
    reply with its type.  [now] and [now'] are the clock readings of the merges. *)
Section handlers.
Context `{!Wire pb.JoinRequest, !Wire pb.JoinResponse, !Wire pb.Ping, !Wire pb.Ack,
          !Wire pb.PingRequest, !Wire pb.Gossip}.

Definition absorb (now : Z) (records : list ClusterMember.t) : M t (list ClusterMember.t) :=
  _ ← on_table (MembershipTable.merge now records);
  _ ← sync_ring;
  gets (λ s, MembershipTable.snapshot (membership s)).

Definition handle_control (now now' now_ms : Z) (message : Message.t) : M t Message.t :=
  s0 ← getM;
  let name := node_id (local_member s0) in
  let _response (msg_type : MessageType) (payload : string) : M t Message.t :=
    mret (Message.new_response now_ms name (Message.correlation_id message) payload msg_type 8 "" "") in
  match Message.msg_type message with
  | JOIN_REQUEST =>
      joining ← liftM (decode_join_request (Message.payload message));
      snapshot ← absorb now [joining];
      payload ← liftM (encode_join_response snapshot);
      _response JOIN_RESPONSE payload
  | PING =>
      incoming ← liftM (decode_ping (Message.payload message));
      snapshot ← absorb now incoming;
      payload ← liftM (encode_ack true name snapshot);
      _response ACK payload
  | PING_REQ =>
      '(target, incoming) ← liftM (decode_ping_request (Message.payload message));
      snapshot ← absorb now incoming;
      ack ← attempt (ping peers target snapshot);
      let success := match ack with
                     | Some ack => ack_success ack && bool_decide (target_node_id ack = node_id target)
                     | None => false
                     end in
      _ ← match ack with
          | Some ack =>
              if success then
                changed ← on_table (MembershipTable.merge now' (ack_gossip ack));
                if (changed : bool) then sync_ring else mret tt
              else mret tt
          | None => mret tt
          end;
      snapshot ← gets (λ s, MembershipTable.snapshot (membership s));
      payload ← liftM (encode_ack success (node_id target) snapshot);
      _response ACK payload
  | GOSSIP =>
      incoming ← liftM (decode_gossip (Message.payload message));
      snapshot ← absorb now incoming;
      payload ← liftM (encode_ack true name snapshot);
      _response ACK payload
  | _ => raiseM ValueError "unsupported cluster control message"
  end.
End handlers.
End peers.
End service.
End ClusterService.

(** ** The ring follows the membership *)
Module ClusterInvariant.
Import ClusterService.
Section invariant.
Variable _hash : string → Z.

(** A consistent table, and a ring built from it whenever its version is the
    table's. *)
Definition svc_inv (s : t) : Prop :=
  MembershipTable.inv (membership s) ∧
  1 ≤ ConsistentHashRing.virtual_nodes (ring s) ∧
  _ring_version s ≤ MembershipTable._version (membership s) ∧
  (_ring_version s = MembershipTable._version (membership s) →
   ring s = ConsistentHashRing.rebuild _hash (MembershipTable.snapshot (membership s)) (ring s)).

Definition synced (s : t) : Prop :=
  svc_inv s ∧ _ring_version s = MembershipTable._version (membership s).

(** Preservation by a computation, whether it returns or raises. *)
Definition preserves {A} (P : t → Prop) (m : M t A) : Prop := ∀ s, P s → P (m s).2.

Lemma preserves_ret {A} P (a : A) : preserves P (mret a).
Proof. by intros s. Qed.

Lemma preserves_lift {A} P (r : result A) : preserves P (liftM r).
Proof. by intros s. Qed.

Lemma preserves_gets {A} P (f : t → A) : preserves P (gets f).
Proof. by intros s. Qed.

Lemma preserves_bind {A B} P (m : M t A) (f : A → M t B) :
  preserves P m → (∀ a, preserves P (f a)) → preserves P (m ≫= f).
Proof.
  intros Hm Hf s Hs. unfold mbind, M_bind. specialize (Hm s Hs).
  destruct (m s) as [[a|e] s']; [by apply Hf|done].
Qed.

Lemma preserves_attempt {A} P (m : M t A) : preserves P m → preserves P (attempt m).
Proof.
  intros Hm s Hs. unfold attempt, catchM, mbind, M_bind. specialize (Hm s Hs).
  destruct (m s) as [[a|e] s']; [done|]. by destruct (isinstance e network_errors).
Qed.

Lemma sync_ring_synced s : svc_inv s → synced (sync_ring _hash s).2.
Proof.
  intros (Hi & Hv & Hle & Hr). unfold sync_ring. destruct (_ =? _) eqn:E; boolify; simpl.
  - split; [|done]. by split_and!.
  - split; [|done]. split_and!; simpl; try done.
Qed.

(** A table operation that bumps the version whenever it changes the members. *)
Definition versioned {A} (op : M MembershipTable.t A) (flag : A → bool) : Prop :=
  ∀ m, MembershipTable.inv m → ∃ r m', op m = (Ok r, m') ∧ MembershipTable.inv m' ∧
    if flag r then MembershipTable._version m' = MembershipTable._version m + 1
    else MembershipTable._version m' = MembershipTable._version m ∧
         MembershipTable._members m' = MembershipTable._members m.

Lemma merge_versioned now rs : Forall ClusterMember.valid rs →
  versioned (MembershipTable.merge now rs) id.
Proof.
  intros Hrs m Hm. destruct (MembershipTable.merge_spec now rs m Hm Hrs) as (c & m' & E & Hi & _ & H).
  exists c, m'. split; [done|]. split; [done|]. destruct c; [done|]. by subst.
Qed.

Lemma mark_suspect_versioned now n : versioned (MembershipTable.mark_suspect now n) id.
Proof.
  intros m Hm. destruct (MembershipTable.mark_suspect_spec now n m Hm) as (c & m' & E & Hi & _ & H).
  exists c, m'. split; [done|]. split; [done|]. destruct c; [by destruct H|]. by subst.
Qed.

Lemma advance_versioned now : versioned (MembershipTable.advance_timeouts_and_purge now) id.
Proof.
  intros m Hm. destruct (MembershipTable.advance_flag now m) as (c & m' & E & H).
  exists c, m'. split; [done|]. split; [|done].
  by apply (MembershipTable.advance_inv m now (Ok c)).
Qed.

Lemma on_table_inv {A} (op : M MembershipTable.t A) flag s : versioned op flag → svc_inv s →
  ∃ r, (on_table op s).1 = Ok r ∧ svc_inv (on_table op s).2 ∧
    (flag r = false → synced s → synced (on_table op s).2).
Proof.
  intros Hop (Hi & Hv & Hle & Hr). destruct (Hop _ Hi) as (r & m' & E & Hi' & H).
  unfold on_table. rewrite E. simpl. exists r. split; [done|].
  assert (flag r = false → MembershipTable._version m' = MembershipTable._version (membership s) ∧
    MembershipTable.snapshot m' = MembershipTable.snapshot (membership s)) as Hsame.
  { intros Hf. rewrite Hf in H. destruct H as [-> Em]. split; [done|].
    unfold MembershipTable.snapshot. by rewrite Em. }
  assert (svc_inv (with_membership m' s)) as Hs'.
  { destruct (flag r) eqn:Ef.
    - split_and!; simpl; try done; lia.
    - destruct (Hsame eq_refl) as [Hver Hsn]. split_and!; simpl; [done|done|lia|].
      rewrite Hver, Hsn. done. }
  split; [done|]. intros Hf [_ Hsy]. split; [done|]. simpl. rewrite (proj1 (Hsame Hf)). done.
Qed.

(** Change the table, then rebuild the ring if the operation said so. *)
Lemma change_then_sync op s : versioned op id → synced s →
  synced ((changed ← on_table op; if (changed : bool) then sync_ring _hash else mret tt) s).2.
Proof.
  intros Hop Hs. destruct (on_table_inv op id s Hop (proj1 Hs)) as (r & Er & Hi & Hf).
  unfold mbind, M_bind. destruct (on_table op s) as [x s'] eqn:E. simpl in *. subst x.
  destruct r; [by apply sync_ring_synced|]. simpl. by apply Hf.
Qed.

Lemma absorb_synced now rs : Forall ClusterMember.valid rs → preserves synced (absorb _hash now rs).
Proof.
  intros Hrs s Hs. unfold absorb, mbind, M_bind.
  destruct (on_table_inv _ id s (merge_versioned now rs Hrs) (proj1 Hs)) as (r & Er & Hi & _).
  destruct (on_table _ s) as [x s'] eqn:E. simpl in *. subst x.
  pose proof (sync_ring_synced s' Hi) as Hsy. destruct (sync_ring _hash s') as [[u|e] s2]; done.
Qed.

(** The records a decoder returns are valid. *)
Lemma preserves_decoded {A B} (r : result A) (Q : A → Prop) (f : A → M t B) :
  (∀ a, r = Ok a → Q a) → (∀ a, Q a → preserves synced (f a)) → preserves synced (liftM r ≫= f).
Proof. intros Hr Hf s Hs. unfold mbind, M_bind, liftM. destruct r; [apply Hf; auto|done]. Qed.

(** What the peer calls may do to the service while they wait, and the records
    they return. *)
Record good_peers (peers : PeerOps t) : Prop := {
  ping_synced p g : preserves synced (ping peers p g);
  ping_request_synced h p g : preserves synced (ping_request peers h p g);
  gossip_synced p g : preserves synced (gossip peers p g);
  ping_valid p g s a s' : ping peers p g s = (Ok a, s') → Forall ClusterMember.valid (ack_gossip a);
  ping_request_valid h p g s a s' :
    ping_request peers h p g s = (Ok a, s') → Forall ClusterMember.valid (ack_gossip a);
  gossip_valid p g s a s' : gossip peers p g s = (Ok a, s') → Forall ClusterMember.valid (ack_gossip a);
}.

(** [attempt] keeps what is known of the value returned. *)
Lemma attempt_then {A B} (op : M t A) (Q : A → Prop) (f : option A → M t B) :
  preserves synced op → (∀ s a s', op s = (Ok a, s') → Q a) →
  (∀ o, (∀ a, o = Some a → Q a) → preserves synced (f o)) → preserves synced (attempt op ≫= f).
Proof.
  intros Hop HQ Hf s Hs. pose proof (preserves_attempt synced op Hop s Hs) as Hs'.
  unfold mbind at 1, M_bind. destruct (attempt op s) as [[o|e] s'] eqn:E; [|done].
  apply Hf; [|done]. intros a ->. unfold attempt, catchM, mbind, M_bind, mret, M_ret in E.
  destruct (op s) as [[b|e] s1] eqn:Eop; [|by destruct (isinstance e network_errors)].
  simplify_eq. by eapply HQ.
Qed.

Lemma candidates_of_synced key s l : synced s →
  ConsistentHashRing.candidates _hash key (ring s) = Ok l →
  ∀ m, m ∈ l ↔ MembershipTable.get (node_id m) (membership s) = Some m ∧ status m = ALIVE.
Proof.
  intros [(Hi & Hv & _ & Hr) Hsy] Hl m. rewrite (Hr Hsy) in Hl.
  assert (∀ x, x ∈ MembershipTable.snapshot (membership s) ↔
               MembershipTable.get (node_id x) (membership s) = Some x) as Hsn.
  { intros x. unfold MembershipTable.snapshot, MembershipTable.get. rewrite list_elem_of_fmap. split.
    - intros ([n y] & -> & Hin%elem_of_sorted_items). simpl.
      by destruct (MembershipTable.inv_member _ _ _ Hi Hin) as [-> _].
    - intros Hx. exists (node_id x, x). split; [done|]. by apply elem_of_sorted_items. }
  assert (NoDup (node_id <$> MembershipTable.snapshot (membership s))) as Hnd.
  { unfold MembershipTable.snapshot. rewrite <-list_fmap_compose.
    rewrite (list_fmap_ext _ fst); [apply NoDup_sorted_items_fst|].
    intros i [n y] Hin%list_elem_of_lookup_2. apply elem_of_sorted_items in Hin.
    by destruct (MembershipTable.inv_member _ _ _ Hi Hin) as [? _]. }
  pose proof (ConsistentHashRing.candidates_spec _hash key _ (ring s) Hv Hnd) as Hc.
  rewrite Hl in Hc. destruct Hc as [_ Hc]. rewrite Hc. by rewrite Hsn.
Qed.

Section handlers.
Context `{!Wire pb.JoinRequest, !Wire pb.JoinResponse, !Wire pb.Ping, !Wire pb.Ack,
          !Wire pb.PingRequest, !Wire pb.Gossip}.

Lemma decode_join_request_valid data m : decode_join_request data = Ok m → ClusterMember.valid m.
Proof. intros (v & _ & H)%bind_Ok_inv. by eapply member_from_proto_valid. Qed.

Lemma decode_ping_valid data ms : decode_ping data = Ok ms → Forall ClusterMember.valid ms.
Proof. intros (v & _ & H)%bind_Ok_inv. by eapply members_from_proto_valid. Qed.

Lemma decode_gossip_valid data ms : decode_gossip data = Ok ms → Forall ClusterMember.valid ms.
Proof. intros (v & _ & H)%bind_Ok_inv. by eapply members_from_proto_valid. Qed.

Lemma decode_ping_request_valid data tm : decode_ping_request data = Ok tm →
  Forall ClusterMember.valid tm.2.
Proof.
  intros (v & _ & (t & _ & (ms & H & [= <-])%bind_Ok_inv)%bind_Ok_inv)%bind_Ok_inv.
  by eapply members_from_proto_valid.
Qed.

Lemma handle_control_synced peers now now' now_ms message : good_peers peers →
  preserves synced (handle_control _hash peers now now' now_ms message).
Proof.
  intros Hp. unfold handle_control. apply preserves_bind; [by intros s|]. intros s0.
  destruct (Message.msg_type message); try by intros s.
  - apply (preserves_decoded _ _ _ (decode_join_request_valid _)). intros m Hm.
    apply preserves_bind; [apply absorb_synced; by constructor|]. intros ?.
    apply preserves_bind; [apply preserves_lift|]. intros ?. apply preserves_ret.
  - apply (preserves_decoded _ _ _ (decode_ping_valid _)). intros ms Hms.
    apply preserves_bind; [by apply absorb_synced|]. intros ?.
    apply preserves_bind; [apply preserves_lift|]. intros ?. apply preserves_ret.
  - apply (preserves_decoded _ _ _ (decode_ping_request_valid _)). intros [target ms] Hms.
    apply preserves_bind; [by apply absorb_synced|]. intros snapshot.
    apply (attempt_then _ (λ a, Forall ClusterMember.valid (ack_gossip a)));
      [apply (ping_synced _ Hp)|apply (ping_valid _ Hp)|].
    intros o Ho. apply preserves_bind.
    { destruct o as [a|]; [|by intros s]. destruct (_ && _); [|by intros s].
      intros s Hs. apply change_then_sync; [|done]. apply merge_versioned. by apply Ho. }
    intros ?. apply preserves_bind; [apply preserves_gets|]. intros ?.
    apply preserves_bind; [apply preserves_lift|]. intros ?. apply preserves_ret.
  - apply (preserves_decoded _ _ _ (decode_gossip_valid _)). intros ms Hms.
    apply preserves_bind; [by apply absorb_synced|]. intros ?.
    apply preserves_bind; [apply preserves_lift|]. intros ?. apply preserves_ret.
Qed.

(** C30: routing follows membership.  Whatever control message a node handles
    (malformed ones and failing probes included), its table stays consistent and
    its ring is rebuilt in step: every key is then routed to exactly the members
    the table holds as alive. *)
Theorem routing_follows_membership peers now now' now_ms message s :
  good_peers peers → synced s →
  let s' := (handle_control _hash peers now now' now_ms message s).2 in
  synced s' ∧
  ∀ key l, ConsistentHashRing.candidates _hash key (ring s') = Ok l →
    ∀ m, m ∈ l ↔ MembershipTable.get (node_id m) (membership s') = Some m ∧ status m = ALIVE.
Proof.
  intros Hp Hs. pose proof (handle_control_synced peers now now' now_ms message Hp s Hs) as Hs'.
  split; [done|]. intros key l Hl. by apply (candidates_of_synced key).
Qed.
End handlers.
End invariant.
End ClusterInvariant.

(** ** [cluster/failure_detector.py] *)
Module FailureDetector.
Section detector.
Variable _hash : string → Z.
Variable peers : PeerOps ClusterService.t.
(** [random.choice] on the candidates, and the configured number of helpers. *)
Variable choose : list ClusterMember.t → ClusterMember.t.
Variable indirect_probe_count : nat.

Definition table_snapshot : M ClusterService.t (list ClusterMember.t) :=
  gets (λ s, MembershipTable.snapshot (ClusterService.membership s)).

Definition on_membership_change (changed : bool) : M ClusterService.t unit :=
  if changed then ClusterService.sync_ring _hash else mret tt.

(** [asyncio.gather] of the indirect probes, in the order of the helpers. *)
Fixpoint indirect (helpers : list ClusterMember.t) (target : ClusterMember.t)
    (snapshot : list ClusterMember.t) : M ClusterService.t (list (option AckData)) :=
  match helpers with
  | [] => mret []
  | h :: helpers =>
      r ← attempt (ping_request peers h target snapshot);
      rs ← indirect helpers target snapshot;
      mret (r :: rs)
  end.

Definition answers_for (target : ClusterMember.t) (ack : AckData) : bool :=
  ack_success ack && bool_decide (target_node_id ack = node_id target).

(** [if await self.table.op(): await self.on_membership_change()] *)
Definition table_step (op : M MembershipTable.t bool) : M ClusterService.t unit :=
  changed ← ClusterService.on_table op; on_membership_change changed.

(** The probe of [run_once]; the clock readings are those of the merge and of the
    suspicion. *)
Definition probe (now_merge now_suspect : Z) : M ClusterService.t unit :=
  candidates ← gets (λ s, MembershipTable.probe_candidates (ClusterService.membership s));
  match candidates with
  | [] => mret tt
  | _ =>
      let target := choose candidates in
      snapshot ← table_snapshot;
      ack ← attempt (ping peers target snapshot);
      match filter (λ a, answers_for target a = true) (option_list ack) with
      | ack :: _ => table_step (MembershipTable.merge now_merge (ack_gossip ack))
      | [] =>
          alive ← gets (λ s, MembershipTable.alive_members false (ClusterService.membership s));
          let helpers := take indirect_probe_count (filter (λ m, node_id m ≠ node_id target) alive) in
          results ← indirect helpers target snapshot;
          match filter (λ a, answers_for target a = true) (omap id results) with
          | ack :: _ => table_step (MembershipTable.merge now_merge (ack_gossip ack))
          | [] => table_step (MembershipTable.mark_suspect now_suspect (node_id target))
          end
      end
  end.

Definition run_once (now_sweep now_merge now_suspect : Z) : M ClusterService.t unit :=
  _ ← table_step (MembershipTable.advance_timeouts_and_purge now_sweep);
  probe now_merge now_suspect.

(** [run]: [while True: await self.run_once(); await self.sleep(...)], for as
    many rounds as there are clock readings; an exception ends the task. *)
Fixpoint run (rounds : list (Z * Z * Z)) : M ClusterService.t unit :=
  match rounds with
  | [] => mret tt
  | (a, b, c) :: rounds => _ ← run_once a b c; run rounds
  end.

Import ClusterService ClusterInvariant.

Lemma indirect_synced helpers target snapshot : good_peers _hash peers →
  preserves (synced _hash) (indirect helpers target snapshot).
Proof.
  intros Hp. induction helpers as [|h helpers IH]; simpl; [apply preserves_ret|].
  apply preserves_bind; [apply preserves_attempt, (ping_request_synced _ _ Hp)|]. intros r.
  apply preserves_bind; [done|]. intros rs. apply preserves_ret.
Qed.

Lemma indirect_valid helpers target snapshot s rs s' : good_peers _hash peers →
  indirect helpers target snapshot s = (Ok rs, s') →
  ∀ a, a ∈ omap id rs → Forall ClusterMember.valid (ack_gossip a).
Proof.
  intros Hp. revert s rs. induction helpers as [|h helpers IH]; simpl; intros s rs E a Ha.
  { injection E as <- <-. by apply elem_of_nil in Ha. }
  unfold mbind at 1, M_bind in E.
  destruct (attempt (ping_request peers h target snapshot) s) as [[r|e] s1] eqn:E1; [|done].
  unfold mbind, M_bind in E.
  destruct (indirect helpers target snapshot s1) as [[rs'|e] s2] eqn:E2; [|done].
  injection E as <- <-. destruct r as [b|]; simpl in Ha; [|by eapply IH].
  apply elem_of_cons in Ha as [->|Ha]; [|by eapply IH].
  unfold attempt, catchM, mbind, M_bind, mret, M_ret in E1.
  destruct (ping_request peers h target snapshot s) as [[b'|e] s3] eqn:Ep;
    [|by destruct (isinstance e network_errors)].
  injection E1 as -> ->. by eapply (ping_request_valid _ _ Hp).
Qed.

(** Taking a table operation and the ring along. *)
Lemma table_step_synced op : versioned op id → preserves (synced _hash) (table_step op).
Proof. intros Hop s Hs. by apply change_then_sync. Qed.

Lemma probe_synced b c : good_peers _hash peers → preserves (synced _hash) (probe b c).
Proof.
  intros Hp. apply preserves_bind; [apply preserves_gets|]. intros [|x l]; [apply preserves_ret|].
  cbv zeta. set (target := choose (x :: l)). apply preserves_bind; [apply preserves_gets|]. intros snapshot.
  apply (attempt_then _ _ (λ a, Forall ClusterMember.valid (ack_gossip a)));
    [apply (ping_synced _ _ Hp)|apply (ping_valid _ _ Hp)|].
  intros o Ho. destruct (filter _ (option_list o)) as [|y ys] eqn:Ef.
  - apply preserves_bind; [apply preserves_gets|]. intros alive.
    intros s' Hs'. pose proof (indirect_synced
      (take indirect_probe_count (filter (λ m, node_id m ≠ node_id target) alive)) target snapshot Hp s' Hs') as H2.
    unfold mbind at 1, M_bind. destruct (indirect _ target snapshot s') as [[rs|e] s3] eqn:Ei; [|done].
    simpl in H2. destruct (filter _ (omap id rs)) as [|z zs] eqn:Er.
    + apply table_step_synced; [apply mark_suspect_versioned|done].
    + apply table_step_synced; [|done]. apply merge_versioned.
      eapply indirect_valid; [done..|].
      assert (z ∈ filter (λ a, answers_for target a = true) (omap id rs)) as Hz by (rewrite Er; left).
      by apply list_elem_of_filter in Hz as [_ Hz].
  - apply table_step_synced, merge_versioned. apply Ho.
    assert (y ∈ filter (λ a, answers_for target a = true) (option_list o)) as Hy by (rewrite Ef; left).
    apply list_elem_of_filter in Hy as [_ Hy]. destruct o; simpl in Hy; [|by apply elem_of_nil in Hy].
    apply list_elem_of_singleton in Hy. by subst.
Qed.

Lemma run_once_synced a b c : good_peers _hash peers → preserves (synced _hash) (run_once a b c).
Proof.
  intros Hp. apply preserves_bind; [apply table_step_synced, advance_versioned|]. intros _.
  by apply probe_synced.
Qed.

(** The failure detector keeps the table and the ring consistent: any number
    of rounds, with any answers, failures and concurrent changes during its peer
    calls, leaves the ring built from the current table. *)
Theorem detector_keeps_ring_in_sync rounds s :
  good_peers _hash peers → synced _hash s → synced _hash (run rounds s).2.
Proof.
  intros Hp Hs. revert s Hs. change (preserves (synced _hash) (run rounds)).
  induction rounds as [|[[a b] c] rounds IH]; [apply preserves_ret|].
  apply preserves_bind; [by apply run_once_synced|]. by intros _.
Qed.

(** *** Peers that only answer *)

(** Peer calls that leave the node's own state alone and answer as given. *)
Definition answering (direct : ClusterMember.t → result AckData)
    (via : ClusterMember.t → result AckData) : Prop :=
  (∀ p g s, ping peers p g s = (direct p, s)) ∧
  (∀ h p g s, ping_request peers h p g s = (via h, s)).

(** An unanswered call: a network error, or an answer that is not for the
    target. *)
Definition silent (target : ClusterMember.t) (r : result AckData) : bool :=
  match r with
  | Ok a => negb (answers_for target a)
  | Err e => isinstance e network_errors
  end.

Lemma attempt_silent target (op : M ClusterService.t AckData) r s :
  op s = (r, s) → silent target r = true →
  ∃ o, attempt op s = (Ok o, s) ∧ filter (λ a, answers_for target a = true) (option_list o) = [].
Proof.
  intros E Hs. unfold attempt, catchM, mbind, M_bind. rewrite E. destruct r as [a|e]; simpl in *.
  - exists (Some a). split; [done|]. simpl. rewrite filter_cons, decide_False; [done|].
    destruct (answers_for target a); [done|]. congruence.
  - rewrite Hs. by exists None.
Qed.

Lemma indirect_silent direct via helpers target snapshot s :
  answering direct via → Forall (λ h, silent target (via h) = true) helpers →
  ∃ rs, indirect helpers target snapshot s = (Ok rs, s) ∧
        filter (λ a, answers_for target a = true) (omap id rs) = [].
Proof.
  intros [_ Ha]. induction 1 as [|h helpers Hh _ IH]; [by exists []|]. simpl.
  destruct (attempt_silent target (ping_request peers h target snapshot) (via h) s) as (o & Eo & Ho);
    [apply Ha|done|].
  destruct IH as (rs & Ers & Hrs). unfold mbind, M_bind. rewrite Eo, Ers.
  exists (o :: rs). split; [done|]. destruct o as [a|]; simpl; [|done].
  simpl in Ho. rewrite filter_cons in *. by case_decide.
Qed.

(** C39: detection is complete and bounded to the silent.  When the probed target
    does not answer, directly or through any helper asked, it is a suspect after
    the probe if it was alive; when it answers directly, nothing but its gossip is
    merged. *)
Theorem silent_target_is_suspected direct via b c s x l m :
  answering direct via → MembershipTable.inv (membership s) →
  MembershipTable.probe_candidates (membership s) = x :: l →
  let target := choose (x :: l) in
  MembershipTable.get (node_id target) (membership s) = Some m →
  (status m = ALIVE → node_id target ≠ MembershipTable.local_node_id (membership s) →
   silent target (direct target) = true → (∀ h, silent target (via h) = true) →
   MembershipTable.get (node_id target) (membership (probe b c s).2) =
     Some (ClusterMember.with_status SUSPECT m)) ∧
  (∀ ack, direct target = Ok ack → answers_for target ack = true →
   membership (probe b c s).2 = (MembershipTable.merge b (ack_gossip ack) (membership s)).2).
Proof.
  intros Ha Hi Hc target Hm.
  assert (∀ (op : M MembershipTable.t bool) s0, membership (table_step op s0).2 = (op (membership s0)).2) as Hts.
  { intros op s0. unfold table_step, mbind, M_bind, on_table. destruct (op (membership s0)) as [[r|e] m'] eqn:E; [|done].
    unfold on_membership_change. destruct r; [|done]. unfold sync_ring. by destruct (_ =? _). }
  split.
  - intros Hal Hne Hd Hv.
    destruct (attempt_silent target (ping peers target (MembershipTable.snapshot (membership s)))
                (direct target) s) as (o & Eo & Ho); [apply Ha|done|].
    set (helpers := take indirect_probe_count
      (filter (λ m, node_id m ≠ node_id target) (MembershipTable.alive_members false (membership s)))).
    destruct (indirect_silent direct via helpers target (MembershipTable.snapshot (membership s)) s Ha)
      as (rs & Ers & Hrs); [apply Forall_forall; auto|].
    unfold probe, mbind, M_bind, gets, table_snapshot. rewrite Hc. fold target.
    unfold gets. rewrite Eo, Ho. cbv zeta. fold helpers. rewrite Ers, Hrs, Hts. unfold MembershipTable.get.
    destruct (MembershipTable.mark_suspect_spec c (node_id target) (membership s) Hi)
      as (ch & m' & E & _ & _ & H). rewrite E. simpl.
    destruct ch; [|].
    + destruct H as (_ & y & Hy & _ & _ & ->). rewrite lookup_insert_eq.
      unfold MembershipTable.get in Hm. congruence.
    + exfalso. subst m'. unfold MembershipTable.mark_suspect in E. unfold MembershipTable.get in Hm.
      rewrite Hm, decide_False, bool_decide_eq_true_2 in E by done. done.
  - intros ack Hd Hans. unfold probe, mbind, M_bind, gets, table_snapshot. rewrite Hc. fold target.
    unfold attempt, catchM, mbind, M_bind, gets. rewrite (proj1 Ha), Hd. simpl.
    rewrite filter_cons, decide_True by done. apply Hts.
Qed.

(** A peer that hangs up in the middle of a reply stops failure detection.
    [read_message] raises [IncompleteReadError], an [EOFError], which is not among
    the errors the probe catches: the exception ends the detector's task, and no
    later round runs. *)
Theorem truncated_reply_stops_detector e a b c rounds s x l :
  exn_cls e = IncompleteReadError →
  (∀ p g s, ping peers p g s = (Err e, s)) →
  MembershipTable.probe_candidates
    (membership (table_step (MembershipTable.advance_timeouts_and_purge a) s).2) = x :: l →
  run ((a, b, c) :: rounds) s =
    (Err e, (table_step (MembershipTable.advance_timeouts_and_purge a) s).2).
Proof.
  intros He Hp Hc. simpl. unfold mbind at 1, M_bind. unfold run_once, mbind at 1, M_bind.
  destruct (table_step (MembershipTable.advance_timeouts_and_purge a) s) as [r s1] eqn:E1.
  assert (∃ u, r = Ok u) as [u ->].
  { unfold table_step, mbind, M_bind, on_table in E1.
    destruct (MembershipTable.advance_flag a (membership s)) as (ch & m' & Eadv & _). rewrite Eadv in E1.
    unfold on_membership_change in E1. destruct ch; [|by injection E1 as <- _; eauto].
    unfold sync_ring in E1. destruct (_ =? _); injection E1 as <- _; eauto. }
  simpl in Hc. unfold probe, mbind, M_bind, gets, table_snapshot. rewrite Hc.
  unfold attempt, catchM, mbind, M_bind, gets. rewrite Hp.
  assert (isinstance e network_errors = false) as ->; [|done].
  unfold isinstance. rewrite He. reflexivity.
Qed.
End detector.
End FailureDetector.

(** ** [cluster/gossip.py] *)
Module GossipLoop.
Section gossip.
Variable _hash : string → Z.
Variable peers : PeerOps ClusterService.t.
Variable choose : list ClusterMember.t → ClusterMember.t.

Definition run_once (now : Z) : M ClusterService.t unit :=
  candidates ← gets (λ s, MembershipTable.alive_members false (ClusterService.membership s));
  match candidates with
  | [] => mret tt
  | _ =>
      let peer := choose candidates in
      snapshot ← FailureDetector.table_snapshot;
      ack ← attempt (gossip peers peer snapshot);
      match ack with
      | None => mret tt
      | Some ack =>
          FailureDetector.table_step _hash (MembershipTable.merge now (ack_gossip ack))
      end
  end.

Import ClusterInvariant.

Lemma gossip_round_synced now : good_peers _hash peers → preserves (synced _hash) (run_once now).
Proof.
  intros Hp. apply preserves_bind; [apply preserves_gets|]. intros [|x l]; [apply preserves_ret|].
  cbv zeta. apply preserves_bind; [apply preserves_gets|]. intros snapshot.
  apply (attempt_then _ _ (λ a, Forall ClusterMember.valid (ack_gossip a)));
    [apply (gossip_synced _ _ Hp)|apply (gossip_valid _ _ Hp)|].
  intros [a|] Ho; [|apply preserves_ret].
  apply FailureDetector.table_step_synced, merge_versioned. by apply Ho.
Qed.
End gossip.
End GossipLoop.

(** ** [cluster/cluster_router.py] *)
Module ClusterRouter.
Section router.
Variable _hash : string → Z.
(** What the awaited operations do: local execution, forwarding to a peer, and
    the deadline check before the i-th candidate. *)
Variable execute_local : result json.
Variable forward_task : ClusterMember.t → result json.
Variable deadline_expired : nat → bool.

(** A failure that moves on to the next candidate. *)
Definition fails_over (local : bool) (e : exn) : bool :=
  if local then isinstance e [LocalOverloadedError]
  else isinstance e [PeerTransportError; CircuitOpenError] ||
       (isinstance e [PeerApplicationError] &&
        ((exn_code e =? pb.OVERLOADED) || (exn_code e =? pb.RATE_LIMITED))).

(** The loop over the candidates, with the candidates it tried. *)
Fixpoint route (local_node_id : string) (i : nat) (candidates tried : list ClusterMember.t)
    (saw_retryable_candidate_failure : bool) : result json * list ClusterMember.t :=
  match candidates with
  | [] =>
      (if saw_retryable_candidate_failure
       then raise PeerUnavailableError "all cluster routing candidates are unavailable"
       else raise PeerUnavailableError "no usable cluster routing candidate", tried)
  | candidate :: candidates =>
      if deadline_expired i
      then (raise DeadlineExceeded "request deadline exceeded during cluster routing", tried)
      else
        let local := bool_decide (node_id candidate = local_node_id) in
        match (if local then execute_local else forward_task candidate) with
        | Ok v => (Ok v, tried ++ [candidate])
        | Err e =>
            if fails_over local e then route local_node_id (S i) candidates (tried ++ [candidate]) true
            else (Err e, tried ++ [candidate])
        end
  end.

Definition execute (local_node_id routing_key : string) (ring : ConsistentHashRing.t)
    : result json * list ClusterMember.t :=
  match ConsistentHashRing.candidates _hash routing_key ring with
  | Err e => (Err e, [])
  | Ok candidates => route local_node_id 0 candidates [] false
  end.

Definition outcome_of (local_node_id : string) (c : ClusterMember.t) : result json :=
  if bool_decide (node_id c = local_node_id) then execute_local else forward_task c.

Definition fails_over_at (local_node_id : string) (c : ClusterMember.t) : Prop :=
  ∃ e, outcome_of local_node_id c = Err e ∧
       fails_over (bool_decide (node_id c = local_node_id)) e = true.

(** How a routing loop over [candidates] that had already [tried] some may end. *)
Definition routed (local_node_id : string) (tried candidates : list ClusterMember.t)
    (r : result json) (tried' : list ClusterMember.t) : Prop :=
  (∃ skipped c rest, candidates = skipped ++ c :: rest ∧ tried' = tried ++ skipped ++ [c] ∧
     Forall (fails_over_at local_node_id) skipped ∧ outcome_of local_node_id c = r ∧
     ¬ fails_over_at local_node_id c) ∨
  (∃ skipped rest, candidates = skipped ++ rest ∧ tried' = tried ++ skipped ∧
     Forall (fails_over_at local_node_id) skipped ∧
     ((rest ≠ [] ∧ deadline_expired (length tried') = true ∧
       r = raise DeadlineExceeded "request deadline exceeded during cluster routing") ∨
      (rest = [] ∧ ∃ msg, r = raise PeerUnavailableError msg))).

Lemma route_spec local candidates i tried saw r tried' :
  i = length tried → route local i candidates tried saw = (r, tried') →
  routed local tried candidates r tried'.
Proof.
  revert i tried saw. induction candidates as [|c cs IH]; intros i tried saw Hi; simpl.
  { intros [= <- <-]. right. exists [], []. split_and!; [done|by rewrite app_nil_r|done|].
    right. split; [done|]. destruct saw; eauto. }
  destruct (deadline_expired i) eqn:Ed.
  { intros [= <- <-]. right. exists [], (c :: cs). subst i.
    split_and!; [done|by rewrite app_nil_r|done|by left]. }
  fold (outcome_of local c). destruct (outcome_of local c) as [v|e] eqn:Eo.
  { intros [= <- <-]. left. exists [], c, cs. split_and!; try done. intros (e & He & _). congruence. }
  destruct (fails_over _ e) eqn:Ef.
  - intros E. apply IH in E; [|rewrite length_app; simpl; lia].
    assert (fails_over_at local c) as Hf by (exists e; done).
    destruct E as [(sk & d & rest & -> & -> & Hsk & Hd & Hn)|(sk & rest & -> & -> & Hsk & H)].
    + left. exists (c :: sk), d, rest. rewrite <-app_assoc. split_and!; try done. by constructor.
    + right. exists (c :: sk), rest. rewrite <-app_assoc in *. split_and!; try done. by constructor.
  - intros [= <- <-]. left. exists [], c, cs. split_and!; try done. intros (e' & He & Hf).
    rewrite Eo in He. injection He as <-. congruence.
Qed.

(** Keyed tasks are routed in candidate order and at most once per node.  The
    nodes tried are a prefix of the key's candidates, without repetition; every
    one but the last failed in a way that allows fail-over; the result is the last
    node's own result or error, the deadline error, or [PeerUnavailableError] when
    every candidate failed over.  An application error that is not a load signal is
    never retried elsewhere. *)
Theorem router_tries_candidates_in_order local key ms r0 r tried :
  1 ≤ ConsistentHashRing.virtual_nodes r0 → NoDup (node_id <$> ms) →
  execute local key (ConsistentHashRing.rebuild _hash ms r0) = (r, tried) →
  NoDup (node_id <$> tried) ∧
  match ConsistentHashRing.candidates _hash key (ConsistentHashRing.rebuild _hash ms r0) with
  | Ok candidates => routed local [] candidates r tried
  | Err e => r = Err e ∧ tried = []
  end.
Proof.
  intros Hv Hnd E. unfold execute in E.
  pose proof (ConsistentHashRing.candidates_spec _hash key ms r0 Hv Hnd) as Hc.
  destruct (ConsistentHashRing.candidates _hash key _) as [cs|e].
  - apply route_spec in E; [|done]. split; [|done]. destruct Hc as [Hcn _].
    destruct E as [(sk & c & rest & -> & -> & _)|(sk & rest & -> & -> & _)]; simpl.
    + rewrite cons_middle, app_assoc, fmap_app in Hcn. by apply NoDup_app in Hcn as [? _].
    + rewrite fmap_app in Hcn. by apply NoDup_app in Hcn as [? _].
  - injection E as <- <-. split; [constructor|done].
Qed.
End router.
End ClusterRouter.

(** ** Round trips of the cluster codec *)
Module ClusterCodecSpec.
Section spec.
Context `{!Wire pb.JoinRequest, !Wire pb.JoinResponse, !Wire pb.Ping, !Wire pb.Ack,
          !Wire pb.PingRequest, !Wire pb.Gossip, !Wire pb.TaskRequest, !Wire pb.ForwardedTaskRequest}.

Definition wire_member (m : ClusterMember.t) : Prop := ClusterMember.valid m ∧ incarnation m < 2 ^ 64.

Lemma wire_member_in_range m : wire_member m → in_range (member_to_proto m) = true.
Proof.
  intros [(Hn & Hh & Hp & Hi) Hl]. unfold in_range, pb.ClusterMember_ranged, uint32, uint64, enum32. simpl.
  repeat (apply andb_true_intro; split); try apply Z.leb_le; try apply Z.ltb_lt; try lia;
    destruct (status m); simpl; lia.
Qed.

Lemma wire_members_in_range ms : Forall wire_member ms →
  forallb in_range (member_to_proto <$> ms) = true.
Proof.
  induction 1 as [|m ms Hm Hms IH]; [done|]. rewrite fmap_cons. simpl.
  by rewrite wire_member_in_range, IH.
Qed.

Lemma wire_members_valid ms : Forall wire_member ms → Forall ClusterMember.valid ms.
Proof. intros H. apply (Forall_impl _ _ _ H). by intros m [? _]. Qed.

(** The membership a node sends is the membership its peer decodes: every
    cluster message built from valid members whose incarnations fit 64 bits can be
    encoded, and decodes to the same members, target and flags. *)
Theorem cluster_messages_roundtrip ms m ok name :
  Forall wire_member ms → wire_member m →
  (encode_join_request m ≫= decode_join_request) = Ok m ∧
  (encode_join_response ms ≫= decode_join_response) = Ok ms ∧
  (encode_ping ms ≫= decode_ping) = Ok ms ∧
  (encode_ack ok name ms ≫= decode_ack) = Ok (mkAckData ok name ms) ∧
  (encode_ping_request m ms ≫= decode_ping_request) = Ok (m, ms) ∧
  (encode_gossip ms ≫= decode_gossip) = Ok ms.
Proof.
  intros Hms Hm. pose proof (wire_members_in_range ms Hms) as Rms.
  pose proof (wire_member_in_range m Hm) as Rm.
  pose proof (members_roundtrip ms (wire_members_valid ms Hms)) as Bms.
  pose proof (member_roundtrip m (proj1 Hm)) as Bm.
  assert (∀ T (RT : Ranged T) (WT : Wire T) A (x : T) (f : string → result A) v,
    in_range x = true → (∀ d, serialize x = Ok d → f d = v) → (serialize x ≫= f) = v) as Hgo.
  { intros T RT WT A x f v Hr Hf. destruct (serialize_ok x Hr) as [d Hd]. rewrite Hd. by apply Hf. }
  split_and!; (apply Hgo; [try done; unfold in_range, pb.PingRequest_ranged; simpl; by rewrite Rm, Rms|]);
    intros d Hd; unfold decode_join_request, decode_join_response, decode_ping, decode_ack,
      decode_ping_request, decode_gossip, _parse; rewrite (proj1 (parse_of_serialize _ _ _ Hd)); simpl;
    rewrite ?Bm; simpl; by rewrite ?Bms.
Qed.

(** A forwarded task arrives as it was sent: name, JSON payload, routing key,
    origin and remaining time. *)
Theorem forwarded_task_roundtrip task_name payload key origin remaining :
  task_name ≠ "" → origin ≠ "" → 0 ≤ remaining < 2 ^ 32 → unique_keys payload →
  (encode_forwarded_request task_name payload key origin remaining ≫= decode_forwarded_request) =
    Ok (mkForwardedTaskData (mkTaskRequestData task_name payload key) origin remaining).
Proof.
  intros Ht Ho Hr Hp. unfold encode_forwarded_request, encode_task_request.
  rewrite !nonempty_true by done. simpl. rewrite (proj2 (Z.ltb_ge _ _)) by lia.
  set (req := pb.mkTaskRequest task_name (_json_dump payload) key).
  rewrite parse_serialize by done.
  assert (in_range (pb.mkForwarded req origin remaining) = true) as Hin.
  { unfold in_range, pb.Forwarded_ranged, uint32. simpl.
    by rewrite (proj2 (Z.leb_le _ _)), (proj2 (Z.ltb_lt _ _)) by lia. }
  destruct (serialize_ok _ Hin) as [d Hd]. rewrite Hd. simpl.
  unfold decode_forwarded_request, _parse. rewrite (proj1 (parse_of_serialize _ _ _ Hd)). simpl.
  rewrite nonempty_true by done. simpl.
  unfold decode_task_request, parse at 1. rewrite parse_serialize by done. simpl.
  rewrite nonempty_true by done. simpl. by rewrite json_dump_load.
Qed.
End spec.
End ClusterCodecSpec.

(** ** A concrete cluster *)
Module ClusterSample.
#[local] Instance w1 : Wire pb.JoinRequest := countable_wire.
#[local] Instance w2 : Wire pb.JoinResponse := countable_wire.
#[local] Instance w3 : Wire pb.Ping := countable_wire.
#[local] Instance w4 : Wire pb.Ack := countable_wire.
#[local] Instance w5 : Wire pb.PingRequest := countable_wire.
#[local] Instance w6 : Wire pb.Gossip := countable_wire.
#[local] Instance w7 : Wire pb.TaskRequest := countable_wire.
#[local] Instance w8 : Wire pb.ForwardedTaskRequest := countable_wire.

Definition m1 : ClusterMember.t := ClusterMember.mk "n1" "h1" 7001 ALIVE 5.
Definition m2 : ClusterMember.t := ClusterMember.mk "n2" "h2" 7002 ALIVE 9.

(** Peers that never answer. *)
Definition unreachable {A} : M ClusterService.t A := raiseM ConnectionError "refused".
Definition dead_peers : PeerOps ClusterService.t :=
  {| ping _ _ := unreachable; ping_request _ _ _ := unreachable; gossip _ _ := unreachable;
     join _ _ := unreachable |}.

Lemma dead_peers_good : ClusterInvariant.good_peers RingSample.toy_hash dead_peers.
Proof. split; unfold ClusterInvariant.preserves; simpl; by intros. Qed.

Definition fresh : ClusterService.t :=
  match ClusterService.init "n1" "h1" 7001 5 3 10 4 [] with Ok s => s | Err _ => ClusterService.mk m1 [] (MembershipTable.mk "" 0 0 ∅ ∅ ∅ 0) (ConsistentHashRing.mk 0 [] []) 0 end.
Definition started : ClusterService.t := (ClusterService.sync_ring RingSample.toy_hash fresh).2.

Lemma started_synced : ClusterInvariant.synced RingSample.toy_hash started.
Proof.
  apply ClusterInvariant.sync_ring_synced. split_and!.
  - apply (MembershipTable.init_inv m1 3 10); [apply (bool_decide_unpack _); vm_compute; exact I|done|done].
  - simpl. lia.
  - simpl. lia.
  - simpl. lia.
Qed.

Definition ping_message : Message.t :=
  Message.mk PING "n2" "c" 0 8 (match encode_ping [m2] with Ok p => p | Err _ => "" end) "" "".
Definition joined : ClusterService.t :=
  (ClusterService.handle_control RingSample.toy_hash dead_peers 1 1 0 ping_message started).2.

Lemma routing_follows_membership_witness :
  MembershipTable.get "n2" (ClusterService.membership joined) = Some m2 ∧
  ClusterInvariant.synced RingSample.toy_hash joined.
Proof.
  split; [vm_compute; reflexivity|].
  apply (ClusterInvariant.routing_follows_membership RingSample.toy_hash dead_peers 1 1 0 ping_message started).
  - exact dead_peers_good.
  - exact started_synced.
Defined.

Definition pick (l : list ClusterMember.t) : ClusterMember.t := default m1 (head l).

Lemma joined_synced : ClusterInvariant.synced RingSample.toy_hash joined.
Proof. apply ClusterInvariant.handle_control_synced; [exact dead_peers_good|exact started_synced]. Qed.

Lemma detector_keeps_ring_in_sync_witness :
  ClusterInvariant.synced RingSample.toy_hash
    (FailureDetector.run RingSample.toy_hash dead_peers pick 2 [(2, 2, 2); (3, 3, 3)] joined).2.
Proof.
  apply (FailureDetector.detector_keeps_ring_in_sync RingSample.toy_hash dead_peers pick 2
           [(2, 2, 2); (3, 3, 3)] joined).
  - exact dead_peers_good.
  - exact joined_synced.
Defined.

Lemma silent_target_is_suspected_witness :
  MembershipTable.get "n2" (ClusterService.membership
    (FailureDetector.probe RingSample.toy_hash dead_peers pick 2 2 2 joined).2) =
  Some (ClusterMember.with_status SUSPECT m2).
Proof.
  refine (proj1 (FailureDetector.silent_target_is_suspected RingSample.toy_hash dead_peers pick 2
    (λ _, raise ConnectionError "refused") (λ _, raise ConnectionError "refused") 2 2 joined m2 [] m2 _ _ _ _)
    _ _ _ _).
  - split; reflexivity.
  - apply joined_synced.
  - vm_compute. reflexivity.
  - vm_compute. reflexivity.
  - reflexivity.
  - vm_compute. discriminate.
  - vm_compute. reflexivity.
  - intros h. vm_compute. reflexivity.
Defined.

Definition truncating_peers : PeerOps ClusterService.t :=
  {| ping _ _ := raiseM IncompleteReadError "4 bytes read"; ping_request _ _ _ := unreachable;
     gossip _ _ := unreachable; join _ _ := unreachable |}.

Lemma truncated_reply_stops_detector_witness :
  (FailureDetector.run RingSample.toy_hash truncating_peers pick 2 [(2, 2, 2); (9, 9, 9)] joined).1 =
  raise IncompleteReadError "4 bytes read".
Proof.
  rewrite (FailureDetector.truncated_reply_stops_detector RingSample.toy_hash truncating_peers pick 2
             (Exn IncompleteReadError "4 bytes read" 0) 2 2 2 [(9, 9, 9)] joined m2 []);
    [reflexivity|reflexivity|reflexivity|vm_compute; reflexivity].
Defined.

Definition overloaded_then_ok (m : ClusterMember.t) : result json :=
  if bool_decide (node_id m = "n1") then raise PeerTransportError "down" else Ok (JInt 1).

Lemma router_tries_candidates_in_order_witness :
  ∃ r tried, ClusterRouter.execute RingSample.toy_hash (raise LocalOverloadedError "busy") overloaded_then_ok
      (λ _, false) "n4" "k" (ConsistentHashRing.rebuild RingSample.toy_hash RingSample.ms RingSample.ring0) =
      (r, tried) ∧ r = Ok (JInt 1) ∧ NoDup (node_id <$> tried).
Proof.
  eexists _, _. split; [vm_compute; reflexivity|]. split; [reflexivity|].
  refine (proj1 (ClusterRouter.router_tries_candidates_in_order RingSample.toy_hash
    (raise LocalOverloadedError "busy") overloaded_then_ok (λ _, false) "n4" "k" RingSample.ms
    RingSample.ring0 _ _ _ RingSample.ms_names _)); [vm_compute; discriminate|vm_compute; reflexivity].
Defined.

Lemma wire_member_sample m : m = m1 ∨ m = m2 → ClusterCodecSpec.wire_member m.
Proof. by intros [-> | ->]. Qed.

Lemma cluster_messages_roundtrip_witness :
  (encode_ack true "n1" [m1; m2] ≫= decode_ack) = Ok (mkAckData true "n1" [m1; m2]).
Proof.
  apply (ClusterCodecSpec.cluster_messages_roundtrip [m1; m2] m1 true "n1").
  - repeat constructor; apply wire_member_sample; auto.
  - apply wire_member_sample. auto.
Defined.

Lemma forwarded_task_roundtrip_witness :
  (encode_forwarded_request "sum" (JList [JInt 1; JInt 2]) "k" "n1" 250 ≫= decode_forwarded_request) =
  Ok (mkForwardedTaskData (mkTaskRequestData "sum" (JList [JInt 1; JInt 2]) "k") "n1" 250).
Proof.
  apply (ClusterCodecSpec.forwarded_task_roundtrip "sum" (JList [JInt 1; JInt 2]) "k" "n1" 250);
    [discriminate|discriminate|lia|simpl; auto].
Defined.
End ClusterSample.
