(* ===== verification/CrdtCodec.v ===== *)
(** * The CRDT wire codec: [distsys/replication/codec.py] and [digest.py]

    Conversion of stored entries, digests, mutations, reads and responses to and
    from the messages of [Proto].  [actor_from_proto], [dot_from_proto] and
    [version_from_proto] call the checked constructors, so a malformed message
    raises [ValueError] where the constructor does. *)

From S2P Require Import Prelude Lattice Causal Json Crdt Storage Proto Protocol.

Local Open Scope Z_scope.
Import StoredCrdtEntry (key, crdt_type, state, state_version, causal_context).

(** ** [replication/digest.py] *)
Module CrdtDigestEntry.
Record t := mk {
  key : string;
  crdt_type : CrdtType;
  state_version : VersionVector.t;
  causal_context : VersionVector.t;
}.

#[export] Instance eq_dec : EqDecision t.
Proof. solve_decision. Defined.

Definition from_entry (entry : StoredCrdtEntry.t) : t :=
  mk (StoredCrdtEntry.key entry) (StoredCrdtEntry.crdt_type entry)
     (StoredCrdtEntry.state_version entry) (StoredCrdtEntry.causal_context entry).
End CrdtDigestEntry.
Export (hints) CrdtDigestEntry.

Module DigestRelation.
Inductive t := EQUAL | LOCAL_AHEAD | REMOTE_AHEAD | CONCURRENT | METADATA_ONLY.

#[export] Instance eq_dec : EqDecision t.
Proof. solve_decision. Defined.
End DigestRelation.
Export (hints) DigestRelation.

Definition compare_digest (local remote : CrdtDigestEntry.t) : result DigestRelation.t :=
  if negb (bool_decide (CrdtDigestEntry.key local = CrdtDigestEntry.key remote))
  then raise ValueError "digest keys must match"
  else if negb (bool_decide (CrdtDigestEntry.crdt_type local = CrdtDigestEntry.crdt_type remote))
  then raise ValueError "digest CRDT types must match"
  else
    match VersionVector.compare (CrdtDigestEntry.state_version local)
            (CrdtDigestEntry.state_version remote) with
    | VersionVector.EQUAL =>
        if bool_decide (CrdtDigestEntry.causal_context local = CrdtDigestEntry.causal_context remote)
        then Ok DigestRelation.EQUAL else Ok DigestRelation.METADATA_ONLY
    | VersionVector.AFTER => Ok DigestRelation.LOCAL_AHEAD
    | VersionVector.BEFORE => Ok DigestRelation.REMOTE_AHEAD
    | VersionVector.CONCURRENT => Ok DigestRelation.CONCURRENT
    end.

(** ** [replication/codec.py] *)
Module CrdtCodec.

(** [json.dumps(value, sort_keys=True, ...)]; every [json] value serializes. *)
Definition _json_dump (value : json) : string := dumps value.

Definition _json_load (data : string) : result json :=
  if nonempty data then
    match loads data with
    | Ok v => Ok v
    | Err _ => raise DecodeError "invalid JSON payload"
    end
  else Ok JNull.

Definition actor_to_proto (actor : CausalActor.t) : pb.CausalActor :=
  pb.mkCausalActor (CausalActor.node_id actor) (CausalActor.incarnation actor).

Definition actor_from_proto (proto : pb.CausalActor) : result CausalActor.t :=
  CausalActor.make (pb.ca_node_id proto) (pb.ca_incarnation proto).

Definition dot_to_proto (dot : Dot.t) : pb.Dot :=
  pb.mkDot (actor_to_proto (Dot.actor dot)) (Dot.counter dot).

Definition dot_from_proto (proto : pb.Dot) : result Dot.t :=
  actor ← actor_from_proto (pb.dot_actor proto);
  Dot.make actor (pb.dot_counter proto).

(** One [entries.add()] per component. *)
Definition counters_to_proto (items : list (CausalActor.t * Z)) : list (pb.CausalActor * Z) :=
  (λ item, (actor_to_proto item.1, item.2)) <$> items.

(** [{actor_from_proto(item.actor): item.counter for item in ...}] *)
Definition counters_from_proto (entries : list (pb.CausalActor * Z)) : result (gmap CausalActor.t Z) :=
  items ← mapM_result (λ item : pb.CausalActor * Z, a ← actor_from_proto item.1; Ok (a, item.2)) entries;
  Ok (dict_of items).

Definition version_to_proto (vector : VersionVector.t) : pb.VersionVector :=
  pb.mkVersionVector (counters_to_proto (VersionVector.items vector)).

Definition version_from_proto (proto : pb.VersionVector) : result VersionVector.t :=
  entries ← counters_from_proto (pb.vv_entries proto);
  VersionVector.init entries.

Definition token_to_proto (token : CausalToken.t) : pb.CausalToken :=
  pb.mkCausalToken (version_to_proto (CausalToken.version token)).

Definition token_from_proto (proto : pb.CausalToken) : result CausalToken.t :=
  version ← version_from_proto (pb.token_version proto);
  Ok (CausalToken.mk version).

Definition encode_token `{!Wire pb.CausalToken} (token : CausalToken.t) : result string :=
  serialize (token_to_proto token).

Definition decode_token `{!Wire pb.CausalToken} (data : string) : result CausalToken.t :=
  msg ← parse (T:=pb.CausalToken) "invalid CausalToken protobuf" data;
  token_from_proto msg.

Definition _type_to_proto (crdt_type : CrdtType) : Z :=
  match crdt_type with
  | GCOUNTER => pb.GCOUNTER | PNCOUNTER => pb.PNCOUNTER | ORSET => pb.ORSET | MVREGISTER => pb.MVREGISTER
  end.

Definition _type_from_proto (raw : Z) : result CrdtType :=
  if raw =? pb.GCOUNTER then Ok GCOUNTER
  else if raw =? pb.PNCOUNTER then Ok PNCOUNTER
  else if raw =? pb.ORSET then Ok ORSET
  else if raw =? pb.MVREGISTER then Ok MVREGISTER
  else raise DecodeError "invalid CRDT type".

Definition _gcounter_to_proto (state : GCounter.t) : pb.GCounterState :=
  pb.mkGCounterState (counters_to_proto (GCounter.components state)).

Definition _gcounter_from_proto (msg : pb.GCounterState) : result GCounter.t :=
  components ← counters_from_proto (pb.gc_components msg);
  GCounter.init components.

Definition dots_to_proto (dots : gset Dot.t) : list pb.Dot := dot_to_proto <$> py_sorted dots.

Definition dots_from_proto (dots : list pb.Dot) : result (gset Dot.t) :=
  ds ← mapM_result dot_from_proto dots; Ok (list_to_set ds).

(** The [oneof state] alternative.  The loops over an [ORSet] or an [MVRegister]
    that holds nothing add no item, and reading [msg.orset] or [msg.mvregister]
    alone does not select the alternative. *)
Definition orset_to_proto (s : ORSet.t) : option pb.ORSetState :=
  let adds := (λ ed, (ed.1, dots_to_proto ed.2)) <$> ORSet._adds s in
  let removed := dots_to_proto (ORSet._removed s) in
  match adds, removed with
  | [], [] => None
  | _, _ => Some (pb.mkORSetState adds removed)
  end.

Definition mvregister_to_proto (s : MVRegister.t) : option pb.MVRegisterState :=
  let values := (λ de, (dot_to_proto de.1, de.2)) <$> MVRegister._values s in
  let superseded := dots_to_proto (MVRegister._superseded s) in
  match values, superseded with
  | [], [] => None
  | _, _ => Some (pb.mkMVRegisterState values superseded)
  end.

Definition oneof_to_proto (crdt_type : CrdtType) (state : CrdtState) : result pb.state_oneof :=
  match crdt_type, state with
  | GCOUNTER, SGCounter s => Ok (Some (inl (inl (inl (_gcounter_to_proto s)))))
  | PNCOUNTER, SPNCounter s =>
      Ok (Some (inl (inl (inr (pb.mkPNCounterState (_gcounter_to_proto (PNCounter.positive s))
                                 (_gcounter_to_proto (PNCounter.negative s)))))))
  | ORSET, SORSet s => Ok (inl ∘ inr <$> orset_to_proto s)
  | MVREGISTER, SMVRegister s => Ok (inr <$> mvregister_to_proto s)
  | _, _ => raise AssertionError ""
  end.

Definition state_to_proto (entry : StoredCrdtEntry.t) : result pb.CrdtState :=
  oneof ← oneof_to_proto (crdt_type entry) (state entry);
  Ok (pb.mkCrdtState (key entry) (_type_to_proto (crdt_type entry))
        (version_to_proto (state_version entry)) (version_to_proto (causal_context entry)) oneof).

(** The register loop: the text must decode and parse before its dot is read. *)
Definition register_value_from_proto (item : pb.Dot * string) : result (Dot.t * string) :=
  match loads item.2 with
  | Err _ => raise DecodeError "invalid MVRegister JSON payload"
  | Ok _ => dot ← dot_from_proto item.1; Ok (dot, item.2)
  end.

Definition oneof_from_proto (crdt_type : CrdtType) (which : pb.state_oneof) : result CrdtState :=
  match crdt_type, which with
  | GCOUNTER, Some (inl (inl (inl msg))) => s ← _gcounter_from_proto msg; Ok (SGCounter s)
  | PNCOUNTER, Some (inl (inl (inr msg))) =>
      p ← _gcounter_from_proto (pb.pn_positive msg);
      n ← _gcounter_from_proto (pb.pn_negative msg);
      Ok (SPNCounter (PNCounter.mk p n))
  | ORSET, Some (inl (inr msg)) =>
      adds ← mapM_result (λ item : string * list pb.Dot,
               dots ← dots_from_proto item.2; Ok (item.1, dots)) (pb.or_adds msg);
      removed ← dots_from_proto (pb.or_removed msg);
      Ok (SORSet (ORSet.init (dict_of adds) removed))
  | MVREGISTER, Some (inr msg) =>
      values ← mapM_result register_value_from_proto (pb.mv_values msg);
      superseded ← dots_from_proto (pb.mv_superseded msg);
      Ok (SMVRegister (MVRegister.init (dict_of values) superseded))
  | _, _ => raise DecodeError "CRDT type/state mismatch"
  end.

Definition state_from_proto (msg : pb.CrdtState) : result StoredCrdtEntry.t :=
  if negb (nonempty (pb.cs_key msg)) then raise DecodeError "CRDT state key is required"
  else
    crdt_type ← _type_from_proto (pb.cs_type msg);
    state ← oneof_from_proto crdt_type (pb.cs_state msg);
    state_version ← version_from_proto (pb.cs_state_version msg);
    causal_context ← version_from_proto (pb.cs_causal_context msg);
    StoredCrdtEntry.make (pb.cs_key msg) crdt_type state state_version causal_context.

Definition digest_to_proto (entry : CrdtDigestEntry.t) : pb.CrdtDigestEntry :=
  pb.mkDigestEntry (CrdtDigestEntry.key entry) (_type_to_proto (CrdtDigestEntry.crdt_type entry))
    (version_to_proto (CrdtDigestEntry.state_version entry))
    (version_to_proto (CrdtDigestEntry.causal_context entry)).

Definition digest_from_proto (msg : pb.CrdtDigestEntry) : result CrdtDigestEntry.t :=
  crdt_type ← _type_from_proto (pb.de_type msg);
  state_version ← version_from_proto (pb.de_state_version msg);
  causal_context ← version_from_proto (pb.de_causal_context msg);
  Ok (CrdtDigestEntry.mk (pb.de_key msg) crdt_type state_version causal_context).

Record CrdtMutationData := mkMutationData {
  mut_key : string; mut_type : CrdtType; operation : string; mut_value : json; amount : Z;
  mut_token : CausalToken.t; mut_forwarded : bool; mut_origin : string; mut_remaining_ms : Z }.

Record CrdtReadData := mkReadData {
  read_key : string; read_token : CausalToken.t; read_forwarded : bool; read_origin : string;
  read_remaining_ms : Z }.

Record CrdtResponseData := mkResponseData {
  success : bool; resp_type : option CrdtType; resp_value : json; resp_token : CausalToken.t;
  served_by : string; repair_performed : bool; error_code : Z; error_message : string;
  resp_state : option StoredCrdtEntry.t; peer_frontier : VersionVector.t }.

Section codec.
Context `{!Wire pb.CrdtMutationRequest, !Wire pb.CrdtReadRequest, !Wire pb.CrdtResponse,
          !Wire pb.CrdtReplicate, !Wire pb.CrdtFetch, !Wire pb.CrdtDigest, !Wire pb.CrdtDigestResponse}.

(** The [if req.operation == ...] chain that fills [oneof mutation]. *)
Definition mutation_to_proto (req : CrdtMutationData) : result pb.mutation :=
  if bool_decide (operation req = "increment") then
    if amount req <? 1 then raise DecodeError "increment amount must be >= 1"
    else Ok (pb.increment (amount req))
  else if bool_decide (operation req = "decrement") then
    if amount req <? 1 then raise DecodeError "decrement amount must be >= 1"
    else Ok (pb.decrement (amount req))
  else if bool_decide (operation req = "add") then
    match mut_value req with
    | JStr element => Ok (pb.set_add element)
    | _ => raise DecodeError "ORSet add value must be a string"
    end
  else if bool_decide (operation req = "remove") then
    match mut_value req with
    | JStr element => Ok (pb.set_remove element)
    | _ => raise DecodeError "ORSet remove value must be a string"
    end
  else if bool_decide (operation req = "write") then
    Ok (pb.register_write (_json_dump (mut_value req)))
  else raise DecodeError "unsupported mutation operation".

Definition encode_mutation_request (req : CrdtMutationData) : result string :=
  if negb (nonempty (mut_key req)) then raise DecodeError "CRDT key is required"
  else
    mutation ← mutation_to_proto req;
    serialize (pb.mkMutation (mut_key req) (_type_to_proto (mut_type req)) (token_to_proto (mut_token req))
      (mut_forwarded req) (mut_origin req) (mut_remaining_ms req) (Some mutation)).

Definition mutation_from_proto (which : option pb.mutation) : result (string * json * Z) :=
  match which with
  | Some (pb.increment n) => Ok ("increment", JNull, n)
  | Some (pb.decrement n) => Ok ("decrement", JNull, n)
  | Some (pb.set_add element) => Ok ("add", JStr element, 0)
  | Some (pb.set_remove element) => Ok ("remove", JStr element, 0)
  | Some (pb.register_write value_json) => value ← _json_load value_json; Ok ("write", value, 0)
  | None => raise DecodeError "mutation is required"
  end.

Definition decode_mutation_request (data : string) : result CrdtMutationData :=
  msg ← parse (T:=pb.CrdtMutationRequest) "invalid CrdtMutationRequest protobuf" data;
  if negb (nonempty (pb.mu_key msg)) then raise DecodeError "CRDT key is required"
  else
    crdt_type ← _type_from_proto (pb.mu_type msg);
    '(operation, value, amount) ← mutation_from_proto (pb.mu_mutation msg);
    token ← token_from_proto (pb.mu_token msg);
    Ok (mkMutationData (pb.mu_key msg) crdt_type operation value amount token (pb.mu_forwarded msg)
          (pb.mu_origin msg) (pb.mu_remaining_timeout_ms msg)).

Definition encode_read_request (req : CrdtReadData) : result string :=
  if negb (nonempty (read_key req)) then raise DecodeError "CRDT key is required"
  else serialize (pb.mkRead (read_key req) (token_to_proto (read_token req)) (read_forwarded req)
                    (read_origin req) (read_remaining_ms req)).

Definition decode_read_request (data : string) : result CrdtReadData :=
  msg ← parse (T:=pb.CrdtReadRequest) "invalid CrdtReadRequest protobuf" data;
  if negb (nonempty (pb.rd_key msg)) then raise DecodeError "CRDT key is required"
  else
    token ← token_from_proto (pb.rd_token msg);
    Ok (mkReadData (pb.rd_key msg) token (pb.rd_forwarded msg) (pb.rd_origin msg)
          (pb.rd_remaining_timeout_ms msg)).

(** The enum default [CRDT_TYPE_UNSPECIFIED] is 0; a sub-message that is never
    touched is absent, and reads as its default. *)
Definition no_token : pb.CausalToken := pb.mkCausalToken (pb.mkVersionVector []).

Definition encode_crdt_response (response : CrdtResponseData) : result string :=
  let type_field := match resp_type response with Some t => _type_to_proto t | None => 0 end in
  if success response then
    state ← match resp_state response with
            | Some entry => msg ← state_to_proto entry; Ok (Some msg)
            | None => Ok None
            end;
    serialize (pb.mkResponse true type_field (_json_dump (resp_value response))
      (token_to_proto (resp_token response)) (served_by response) (repair_performed response)
      (pb.mkError 0 "") state (Some (version_to_proto (peer_frontier response))))
  else
    serialize (pb.mkResponse false type_field "" no_token "" false
      (pb.mkError (error_code response) (error_message response)) None None).

Definition decode_crdt_response (data : string) : result CrdtResponseData :=
  msg ← parse (T:=pb.CrdtResponse) "invalid CrdtResponse protobuf" data;
  let ok := pb.rs_success msg in
  crdt_type ← (if ok && negb (pb.rs_type msg =? 0)
               then t ← _type_from_proto (pb.rs_type msg); Ok (Some t) else Ok None);
  value ← (if ok then _json_load (pb.rs_value_json msg) else Ok JNull);
  token ← (if ok then token_from_proto (pb.rs_token msg) else Ok CausalToken.empty);
  state ← match pb.rs_state msg with
          | Some s => if ok then e ← state_from_proto s; Ok (Some e) else Ok None
          | None => Ok None
          end;
  frontier ← match pb.rs_peer_frontier msg with
             | Some v => if ok then version_from_proto v else Ok VersionVector.empty
             | None => Ok VersionVector.empty
             end;
  Ok (mkResponseData ok crdt_type value token (pb.rs_served_by msg) (pb.rs_repair_performed msg)
        (pb.err_code (pb.rs_error msg)) (pb.err_message (pb.rs_error msg)) state frontier).

Definition encode_replication (entry : StoredCrdtEntry.t) : result string :=
  msg ← state_to_proto entry;
  serialize (pb.mkReplicate msg).

Definition decode_replication (data : string) : result StoredCrdtEntry.t :=
  msg ← parse (T:=pb.CrdtReplicate) "invalid CrdtReplicate protobuf" data;
  state_from_proto (pb.rep_state msg).

Definition encode_fetch_request (key : string) : result string :=
  if negb (nonempty key) then raise DecodeError "CRDT key is required"
  else serialize (pb.mkFetch key).

Definition decode_fetch_request (data : string) : result string :=
  msg ← parse (T:=pb.CrdtFetch) "invalid CrdtFetch protobuf" data;
  if negb (nonempty (pb.fetch_key msg)) then raise DecodeError "CRDT key is required"
  else Ok (pb.fetch_key msg).

Definition encode_digest_request (requester_node_id : string) (entries : list CrdtDigestEntry.t)
    (batch_size : Z) : result string :=
  serialize (pb.mkDigest requester_node_id (digest_to_proto <$> entries) batch_size).

Definition decode_digest_request (data : string) : result (string * list CrdtDigestEntry.t * Z) :=
  msg ← parse (T:=pb.CrdtDigest) "invalid CrdtDigest protobuf" data;
  entries ← mapM_result digest_from_proto (pb.dg_entries msg);
  Ok (pb.dg_requester msg, entries, pb.dg_batch_size msg).

Definition encode_digest_response (entries : list CrdtDigestEntry.t) : result string :=
  serialize (pb.mkDigestResponse (digest_to_proto <$> entries)).

Definition decode_digest_response (data : string) : result (list CrdtDigestEntry.t) :=
  msg ← parse (T:=pb.CrdtDigestResponse) "invalid CrdtDigestResponse protobuf" data;
  mapM_result digest_from_proto (pb.dr_entries msg).
End codec.
End CrdtCodec.

(** ** What survives the wire *)
Module CrdtCodecSpec.
Import CrdtCodec.

(** Actors and dots their constructors accept. *)
Definition dot_valid (d : Dot.t) : Prop := CausalActor.valid (Dot.actor d) = true ∧ 1 ≤ Dot.counter d.
Definition counters_valid (l : list (CausalActor.t * Z)) : Prop :=
  Forall (λ av, CausalActor.valid av.1 = true) l.
Definition vector_valid (v : VersionVector.t) : Prop :=
  VersionVector.wf v ∧ counters_valid (VersionVector.items v).

Definition state_valid (s : CrdtState) : Prop :=
  match s with
  | SGCounter s => counters_valid (GCounter.components s)
  | SPNCounter s => counters_valid (GCounter.components (PNCounter.positive s)) ∧
                    counters_valid (GCounter.components (PNCounter.negative s))
  | SORSet s => Forall (λ ed, set_Forall dot_valid ed.2) (ORSet._adds s) ∧
                set_Forall dot_valid (ORSet._removed s)
  | SMVRegister s => Forall (λ de, dot_valid de.1 ∧ is_ok (loads de.2) = true) (MVRegister._values s) ∧
                     set_Forall dot_valid (MVRegister._superseded s)
  end.

(** An entry as the store keeps it: built from checked actors and dots. *)
Definition entry_valid (e : StoredCrdtEntry.t) : Prop :=
  StoredCrdtEntry.wf e ∧ state_valid (state e) ∧
  counters_valid (VersionVector.items (state_version e)) ∧
  counters_valid (VersionVector.items (causal_context e)).

#[export] Instance dot_valid_dec d : Decision (dot_valid d).
Proof. unfold dot_valid. apply _. Defined.
#[export] Instance counters_valid_dec l : Decision (counters_valid l).
Proof. unfold counters_valid. apply _. Defined.
#[export] Instance vector_valid_dec v : Decision (vector_valid v).
Proof. unfold vector_valid. apply _. Defined.
#[export] Instance state_valid_dec s : Decision (state_valid s).
Proof. destruct s; simpl; apply _. Defined.
#[export] Instance entry_valid_dec e : Decision (entry_valid e).
Proof. unfold entry_valid. apply _. Defined.
#[global] Typeclasses Opaque dot_valid counters_valid vector_valid state_valid entry_valid.

(** A set or a register that has never held anything. *)
Definition blank (s : CrdtState) : bool :=
  match s with
  | SORSet s => bool_decide (ORSet._adds s = []) && bool_decide (ORSet._removed s = ∅)
  | SMVRegister s => bool_decide (MVRegister._values s = []) && bool_decide (MVRegister._superseded s = ∅)
  | _ => false
  end.

Lemma actor_back a : CausalActor.valid a = true → actor_from_proto (actor_to_proto a) = Ok a.
Proof.
  intros H. unfold CausalActor.valid in H. boolify. unfold actor_from_proto, CausalActor.make. simpl.
  rewrite H. simpl. rewrite (proj2 (Z.ltb_ge _ _)) by lia. by destruct a.
Qed.

Lemma dot_back d : dot_valid d → dot_from_proto (dot_to_proto d) = Ok d.
Proof.
  intros [Ha Hc]. unfold dot_from_proto. simpl. rewrite actor_back by done. simpl.
  unfold Dot.make. rewrite (proj2 (Z.ltb_ge _ _)) by lia. by destruct d.
Qed.

Lemma dots_back X : (∀ d, d ∈ X → dot_valid d) → dots_from_proto (dots_to_proto X) = Ok X.
Proof.
  intros HX. unfold dots_from_proto, dots_to_proto.
  assert (mapM_result dot_from_proto (dot_to_proto <$> py_sorted X) = Ok (py_sorted X)) as ->.
  { assert (∀ d, d ∈ py_sorted X → dot_valid d) as H by (intros d ?%elem_of_py_sorted; auto).
    revert H. generalize (py_sorted X). induction l as [|d l IH]; intros H; [done|].
    rewrite fmap_cons. simpl. rewrite dot_back by (apply H; left). simpl.
    rewrite IH; [done|]. intros y Hy. apply H. by right. }
  simpl. by rewrite list_to_set_py_sorted.
Qed.

Lemma counters_back l : counters_valid l → counters_from_proto (counters_to_proto l) = Ok (dict_of l).
Proof.
  intros H. unfold counters_from_proto, counters_to_proto.
  assert (mapM_result (λ item : pb.CausalActor * Z, a ← actor_from_proto item.1; Ok (a, item.2))
            ((λ item, (actor_to_proto item.1, item.2)) <$> l) = Ok l) as ->; [|done].
  induction H as [|[a n] l Ha Hl IH]; [done|]. rewrite fmap_cons. simpl in *.
  rewrite actor_back by done. simpl. by rewrite IH.
Qed.

(** The constructors rebuild a tuple they built before. *)
Lemma counters_normalized (l : list (CausalActor.t * Z)) :
  counters_wf l → normalized (dict_of l) = l ∧ map_Forall (λ _ n, 0 ≤ n) (dict_of l).
Proof.
  intros Hl. assert (map_Forall (λ _ n, 0 ≤ n) (dict_of l)) as Hn.
  { intros k n E. apply Hl in E. simpl in *. lia. }
  split; [|done]. apply counters_ext; [by apply normalized_wf|done|].
  intros k. by rewrite scan_normalized, scan_wf.
Qed.

Lemma version_back v : vector_valid v → version_from_proto (version_to_proto v) = Ok v.
Proof.
  intros [Hw Hv]. unfold version_from_proto, version_to_proto. simpl.
  rewrite counters_back by done. simpl. destruct (counters_normalized _ Hw) as [E Hn].
  rewrite VersionVector.vv_init_ok by done. unfold VersionVector.build, VersionVector.items.
  rewrite E. by destruct v.
Qed.

Lemma token_back t : vector_valid (CausalToken.version t) → token_from_proto (token_to_proto t) = Ok t.
Proof. intros H. unfold token_from_proto. simpl. rewrite version_back by done. by destruct t. Qed.

Lemma gcounter_back s : GCounter.wf s → counters_valid (GCounter.components s) →
  _gcounter_from_proto (_gcounter_to_proto s) = Ok s.
Proof.
  intros Hw Hv. unfold _gcounter_from_proto, _gcounter_to_proto. simpl.
  rewrite counters_back by done. simpl. destruct (counters_normalized _ Hw) as [E Hn].
  rewrite GCounter.gc_init_ok by done. unfold GCounter.build, GCounter.components. rewrite E. by destruct s.
Qed.

Lemma type_back t : _type_from_proto (_type_to_proto t) = Ok t.
Proof. by destruct t. Qed.

Lemma mapM_fmap_back {A B} (f : B → result A) (g : A → B) (l : list A) :
  (∀ x, x ∈ l → f (g x) = Ok x) → mapM_result f (g <$> l) = Ok l.
Proof.
  induction l as [|x l IH]; intros H; [done|]. rewrite fmap_cons. simpl.
  rewrite H by left. simpl. rewrite IH; [done|]. intros y Hy. apply H. by right.
Qed.

Lemma dots_to_proto_nil X : dots_to_proto X = [] ↔ X = ∅.
Proof.
  unfold dots_to_proto. split.
  - intros E%fmap_nil_inv. rewrite <-(list_to_set_py_sorted X), E. done.
  - by intros ->.
Qed.

Lemma blank_alternative {A B C} (l : list A) (f : A → B) (X : gset Dot.t) (v : C) :
  match f <$> l, dots_to_proto X with [], [] => None | _, _ => Some v end =
  if bool_decide (l = []) && bool_decide (X = ∅) then None else Some v.
Proof.
  pose proof (dots_to_proto_nil X) as HX. destruct l as [|x l].
  - rewrite bool_decide_eq_true_2 by done. simpl. destruct (dots_to_proto X).
    + by rewrite bool_decide_eq_true_2 by (by apply HX).
    + rewrite bool_decide_eq_false_2; [done|]. intros ?. by apply HX in H.
  - by rewrite bool_decide_eq_false_2.
Qed.

Lemma oneof_back s : state_wf s → state_valid s →
  (oneof_to_proto (type_of_state s) s ≫= oneof_from_proto (type_of_state s)) =
  if blank s then raise DecodeError "CRDT type/state mismatch" else Ok s.
Proof.
  destruct s as [s|s|s|s]; intros Hw Hv; simpl in *.
  - by rewrite gcounter_back.
  - destruct Hw, Hv. rewrite !gcounter_back by done. by destruct s.
  - destruct Hv as [Hv Hr]. unfold orset_to_proto. rewrite blank_alternative.
    destruct (bool_decide _ && bool_decide _); [done|]. simpl.
    rewrite mapM_fmap_back; [|intros [e ds] Hin; simpl; rewrite Forall_forall in Hv].
    + simpl. rewrite dots_back by done. simpl. unfold ORSet.init. rewrite <-Hw. by destruct s.
    + rewrite dots_back; [done|]. intros d Hd. exact (Hv _ Hin d Hd).
  - destruct Hv as [Hv Hr]. unfold mvregister_to_proto. rewrite blank_alternative.
    destruct (bool_decide _ && bool_decide _); [done|]. simpl.
    rewrite mapM_fmap_back; [|intros [d t] Hin; rewrite Forall_forall in Hv].
    + simpl. rewrite dots_back by done. simpl. unfold MVRegister.init. rewrite <-Hw. by destruct s.
    + destruct (Hv _ Hin) as [Hd Ht]. simpl in *. unfold register_value_from_proto. simpl.
      destruct (loads t); [|done]. by rewrite dot_back.
Qed.

Lemma state_back e msg : entry_valid e → state_to_proto e = Ok msg →
  state_from_proto msg =
  if blank (state e) then raise DecodeError "CRDT type/state mismatch" else Ok e.
Proof.
  intros (Hw & Hv & Hs & Hc) E. pose proof Hw as (Hk & Ht & Hsw & Hvw & Hcw).
  pose proof (oneof_back (state e) Hsw Hv) as Ho. rewrite Ht in Ho.
  unfold state_to_proto in E. apply bind_Ok_inv in E as (o & Eo & [= <-]).
  rewrite Eo in Ho. simpl in Ho. unfold state_from_proto. simpl.
  rewrite nonempty_true by done. simpl. rewrite type_back. simpl. rewrite Ho.
  destruct (blank (state e)); [done|]. simpl. rewrite !version_back by done. simpl.
  rewrite StoredCrdtEntry.entry_make_ok by done. by destruct e.
Qed.

Lemma digest_back d : vector_valid (CrdtDigestEntry.state_version d) →
  vector_valid (CrdtDigestEntry.causal_context d) → digest_from_proto (digest_to_proto d) = Ok d.
Proof.
  intros H1 H2. unfold digest_from_proto. simpl. rewrite type_back. simpl.
  rewrite !version_back by done. by destruct d.
Qed.

Section spec.
Context `{!Wire pb.CrdtMutationRequest, !Wire pb.CrdtReadRequest, !Wire pb.CrdtResponse,
          !Wire pb.CrdtReplicate, !Wire pb.CrdtFetch, !Wire pb.CrdtDigest, !Wire pb.CrdtDigestResponse}.

Lemma replication_back e data : entry_valid e → encode_replication e = Ok data →
  decode_replication data =
  if blank (state e) then raise DecodeError "CRDT type/state mismatch" else Ok e.
Proof.
  intros He E. unfold encode_replication in E. apply bind_Ok_inv in E as (msg & Em & E).
  unfold decode_replication. rewrite (proj1 (parse_of_serialize _ _ _ E)). simpl. by apply state_back.
Qed.

Lemma digest_response_back ds data :
  Forall (λ d, vector_valid (CrdtDigestEntry.state_version d) ∧
               vector_valid (CrdtDigestEntry.causal_context d)) ds →
  encode_digest_response ds = Ok data → decode_digest_response data = Ok ds.
Proof.
  intros Hds E. unfold decode_digest_response. rewrite (proj1 (parse_of_serialize _ _ _ E)). simpl.
  apply mapM_fmap_back. intros d Hd. rewrite Forall_forall in Hds. by apply digest_back; apply Hds.
Qed.

(** The mutations a client can ask for. *)
Definition mutation_ok (req : CrdtMutationData) : Prop :=
  mut_key req ≠ "" ∧ vector_valid (CausalToken.version (mut_token req)) ∧
  ((operation req = "increment" ∨ operation req = "decrement") ∧ mut_value req = JNull ∧ 1 ≤ amount req ∨
   (operation req = "add" ∨ operation req = "remove") ∧ (∃ s, mut_value req = JStr s) ∧ amount req = 0 ∨
   operation req = "write" ∧ canonical (mut_value req) ∧ amount req = 0).

Lemma crdt_json_back j : canonical j → _json_load (_json_dump j) = Ok j.
Proof.
  intros Hj. unfold _json_load, _json_dump.
  by rewrite nonempty_true, loads_dumps by (done || apply dumps_nonempty).
Qed.

Lemma mutation_oneof_back req : mutation_ok req →
  ∃ m, mutation_to_proto req = Ok m ∧
       mutation_from_proto (Some m) = Ok (operation req, mut_value req, amount req).
Proof.
  intros (_ & _ & [([Ho|Ho] & Hv & Ha)|[([Ho|Ho] & [s Hv] & Ha)|(Ho & Hv & Ha)]]);
    unfold mutation_to_proto; rewrite Ho; simpl.
  - rewrite (proj2 (Z.ltb_ge _ _)) by lia. eexists. split; [done|]. by rewrite Hv.
  - rewrite (proj2 (Z.ltb_ge _ _)) by lia. eexists. split; [done|]. by rewrite Hv.
  - rewrite Hv. eexists. split; [done|]. by rewrite Ha.
  - rewrite Hv. eexists. split; [done|]. by rewrite Ha.
  - eexists. split; [done|]. simpl. rewrite crdt_json_back by done. by rewrite Ha.
Qed.

Lemma mutation_back req data : mutation_ok req → encode_mutation_request req = Ok data →
  decode_mutation_request data = Ok req.
Proof.
  intros Hr E. pose proof Hr as (Hk & Ht & _). destruct (mutation_oneof_back req Hr) as (m & Em & Eb).
  unfold encode_mutation_request in E. rewrite nonempty_true, Em in E by done. simpl in E.
  unfold decode_mutation_request. rewrite (proj1 (parse_of_serialize _ _ _ E)). simpl.
  rewrite nonempty_true by done. simpl. rewrite type_back. simpl in *. rewrite Eb. simpl.
  rewrite token_back by done. by destruct req.
Qed.

Lemma read_back req data : read_key req ≠ "" → vector_valid (CausalToken.version (read_token req)) →
  encode_read_request req = Ok data → decode_read_request data = Ok req.
Proof.
  intros Hk Ht E. unfold encode_read_request in E. rewrite nonempty_true in E by done. simpl in E.
  unfold decode_read_request. rewrite (proj1 (parse_of_serialize _ _ _ E)). simpl.
  rewrite nonempty_true by done. simpl. rewrite token_back by done. by destruct req.
Qed.

(** What the service puts in a successful response. *)
Definition response_ok (r : CrdtResponseData) : Prop :=
  success r = true →
    canonical (resp_value r) ∧ vector_valid (CausalToken.version (resp_token r)) ∧
    error_code r = 0 ∧ error_message r = "" ∧ vector_valid (peer_frontier r) ∧
    match resp_state r with Some e => entry_valid e ∧ blank (state e) = false | None => True end.

(** What the receiver sees of a response: an error keeps only its code and
    message. *)
Definition wire_view (r : CrdtResponseData) : CrdtResponseData :=
  if success r then r
  else mkResponseData false None JNull CausalToken.empty "" false (error_code r) (error_message r) None
         VersionVector.empty.

Lemma response_type_back t :
  (if negb (match t with Some t => _type_to_proto t | None => 0 end =? 0)
   then t' ← _type_from_proto (match t with Some t => _type_to_proto t | None => 0 end); Ok (Some t')
   else Ok None) = Ok t.
Proof. by destruct t as [[]|]. Qed.

Lemma response_back r data : response_ok r → encode_crdt_response r = Ok data →
  decode_crdt_response data = Ok (wire_view r).
Proof.
  intros Hr E. unfold encode_crdt_response, response_ok, wire_view in *. destruct (success r) eqn:Es.
  - destruct (Hr eq_refl) as (Hj & Ht & Hc & Hm & Hf & Hst). apply bind_Ok_inv in E as (st & Est & E).
    unfold decode_crdt_response. rewrite (proj1 (parse_of_serialize _ _ _ E)).
    cbn [pb.rs_success pb.rs_type pb.rs_value_json pb.rs_token pb.rs_state pb.rs_peer_frontier
         pb.rs_served_by pb.rs_repair_performed pb.rs_error pb.err_code pb.err_message andb mbind result_bind].
    rewrite response_type_back, crdt_json_back, token_back, version_back by done. cbn [mbind result_bind].
    assert (match st with Some s => e ← state_from_proto s; Ok (Some e) | None => Ok None end =
            Ok (resp_state r)) as ->.
    { destruct (resp_state r) as [e|]; [|by injection Est as <-].
      apply bind_Ok_inv in Est as (msg & Em & [= <-]). rewrite (state_back e msg) by naive_solver.
      by rewrite (proj2 Hst). }
    cbn [mbind result_bind]. destruct r; simpl in *. by subst.
  - unfold decode_crdt_response. by rewrite (proj1 (parse_of_serialize _ _ _ E)).
Qed.

(** The fields of the entry fit the widths of the message. *)
Definition fits (e : StoredCrdtEntry.t) : bool :=
  match state_to_proto e with Ok msg => in_range msg | Err _ => false end.

(** C32: a replica receives exactly the entry that was sent.  An entry built from
    checked actors and dots whose counters fit 64 bits is encoded, and decodes to
    itself: key, type, state, version and causal context.  The one exception is an
    [ORSet] or [MVRegister] that has never held anything: its message selects no
    [oneof] alternative, and the receiver rejects it with [DecodeError]. *)
Theorem replicated_state_roundtrip e :
  entry_valid e → fits e = true →
  (encode_replication e ≫= decode_replication) =
  if blank (state e) then raise DecodeError "CRDT type/state mismatch" else Ok e.
Proof.
  intros He Hf. destruct (encode_replication e) as [data|err] eqn:E; [by apply replication_back|].
  unfold encode_replication, fits in *. destruct (state_to_proto e) as [msg|]; [|done]. simpl in E.
  destruct (serialize_ok (pb.mkReplicate msg) Hf) as [d Hd]. congruence.
Qed.

(** The CRDT requests and responses survive the wire: whatever the encoders
    produce for a mutation, a read, a digest or a response, the decoders read back
    unchanged, causal tokens and frontiers included; an error response keeps its
    code and message. *)
Theorem crdt_messages_roundtrip :
  (∀ req data, mutation_ok req → encode_mutation_request req = Ok data →
     decode_mutation_request data = Ok req) ∧
  (∀ req data, read_key req ≠ "" → vector_valid (CausalToken.version (read_token req)) →
     encode_read_request req = Ok data → decode_read_request data = Ok req) ∧
  (∀ r data, response_ok r → encode_crdt_response r = Ok data →
     decode_crdt_response data = Ok (wire_view r)) ∧
  (∀ ds data, Forall (λ d, vector_valid (CrdtDigestEntry.state_version d) ∧
                           vector_valid (CrdtDigestEntry.causal_context d)) ds →
     encode_digest_response ds = Ok data → decode_digest_response data = Ok ds).
Proof.
  split_and!; [exact mutation_back|exact read_back|exact response_back|exact digest_response_back].
Qed.
End spec.
End CrdtCodecSpec.
Export (hints) CrdtCodecSpec.

(** ** Concrete entries *)
Module CrdtCodecSample.
#[local] Instance wire_replicate : Wire pb.CrdtReplicate := countable_wire.

Definition entry : StoredCrdtEntry.t := CrdtStore.sample_set CrdtStore.a1.
Definition blank_set : StoredCrdtEntry.t :=
  StoredCrdtEntry.mk "s" ORSET (SORSet ORSet.empty) VersionVector.empty VersionVector.empty.

Lemma replicated_state_roundtrip_witness :
  (CrdtCodec.encode_replication entry ≫= CrdtCodec.decode_replication) = Ok entry ∧
  (CrdtCodec.encode_replication blank_set ≫= CrdtCodec.decode_replication) =
    raise DecodeError "CRDT type/state mismatch".
Proof.
  split.
  - refine (eq_trans (CrdtCodecSpec.replicated_state_roundtrip entry _ _) _);
      [apply (bool_decide_unpack _); vm_compute; exact I|vm_compute; reflexivity|reflexivity].
  - refine (eq_trans (CrdtCodecSpec.replicated_state_roundtrip blank_set _ _) _);
      [apply (bool_decide_unpack _); vm_compute; exact I|vm_compute; reflexivity|reflexivity].
Defined.

#[local] Instance wire_mutation : Wire pb.CrdtMutationRequest := countable_wire.
#[local] Instance wire_read : Wire pb.CrdtReadRequest := countable_wire.
#[local] Instance wire_response : Wire pb.CrdtResponse := countable_wire.
#[local] Instance wire_digest : Wire pb.CrdtDigest := countable_wire.
#[local] Instance wire_digest_response : Wire pb.CrdtDigestResponse := countable_wire.

Definition request : CrdtCodec.CrdtMutationData :=
  CrdtCodec.mkMutationData "k" ORSET "add" (JStr "x") 0
    (CausalToken.mk (VersionVector.build {[CrdtStore.a1 := 2]})) true "n2" 250.

Lemma crdt_messages_roundtrip_witness :
  ∃ data, CrdtCodec.encode_mutation_request request = Ok data ∧
          CrdtCodec.decode_mutation_request data = Ok request.
Proof.
  eexists. split; [vm_compute; reflexivity|].
  refine (proj1 CrdtCodecSpec.crdt_messages_roundtrip request _ _ _); [|vm_compute; reflexivity].
  split; [discriminate|]. split; [apply (bool_decide_unpack _); vm_compute; exact I|].
  right. left. simpl. eauto.
Defined.
End CrdtCodecSample.
