(* ===== verification/Outbox.v ===== *)
(** * The replication outbox: [distsys/replication/outbox.py]

    The bounded, coalescing queue between local writes and the replication
    workers.  Every method body runs under the outbox lock and the [put_nowait]
    calls that follow it do not suspend, so each method is one atomic step; a
    method that raises keeps the mutations it made before raising. *)

From S2P Require Import Prelude Lattice Causal Json Crdt Storage.

Local Open Scope Z_scope.

Abbreviation Pair := (string * string)%type.

Record OutboxReservation := Reservation { pairs : list Pair; created_pairs : list Pair }.

Module PendingReplication.
Record t := mk { peer_node_id : string; key : string; generation : Z; state : StoredCrdtEntry.t }.
End PendingReplication.

(** [_Pending] *)
Module Pending.
Record t := mk {
  generation : Z; state : option StoredCrdtEntry.t; queued : bool; in_flight : bool; reservations : Z }.

Definition fresh : t := mk 0 None false false 0.
Definition reserved (p : t) : t :=
  mk (generation p) (state p) (queued p) (in_flight p) (reservations p + 1).
Definition released (p : t) : t :=
  mk (generation p) (state p) (queued p) (in_flight p) (reservations p - 1).
End Pending.

Module ReplicationOutbox.
Record t := mk { capacity : Z; _pending : gmap Pair Pending.t; _ready : list Pair }.

Definition init (capacity : Z) : result t :=
  if capacity <? 1 then raise ValueError "capacity must be >= 1" else Ok (mk capacity ∅ []).

Definition set_pending (pending : gmap Pair Pending.t) (self : t) : t :=
  mk (capacity self) pending (_ready self).
Definition put_ready (l : list Pair) (self : t) : t :=
  mk (capacity self) (_pending self) (_ready self ++ l).

Definition reserve (pairs : list Pair) : M t OutboxReservation := λ self,
  let unique := fromkeys pairs in
  let new_pairs := filter (λ pair, _pending self !! pair = None) unique in
  if capacity self <? Z.of_nat (size (_pending self)) + Z.of_nat (length new_pairs)
  then (raise ReplicationBackpressureError "replication outbox capacity exhausted", self)
  else
    let pending := foldl (λ d pair, <[pair := Pending.fresh]> d) (_pending self) new_pairs in
    let pending := foldl (λ d pair, alter Pending.reserved pair d) pending unique in
    (Ok (Reservation unique new_pairs), set_pending pending self).

(** One round of the loop of [cancel]. *)
Definition cancel_one (d : gmap Pair Pending.t) (pair : Pair) : gmap Pair Pending.t :=
  match d !! pair with
  | None => d
  | Some current =>
      let current := if 0 <? Pending.reservations current then Pending.released current else current in
      if (Pending.reservations current =? 0) && bool_decide (Pending.state current = None) &&
         negb (Pending.queued current) && negb (Pending.in_flight current)
      then delete pair d
      else <[pair := current]> d
  end.

Definition cancel (reservation : OutboxReservation) (self : t) : t :=
  set_pending (foldl cancel_one (_pending self) (pairs reservation)) self.

(** The loop of [publish], with [to_queue]; an exception keeps the rounds before
    it and forgets [to_queue]. *)
Fixpoint publish_loop (states_by_key : gmap string StoredCrdtEntry.t) (l : list Pair)
    (d : gmap Pair Pending.t) (to_queue : list Pair) : result (list Pair) * gmap Pair Pending.t :=
  match l with
  | [] => (Ok to_queue, d)
  | p :: l =>
      match states_by_key !! p.2 with
      | None => (raise KeyError "missing published state for key", d)
      | Some state =>
          match d !! p with
          | None => (raise RuntimeError "outbox reservation no longer exists", d)
          | Some current =>
              if Pending.reservations current <? 1
              then (raise RuntimeError "outbox reservation no longer exists", d)
              else
                let idle := negb (Pending.queued current) && negb (Pending.in_flight current) in
                let current := Pending.mk (Pending.generation current + 1) (Some state)
                                 (Pending.queued current || idle) (Pending.in_flight current)
                                 (Pending.reservations current - 1) in
                publish_loop states_by_key l (<[p := current]> d)
                  (if idle then to_queue ++ [p] else to_queue)
          end
      end
  end.

Definition publish (reservation : OutboxReservation) (states_by_key : gmap string StoredCrdtEntry.t)
    : M t unit := λ self,
  match publish_loop states_by_key (pairs reservation) (_pending self) [] with
  | (Ok to_queue, pending) => (Ok tt, put_ready to_queue (set_pending pending self))
  | (Err e, pending) => (Err e, set_pending pending self)
  end.

(** [next_ready]: [None] when the queue is drained and the caller would wait. *)
Fixpoint next_from (d : gmap Pair Pending.t) (ready : list Pair)
    : option (PendingReplication.t * gmap Pair Pending.t) * list Pair :=
  match ready with
  | [] => (None, [])
  | p :: ready =>
      match d !! p with
      | None => next_from d ready
      | Some current =>
          match Pending.state current with
          | None => next_from d ready
          | Some state =>
              if Pending.in_flight current then next_from d ready
              else
                (Some (PendingReplication.mk p.1 p.2 (Pending.generation current) state,
                       <[p := Pending.mk (Pending.generation current) (Some state) false true
                                   (Pending.reservations current)]> d), ready)
          end
      end
  end.

Definition next_ready (self : t) : option PendingReplication.t * t :=
  match next_from (_pending self) (_ready self) with
  | (Some (item, pending), ready) => (Some item, mk (capacity self) pending ready)
  | (None, ready) => (None, mk (capacity self) (_pending self) ready)
  end.

Definition complete (peer_node_id key : string) (sent_generation : Z) (self : t) : t :=
  let pair := (peer_node_id, key) in
  match _pending self !! pair with
  | None => self
  | Some current =>
      if Pending.generation current =? sent_generation then
        if Pending.reservations current =? 0
        then set_pending (delete pair (_pending self)) self
        else set_pending (<[pair := Pending.mk (Pending.generation current) None false false
                                      (Pending.reservations current)]> (_pending self)) self
      else
        let requeue := negb (Pending.queued current) in
        let self := set_pending (<[pair := Pending.mk (Pending.generation current) (Pending.state current)
                                             true false (Pending.reservations current)]> (_pending self)) self in
        if requeue then put_ready [pair] self else self
  end.

(** [abandon] has the body of [complete]. *)
Definition abandon (peer_node_id key : string) (sent_generation : Z) (self : t) : t :=
  let pair := (peer_node_id, key) in
  match _pending self !! pair with
  | None => self
  | Some current =>
      if Pending.generation current =? sent_generation then
        if Pending.reservations current =? 0
        then set_pending (delete pair (_pending self)) self
        else set_pending (<[pair := Pending.mk (Pending.generation current) None false false
                                      (Pending.reservations current)]> (_pending self)) self
      else
        let requeue := negb (Pending.queued current) in
        let self := set_pending (<[pair := Pending.mk (Pending.generation current) (Pending.state current)
                                             true false (Pending.reservations current)]> (_pending self)) self in
        if requeue then put_ready [pair] self else self
  end.

Definition pending_count (self : t) : nat := size (_pending self).

(** ** The loops, pair by pair *)

Lemma insert_all_lookup (l : list Pair) (v : Pending.t) (d : gmap Pair Pending.t) p :
  foldl (λ d pair, <[pair := v]> d) d l !! p = if decide (p ∈ l) then Some v else d !! p.
Proof.
  revert d. induction l as [|x l IH]; intros d; simpl; [done|].
  rewrite IH. destruct (decide (p = x)) as [->|Hne].
  - rewrite lookup_insert_eq. rewrite (decide_True (P:=x ∈ x :: l)) by left. by case_decide.
  - rewrite lookup_insert_ne by done. by repeat case_decide; set_solver.
Qed.

Lemma foldl_pointwise (step : gmap Pair Pending.t → Pair → gmap Pair Pending.t)
    (f : option Pending.t → option Pending.t) :
  (∀ d p, step d p !! p = f (d !! p)) → (∀ d p q, p ≠ q → step d p !! q = d !! q) →
  ∀ l d p, NoDup l → foldl step d l !! p = if decide (p ∈ l) then f (d !! p) else d !! p.
Proof.
  intros Hs Hn l. induction l as [|x l IH]; intros d p Hnd; simpl; [done|].
  apply NoDup_cons in Hnd as [Hx Hnd]. rewrite IH by done.
  destruct (decide (p = x)) as [->|Hne].
  - rewrite decide_False, decide_True by (done || left). apply Hs.
  - rewrite Hn by done. by repeat case_decide; set_solver.
Qed.

Lemma reserve_lookup pairs self r self' p : reserve pairs self = (Ok r, self') →
  _pending self' !! p = if decide (p ∈ pairs)
                        then Some (Pending.reserved (default Pending.fresh (_pending self !! p)))
                        else _pending self !! p.
Proof.
  unfold reserve. case_match; [done|]. intros [= <- <-]. cbn [_pending set_pending].
  rewrite (foldl_pointwise (λ d pair, alter Pending.reserved pair d) (fmap Pending.reserved));
    [|by intros; rewrite lookup_alter_eq|by intros; rewrite lookup_alter_ne|by apply NoDup_fromkeys].
  rewrite insert_all_lookup. pose proof (elem_of_fromkeys pairs p) as Hu.
  pose proof (list_elem_of_filter (λ q, _pending self !! q = None) (fromkeys pairs) p) as Hf.
  destruct (_pending self !! p) as [c|] eqn:E; repeat case_decide; naive_solver.
Qed.

Definition cancelled (o : option Pending.t) : option Pending.t :=
  match o with
  | None => None
  | Some current =>
      let current := if 0 <? Pending.reservations current then Pending.released current else current in
      if (Pending.reservations current =? 0) && bool_decide (Pending.state current = None) &&
         negb (Pending.queued current) && negb (Pending.in_flight current)
      then None else Some current
  end.

Lemma cancel_lookup r self p : NoDup (pairs r) →
  _pending (cancel r self) !! p =
  if decide (p ∈ pairs r) then cancelled (_pending self !! p) else _pending self !! p.
Proof.
  intros Hnd. unfold cancel, set_pending. cbn [_pending]. apply foldl_pointwise; [..|done].
  - intros d q. unfold cancel_one, cancelled. destruct (d !! q) as [c|] eqn:E; [|done].
    cbv zeta. case_match; [by rewrite lookup_delete_eq|by rewrite lookup_insert_eq].
  - intros d q q' Hq. unfold cancel_one. destruct (d !! q) as [c|] eqn:E; [|done].
    cbv zeta. case_match; [by rewrite lookup_delete_ne|by rewrite lookup_insert_ne].
Qed.

Definition idle (c : Pending.t) : bool := negb (Pending.queued c) && negb (Pending.in_flight c).

Definition published (state : option StoredCrdtEntry.t) (c : Pending.t) : Pending.t :=
  Pending.mk (Pending.generation c + 1) state (Pending.queued c || idle c) (Pending.in_flight c)
    (Pending.reservations c - 1).

Definition idle_at (o : option Pending.t) : bool :=
  match o with Some c => idle c | None => false end.

Lemma publish_loop_spec states l d q : NoDup l →
  (∀ p, p ∈ l → is_Some (states !! p.2) ∧ ∃ c, d !! p = Some c ∧ 1 ≤ Pending.reservations c) →
  ∃ d', publish_loop states l d q = (Ok (q ++ filter (λ p, idle_at (d !! p) = true) l), d') ∧
    ∀ p, d' !! p = if decide (p ∈ l) then published (states !! p.2) <$> d !! p else d !! p.
Proof.
  revert d q. induction l as [|x l IH]; intros d q Hnd H; simpl.
  { exists d. rewrite app_nil_r. split; [done|]. done. }
  apply NoDup_cons in Hnd as [Hx Hnd]. destruct (H x) as [[s Hs] (c & Hc & Hr)]; [left|].
  rewrite Hs, Hc, (proj2 (Z.ltb_ge _ _)) by lia. cbv zeta.
  change (negb (Pending.queued c) && negb (Pending.in_flight c)) with (idle c).
  destruct (IH (<[x := Pending.mk (Pending.generation c + 1) (Some s) (Pending.queued c || idle c)
                         (Pending.in_flight c) (Pending.reservations c - 1)]> d)
              (if idle c then q ++ [x] else q) Hnd) as (d' & E & Hd').
  { intros p Hp. rewrite lookup_insert_ne by (by intros ->). apply H. by right. }
  exists d'. rewrite E. split.
  - f_equal. f_equal. rewrite filter_cons. rewrite Hc. cbn [idle_at].
    assert (filter (λ p, idle_at (<[x := Pending.mk (Pending.generation c + 1) (Some s) (Pending.queued c || idle c)
              (Pending.in_flight c) (Pending.reservations c - 1)]> d !! p) = true) l =
            filter (λ p, idle_at (d !! p) = true) l) as ->.
    { apply list_filter_elem_iff. intros p Hp. by rewrite lookup_insert_ne by (by intros ->). }
    destruct (idle c); simpl; [by rewrite <-app_assoc|done].
  - intros p. rewrite Hd'. destruct (decide (p = x)) as [->|Hne].
    + rewrite decide_False, decide_True, lookup_insert_eq, Hc, Hs by (done || left). done.
    + rewrite lookup_insert_ne by done. repeat case_decide; set_solver.
Qed.

(** No record is kept for nothing: one without a state to send, queued or in
    flight is there for a reservation. *)
Definition tidy (self : t) : Prop := ∀ p c, _pending self !! p = Some c →
  0 ≤ Pending.reservations c ∧
  (Pending.state c = None → Pending.queued c = false → Pending.in_flight c = false →
   1 ≤ Pending.reservations c).

Lemma reserve_pairs l self r self' : reserve l self = (Ok r, self') →
  pairs r = fromkeys l ∧ _ready self' = _ready self ∧ capacity self' = capacity self.
Proof. unfold reserve. case_match; [done|]. by intros [= <- <-]. Qed.

Lemma released_reserved c : Pending.released (Pending.reserved c) = c.
Proof. destruct c. unfold Pending.released, Pending.reserved. simpl. f_equal. lia. Qed.

(** Cancelling right after reserving restores the outbox. *)
Lemma reserve_cancel l self r self' : tidy self → reserve l self = (Ok r, self') → cancel r self' = self.
Proof.
  intros Ht E. destruct (reserve_pairs _ _ _ _ E) as (Er & Erd & Ec).
  assert (_pending (cancel r self') = _pending self) as Hp.
  { apply map_eq. intros p. rewrite cancel_lookup by (rewrite Er; apply NoDup_fromkeys).
    rewrite (reserve_lookup _ _ _ _ p E), Er. pose proof (elem_of_fromkeys l p) as Hl.
    repeat case_decide; try tauto. destruct (_pending self !! p) as [c|] eqn:Ep; [|done].
    destruct (Ht p c Ep) as [Hn0 H1]. unfold cancelled. cbv zeta. change (default Pending.fresh (Some c)) with c.
    change (Pending.reservations (Pending.reserved c)) with (Pending.reservations c + 1).
    rewrite (proj2 (Z.ltb_lt _ _)), released_reserved by lia.
    destruct (_ && _) eqn:Eb; [|done]. rewrite !andb_true_iff, !negb_true_iff, Z.eqb_eq, bool_decide_eq_true in Eb.
    destruct Eb as [[[Hz Hs] Hq] Hf]. specialize (H1 Hs Hq Hf). lia. }
  unfold cancel, set_pending in *. simpl in *. rewrite Hp, Erd, Ec. by destruct self.
Qed.

(** Publishing right after reserving cannot fail, and hands the state over. *)
Lemma reserve_publish l self r self' states : tidy self → reserve l self = (Ok r, self') →
  (∀ p, p ∈ l → is_Some (states !! p.2)) →
  ∃ self'', publish r states self' = (Ok tt, self'') ∧
    (∀ p, p ∈ l → ∃ c, _pending self'' !! p = Some c ∧ Pending.state c = states !! p.2 ∧
                       (Pending.queued c = true ∨ Pending.in_flight c = true)) ∧
    (∀ p, p ∉ l → _pending self'' !! p = _pending self !! p).
Proof.
  intros Ht E Hst. destruct (reserve_pairs _ _ _ _ E) as (Er & Erd & Ec).
  destruct (publish_loop_spec states (pairs r) (_pending self') []) as (d & El & Hd).
  - rewrite Er. apply NoDup_fromkeys.
  - intros p. rewrite Er, elem_of_fromkeys. intros Hp. split; [by apply Hst|].
    rewrite (reserve_lookup _ _ _ _ p E), decide_True by done. eexists. split; [done|].
    destruct (_pending self !! p) as [c|] eqn:Ep; simpl; [|lia]. destruct (Ht p c Ep). lia.
  - unfold publish. rewrite El. eexists. split; [done|]. cbn [_pending put_ready set_pending].
    split; intros p Hp; rewrite Hd, Er, (reserve_lookup _ _ _ _ p E);
      pose proof (elem_of_fromkeys l p); repeat case_decide; try tauto.
    eexists. split; [done|]. split; [done|]. unfold published, idle. simpl.
    destruct (Pending.queued _), (Pending.in_flight _); auto.
Qed.
End ReplicationOutbox.

(** ** The outbox and its users

    Writers hold open reservations that they publish or cancel once; workers take
    an item, hand its state to the transport and report back.  [latest] is the
    last state published for a pair, [tried] the last one a worker has finished
    sending or given up on. *)
Module OutboxSystem.
Import ReplicationOutbox.

Record t := mk {
  ob : ReplicationOutbox.t;
  flight : gmap Pair PendingReplication.t;
  opened : list OutboxReservation;
  latest : gmap Pair StoredCrdtEntry.t;
  tried : gmap Pair StoredCrdtEntry.t;
}.

Definition item_pair (i : PendingReplication.t) : Pair :=
  (PendingReplication.peer_node_id i, PendingReplication.key i).

(** The states a reservation publishes, over what was published before. *)
Definition publish_latest (states : gmap string StoredCrdtEntry.t) (l : list Pair)
    (m : gmap Pair StoredCrdtEntry.t) : gmap Pair StoredCrdtEntry.t :=
  foldl (λ m p, match states !! p.2 with Some s => <[p := s]> m | None => m end) m l.

Inductive step : t → t → Prop :=
  | do_reserve s l r ob' : reserve l (ob s) = (Ok r, ob') →
      step s (mk ob' (flight s) (r :: opened s) (latest s) (tried s))
  | do_refuse s l e ob' : reserve l (ob s) = (Err e, ob') →
      step s (mk ob' (flight s) (opened s) (latest s) (tried s))
  | do_cancel s l1 r l2 : opened s = l1 ++ r :: l2 →
      step s (mk (cancel r (ob s)) (flight s) (l1 ++ l2) (latest s) (tried s))
  | do_publish s l1 r l2 states ob' : opened s = l1 ++ r :: l2 →
      (∀ p, p ∈ pairs r → is_Some (states !! p.2)) →
      publish r states (ob s) = (Ok tt, ob') →
      step s (mk ob' (flight s) (l1 ++ l2) (publish_latest states (pairs r) (latest s)) (tried s))
  | do_next s i ob' : next_ready (ob s) = (Some i, ob') →
      step s (mk ob' (<[item_pair i := i]> (flight s)) (opened s) (latest s) (tried s))
  | do_complete s i p : flight s !! p = Some i →
      step s (mk (complete p.1 p.2 (PendingReplication.generation i) (ob s)) (delete p (flight s))
                 (opened s) (latest s) (<[p := PendingReplication.state i]> (tried s)))
  | do_abandon s i p : flight s !! p = Some i →
      step s (mk (abandon p.1 p.2 (PendingReplication.generation i) (ob s)) (delete p (flight s))
                 (opened s) (latest s) (<[p := PendingReplication.state i]> (tried s))).

Definition initial (cap : Z) : t := mk (ReplicationOutbox.mk cap ∅ []) ∅ [] ∅ ∅.

(** Open reservations that name a pair. *)
Definition holds (p : Pair) (l : list OutboxReservation) : Z :=
  Z.of_nat (length (filter (λ r, p ∈ pairs r) l)).

(** One pair: its record, its open reservations, the item in flight, the last
    state published and tried, and whether it is queued. *)
Definition slot_ok (p : Pair) (o : option Pending.t) (n : Z) (f : option PendingReplication.t)
    (lat tri : option StoredCrdtEntry.t) (q : Prop) : Prop :=
  match o with
  | None => n = 0 ∧ f = None ∧ lat = tri ∧ ¬ q
  | Some c =>
      Pending.reservations c = n ∧ 0 ≤ n ∧ (q ↔ Pending.queued c = true) ∧
      (Pending.queued c = true → Pending.in_flight c = false) ∧
      match Pending.state c with
      | None => Pending.in_flight c = false ∧ Pending.queued c = false ∧ lat = tri ∧ 1 ≤ n
      | Some s => lat = Some s ∧ (Pending.queued c = true ∨ Pending.in_flight c = true)
      end ∧
      match f with
      | None => Pending.in_flight c = false
      | Some i => Pending.in_flight c = true ∧ item_pair i = p ∧
          PendingReplication.generation i ≤ Pending.generation c ∧
          (PendingReplication.generation i = Pending.generation c →
           Pending.state c = Some (PendingReplication.state i))
      end
  end.

Record inv (s : t) : Prop := {
  inv_size : Z.of_nat (size (_pending (ob s))) ≤ capacity (ob s);
  inv_ready : NoDup (_ready (ob s));
  inv_opened : Forall (λ r, NoDup (pairs r)) (opened s);
  inv_slot p : slot_ok p (_pending (ob s) !! p) (holds p (opened s)) (flight s !! p)
                 (latest s !! p) (tried s !! p) (p ∈ _ready (ob s));
}.

Lemma inv_tidy s : inv s → tidy (ob s).
Proof.
  intros [_ _ _ Hp] p c E. specialize (Hp p). rewrite E in Hp. simpl in Hp.
  destruct Hp as (Hn & H0 & _ & _ & Hst & _). split; [lia|]. intros Hs. rewrite Hs in Hst. naive_solver lia.
Qed.

Lemma holds_cons p r l : holds p (r :: l) = (if decide (p ∈ pairs r) then 1 else 0) + holds p l.
Proof. unfold holds. rewrite filter_cons. case_decide; simpl; lia. Qed.

Lemma holds_mid p l1 r l2 :
  holds p (l1 ++ r :: l2) = (if decide (p ∈ pairs r) then 1 else 0) + holds p (l1 ++ l2).
Proof. unfold holds. rewrite !filter_app, filter_cons, !length_app. case_decide; simpl; lia. Qed.

Lemma holds_nonneg p l : 0 ≤ holds p l.
Proof. unfold holds. lia. Qed.

Lemma initial_outbox_inv cap : 1 ≤ cap → inv (initial cap).
Proof.
  intros H. split; simpl; [rewrite map_size_empty; lia|constructor|constructor|].
  intros p. rewrite !lookup_empty. split_and!; try done. apply not_elem_of_nil.
Qed.

Lemma slot_of_reserve p o n f lat tri q :
  slot_ok p o n f lat tri q →
  slot_ok p (Some (Pending.reserved (default Pending.fresh o))) (1 + n) f lat tri q.
Proof.
  destruct o as [c|]; simpl.
  - intros (<- & ? & ? & ? & Hst & ?). split_and!; try done; [lia..|]. destruct (Pending.state c); [done|].
    naive_solver lia.
  - intros (-> & -> & -> & ?). split_and!; done.
Qed.

Lemma slot_of_cancel p o n f lat tri q : 0 ≤ n →
  slot_ok p o (1 + n) f lat tri q → slot_ok p (cancelled o) n f lat tri q.
Proof.
  intros Hn. unfold cancelled. destruct o as [c|]; [|simpl; intros (? & _); lia].
  intros (Hr & _ & Hq & Hx & Hst & Hf). rewrite (proj2 (Z.ltb_lt _ _)) by lia. cbv zeta.
  destruct (_ && _) eqn:E.
  - simpl in E. rewrite !andb_true_iff, bool_decide_eq_true, !negb_true_iff in E.
    destruct E as [[[E1%Z.eqb_eq E2] E3] E4]. rewrite E2 in Hst. destruct Hst as (Hif & Hqd & Hl & _).
    split_and!; [lia|destruct f; [destruct Hf; congruence|done]|done|rewrite Hq; congruence].
  - simpl. split_and!; try done; [lia..|]. simpl in E. destruct (Pending.state c); [done|].
    destruct Hst as (Hif & Hqd & Hl & _). rewrite Hif, Hqd, bool_decide_eq_true_2 in E by done. simpl in E.
    rewrite !andb_true_r in E. apply Z.eqb_neq in E. split_and!; try done. lia.
Qed.

Lemma slot_of_publish p o n f lat tri q s : 0 ≤ n →
  slot_ok p o (1 + n) f lat tri q →
  slot_ok p (published (Some s) <$> o) n f (Some s) tri (q ∨ idle_at o = true).
Proof.
  intros Hn. destruct o as [c|]; [|simpl; intros (? & _); lia].
  intros (Hr & _ & Hq & Hx & Hst & Hf). simpl. unfold idle.
  destruct (Pending.queued c) eqn:Eq, (Pending.in_flight c) eqn:Ei; simpl; try naive_solver lia.
  all: split_and!; try naive_solver lia.
  all: destruct f as [i|]; [|done]; destruct Hf as (? & ? & ? & ?); split_and!; done || lia.
Qed.

Lemma slot_of_finish p c n i lat tri q : slot_ok p (Some c) n (Some i) lat tri q →
  (Pending.generation c = PendingReplication.generation i →
     lat = Some (PendingReplication.state i)) ∧ ¬ q ∧ Pending.queued c = false.
Proof.
  intros (Hr & _ & Hq & Hx & Hst & Hif & _ & Hle & Hg).
  assert (Pending.queued c = false) by (destruct (Pending.queued c); naive_solver).
  split_and!; [|rewrite Hq; congruence|done].
  intros E. rewrite (Hg (eq_sym E)) in Hst. naive_solver.
Qed.

Lemma size_mono (d d' : gmap Pair Pending.t) :
  (∀ p, d !! p = None → d' !! p = None) → (size d' ≤ size d)%nat.
Proof.
  intros H. rewrite <-!size_dom. apply subseteq_size. intros p.
  rewrite !elem_of_dom. intros [c Hc]. destruct (d !! p) eqn:E; [eauto|].
  apply H in E. congruence.
Qed.

Lemma reserve_ok l self r self' : reserve l self = (Ok r, self') →
  pairs r = fromkeys l ∧ _ready self' = _ready self ∧ capacity self' = capacity self ∧
  Z.of_nat (size (_pending self')) ≤ capacity self.
Proof.
  intros E. assert (∀ p, p ∈ dom (_pending self') → p ∈ dom (_pending self) ∪
    list_to_set (C:=gset Pair) (filter (λ pair, _pending self !! pair = None) (fromkeys l))) as Hd.
  { intros p. rewrite elem_of_union, !elem_of_dom, elem_of_list_to_set, list_elem_of_filter, elem_of_fromkeys.
    rewrite (reserve_lookup _ _ _ _ p E). destruct (_pending self !! p); [by left; eauto|].
    case_decide; [by right|]. intros [? ?]. done. }
  apply subseteq_size in Hd. rewrite size_union, !size_dom, size_list_to_set in Hd;
    [|apply NoDup_filter, NoDup_fromkeys|].
  - unfold reserve in E. case_match eqn:Hc; [done|]. apply Z.ltb_ge in Hc. injection E as <- <-.
    simpl in *. split_and!; try done. lia.
  - intros p. rewrite elem_of_dom, elem_of_list_to_set, list_elem_of_filter. intros [c Hc] [Hn _]. congruence.
Qed.

Lemma inv_reserve s l r ob' : inv s → reserve l (ob s) = (Ok r, ob') →
  inv (mk ob' (flight s) (r :: opened s) (latest s) (tried s)).
Proof.
  intros [Hs Hr Ho Hp] E. destruct (reserve_ok _ _ _ _ E) as (Er & Erd & Ec & Hsz).
  split; simpl.
  - by rewrite Ec.
  - by rewrite Erd.
  - constructor; [|done]. rewrite Er. apply NoDup_fromkeys.
  - intros p. rewrite Erd, holds_cons, (reserve_lookup _ _ _ _ p E), Er. specialize (Hp p).
    pose proof (elem_of_fromkeys l p). repeat case_decide; try tauto.
    by apply slot_of_reserve.
Qed.

Lemma inv_cancel s l1 r l2 : inv s → opened s = l1 ++ r :: l2 →
  inv (mk (cancel r (ob s)) (flight s) (l1 ++ l2) (latest s) (tried s)).
Proof.
  intros [Hs Hr Ho Hp] E. rewrite E, Forall_app, Forall_cons in Ho. destruct Ho as (H1 & Hnd & H2).
  pose proof (λ p, cancel_lookup r (ob s) p Hnd) as Hl. split; simpl.
  - etrans; [|exact Hs]. apply inj_le, size_mono. intros p Hn.
    pose proof (Hl p) as Hlp. simpl in Hlp. rewrite Hlp, Hn. by case_decide.
  - done.
  - by apply Forall_app.
  - intros p. specialize (Hp p). rewrite E, holds_mid in Hp. pose proof (Hl p) as Hlp. simpl in Hlp.
    rewrite Hlp. case_decide; [|by rewrite Z.add_0_l in Hp].
    apply slot_of_cancel; [apply holds_nonneg|done].
Qed.

Lemma publish_latest_lookup states l m p : (∀ p, p ∈ l → is_Some (states !! p.2)) →
  publish_latest states l m !! p = if decide (p ∈ l) then states !! p.2 else m !! p.
Proof.
  revert m. induction l as [|x l IH]; intros m H; [done|]. destruct (H x) as [s Hs]; [left|].
  change (publish_latest states (x :: l) m) with
    (publish_latest states l (match states !! x.2 with Some s => <[x := s]> m | None => m end)).
  rewrite Hs.
  rewrite IH by (intros; apply H; by right). destruct (decide (p = x)) as [->|Hne].
  - rewrite lookup_insert_eq, (decide_True (P:=x ∈ x :: l)) by left. by case_decide.
  - rewrite lookup_insert_ne by done. repeat case_decide; set_solver.
Qed.

Lemma publish_ok s l1 r l2 states : inv s → opened s = l1 ++ r :: l2 →
  (∀ p, p ∈ pairs r → is_Some (states !! p.2)) →
  ∃ d, publish r states (ob s) =
       (Ok tt, ReplicationOutbox.mk (capacity (ob s)) d (_ready (ob s) ++
                 filter (λ p, idle_at (_pending (ob s) !! p) = true) (pairs r))) ∧
    ∀ p, d !! p = if decide (p ∈ pairs r) then published (states !! p.2) <$> _pending (ob s) !! p
                  else _pending (ob s) !! p.
Proof.
  intros [Hs Hr Ho Hp] E Hst. rewrite E, Forall_app, Forall_cons in Ho. destruct Ho as (H1 & Hnd & H2).
  destruct (publish_loop_spec states (pairs r) (_pending (ob s)) [] Hnd) as (d & El & Hd).
  { intros p Hin. split; [by apply Hst|]. specialize (Hp p). rewrite E, holds_mid, decide_True in Hp by done.
    pose proof (holds_nonneg p (l1 ++ l2)). destruct (_pending (ob s) !! p) as [c|]; simpl in Hp; [|lia].
    exists c. split; [done|lia]. }
  exists d. split; [|done]. unfold publish. by rewrite El.
Qed.

#[local] Instance slot_ok_proper p o n f lat tri : Proper (iff ==> iff) (slot_ok p o n f lat tri).
Proof. intros q q' Hq. destruct o as [c|]; simpl; [|tauto]. by rewrite Hq. Qed.

Lemma slot_iff p o n f lat tri q q' : slot_ok p o n f lat tri q → (q ↔ q') → slot_ok p o n f lat tri q'.
Proof. by intros H <-. Qed.

Lemma slot_ready p o n f lat tri q : slot_ok p o n f lat tri q → q →
  ∃ c st, o = Some c ∧ Pending.state c = Some st ∧ Pending.queued c = true ∧
          Pending.in_flight c = false ∧ f = None ∧ lat = Some st.
Proof.
  destruct o as [c|]; simpl; [|tauto]. intros (Hr & Hn & Hq & Hx & Hst & Hf) H. apply Hq in H as Hqd.
  destruct (Pending.state c) as [st|] eqn:Es; [|destruct Hst as (_ & ? & _); congruence].
  exists c, st. split_and!; try tauto. destruct f; [|done].
  destruct Hf as [Hf _]. by rewrite Hx in Hf.
Qed.

Lemma inv_publish s l1 r l2 states ob' : inv s → opened s = l1 ++ r :: l2 →
  (∀ p, p ∈ pairs r → is_Some (states !! p.2)) → publish r states (ob s) = (Ok tt, ob') →
  inv (mk ob' (flight s) (l1 ++ l2) (publish_latest states (pairs r) (latest s)) (tried s)).
Proof.
  intros Hinv E Hst Ep. destruct (publish_ok s l1 r l2 states Hinv E Hst) as (d & Ep' & Hd).
  rewrite Ep in Ep'. injection Ep' as ->. destruct Hinv as [Hs Hr Ho Hp].
  rewrite E, Forall_app, Forall_cons in Ho. destruct Ho as (H1 & Hnd & H2). split; simpl.
  - etrans; [|exact Hs]. apply inj_le, size_mono. intros p Hn. rewrite Hd, Hn. by case_decide.
  - apply NoDup_app. split_and!; [done| |by apply NoDup_filter].
    intros p Hin [Hidle _]%list_elem_of_filter.
    destruct (slot_ready _ _ _ _ _ _ _ (Hp p) Hin) as (c & st & Ec & _ & Hq & _).
    rewrite Ec in Hidle. simpl in Hidle. unfold idle in Hidle. by rewrite Hq in Hidle.
  - by apply Forall_app.
  - intros p. specialize (Hp p). rewrite E, holds_mid in Hp. rewrite Hd, publish_latest_lookup by done.
    rewrite elem_of_app, list_elem_of_filter. case_decide as Hin.
    + destruct (Hst p Hin) as [st Hs']. rewrite Hs'.
      eapply slot_iff; [eapply slot_of_publish; [apply holds_nonneg|exact Hp]|]. tauto.
    + rewrite Z.add_0_l in Hp. eapply slot_iff; [exact Hp|]. tauto.
Qed.

Lemma next_ready_spec s i ob' : inv s → next_ready (ob s) = (Some i, ob') →
  ∃ p rest c st, _ready (ob s) = p :: rest ∧ _pending (ob s) !! p = Some c ∧
    Pending.state c = Some st ∧ i = PendingReplication.mk p.1 p.2 (Pending.generation c) st ∧
    ob' = ReplicationOutbox.mk (capacity (ob s))
            (<[p := Pending.mk (Pending.generation c) (Some st) false true (Pending.reservations c)]>
               (_pending (ob s))) rest.
Proof.
  intros [_ _ _ Hp] E. unfold next_ready in E. destruct (_ready (ob s)) as [|p rest] eqn:Er; [done|].
  destruct (slot_ready _ _ _ _ _ _ _ (Hp p)) as (c & st & Ec & Es & Hq & Hif & _);
    [rewrite ?Er; left|].
  simpl in E. rewrite Ec, Es, Hif in E. injection E as <- <-. exists p, rest, c, st. done.
Qed.

Lemma inv_next s i ob' : inv s → next_ready (ob s) = (Some i, ob') →
  inv (mk ob' (<[item_pair i := i]> (flight s)) (opened s) (latest s) (tried s)).
Proof.
  intros Hinv E. destruct (next_ready_spec s i ob' Hinv E) as (p & rest & c & st & Er & Ec & Es & -> & ->).
  destruct Hinv as [Hs Hr Ho Hp]. rewrite Er in Hr. apply NoDup_cons in Hr as [Hpr Hr]. split; simpl.
  - rewrite map_size_insert_Some by eauto. done.
  - done.
  - done.
  - intros p'. change (item_pair _) with (p.1, p.2). rewrite <-surjective_pairing.
    specialize (Hp p'). rewrite Er in Hp. destruct (decide (p = p')) as [<-|Hne].
    + rewrite !lookup_insert_eq. rewrite Ec in Hp. destruct Hp as (Hrs & Hn & Hq & Hx & Hst & Hf).
      rewrite Es in Hst. split_and!; simpl; try done; try naive_solver.
      by destruct p.
    + rewrite !lookup_insert_ne by done. eapply slot_iff; [exact Hp|]. rewrite elem_of_cons. naive_solver.
Qed.

Lemma abandon_complete a k g self : abandon a k g self = complete a k g self.
Proof. done. Qed.

Lemma slot_present p o n i lat tri q : slot_ok p o n (Some i) lat tri q → ∃ c, o = Some c.
Proof. destruct o; [eauto|]. simpl. naive_solver. Qed.

(** What a worker's report leaves behind. *)
Lemma slot_of_report p c n i lat tri q : slot_ok p (Some c) n (Some i) lat tri q →
  let sent := Some (PendingReplication.state i) in
  (Pending.generation c = PendingReplication.generation i → Pending.reservations c = 0 →
     slot_ok p None n None lat sent False) ∧
  (Pending.generation c = PendingReplication.generation i → Pending.reservations c ≠ 0 →
     slot_ok p (Some (Pending.mk (Pending.generation c) None false false (Pending.reservations c)))
       n None lat sent False) ∧
  slot_ok p (Some (Pending.mk (Pending.generation c) (Pending.state c) true false (Pending.reservations c)))
    n None lat sent True.
Proof.
  intros H. pose proof (slot_of_finish _ _ _ _ _ _ _ H) as (Hl & _ & Hqd).
  destruct H as (Hr & Hn & Hq & Hx & Hst & Hif & _). split_and!; intros.
  - split_and!; naive_solver lia.
  - split_and!; simpl; naive_solver lia.
  - split_and!; simpl; try done. destruct (Pending.state c); [naive_solver|].
    destruct Hst as [? _]. congruence.
Qed.

Lemma inv_report s i p : inv s → flight s !! p = Some i →
  inv (mk (complete p.1 p.2 (PendingReplication.generation i) (ob s)) (delete p (flight s))
          (opened s) (latest s) (<[p := PendingReplication.state i]> (tried s))).
Proof.
  intros [Hs Hr Ho Hp] Hf. pose proof (Hp p) as Hpp. rewrite Hf in Hpp.
  destruct (slot_present _ _ _ _ _ _ _ Hpp) as [c Ec]. rewrite Ec in Hpp.
  destruct (slot_of_report _ _ _ _ _ _ _ Hpp) as (H1 & H2 & H3).
  pose proof (slot_of_finish _ _ _ _ _ _ _ Hpp) as (_ & Hnr & Hqd).
  unfold complete. rewrite <-surjective_pairing, Ec, Hqd. cbv zeta. simpl.
  destruct (_ =? _) eqn:Eg; [apply Z.eqb_eq in Eg; destruct (_ =? 0) eqn:E0|];
    (split; [..|intros p'; specialize (Hp p'); destruct (decide (p = p')) as [<-|Hne]]); simpl;
    rewrite ?lookup_delete_eq, ?lookup_insert_eq, ?lookup_delete_ne, ?lookup_insert_ne by done;
    rewrite ?map_size_delete, ?Ec, ?map_size_insert_Some by eauto; try done.
  - lia.
  - apply Z.eqb_eq in E0. eapply slot_iff; [by apply H1|]. tauto.
  - apply Z.eqb_neq in E0. eapply slot_iff; [by apply H2|]. tauto.
  - apply NoDup_app. split_and!; [done|set_solver|apply NoDup_singleton].
  - eapply slot_iff; [exact H3|]. set_solver.
  - eapply slot_iff; [exact Hp|]. set_solver.
Qed.

Lemma step_preserves s s' : inv s → step s s' → inv s'.
Proof.
  intros Hi Hst. destruct Hst.
  - by eapply inv_reserve.
  - unfold reserve in H. case_match; [|done]. injection H as _ <-. by destruct s, Hi.
  - by eapply inv_cancel.
  - by eapply inv_publish.
  - by eapply inv_next.
  - by apply inv_report.
  - rewrite abandon_complete. by apply inv_report.
Qed.

Lemma reachable_outbox_inv cap s : 1 ≤ cap → reachable step (initial cap) s → inv s.
Proof.
  intros Hc. apply reachable_invariant; [by apply initial_outbox_inv|]. intros ????. by eapply step_preserves.
Qed.

Lemma step_capacity s s' : step s s' → capacity (ob s') = capacity (ob s).
Proof.
  intros [s0 l r ob' E|s0 l e ob' E|s0 l1 r l2 E|s0 l1 r l2 st ob' E Hs Ep|s0 i ob' E|s0 i p E|s0 i p E]; simpl.
  - by apply reserve_ok in E as (_ & _ & ? & _).
  - unfold reserve in E. case_match; [|done]. by injection E as _ <-.
  - done.
  - unfold publish in Ep. destruct (publish_loop _ _ _ _) as [[?|?] ?]; [|done]. by injection Ep as <-.
  - unfold next_ready in E. destruct (next_from _ _) as [[[]|] ?]; [|done]. by injection E as _ <-.
  - unfold complete. by cases.
  - rewrite abandon_complete. unfold complete. by cases.
Qed.

Lemma capacity_const cap s : reachable step (initial cap) s → capacity (ob s) = cap.
Proof.
  apply (reachable_invariant step (λ s, capacity (ob s) = cap)); [done|].
  intros s1 s2 E H. apply step_capacity in H. congruence.
Qed.

(** C36: the outbox is bounded, and a write that reserved its place can always be
    published.  Whatever the order of reservations, cancellations, publications and
    worker reports, at most [capacity] pairs are pending; a reservation that would
    exceed it raises [ReplicationBackpressureError] and changes nothing; publishing
    an open reservation never raises. *)
Theorem outbox_bounded_and_publish_total cap s :
  1 ≤ cap → reachable step (initial cap) s →
  Z.of_nat (pending_count (ob s)) ≤ cap ∧
  (∀ l e ob', reserve l (ob s) = (Err e, ob') →
     ob' = ob s ∧ exn_cls e = ReplicationBackpressureError) ∧
  (∀ r states, r ∈ opened s → (∀ p, p ∈ pairs r → is_Some (states !! p.2)) →
     ∃ ob', publish r states (ob s) = (Ok tt, ob')).
Proof.
  intros Hc Hr. pose proof (reachable_outbox_inv cap s Hc Hr) as Hi. split_and!.
  - rewrite <-(capacity_const cap s Hr). apply Hi.
  - intros l e ob' E. unfold reserve in E. case_match; [|done]. by injection E as <- <-.
  - intros r states Hin Hst. apply list_elem_of_split in Hin as (l1 & l2 & E).
    destruct (publish_ok s l1 r l2 states Hi E Hst) as (d & Ed & _). eauto.
Qed.

(** C9: coalescing never loses the newest state.  An item given to a worker
    carries the state published last for its pair; and when no item is queued or
    in flight, the state a worker last finished with is, for every pair, the state
    published last.  With no reservation open the outbox is then empty. *)
Theorem outbox_delivers_latest_state cap s :
  1 ≤ cap → reachable step (initial cap) s →
  (∀ i ob', next_ready (ob s) = (Some i, ob') →
     latest s !! item_pair i = Some (PendingReplication.state i)) ∧
  (flight s = ∅ → _ready (ob s) = [] →
     (∀ p, tried s !! p = latest s !! p) ∧ (opened s = [] → _pending (ob s) = ∅)).
Proof.
  intros Hc Hr. pose proof (reachable_outbox_inv cap s Hc Hr) as Hi. split.
  - intros i ob' E. destruct (next_ready_spec s i ob' Hi E) as (p & rest & c & st & Er & Ec & Es & -> & _).
    pose proof (inv_slot s Hi p) as H. rewrite Er, Ec in H. destruct H as (_ & _ & _ & _ & H & _).
    rewrite Es in H. unfold item_pair. simpl. rewrite <-surjective_pairing. naive_solver.
  - intros Hf Hrd. assert (∀ p, latest s !! p = tried s !! p ∧
      (∀ c, _pending (ob s) !! p = Some c → 1 ≤ holds p (opened s))) as H.
    { intros p. pose proof (inv_slot s Hi p) as H. rewrite Hf, lookup_empty, Hrd in H.
      destruct (_pending (ob s) !! p) as [c|]; [|naive_solver].
      destruct H as (Hrs & Hn & Hq & Hx & Hst & Hif). rewrite elem_of_nil in Hq.
      destruct (Pending.state c); [|naive_solver]. destruct Hst as [_ [?|?]]; [tauto|congruence]. }
    split; [intros p; symmetry; apply H|]. intros Ho. apply map_empty. intros p.
    destruct (_pending (ob s) !! p) as [c|] eqn:E; [|done].
    destruct (H p) as [_ H']. specialize (H' c E). rewrite Ho in H'. by unfold holds in H'; simpl in H'.
Qed.

(** A write, taken by a worker, then a second write to the same pair that the
    worker's report re-queues. *)
Definition pair1 : Pair := ("n2", "k").
Definition entry1 : StoredCrdtEntry.t := CrdtStore.sample_register CrdtStore.a1 (JInt 1).
Definition entry2 : StoredCrdtEntry.t := CrdtStore.sample_register CrdtStore.a2 (JInt 2).

Definition reserving (s : t) : t :=
  match reserve [pair1] (ob s) with
  | (Ok r, ob') => mk ob' (flight s) (r :: opened s) (latest s) (tried s)
  | _ => s
  end.
Definition publishing (e : StoredCrdtEntry.t) (s : t) : t :=
  match opened s with
  | r :: l => mk (publish r {["k" := e]} (ob s)).2 (flight s) l
                (publish_latest {["k" := e]} (pairs r) (latest s)) (tried s)
  | [] => s
  end.
Definition taking (s : t) : t :=
  match next_ready (ob s) with
  | (Some i, ob') => mk ob' (<[item_pair i := i]> (flight s)) (opened s) (latest s) (tried s)
  | _ => s
  end.
Definition completing (s : t) : t :=
  match flight s !! pair1 with
  | Some i => mk (complete "n2" "k" (PendingReplication.generation i) (ob s)) (delete pair1 (flight s))
                (opened s) (latest s) (<[pair1 := PendingReplication.state i]> (tried s))
  | None => s
  end.

Lemma reserving_reachable s : reachable step (initial 2) s →
  (∃ r ob', reserve [pair1] (ob s) = (Ok r, ob')) → reachable step (initial 2) (reserving s).
Proof. intros H (r & ob' & E). unfold reserving. rewrite E. eapply reachable_step; [done|]. by eapply do_reserve. Qed.
Lemma publishing_reachable e s : reachable step (initial 2) s →
  (∃ r l, opened s = r :: l ∧ pairs r = [pair1] ∧ (publish r {["k" := e]} (ob s)).1 = Ok tt) →
  reachable step (initial 2) (publishing e s).
Proof.
  intros H (r & l & E & Er & Ep). unfold publishing. rewrite E. eapply reachable_step; [done|].
  eapply (do_publish s [] r l {["k" := e]}); [done| |].
  - intros p Hp. rewrite Er in Hp. apply list_elem_of_singleton in Hp as ->. simpl. eauto.
  - destruct (publish r _ (ob s)) as [x ob']. simpl in *. by subst.
Qed.
Lemma taking_reachable s : reachable step (initial 2) s → reachable step (initial 2) (taking s).
Proof.
  intros H. unfold taking. destruct (next_ready (ob s)) as [[i|] ob'] eqn:E; [|done].
  eapply reachable_step; [done|]. by apply do_next.
Qed.
Lemma completing_reachable s : reachable step (initial 2) s → reachable step (initial 2) (completing s).
Proof.
  intros H. unfold completing. destruct (flight s !! pair1) as [i|] eqn:E; [|done].
  eapply reachable_step; [done|]. by apply (do_complete s i pair1).
Qed.

Definition stage1 : t := taking (publishing entry1 (reserving (initial 2))).
Definition stage2 : t := completing (publishing entry2 (reserving stage1)).
Definition stage3 : t := completing (taking stage2).

Lemma stage2_reachable : reachable step (initial 2) stage2.
Proof.
  apply completing_reachable, publishing_reachable; [apply reserving_reachable|..].
  - apply taking_reachable, publishing_reachable; [apply reserving_reachable|..].
    + constructor.
    + do 2 eexists. vm_compute. reflexivity.
    + do 2 eexists. split; [reflexivity|]. split; vm_compute; reflexivity.
  - do 2 eexists. vm_compute. reflexivity.
  - do 2 eexists. split; [reflexivity|]. split; vm_compute; reflexivity.
Qed.

Lemma outbox_bounded_and_publish_total_witness : Z.of_nat (pending_count (ob stage2)) ≤ 2.
Proof. apply (outbox_bounded_and_publish_total 2 stage2); [lia|exact stage2_reachable]. Defined.

Lemma outbox_delivers_latest_state_witness :
  tried stage2 !! pair1 = Some entry1 ∧ latest stage2 !! pair1 = Some entry2 ∧
  tried stage3 !! pair1 = latest stage3 !! pair1.
Proof.
  split; [vm_compute; reflexivity|]. split; [vm_compute; reflexivity|].
  apply (outbox_delivers_latest_state 2 stage3);
    [lia|apply completing_reachable, taking_reachable, stage2_reachable
    |vm_compute; reflexivity|vm_compute; reflexivity].
Defined.
End OutboxSystem.
