(* ===== verification/Repair.v ===== *)
(** * Causal repair: [storage/protocol.py], [replication/causal_repair.py]

    The repair service talks to a store through the [CrdtStateStore] interface and to
    its peers through a small transport interface.  The store interface is a type
    class with the laws both stores of the program obey; a peer call is an
    operation of [M S], because other handlers may run while it is awaited. *)

From S2P Require Import Prelude Lattice Causal Json Crdt Storage Membership Ring CrdtCodec.

Local Open Scope Z_scope.
Import StoredCrdtEntry (key, crdt_type, state, state_version, causal_context).
Import ClusterMember (node_id, status).

(** ** [storage/protocol.py]: [CrdtStateStore]

    [view] is the dictionary a store serves reads from.  A method that raises
    leaves it as it was, and one that returns has changed it as the in-memory
    store would. *)
Class CrdtStateStore (S : Type) := {
  view : S → CrdtStore.t;
  store_get : string → M S (option StoredCrdtEntry.t);
  store_replace : StoredCrdtEntry.t → option CrdtType → M S StoredCrdtEntry.t;
  store_merge_entry : StoredCrdtEntry.t → M S StoredCrdtEntry.t;
  store_merge_metadata : string → VersionVector.t → M S (option StoredCrdtEntry.t);
  store_keys : M S (list string);
  store_snapshot_all : option Z → M S (list StoredCrdtEntry.t);
  store_get_spec k s : store_get k s = (Ok (view s !! k), s);
  store_replace_spec e t s r s' : store_replace e t s = (r, s') →
    match r with
    | Ok x => CrdtStore.replace e t (view s) = (Ok x, view s')
    | Err _ => view s' = view s
    end;
  store_merge_entry_spec e s r s' : CrdtStore.wf (view s) → StoredCrdtEntry.wf e →
    store_merge_entry e s = (r, s') →
    match r with
    | Ok m => CrdtStore.merge_entry e (view s) = (Ok m, view s')
    | Err _ => view s' = view s
    end;
  store_merge_metadata_spec k c s r s' : CrdtStore.wf (view s) → VersionVector.wf c →
    store_merge_metadata k c s = (r, s') →
    match r with
    | Ok m => CrdtStore.merge_metadata k c (view s) = (Ok m, view s')
    | Err _ => view s' = view s
    end;
  store_keys_spec s : store_keys s = (Ok (py_sorted (dom (view s))), s);
  store_snapshot_all_spec l s :
    store_snapshot_all l s = ((CrdtStore.snapshot_all l (view s)).1, s);
}.

(** The in-memory store is its own view. *)
#[export] Program Instance memory_store : CrdtStateStore CrdtStore.t := {|
  view s := s;
  store_get := CrdtStore.get;
  store_replace := CrdtStore.replace;
  store_merge_entry := CrdtStore.merge_entry;
  store_merge_metadata := CrdtStore.merge_metadata;
  store_keys := CrdtStore.keys;
  store_snapshot_all := CrdtStore.snapshot_all;
|}.
Next Obligation. done. Qed.
Next Obligation.
  intros e t s r s' E. destruct r as [x|]; [done|].
  destruct (CrdtStore.replace_cases e t s) as [H|[msg H]]; rewrite H in E; by simplify_eq.
Qed.
Next Obligation.
  intros e s r s' Hs He E. destruct r as [m|]; [done|]. rewrite CrdtStore.merge_entry_spec in E by done.
  destruct (s !! key e) as [x|]; [destruct (merge_entries x e)|]; by simplify_eq.
Qed.
Next Obligation.
  intros k c s r s' Hs Hc E. destruct r as [m|]; [done|]. rewrite CrdtStore.merge_metadata_spec in E by done.
  destruct (s !! k); by simplify_eq.
Qed.
Next Obligation. done. Qed.
Next Obligation.
  intros l s. unfold CrdtStore.snapshot_all, gets, mbind, M_bind. simpl. by destruct l; simpl; cases.
Qed.

(** ** Stores only grow *)

(** Every entry of [a] is contained in the entry [b] has under its key. *)
Definition store_le (a b : CrdtStore.t) : Prop :=
  ∀ k e, a !! k = Some e → ∃ e', b !! k = Some e' ∧ m_le e e'.

Lemma store_le_refl a : CrdtStore.wf a → store_le a a.
Proof. intros Ha k e E. exists e. split; [done|]. apply m_le_refl. by apply Ha in E as [_ ?]. Qed.

Lemma store_le_trans a b c : CrdtStore.wf a → CrdtStore.wf b → CrdtStore.wf c →
  store_le a b → store_le b c → store_le a c.
Proof.
  intros Ha Hb Hc Hab Hbc k e E. destruct (Hab k e E) as (e1 & E1 & L1).
  destruct (Hbc k e1 E1) as (e2 & E2 & L2). exists e2. split; [done|].
  apply Ha in E as [_ ?]. apply Hb in E1 as [_ ?]. apply Hc in E2 as [_ ?]. by apply (m_le_trans e e1 e2).
Qed.

Lemma store_le_insert a k e : CrdtStore.wf a →
  match a !! k with Some x => m_le x e | None => True end → store_le a (<[k := e]> a).
Proof.
  intros Ha He k' x Ex. destruct (decide (k = k')) as [<-|Hne].
  - rewrite lookup_insert_eq. rewrite Ex in He. eauto.
  - rewrite lookup_insert_ne by done. exists x. split; [done|]. apply m_le_refl. by apply Ha in Ex as [_ ?].
Qed.

Lemma m_le_learned e c : StoredCrdtEntry.wf e → VersionVector.wf c → m_le e (CrdtStore.learned e c).
Proof.
  intros He Hc. pose proof He as (_ & _ & Hs & Hv & Hx). unfold m_le. apply result_equiv_Ok.
  apply result_equiv_Ok. change (m_merge e) with (merge_entries e).
  rewrite merge_entries_cases by (done || by apply CrdtStore.learned_wf).
  rewrite bool_decide_eq_true_2 by done. simpl. rewrite merge_state_idemp by done. simpl.
  rewrite VersionVector.vv_merge_idemp by done.
  by rewrite <-VersionVector.vv_merge_assoc, VersionVector.vv_merge_idemp by done.
Qed.

Section growth.
Context {S : Type} `{CrdtStateStore S}.

Lemma merge_entry_grows e s r s' : CrdtStore.wf (view s) → StoredCrdtEntry.wf e →
  store_merge_entry e s = (r, s') →
  CrdtStore.wf (view s') ∧ store_le (view s) (view s') ∧
  match r with
  | Ok m => view s' !! key e = Some m ∧ m_le e m ∧ StoredCrdtEntry.wf m
  | Err _ => True
  end.
Proof.
  intros Hs He E. pose proof (store_merge_entry_spec e s r s' Hs He E) as Hr. destruct r as [m|err].
  - pose proof (CrdtStore.merge_entry_wf (view s) e Hs He) as Hw. rewrite Hr in Hw. simpl in Hw.
    rewrite CrdtStore.merge_entry_spec in Hr by done.
    destruct (view s !! key e) as [x|] eqn:Ex; [destruct (merge_entries x e) as [y|] eqn:Ey; [|done]|];
      injection Hr as <- Ev; rewrite <-Ev in *; (split_and!; [done|apply store_le_insert; [done|rewrite Ex]|by rewrite lookup_insert_eq|..]).
    + apply Hs in Ex as [_ Hx]. by apply (m_le_merge_l x e).
    + apply Hs in Ex as [_ Hx]. by apply (m_le_merge_r x e).
    + apply Hs in Ex as [_ Hx]. by apply (merge_entries_wf x e).
    + done.
    + by apply m_le_refl.
    + done.
  - rewrite Hr. split_and!; [done|by apply store_le_refl|done].
Qed.

Lemma merge_metadata_grows k c s r s' : CrdtStore.wf (view s) → VersionVector.wf c →
  store_merge_metadata k c s = (r, s') →
  CrdtStore.wf (view s') ∧ store_le (view s) (view s') ∧
  match r with
  | Ok o => o = (λ x, CrdtStore.learned x c) <$> view s !! k ∧
            view s' = match view s !! k with
                      | Some x => <[k := CrdtStore.learned x c]> (view s)
                      | None => view s
                      end
  | Err _ => view s' = view s
  end.
Proof.
  intros Hs Hc E. pose proof (store_merge_metadata_spec k c s r s' Hs Hc E) as Hr. destruct r as [m|err].
  - pose proof (CrdtStore.merge_metadata_wf k c (view s) Hs Hc) as Hw. rewrite Hr in Hw. simpl in Hw.
    rewrite CrdtStore.merge_metadata_spec in Hr by done.
    destruct (view s !! k) as [x|] eqn:Ex; injection Hr as <- Ev; rewrite <-Ev in *; split_and!; try done.
    + apply store_le_insert; [done|]. rewrite Ex. apply m_le_learned; [|done]. by apply Hs in Ex as [_ ?].
    + by apply store_le_refl.
  - rewrite Hr. split_and!; [done|by apply store_le_refl|done].
Qed.
End growth.

(** ** [replication/causal_repair.py] *)

Record PeerCrdtFetch := Fetched {
  fetched_from : string; fetched_entry : option StoredCrdtEntry.t; causal_frontier : VersionVector.t }.

Record CausalRepairResult := RepairResult {
  satisfied : bool; merged_version : VersionVector.t;
  contacted_nodes : list string; successful_nodes : list string }.

Module CausalRepairService.
Section service.
Context {S : Type} `{CrdtStateStore S}.
(** [self.selector.replicas]; and [deadline.run(asyncio.gather(...,
    return_exceptions=True))] over the calls [self.peer.fetch_state(member, key,
    deadline)], with whatever other handlers did meanwhile. *)
Variable replicas : string → S → result (list ClusterMember.t).
Variable gather : list ClusterMember.t → string → M S (list (result PeerCrdtFetch)).
Variable local_node_id : string.

(** The loop over [raw_results]. *)
Fixpoint absorb_results (raw : list (result PeerCrdtFetch)) (merged : VersionVector.t)
    (successful : list string) : M S (VersionVector.t * list string) :=
  match raw with
  | [] => mret (merged, successful)
  | Err _ :: raw => absorb_results raw merged successful
  | Ok fetch :: raw =>
      let successful := successful ++ [fetched_from fetch] in
      let merged := VersionVector.merge merged (causal_frontier fetch) in
      match fetched_entry fetch with
      | None => absorb_results raw merged successful
      | Some entry =>
          stored ← store_merge_entry entry;
          absorb_results raw (VersionVector.merge merged (causal_context stored)) successful
      end
  end.

(** The metadata step: the stored context learns everything gathered. *)
Definition settle (k : string) (merged : VersionVector.t) : M S VersionVector.t :=
  current ← store_get k;
  match current with
  | None => mret merged
  | Some current =>
      let merged := VersionVector.merge merged (causal_context current) in
      if decide (causal_context current ≠ merged) then
        current ← store_merge_metadata k merged;
        mret (match current with Some current => causal_context current | None => merged end)
      else mret merged
  end.

Definition ensure (k : string) (required : VersionVector.t) : M S CausalRepairResult :=
  local ← store_get k;
  let local_version := match local with Some e => causal_context e | None => VersionVector.empty end in
  if VersionVector.dominates local_version required then mret (RepairResult true local_version [] [])
  else
    members ← reads (replicas k);
    let peers := filter (λ m, node_id m ≠ local_node_id) members in
    let contacted := node_id <$> peers in
    if decide (peers = []) then raiseM CausalUnavailableError "required causal frontier is unavailable"
    else
      raw ← catchM (gather peers k) [DeadlineExceeded] (λ _,
              raiseM CausalUnavailableError
                "required causal frontier was not obtained before the request deadline");
      '(merged, successful) ← absorb_results raw local_version [];
      merged ← settle k merged;
      if negb (VersionVector.dominates merged required)
      then raiseM CausalUnavailableError "required causal frontier is unavailable"
      else mret (RepairResult true merged contacted successful).

(** What the transport delivers: checked entries and vectors, over a store whose
    entries stay well formed, and only grow, while the calls are awaited. *)
Definition fetch_wf (r : result PeerCrdtFetch) : Prop :=
  match r with
  | Ok f => VersionVector.wf (causal_frontier f) ∧
            match fetched_entry f with Some e => StoredCrdtEntry.wf e | None => True end
  | Err _ => True
  end.

Definition good_gather : Prop := ∀ peers k s r s',
  gather peers k s = (r, s') → CrdtStore.wf (view s) →
  CrdtStore.wf (view s') ∧ store_le (view s) (view s') ∧
  match r with Ok raw => Forall fetch_wf raw | Err _ => True end.


(** Everything fetched is in the store afterwards. *)
Definition contains_fetched (raw : list (result PeerCrdtFetch)) (st : CrdtStore.t) : Prop :=
  ∀ f e, Ok f ∈ raw → fetched_entry f = Some e → ∃ m, st !! key e = Some m ∧ m_le e m.

Lemma contains_fetched_le raw a b : CrdtStore.wf a → CrdtStore.wf b → Forall fetch_wf raw →
  contains_fetched raw a → store_le a b → contains_fetched raw b.
Proof.
  intros Ha Hb Hraw Hc Hab f e Hf He. destruct (Hc f e Hf He) as (m & Em & Lm).
  destruct (Hab _ _ Em) as (m' & Em' & Lm'). exists m'. split; [done|].
  rewrite Forall_forall in Hraw. apply Hraw in Hf as [_ Hf]. rewrite He in Hf.
  apply Ha in Em as [_ ?]. apply Hb in Em' as [_ ?]. by apply (m_le_trans e m m').
Qed.

Lemma absorb_results_spec raw merged successful s r s' :
  CrdtStore.wf (view s) → Forall fetch_wf raw → VersionVector.wf merged →
  absorb_results raw merged successful s = (r, s') →
  CrdtStore.wf (view s') ∧ store_le (view s) (view s') ∧
  match r with
  | Ok (merged', _) => VersionVector.wf merged' ∧ contains_fetched raw (view s')
  | Err _ => True
  end.
Proof.
  revert merged successful s. induction raw as [|[f|e] raw IH]; intros merged successful s Hs Hraw Hm E; simpl in E.
  - injection E as <- <-. split_and!; [done|by apply store_le_refl|done|]. intros ?? ?%elem_of_nil. done.
  - apply Forall_cons in Hraw as [[Hfv Hfe] Hraw].
    assert (VersionVector.wf (VersionVector.merge merged (causal_frontier f))) as Hm' by auto with distsys.
    destruct (fetched_entry f) as [e|] eqn:Ef.
    + unfold mbind, M_bind in E. destruct (store_merge_entry e s) as [[m|err] s1] eqn:Es;
        pose proof (merge_entry_grows e s _ s1 Hs Hfe Es) as (Hs1 & Hle1 & Hr1).
      2: { injection E as <- <-. done. }
      destruct Hr1 as (Em & Lm & Hmw). apply IH in E as (Hs' & Hle' & Hr'); [|done|done|].
      2: { destruct Hmw as (_ & _ & _ & _ & ?). auto with distsys. }
      split_and!; [done|by apply (store_le_trans _ (view s1))|]. destruct r as [[merged' ?]|]; [|done].
      destruct Hr' as [Hw Hc]. split; [done|]. intros f' e' [Hf|Hf]%elem_of_cons He'; [|by eapply Hc].
      injection Hf as ->. rewrite Ef in He'. injection He' as <-.
      destruct (Hle' _ _ Em) as (m' & Em' & Lm'). exists m'. split; [done|].
      apply Hs' in Em' as [_ ?]. by apply (m_le_trans e m m').
    + apply IH in E as (Hs' & Hle' & Hr'); [|done..]. split_and!; [done..|].
      destruct r as [[merged' ?]|]; [|done]. destruct Hr' as [Hw Hc]. split; [done|].
      intros f' e' [Hf|Hf]%elem_of_cons He'; [|by eapply Hc]. injection Hf as ->. congruence.
  - apply Forall_cons in Hraw as [_ Hraw]. apply IH in E as (Hs' & Hle' & Hr'); [|done..].
    split_and!; [done..|]. destruct r as [[merged' ?]|]; [|done]. destruct Hr' as [Hw Hc]. split; [done|].
    intros f' e' [Hf|Hf]%elem_of_cons He'; [done|]. by eapply Hc.
Qed.

Lemma settle_spec k merged s r s' :
  CrdtStore.wf (view s) → VersionVector.wf merged → settle k merged s = (r, s') →
  CrdtStore.wf (view s') ∧ store_le (view s) (view s') ∧
  match r with
  | Ok merged' => VersionVector.wf merged' ∧
      ∀ e, view s' !! k = Some e → causal_context e = merged'
  | Err _ => True
  end.
Proof.
  intros Hs Hm E. unfold settle, mbind, M_bind in E. rewrite store_get_spec in E.
  destruct (view s !! k) as [x|] eqn:Ex.
  2: { injection E as <- <-. split_and!; [done|by apply store_le_refl|done|]. intros e He. congruence. }
  pose proof (Hs _ _ Ex) as [Hk Hx]. pose proof Hx as (_ & _ & _ & _ & Hcx). cbv zeta in E.
  assert (VersionVector.wf (VersionVector.merge merged (causal_context x))) as Hm' by auto with distsys.
  case_decide as Hd.
  - destruct (store_merge_metadata k _ s) as [[o|err] s1] eqn:Es;
      pose proof (merge_metadata_grows k _ s _ s1 Hs Hm' Es) as (Hs1 & Hle1 & Hr1); injection E as <- <-.
    + rewrite Ex in Hr1. destruct Hr1 as [-> Hv]. simpl. split_and!; [done|done|auto with distsys|].
      intros e. rewrite Hv, lookup_insert_eq. by intros [= <-].
    + done.
  - injection E as <- <-. split_and!; [done|by apply store_le_refl|done|].
    intros e He. rewrite Ex in He. injection He as <-. destruct (decide (causal_context x =
      VersionVector.merge merged (causal_context x))); [done|tauto].
Qed.

Lemma context_wf st k e : CrdtStore.wf st → st !! k = Some e → VersionVector.wf (causal_context e).
Proof. intros Hs E. by apply Hs in E as [_ (_ & _ & _ & _ & ?)]. Qed.

(** Where [ensure] may stop. *)
Lemma ensure_spec k required s r s' : CrdtStore.wf (view s) → VersionVector.wf required → good_gather →
  ensure k required s = (r, s') →
  CrdtStore.wf (view s') ∧ store_le (view s) (view s') ∧
  match r with
  | Ok res => satisfied res = true ∧ VersionVector.wf (merged_version res) ∧
      VersionVector.le required (merged_version res) ∧
      (∀ e, view s' !! k = Some e → VersionVector.le required (causal_context e)) ∧
      (contacted_nodes res = [] → s' = s)
  | Err _ => True
  end.
Proof.
  intros Hs Hq Hg E. unfold ensure, mbind, M_bind, reads in E. rewrite store_get_spec in E.
  set (local_version := match view s !! k with Some e => causal_context e | None => VersionVector.empty end) in E.
  assert (VersionVector.wf local_version) as Hlv.
  { subst local_version. destruct (view s !! k) as [e|] eqn:Ek; [by apply (context_wf (view s) k)|].
    apply VersionVector.vv_wf_empty. }
  assert (∀ err, (CrdtStore.wf (view s) ∧ store_le (view s) (view s) ∧
    match (Err err : result CausalRepairResult) with Ok _ => False | Err _ => True end)) as Hstop.
  { intros err. split_and!; [done|by apply store_le_refl|done]. }
  destruct (VersionVector.dominates local_version required) eqn:Ed.
  { apply VersionVector.dominates_spec in Ed; [|done..]. injection E as <- <-.
    split_and!; [done|by apply store_le_refl|..]; simpl; try done.
    intros e He. subst local_version. by rewrite He in Ed. }
  destruct (replicas k s) as [members|err]; [|injection E as <- <-; by apply (Hstop err)].
  case_decide as Hp; [injection E as <- <-; by apply (Hstop (Exn Exception "" 0))|].
  unfold catchM in E. destruct (gather _ k s) as [[raw|err] s1] eqn:Eg; pose proof (Hg _ _ _ _ _ Eg Hs) as (Hs1 & Hle1 & Hraw).
  2: { destruct (isinstance err _); simpl in E; injection E as <- <-; done. }
  destruct (absorb_results raw local_version [] s1) as [[[merged ok]|err] s2] eqn:Ea;
    pose proof (absorb_results_spec _ _ _ _ _ _ Hs1 Hraw Hlv Ea) as (Hs2 & Hle2 & Ha).
  2: { injection E as <- <-. split_and!; [done|by apply (store_le_trans _ (view s1))|done]. }
  destruct Ha as [Hm _]. destruct (settle k merged s2) as [[merged'|err] s3] eqn:Es;
    pose proof (settle_spec _ _ _ _ _ Hs2 Hm Es) as (Hs3 & Hle3 & Hst).
  all: assert (store_le (view s) (view s3)) as Hle by
    (apply (store_le_trans _ (view s2)); [done..| |done]; by apply (store_le_trans _ (view s1))).
  2: { by injection E as <- <-. }
  destruct Hst as [Hm' Hctx]. destruct (VersionVector.dominates merged' required) eqn:Ed'; injection E as <- <-; [|done].
  apply VersionVector.dominates_spec in Ed'; [|done..].
  split_and!; simpl; try done. { intros e He. by rewrite (Hctx e He). }
  intros Hn%fmap_nil_inv. done.
Qed.

(** [ensure] keeps whatever its store operations and its peer calls keep. *)
Lemma ensure_keeps (P : S → Prop) k required s r s' :
  (∀ e s r s', CrdtStore.wf (view s) → StoredCrdtEntry.wf e → store_merge_entry e s = (r, s') → P s → P s') →
  (∀ k c s r s', CrdtStore.wf (view s) → VersionVector.wf c → store_merge_metadata k c s = (r, s') → P s → P s') →
  (∀ peers k s r s', gather peers k s = (r, s') → P s → P s') → good_gather →
  CrdtStore.wf (view s) → ensure k required s = (r, s') → P s → P s'.
Proof.
  intros Hme Hmm Hga Hg Hs E HP. unfold ensure, mbind, M_bind, reads in E. rewrite store_get_spec in E.
  set (lv := match view s !! k with Some e => causal_context e | None => VersionVector.empty end) in E.
  assert (VersionVector.wf lv) as Hlv.
  { subst lv. destruct (view s !! k) as [e|] eqn:Ek; [by apply (context_wf (view s) k)|].
    apply VersionVector.vv_wf_empty. }
  destruct (VersionVector.dominates lv required); [by injection E as <- <-|].
  destruct (replicas k s) as [members|err]; [|by injection E as <- <-].
  case_decide; [by injection E as <- <-|]. unfold catchM in E.
  destruct (gather _ k s) as [[raw|err] s1] eqn:Eg; pose proof (Hg _ _ _ _ _ Eg Hs) as (Hs1 & _ & Hraw);
    pose proof (Hga _ _ _ _ _ Eg HP) as HP1.
  2: { destruct (isinstance err _); simpl in E; by injection E as <- <-. }
  assert (∀ raw merged ok s1 r s', CrdtStore.wf (view s1) → P s1 → Forall fetch_wf raw → VersionVector.wf merged →
            absorb_results raw merged ok s1 = (r, s') → P s') as Ha.
  { clear -Hme. intros raw. induction raw as [|[f|e] raw IH]; intros merged ok s1 r s' Hs HP Hraw Hm E; simpl in E.
    - by injection E as <- <-.
    - apply Forall_cons in Hraw as [[Hfv Hfe] Hraw]. destruct (fetched_entry f) as [e|].
      + unfold mbind, M_bind in E. destruct (store_merge_entry e s1) as [[m|err] s2] eqn:Es;
          pose proof (Hme _ _ _ _ Hs Hfe Es HP);
          destruct (merge_entry_grows e s1 _ s2 Hs Hfe Es) as (Hs2 & _ & Hr); [|by injection E as <- <-].
        destruct Hr as (_ & _ & (_ & _ & _ & _ & ?)). eapply IH; [| | | |exact E]; auto with distsys.
      + eapply IH; [| | | |exact E]; auto with distsys.
    - apply Forall_cons in Hraw as [_ Hraw]. by eapply IH. }
  destruct (absorb_results raw lv [] s1) as [[[merged ok]|err] s2] eqn:Ea;
    pose proof (Ha _ _ _ _ _ _ Hs1 HP1 Hraw Hlv Ea) as HP2;
    pose proof (absorb_results_spec _ _ _ _ _ _ Hs1 Hraw Hlv Ea) as (Hs2 & _ & Hm); [|by injection E as <- <-].
  destruct Hm as [Hm _]. assert (∀ r s3, settle k merged s2 = (r, s3) → P s3) as Hset.
  { intros r3 s3 E3. unfold settle, mbind, M_bind in E3. rewrite store_get_spec in E3.
    destruct (view s2 !! k) as [x|] eqn:Ex; [|by injection E3 as <- <-]. cbv zeta in E3.
    pose proof (context_wf _ _ _ Hs2 Ex). case_decide; [|by injection E3 as <- <-].
    destruct (store_merge_metadata k _ s2) as [[o|err] s4] eqn:Es;
      eapply Hmm in Es; try done; auto with distsys; by injection E3 as <- <-. }
  destruct (settle k merged s2) as [[merged'|err] s3]; pose proof (Hset _ _ eq_refl);
    [destruct (negb _)|]; by injection E as <- <-.
Qed.

End service.
End CausalRepairService.

(** ** What counts as evidence for a key *)
Module RepairEvidence.
Import CausalRepairService.

(** Causal repair accepts a peer's process-wide frontier as evidence about the
    key.  When the local entry is behind the required frontier and the only peer
    that answers holds no entry for the key, but has seen the required dots through
    other keys, [ensure] reports success: the entry's state and state version are
    what they were, its context now dominates the requirement, and later reads are
    served from it without repair.  The session guarantee the documentation gives
    (read your writes) is lost when the replica that holds the update is down. *)
Theorem repair_trusts_process_frontier replicas gather local s k required e p frontier :
  CrdtStore.wf s → VersionVector.wf required → VersionVector.wf frontier →
  s !! k = Some e → ¬ VersionVector.le required (causal_context e) →
  node_id p ≠ local → replicas k s = Ok [p] →
  gather [p] k s = (Ok [Ok (Fetched (node_id p) None frontier)], s) →
  VersionVector.le required frontier →
  ∃ res s' e', ensure replicas gather local k required s = (Ok res, s') ∧ s' !! k = Some e' ∧
    state e' = state e ∧ state_version e' = state_version e ∧
    VersionVector.dominates (causal_context e') required = true.
Proof.
  intros Hs Hq Hf Ek Hno Hp Hr Hg Hle. pose proof (context_wf s k e Hs Ek) as Hc.
  unfold ensure, mbind, M_bind, reads. cbn [store_get memory_store]. unfold CrdtStore.get, gets. rewrite Ek.
  destruct (VersionVector.dominates (causal_context e) required) eqn:Ed.
  { by apply VersionVector.dominates_spec in Ed. }
  rewrite Hr. cbv zeta.
  assert (filter (λ m, node_id m ≠ local) [p] = [p]) as -> by (rewrite filter_cons; by case_decide).
  rewrite decide_False by done. unfold catchM. rewrite Hg. simpl.
  set (merged := VersionVector.merge (causal_context e) frontier).
  assert (VersionVector.wf merged) as Hm by (subst merged; auto with distsys).
  assert (VersionVector.merge merged (causal_context e) = merged) as Hmm.
  { apply VersionVector.merge_absorb; [done..|]. apply VersionVector.le_merge_l. }
  unfold settle, mbind, M_bind. cbn [store_get memory_store]. unfold CrdtStore.get, gets. rewrite Ek.
  cbv zeta. rewrite Hmm.
  assert (VersionVector.dominates merged required = true) as Hd.
  { apply VersionVector.dominates_spec; [done..|]. etrans; [exact Hle|]. apply VersionVector.le_merge_r. }
  case_decide as Hx.
  - cbn [store_merge_metadata memory_store]. rewrite CrdtStore.merge_metadata_spec, Ek by done. simpl.
    assert (VersionVector.merge (causal_context e) merged = merged) as Hmm'.
    { rewrite VersionVector.vv_merge_comm by done. exact Hmm. }
    rewrite Hmm', Hd. eexists _, _, _. split; [done|]. rewrite lookup_insert_eq. split; [done|].
    split_and!; try done. simpl. by rewrite Hmm'.
  - destruct Hno. apply VersionVector.dominates_spec; [done..|].
    destruct (decide (causal_context e = merged)) as [->|]; [done|tauto].
Qed.

Definition peer : ClusterMember.t := ClusterMember.mk "n2" "h" 7002 ALIVE 1.
Definition stale : StoredCrdtEntry.t := CrdtStore.sample_register CrdtStore.a1 (JInt 1).
Definition needed : VersionVector.t := VersionVector.build {[CrdtStore.a1 := 2]}.

Lemma repair_trusts_process_frontier_witness :
  ∃ res s' e', ensure (λ _ _, Ok [peer]) (λ _ _ s, (Ok [Ok (Fetched "n2" None needed)], s)) "n3" "k" needed
      ({["k" := stale]} : CrdtStore.t) = (Ok res, s') ∧ s' !! "k" = Some e' ∧
    state e' = state stale ∧ state_version e' = state_version stale ∧
    VersionVector.dominates (causal_context e') needed = true.
Proof.
  refine (repair_trusts_process_frontier (λ _ _, Ok [peer]) (λ _ _ s, (Ok [Ok (Fetched "n2" None needed)], s))
           "n3" {["k" := stale]} "k" needed stale peer needed _ _ _ _ _ _ _ _ _).
  - apply (bool_decide_unpack _). vm_compute. exact I.
  - apply (bool_decide_unpack _). vm_compute. exact I.
  - apply (bool_decide_unpack _). vm_compute. exact I.
  - reflexivity.
  - intros H. specialize (H CrdtStore.a1). vm_compute in H. by apply H.
  - discriminate.
  - reflexivity.
  - reflexivity.
  - reflexivity.
Defined.

End RepairEvidence.
