(* ===== verification/AntiEntropy.v ===== *)
(** * Digest-driven anti-entropy: [distsys/replication/anti_entropy.py]

    [AntiEntropyService] over the store interface and the transport operations
    [exchange_digest], [fetch_state], [send_state] and [send_metadata]; then two
    replicas that serve each other with the handlers of [crdt_service.py], and what
    one exchange achieves between them. *)

From S2P Require Import Prelude Lattice Causal Json Crdt Storage Membership Ring CrdtCodec Repair.

Local Open Scope Z_scope.
Import StoredCrdtEntry (key, crdt_type, state, state_version, causal_context).
Import ClusterMember (node_id, status).

(** [[x for x in l if f(x)]] when the test may raise. *)
Fixpoint filter_result {A} (f : A → result bool) (l : list A) : result (list A) :=
  match l with
  | [] => Ok []
  | x :: l => b ← f x; l' ← filter_result f l; Ok (if b : bool then x :: l' else l')
  end.

Lemma filter_result_Ok {A} (f : A → result bool) (g : A → bool) (l : list A) :
  (∀ x, f x = Ok (g x)) → filter_result f l = Ok (filter (λ x, g x = true) l).
Proof.
  intros H. induction l as [|x l IH]; [done|]. simpl. rewrite H. simpl. rewrite IH. simpl.
  rewrite filter_cons. destruct (g x); by case_decide.
Qed.

(** [AntiEntropyPeer] *)
Record AntiEntropyPeer (S : Type) := {
  exchange_digest : ClusterMember.t → list CrdtDigestEntry.t → M S (list CrdtDigestEntry.t);
  fetch_state : ClusterMember.t → string → M S (option StoredCrdtEntry.t);
  send_state : ClusterMember.t → StoredCrdtEntry.t → M S unit;
  send_metadata : ClusterMember.t → string → VersionVector.t → M S unit;
}.
Arguments exchange_digest {_} _ _ _.
Arguments fetch_state {_} _ _ _.
Arguments send_state {_} _ _ _.
Arguments send_metadata {_} _ _ _ _.

Record ReconcileStats := Stats { keys_checked : Z; repairs : Z; failures : Z }.

Module AntiEntropyService.
Section service.
Context {S : Type} `{CrdtStateStore S}.
Variable peer : AntiEntropyPeer S.
Variable replicas : string → S → result (list ClusterMember.t).
Variable peer_provider : M S (list ClusterMember.t).
Variable peer_chooser : list ClusterMember.t → ClusterMember.t.
Variable local_node_id : string.
Variable batch_size : Z.

Definition init_check (interval_seconds : Z) : result unit :=
  if batch_size <? 1 then raise ValueError "batch_size must be >= 1"
  else if interval_seconds <=? 0 then raise ValueError "interval_seconds must be > 0"
  else Ok tt.

Definition _peers : M S (list ClusterMember.t) :=
  value ← peer_provider;
  mret (filter (λ m, node_id m ≠ local_node_id ∧ status m = ALIVE) value).

Definition _shared_replica (s : S) (peer_node_id k : string) : result bool :=
  match replicas k s with
  | Err e => Err e
  | Ok members =>
      let ids := node_id <$> members in
      Ok (bool_decide (local_node_id ∈ ids) && bool_decide (peer_node_id ∈ ids))
  end.

Definition _local_digest_for (peer_node_id : string) : M S (list CrdtDigestEntry.t) :=
  entries ← store_snapshot_all None;
  relevant ← reads (λ s, filter_result (λ e, _shared_replica s peer_node_id (key e)) entries);
  mret (take (Z.to_nat batch_size) (CrdtDigestEntry.from_entry <$> relevant)).

(** One round of the loop over [all_keys]; the result says whether it counts as a
    repair. *)
Definition reconcile_key (target : ClusterMember.t) (local_map remote_map : gmap string CrdtDigestEntry.t)
    (k : string) : M S bool :=
  match local_map !! k, remote_map !! k with
  | None, Some _ =>
      state ← fetch_state peer target k;
      match state with
      | Some state => _ ← store_merge_entry state; mret true
      | None => mret false
      end
  | Some _, None =>
      state ← store_get k;
      match state with
      | Some state => _ ← send_state peer target state; mret true
      | None => mret false
      end
  | None, None => raiseM AssertionError ""
  | Some local, Some remote =>
      relation ← liftM (compare_digest local remote);
      match relation with
      | DigestRelation.EQUAL => mret false
      | DigestRelation.METADATA_ONLY =>
          let merged_context := VersionVector.merge (CrdtDigestEntry.causal_context local)
                                  (CrdtDigestEntry.causal_context remote) in
          _ ← store_merge_metadata k merged_context;
          _ ← send_metadata peer target k merged_context;
          mret true
      | DigestRelation.LOCAL_AHEAD =>
          state ← store_get k;
          match state with
          | Some state => _ ← send_state peer target state; mret true
          | None => mret false
          end
      | DigestRelation.REMOTE_AHEAD =>
          state ← fetch_state peer target k;
          match state with
          | Some state => _ ← store_merge_entry state; mret true
          | None => mret false
          end
      | DigestRelation.CONCURRENT =>
          state ← fetch_state peer target k;
          match state with
          | None => mret false
          | Some state =>
              merged ← store_merge_entry state;
              _ ← send_state peer target merged;
              mret true
          end
      end
  end.

Fixpoint reconcile_keys (target : ClusterMember.t) (local_map remote_map : gmap string CrdtDigestEntry.t)
    (keys : list string) (repairs : Z) : M S Z :=
  match keys with
  | [] => mret repairs
  | k :: keys =>
      repaired ← reconcile_key target local_map remote_map k;
      reconcile_keys target local_map remote_map keys (if repaired : bool then repairs + 1 else repairs)
  end.

Definition digest_map (l : list CrdtDigestEntry.t) : gmap string CrdtDigestEntry.t :=
  dict_of ((λ d, (CrdtDigestEntry.key d, d)) <$> l).

Definition _reconcile_digest (target : ClusterMember.t) (local_digest : list CrdtDigestEntry.t)
    (limit : option Z) : M S ReconcileStats :=
  answer ← catchM (d ← exchange_digest peer target local_digest; mret (Some d))
             [ConnectionError; TimeoutError; OSError] (λ _, mret None);
  match answer with
  | None => mret (Stats 0 0 1)
  | Some remote_digest =>
      let local_map := digest_map local_digest in
      relevant ← reads (λ s, filter_result (λ d, _shared_replica s (node_id target) (CrdtDigestEntry.key d))
                              remote_digest);
      let remote_map := digest_map relevant in
      let all_keys := py_sorted (dom local_map ∪ dom remote_map) in
      let all_keys := match limit with Some limit => take (Z.to_nat limit) all_keys | None => all_keys end in
      repairs ← reconcile_keys target local_map remote_map all_keys 0;
      mret (Stats (Z.of_nat (length all_keys)) repairs 0)
  end.

Definition reconcile_peer (target : ClusterMember.t) (keys : option (list string)) : M S ReconcileStats :=
  entries ← store_snapshot_all None;
  relevant ← reads (λ s, filter_result (λ e, _shared_replica s (node_id target) (key e)) entries);
  let chosen := match keys with
                | None => relevant
                | Some keys => filter (λ e, key e ∈ keys) relevant
                end in
  _reconcile_digest target (CrdtDigestEntry.from_entry <$> chosen) None.

Definition run_once : M S unit :=
  peers ← _peers;
  if decide (peers = []) then mret tt
  else
    let target := peer_chooser peers in
    local_digest ← _local_digest_for (node_id target);
    _ ← _reconcile_digest target local_digest (Some batch_size);
    mret tt.
End service.
End AntiEntropyService.

(** ** The answering side: [ReplicationService.digest_snapshot] and the body of
    [CrdtService._handle_digest] *)
Module DigestHandler.
Section handler.
Context {S : Type} `{CrdtStateStore S}.
Variable replicas : string → S → result (list ClusterMember.t).
Variable local_node_id : string.

Definition digest_snapshot (peer_node_id : string) : M S (list CrdtDigestEntry.t) :=
  entries ← store_snapshot_all None;
  relevant ← reads (λ s, filter_result (λ e,
    AntiEntropyService._shared_replica replicas local_node_id s peer_node_id (key e)) entries);
  mret (CrdtDigestEntry.from_entry <$> relevant).

(** The loop over the digests received: an entry with the same version learns the
    context. *)
Definition learn_context (remote : CrdtDigestEntry.t) : M S unit :=
  local ← store_get (CrdtDigestEntry.key remote);
  match local with
  | Some local =>
      if bool_decide (crdt_type local = CrdtDigestEntry.crdt_type remote) &&
         bool_decide (state_version local = CrdtDigestEntry.state_version remote)
      then _ ← store_merge_metadata (CrdtDigestEntry.key remote) (CrdtDigestEntry.causal_context remote);
           mret tt
      else mret tt
  | None => mret tt
  end.

Definition learn_contexts (incoming : list CrdtDigestEntry.t) : M S unit := iterM learn_context incoming.

Definition answer_digest (default_batch : Z) (requester : string) (incoming : list CrdtDigestEntry.t)
    (batch_size : Z) : M S (list CrdtDigestEntry.t) :=
  _ ← learn_contexts incoming;
  snapshot ← digest_snapshot requester;
  let limit := if batch_size =? 0 then default_batch else Z.max 1 batch_size in
  mret (take (Z.to_nat limit) snapshot).
End handler.
End DigestHandler.

(** ** Two replicas

    [left] runs the anti-entropy round, [right] answers; a call of [left]'s
    transport adapter runs [right]'s handler, and an exception there reaches
    [left] as [CrdtRemoteError].  Both have the same ring, given by the replicas
    [rs] of each key. *)
Module Duo.
Record t := mk { left : CrdtStore.t; right : CrdtStore.t }.

Definition on_left {A} (m : M CrdtStore.t A) : M t A := λ s,
  match m (left s) with (r, l) => (r, mk l (right s)) end.
Definition on_right {A} (m : M CrdtStore.t A) : M t A := λ s,
  match m (right s) with (r, x) => (r, mk (left s) x) end.

(** The client side of a remote handler. *)
Definition remote {A} (m : M CrdtStore.t A) : M t A := λ s,
  match on_right m s with
  | (Ok a, s') => (Ok a, s')
  | (Err e, s') => (Err (Exn CrdtRemoteError (exn_msg e) 2), s')
  end.

#[export] Program Instance duo_store : CrdtStateStore t := {|
  view := left;
  store_get k := on_left (store_get k);
  store_replace e o := on_left (store_replace e o);
  store_merge_entry e := on_left (store_merge_entry e);
  store_merge_metadata k c := on_left (store_merge_metadata k c);
  store_keys := on_left store_keys;
  store_snapshot_all l := on_left (store_snapshot_all l);
|}.
Next Obligation. by intros k [l r]. Qed.
Next Obligation.
  intros e o [l r] res [l' r'] E. unfold on_left in E. simpl in *.
  destruct (CrdtStore.replace e o l) as [x l1] eqn:Ex. injection E as <- <- <-.
  pose proof (store_replace_spec (S:=CrdtStore.t) e o l x l1 Ex) as H. by destruct x.
Qed.
Next Obligation.
  intros e [l r] res [l' r'] Hs He E. unfold on_left in E. simpl in *.
  destruct (CrdtStore.merge_entry e l) as [x l1] eqn:Ex. injection E as <- <- <-.
  pose proof (store_merge_entry_spec (S:=CrdtStore.t) e l x l1 Hs He Ex) as H. by destruct x.
Qed.
Next Obligation.
  intros k c [l r] res [l' r'] Hs Hc E. unfold on_left in E. simpl in *.
  destruct (CrdtStore.merge_metadata k c l) as [x l1] eqn:Ex. injection E as <- <- <-.
  pose proof (store_merge_metadata_spec (S:=CrdtStore.t) k c l x l1 Hs Hc Ex) as H. by destruct x.
Qed.
Next Obligation. intros [l r]. done. Qed.
Next Obligation.
  intros lim [l r]. unfold on_left. simpl. pose proof (store_snapshot_all_spec (S:=CrdtStore.t) lim l) as E.
  simpl in E. rewrite E. done.
Qed.

Section duo.
Variables (rs : string → list ClusterMember.t) (local_id remote_id : string) (default_batch : Z).

Definition answer (incoming : list CrdtDigestEntry.t) (batch_size : Z) : M CrdtStore.t (list CrdtDigestEntry.t) :=
  DigestHandler.answer_digest (λ k _, Ok (rs k)) remote_id default_batch local_id incoming batch_size.

(** [AntiEntropyPeerAdapter] *)
Definition transport : AntiEntropyPeer t := {|
  exchange_digest _ digest := remote (answer digest (Z.max 1 (Z.of_nat (length digest))));
  fetch_state _ k := remote (CrdtStore.get k);
  send_state _ e := _ ← remote (CrdtStore.merge_entry e); mret tt;
  send_metadata _ k c :=
    local ← store_get k;
    match local with
    | None => mret tt
    | Some local =>
        _ ← remote (answer [CrdtDigestEntry.mk (key local) (crdt_type local) (state_version local) c] 1);
        mret tt
    end;
|}.

Definition shared (k : string) : bool :=
  bool_decide (local_id ∈ node_id <$> rs k) && bool_decide (remote_id ∈ node_id <$> rs k).

Definition reconcile (target : ClusterMember.t) (keys : option (list string)) : M t ReconcileStats :=
  AntiEntropyService.reconcile_peer transport (λ k _, Ok (rs k)) local_id target keys.

Definition round (batch : Z) (chooser : list ClusterMember.t → ClusterMember.t)
    (members : list ClusterMember.t) : M t unit :=
  AntiEntropyService.run_once transport (λ k _, Ok (rs k)) (mret members) chooser local_id batch.
End duo.

(** *** Digests of a store *)
Section digests.
Variable P : string → bool.

Definition chosen (st : CrdtStore.t) : list StoredCrdtEntry.t :=
  filter (λ e, P (key e) = true) (sorted_items st).*2.

Lemma elem_of_chosen st e : CrdtStore.wf st →
  e ∈ chosen st ↔ st !! key e = Some e ∧ P (key e) = true.
Proof.
  intros Hs. unfold chosen. rewrite list_elem_of_filter, list_elem_of_fmap. split.
  - intros (HP & [k e'] & -> & Hin%elem_of_sorted_items). simpl in *.
    pose proof (Hs _ _ Hin) as [Hk _]. by rewrite Hk in *.
  - intros [E HP]. split; [done|]. exists (key e, e). by rewrite elem_of_sorted_items.
Qed.

Lemma NoDup_chosen_keys st : CrdtStore.wf st → NoDup (key <$> chosen st).
Proof.
  intros Hs. assert (key <$> (sorted_items st).*2 = (sorted_items st).*1) as E.
  { rewrite <-list_fmap_compose. apply list_fmap_ext. intros i [k e] Hi. simpl.
    apply list_elem_of_lookup_2, elem_of_sorted_items, Hs in Hi. tauto. }
  eapply sublist_NoDup; [|apply fmap_sublist, sublist_filter].
  rewrite E. apply NoDup_sorted_items_fst.
Qed.

Lemma digest_map_chosen st k : CrdtStore.wf st →
  AntiEntropyService.digest_map (CrdtDigestEntry.from_entry <$> chosen st) !! k =
  if P k then CrdtDigestEntry.from_entry <$> st !! k else None.
Proof.
  intros Hs. unfold AntiEntropyService.digest_map. rewrite <-list_fmap_compose.
  set (l := _ <$> chosen st).
  assert (l.*1 = key <$> chosen st) as E1 by (subst l; by rewrite <-list_fmap_compose).
  rewrite dict_of_NoDup by (rewrite E1; by apply NoDup_chosen_keys).
  apply option_eq. intros d. rewrite <-elem_of_list_to_map by (rewrite E1; by apply NoDup_chosen_keys).
  unfold l. rewrite list_elem_of_fmap. split.
  - intros (e & [= -> ->] & He). apply elem_of_chosen in He as [Ee HP]; [|done]. simpl. by rewrite HP, Ee.
  - destruct (P k) eqn:HP; [|done]. intros (e & Ee & ->)%fmap_Some. exists e.
    pose proof (Hs _ _ Ee) as [Hk _]. split; [by rewrite <-Hk|]. rewrite elem_of_chosen by done. by rewrite Hk.
Qed.

Lemma length_chosen a b : CrdtStore.wf a → CrdtStore.wf b → dom a = dom b →
  length (chosen a) = length (chosen b).
Proof.
  intros Ha Hb E. rewrite <-(length_fmap key (chosen a)), <-(length_fmap key (chosen b)).
  apply Permutation_length, NoDup_Permutation; [by apply NoDup_chosen_keys..|].
  assert (∀ st k, CrdtStore.wf st → k ∈ key <$> chosen st ↔ k ∈ dom st ∧ P k = true) as H.
  { intros st k Hs. rewrite list_elem_of_fmap, elem_of_dom. split.
    - intros (e & -> & He). apply elem_of_chosen in He as [-> ?]; [|done]. eauto.
    - intros [[e Ee] HP]. exists e. pose proof (Hs _ _ Ee) as [Hk _].
      split; [done|]. rewrite elem_of_chosen by done. by rewrite Hk. }
  intros k. by rewrite !H, E.
Qed.
End digests.

(** *** Entries with the same data *)
Definition same_data (a b : StoredCrdtEntry.t) : Prop :=
  key a = key b ∧ crdt_type a = crdt_type b ∧ state a = state b ∧ state_version a = state_version b.

#[local] Instance same_data_equiv : Equivalence same_data.
Proof.
  split; [done|intros x y (?&?&?&?); split_and!; congruence|].
  intros x y z (?&?&?&?) (?&?&?&?); split_and!; congruence.
Qed.

Definition agree : relation (option StoredCrdtEntry.t) := option_Forall2 same_data.

Lemma same_data_learned e c : same_data e (CrdtStore.learned e c).
Proof. done. Qed.

(** The versions of two replicas of a key describe their states: the entry whose
    version is behind adds nothing to the other. *)
Definition coherent (a b : StoredCrdtEntry.t) : Prop :=
  crdt_type a = crdt_type b ∧ is_ok (_merge_state (state a) (state b)) = true ∧
  (VersionVector.le (state_version a) (state_version b) → _merge_state (state a) (state b) = Ok (state b)) ∧
  (VersionVector.le (state_version b) (state_version a) → _merge_state (state b) (state a) = Ok (state a)).

Lemma coherent_sym a b : StoredCrdtEntry.wf a → StoredCrdtEntry.wf b → coherent a b → coherent b a.
Proof.
  intros (_ & _ & Ha & _) (_ & _ & Hb & _) (? & Hok & ? & ?). split_and!; try done.
  pose proof (merge_state_comm _ _ Ha Hb) as E. destruct (_merge_state (state a) (state b)); [|done].
  by destruct (_merge_state (state b) (state a)).
Qed.

Lemma coherent_data a b a' b' : same_data a a' → same_data b b' → coherent a b → coherent a' b'.
Proof.
  unfold coherent. intros (_ & <- & <- & <-) (_ & <- & <- & <-). done.
Qed.

(** Merging the entry that is ahead. *)
Lemma merge_behind a b : StoredCrdtEntry.wf a → StoredCrdtEntry.wf b → key a = key b → coherent a b →
  VersionVector.le (state_version a) (state_version b) →
  ∃ m, merge_entries a b = Ok m ∧ same_data m b.
Proof.
  intros Ha Hb Hk (Ht & _ & Hst & _) Hle. specialize (Hst Hle).
  pose proof (merge_entries_cases a b Ha Hb) as E. rewrite bool_decide_eq_true_2 in E by done.
  rewrite Hst in E. simpl in E. apply result_equiv_Ok in E. eexists. split; [exact E|].
  destruct Ha as (_ & _ & _ & Hva & _), Hb as (_ & _ & _ & Hvb & _).
  split_and!; simpl; try done. rewrite VersionVector.vv_merge_comm by done.
  by apply VersionVector.merge_absorb.
Qed.

Lemma merge_coherent a b : StoredCrdtEntry.wf a → StoredCrdtEntry.wf b → key a = key b → coherent a b →
  ∃ m, merge_entries a b = Ok m ∧ merge_entries b m = Ok m ∧ key m = key a ∧ StoredCrdtEntry.wf m.
Proof.
  intros Ha Hb Hk (Ht & Hok & _). pose proof (merge_entries_cases a b Ha Hb) as E.
  rewrite bool_decide_eq_true_2 in E by done.
  destruct (_merge_state (state a) (state b)); [|done]. simpl in E. apply result_equiv_Ok in E.
  eexists. split; [exact E|]. pose proof (m_le_merge_r (A:=StoredCrdtEntry.t) a b _ Ha Hb E) as Hle.
  apply result_equiv_Ok in Hle. split_and!; [exact Hle|done|exact (merge_entries_wf a b _ Ha Hb E)].
Qed.

Lemma agree_dom (a b : CrdtStore.t) : (∀ k, agree (a !! k) (b !! k)) → dom a = dom b.
Proof.
  intros H. apply set_eq. intros k. rewrite !elem_of_dom. specialize (H k).
  destruct H; [|done]. split; eauto.
Qed.

Definition contexts_wf (l : list CrdtDigestEntry.t) : Prop :=
  Forall (λ d, VersionVector.wf (CrdtDigestEntry.causal_context d)) l.

Lemma learn_context_spec d (st : CrdtStore.t) : CrdtStore.wf st →
  VersionVector.wf (CrdtDigestEntry.causal_context d) →
  ∃ st', DigestHandler.learn_context d st = (Ok tt, st') ∧ CrdtStore.wf st' ∧
    (∀ k, agree (st !! k) (st' !! k)) ∧ (∀ k, k ≠ CrdtDigestEntry.key d → st' !! k = st !! k).
Proof.
  intros Hs Hd. unfold DigestHandler.learn_context, mbind, M_bind at 1. cbn [store_get memory_store].
  unfold CrdtStore.get, gets. destruct (st !! CrdtDigestEntry.key d) as [x|] eqn:Ex; [|by exists st].
  destruct (_ && _); [|by exists st]. unfold mbind, M_bind. cbn [store_merge_metadata memory_store].
  pose proof (CrdtStore.merge_metadata_wf (CrdtDigestEntry.key d) _ st Hs Hd) as Hw.
  rewrite CrdtStore.merge_metadata_spec, Ex in Hw |- * by done.
  eexists. split; [reflexivity|]. split_and!; [done| |intros k Hk; by rewrite lookup_insert_ne].
  intros k. destruct (decide (CrdtDigestEntry.key d = k)) as [<-|Hne].
  - rewrite Ex, lookup_insert_eq. constructor. done.
  - by rewrite lookup_insert_ne.
Qed.

Lemma learn_contexts_spec l (st : CrdtStore.t) : CrdtStore.wf st → contexts_wf l →
  ∃ st', DigestHandler.learn_contexts l st = (Ok tt, st') ∧ CrdtStore.wf st' ∧
    (∀ k, agree (st !! k) (st' !! k)) ∧ (∀ k, k ∉ CrdtDigestEntry.key <$> l → st' !! k = st !! k).
Proof.
  intros Hs Hl. revert st Hs. induction Hl as [|d l Hd Hl IH]; intros st Hs.
  { exists st. split_and!; done. }
  destruct (learn_context_spec d st Hs Hd) as (st1 & E1 & Hs1 & Ha1 & Hf1).
  destruct (IH st1 Hs1) as (st2 & E2 & Hs2 & Ha2 & Hf2).
  exists st2. split_and!; [|done| |].
  - unfold DigestHandler.learn_contexts in *. simpl. unfold mbind, M_bind. by rewrite E1.
  - intros k. etrans; [apply Ha1|apply Ha2].
  - intros k [Hk Hkl]%not_elem_of_cons. by rewrite Hf2, Hf1.
Qed.

Section converge.
Variables (rs : string → list ClusterMember.t) (local_id remote_id : string) (default_batch : Z).

Lemma shared_replica_Ok {S} (s : S) peer k :
  AntiEntropyService._shared_replica (λ k _, Ok (rs k)) local_id s peer k =
  Ok (bool_decide (local_id ∈ node_id <$> rs k) && bool_decide (peer ∈ node_id <$> rs k)).
Proof. done. Qed.

Lemma answer_spec l n (st : CrdtStore.t) : CrdtStore.wf st → contexts_wf l →
  ∃ st', answer rs local_id remote_id default_batch l n st =
      (Ok (take (Z.to_nat (if n =? 0 then default_batch else Z.max 1 n))
             (CrdtDigestEntry.from_entry <$> chosen (shared rs local_id remote_id) st')), st') ∧
    CrdtStore.wf st' ∧ (∀ k, agree (st !! k) (st' !! k)) ∧
    (∀ k, k ∉ CrdtDigestEntry.key <$> l → st' !! k = st !! k).
Proof.
  intros Hs Hl. destruct (learn_contexts_spec l st Hs Hl) as (st' & E & Hs' & Ha & Hf).
  exists st'. split_and!; try done. unfold answer, DigestHandler.answer_digest, mbind, M_bind. rewrite E.
  unfold DigestHandler.digest_snapshot, mbind, M_bind, reads. cbn [store_snapshot_all memory_store].
  unfold CrdtStore.snapshot_all, gets, mbind, M_bind, mret, M_ret.
  rewrite (filter_result_Ok _ (λ e, shared rs local_id remote_id (key e))); [done|].
  intros e. unfold AntiEntropyService._shared_replica, shared. by rewrite andb_comm.
Qed.

Abbreviation transport := (transport rs local_id remote_id default_batch).

Lemma fetch_ok target k s : fetch_state transport target k s = (Ok (right s !! k), s).
Proof. by destruct s. Qed.

Lemma send_ok target e m s : CrdtStore.wf (right s) → StoredCrdtEntry.wf e →
  match right s !! key e with Some y => merge_entries y e = Ok m | None => m = e end →
  send_state transport target e s = (Ok tt, mk (left s) (<[key e := m]> (right s))).
Proof.
  intros Hs He Hm. simpl. unfold mbind, M_bind, remote, on_right. rewrite CrdtStore.merge_entry_spec by done.
  destruct (right s !! key e); [by rewrite Hm|by subst].
Qed.

Lemma merge_left_ok e m s : CrdtStore.wf (left s) → StoredCrdtEntry.wf e →
  match left s !! key e with Some x => merge_entries x e = Ok m | None => m = e end →
  store_merge_entry e s = (Ok m, mk (<[key e := m]> (left s)) (right s)).
Proof.
  intros Hs He Hm. simpl. unfold on_left. rewrite CrdtStore.merge_entry_spec by done.
  destruct (left s !! key e); [by rewrite Hm|by subst].
Qed.

(** What one round of the loop leaves of a pair of replicas. *)
Definition settled (k : string) (s s' : t) : Prop :=
  CrdtStore.wf (left s') ∧ CrdtStore.wf (right s') ∧ agree (left s' !! k) (right s' !! k) ∧
  (∀ k', k' ≠ k → left s' !! k' = left s !! k' ∧ right s' !! k' = right s !! k').

Lemma settled_right k s e : CrdtStore.wf (left s) → CrdtStore.wf (right s) → StoredCrdtEntry.wf e →
  key e = k → agree (left s !! k) (Some e) → settled k s (mk (left s) (<[k := e]> (right s))).
Proof.
  intros Hl Hr He <- Ha. split_and!; simpl; [done|by apply CrdtStore.store_wf_insert|by rewrite lookup_insert_eq|].
  intros k' Hk. by rewrite lookup_insert_ne.
Qed.

Lemma settled_left k s e : CrdtStore.wf (left s) → CrdtStore.wf (right s) → StoredCrdtEntry.wf e →
  key e = k → agree (Some e) (right s !! k) → settled k s (mk (<[k := e]> (left s)) (right s)).
Proof.
  intros Hl Hr He <- Ha. split_and!; simpl; [by apply CrdtStore.store_wf_insert|done|by rewrite lookup_insert_eq|].
  intros k' Hk. by rewrite lookup_insert_ne.
Qed.

Lemma settled_both k s a b : CrdtStore.wf (left s) → CrdtStore.wf (right s) →
  StoredCrdtEntry.wf a → StoredCrdtEntry.wf b → key a = k → key b = k → same_data a b →
  settled k s (mk (<[k := a]> (left s)) (<[k := b]> (right s))).
Proof.
  intros Hl Hr Ha Hb Hka Hkb Hd. split_and!; simpl.
  - rewrite <-Hka. by apply CrdtStore.store_wf_insert.
  - rewrite <-Hkb. by apply CrdtStore.store_wf_insert.
  - rewrite !lookup_insert_eq. by constructor.
  - intros k' Hk. by rewrite !lookup_insert_ne.
Qed.

(** Pushing the local entry of a key the peer is behind on, or lacks. *)
Lemma push_settles target k s x : CrdtStore.wf (left s) → CrdtStore.wf (right s) →
  left s !! k = Some x →
  (∀ y, right s !! k = Some y → coherent y x ∧ VersionVector.le (state_version y) (state_version x)) →
  ∃ s', send_state transport target x s = (Ok tt, s') ∧ settled k s s'.
Proof.
  intros Hl Hr Ex Hy. pose proof (Hl _ _ Ex) as [<- Hx].
  destruct (right s !! key x) as [y|] eqn:Ey.
  - destruct (Hy y eq_refl) as [Hc Hle]. pose proof (Hr _ _ Ey) as [Hk Hyw].
    destruct (merge_behind y x Hyw Hx Hk Hc Hle) as (m & Em & Hd).
    eexists. split; [apply (send_ok _ x m); [done..|by rewrite Ey]|].
    apply settled_right; [done|done|exact (merge_entries_wf y x m Hyw Hx Em)|apply Hd|].
    rewrite Ex. constructor. by symmetry.
  - eexists. split; [apply (send_ok _ x x); [done..|by rewrite Ey]|].
    apply settled_right; [done..|]. rewrite Ex. by constructor.
Qed.

(** Merging the peer's entry of a key the local replica is behind on, or lacks. *)
Lemma pull_settles k s y : CrdtStore.wf (left s) → CrdtStore.wf (right s) → right s !! k = Some y →
  (∀ x, left s !! k = Some x → coherent x y ∧ VersionVector.le (state_version x) (state_version y)) →
  ∃ m s', store_merge_entry y s = (Ok m, s') ∧ settled k s s'.
Proof.
  intros Hl Hr Ey Hx. pose proof (Hr _ _ Ey) as [<- Hy].
  destruct (left s !! key y) as [x|] eqn:Ex.
  - destruct (Hx x eq_refl) as [Hc Hle]. pose proof (Hl _ _ Ex) as [Hk Hxw].
    destruct (merge_behind x y Hxw Hy Hk Hc Hle) as (m & Em & Hd).
    eexists m, _. split; [apply (merge_left_ok y m); [done..|by rewrite Ex]|].
    apply settled_left; [done|done|exact (merge_entries_wf x y m Hxw Hy Em)|apply Hd|].
    rewrite Ey. by constructor.
  - eexists y, _. split; [apply (merge_left_ok y y); [done..|by rewrite Ex]|].
    apply settled_left; [done..|]. rewrite Ey. by constructor.
Qed.

Lemma exchange_settles target k s x y : CrdtStore.wf (left s) → CrdtStore.wf (right s) →
  left s !! k = Some x → right s !! k = Some y → coherent x y →
  ∃ m s1 s2, store_merge_entry y s = (Ok m, s1) ∧ send_state transport target m s1 = (Ok tt, s2) ∧
    settled k s s2.
Proof.
  intros Hl Hr Ex Ey Hc. pose proof (Hl _ _ Ex) as [Hkx Hx]. pose proof (Hr _ _ Ey) as [Hky Hy].
  destruct (merge_coherent x y Hx Hy) as (m & Em & Em' & Hkm & Hm); [congruence|done|].
  eexists m, _, _. split; [apply (merge_left_ok y m); [done..|by rewrite Hky, Ex]|].
  split; [apply (send_ok _ m m); simpl; [done..|]|].
  - rewrite Hkm, Hkx, Ey. done.
  - simpl. rewrite Hkm, Hkx, Hky. apply settled_both; try done; congruence.
Qed.

Lemma same_version_same_data a b : StoredCrdtEntry.wf a → StoredCrdtEntry.wf b → key a = key b →
  coherent a b → state_version a = state_version b → same_data a b.
Proof.
  intros Ha Hb Hk (Ht & _ & H1 & H2) Hv. split_and!; try done. rewrite Hv in H1, H2.
  specialize (H1 (reflexivity _)). specialize (H2 (reflexivity _)).
  destruct Ha as (_ & _ & Hsa & _), Hb as (_ & _ & Hsb & _).
  pose proof (merge_state_comm _ _ Hsa Hsb) as E. rewrite H1, H2 in E.
  apply result_equiv_Ok in E. by injection E.
Qed.

(** A metadata exchange changes contexts only. *)
Lemma metadata_settles target k s x y c : CrdtStore.wf (left s) → CrdtStore.wf (right s) →
  left s !! k = Some x → right s !! k = Some y → same_data x y → VersionVector.wf c →
  ∃ o s1 s2, store_merge_metadata k c s = (Ok o, s1) ∧ send_metadata transport target k c s1 = (Ok tt, s2) ∧
    settled k s s2.
Proof.
  intros Hl Hr Ex Ey Hd Hc. pose proof (Hl _ _ Ex) as [Hk Hx].
  pose proof (CrdtStore.merge_metadata_wf k c (left s) Hl Hc) as Hw.
  rewrite CrdtStore.merge_metadata_spec, Ex in Hw by done.
  set (d := CrdtDigestEntry.mk (key x) (crdt_type x) (state_version x) c).
  destruct (answer_spec [d] 1 (right s) Hr) as (r' & Ea & Hr' & Hag & Hfr).
  { by constructor. }
  eexists _, _, (mk (<[k := CrdtStore.learned x c]> (left s)) r'). split; [|split].
  - simpl. unfold on_left. by rewrite CrdtStore.merge_metadata_spec, Ex.
  - simpl. unfold mbind, M_bind, on_left, CrdtStore.get, gets. simpl. rewrite lookup_insert_eq. simpl.
    unfold remote, on_right. simpl. fold d. by rewrite Ea.
  - split_and!; simpl; [done|done| |].
    + rewrite lookup_insert_eq. specialize (Hag k). rewrite Ey in Hag. inversion Hag as [? z Hz|]; subst.
      constructor. etrans; [symmetry; apply same_data_learned|]. by etrans.
    + intros k' Hne. rewrite lookup_insert_ne by done. split; [done|]. apply Hfr. simpl.
      rewrite list_elem_of_singleton. congruence.
Qed.

(** Replicas whose versions describe their states, key by key. *)
Definition coherent_at (k : string) (s : t) : Prop :=
  ∀ x y, left s !! k = Some x → right s !! k = Some y → coherent x y.

Lemma compare_entries x y : key x = key y → crdt_type x = crdt_type y →
  compare_digest (CrdtDigestEntry.from_entry x) (CrdtDigestEntry.from_entry y) =
  Ok match VersionVector.compare (state_version x) (state_version y) with
     | VersionVector.EQUAL => if bool_decide (causal_context x = causal_context y)
                              then DigestRelation.EQUAL else DigestRelation.METADATA_ONLY
     | VersionVector.AFTER => DigestRelation.LOCAL_AHEAD
     | VersionVector.BEFORE => DigestRelation.REMOTE_AHEAD
     | VersionVector.CONCURRENT => DigestRelation.CONCURRENT
     end.
Proof.
  intros Hk Ht. unfold compare_digest. simpl. rewrite !bool_decide_eq_true_2 by congruence. simpl.
  destruct (VersionVector.compare _ _); try done. by case_bool_decide.
Qed.

Lemma get_left k s : store_get k s = (Ok (left s !! k), s).
Proof. by destruct s. Qed.

Lemma reconcile_key_settles target lm rm k s :
  CrdtStore.wf (left s) → CrdtStore.wf (right s) → coherent_at k s →
  lm !! k = CrdtDigestEntry.from_entry <$> left s !! k →
  rm !! k = CrdtDigestEntry.from_entry <$> right s !! k →
  is_Some (left s !! k) ∨ is_Some (right s !! k) →
  ∃ b s', AntiEntropyService.reconcile_key transport target lm rm k s = (Ok b, s') ∧ settled k s s'.
Proof.
  intros Hl Hr Hc El Er Hsome. unfold AntiEntropyService.reconcile_key. rewrite El, Er.
  destruct (left s !! k) as [x|] eqn:Ex, (right s !! k) as [y|] eqn:Ey; cbn [fmap option_fmap option_map].
  - pose proof (Hl _ _ Ex) as [Hkx Hx]. pose proof (Hr _ _ Ey) as [Hky Hy].
    pose proof (Hc x y Ex Ey) as Hxy. pose proof Hxy as [Ht _].
    unfold mbind, M_bind, liftM. rewrite compare_entries by congruence.
    pose proof Hx as (_ & _ & _ & Hvx & Hcx). pose proof Hy as (_ & _ & _ & Hvy & Hcy).
    pose proof (VersionVector.compare_cases _ _ Hvx Hvy) as Hcmp.
    destruct (VersionVector.compare _ _).
    + destruct (pull_settles k s y Hl Hr Ey) as (m & s' & Em & Hs').
      { intros x' [= <-]%(eq_trans (eq_sym Ex)). by destruct Hcmp. }
      rewrite fetch_ok, Ey, Em. eauto.
    + destruct (push_settles target k s x Hl Hr Ex) as (s' & Es & Hs').
      { intros y' [= <-]%(eq_trans (eq_sym Ey)). destruct Hcmp. split; [by apply coherent_sym|done]. }
      rewrite get_left, Ex, Es. eauto.
    + assert (same_data x y) as Hd by (apply same_version_same_data; [done|done|congruence|done|done]).
      case_bool_decide.
      * eexists _, s. split; [done|]. split_and!; [done|done| |done]. rewrite Ex, Ey. by constructor.
      * destruct (metadata_settles target k s x y
          (VersionVector.merge (causal_context x) (causal_context y)) Hl Hr Ex Ey Hd)
          as (o & s1 & s2 & E1 & E2 & Hs2); [auto with distsys|].
        cbn [CrdtDigestEntry.causal_context CrdtDigestEntry.from_entry]. rewrite E1, E2. eauto.
    + destruct (exchange_settles target k s x y Hl Hr Ex Ey Hxy) as (m & s1 & s2 & E1 & E2 & Hs2).
      rewrite fetch_ok, Ey, E1, E2. eauto.
  - destruct (push_settles target k s x Hl Hr Ex) as (s' & Es & Hs'); [intros y Hy; congruence|].
    unfold mbind, M_bind. rewrite get_left, Ex, Es. eauto.
  - destruct (pull_settles k s y Hl Hr Ey) as (m & s' & Em & Hs'); [intros x Hx; congruence|].
    unfold mbind, M_bind. rewrite fetch_ok, Ey, Em. eauto.
  - exfalso. destruct Hsome as [[? ?]|[? ?]]; done.
Qed.

Lemma reconcile_keys_settles target lm rm keys n s :
  CrdtStore.wf (left s) → CrdtStore.wf (right s) → NoDup keys →
  (∀ k, k ∈ keys → coherent_at k s ∧ lm !! k = CrdtDigestEntry.from_entry <$> left s !! k ∧
     rm !! k = CrdtDigestEntry.from_entry <$> right s !! k ∧
     (is_Some (left s !! k) ∨ is_Some (right s !! k))) →
  ∃ n' s', AntiEntropyService.reconcile_keys transport target lm rm keys n s = (Ok n', s') ∧
    (∀ k, k ∈ keys → agree (left s' !! k) (right s' !! k)) ∧
    (∀ k, k ∉ keys → left s' !! k = left s !! k ∧ right s' !! k = right s !! k).
Proof.
  intros Hl Hr Hnd. revert n s Hl Hr. induction Hnd as [|k keys Hk Hnd IH]; intros n s Hl Hr Hkeys.
  { exists n, s. split_and!; [done|by intros k ?%elem_of_nil|done]. }
  destruct (Hkeys k) as (Hc & El & Er & Hsome); [left|].
  destruct (reconcile_key_settles target lm rm k s Hl Hr Hc El Er Hsome) as (b & s1 & E1 & Hl1 & Hr1 & Ha1 & Hf1).
  destruct (IH (if b then n + 1 else n) s1 Hl1 Hr1) as (n' & s2 & E2 & Ha2 & Hf2).
  { intros k' Hk'. assert (k' ≠ k) as Hne by (by intros ->). destruct (Hf1 k' Hne) as [F1 F2].
    unfold coherent_at. rewrite F1, F2. apply Hkeys. by right. }
  exists n', s2. cbn [AntiEntropyService.reconcile_keys]. unfold mbind, M_bind. rewrite E1.
  split_and!; [done| |].
  - intros k' [->|Hk']%elem_of_cons; [|by apply Ha2]. destruct (Hf2 k Hk) as [-> ->]. done.
  - intros k' [Hne Hk']%not_elem_of_cons. destruct (Hf2 k' Hk') as [-> ->]. by apply Hf1.
Qed.

Lemma chosen_contexts_wf P st : CrdtStore.wf st → contexts_wf (CrdtDigestEntry.from_entry <$> chosen P st).
Proof.
  intros Hs. unfold contexts_wf. apply Forall_fmap, Forall_forall. intros e He.
  apply elem_of_chosen in He as [Ee _]; [|done]. by apply Hs in Ee as [_ (_ & _ & _ & _ & ?)].
Qed.

Lemma chosen_keys_iff P st k : CrdtStore.wf st →
  k ∈ CrdtDigestEntry.key <$> (CrdtDigestEntry.from_entry <$> chosen P st) ↔ is_Some (st !! k) ∧ P k = true.
Proof.
  intros Hs. rewrite <-list_fmap_compose, list_elem_of_fmap. split.
  - intros (e & -> & He). apply elem_of_chosen in He as [Ee HP]; [|done]. simpl. eauto.
  - intros [[e Ee] HP]. exists e. pose proof (Hs _ _ Ee) as [Hk _]. split; [done|].
    rewrite elem_of_chosen by done. by rewrite Hk.
Qed.

Lemma filter_chosen_digests P st : CrdtStore.wf st →
  filter (λ d, P (CrdtDigestEntry.key d) = true) (CrdtDigestEntry.from_entry <$> chosen P st) =
  CrdtDigestEntry.from_entry <$> chosen P st.
Proof.
  intros Hs. apply list_filter_all. apply Forall_fmap, Forall_forall. intros e He.
  by apply elem_of_chosen in He as [_ ?].
Qed.

Lemma local_snapshot (s : t) : store_snapshot_all None s = (Ok (sorted_items (left s)).*2, s).
Proof. by destruct s. Qed.

(** The exchange of digests, when the peer's answer is not truncated. *)
Lemma exchange_spec target s : CrdtStore.wf (left s) → CrdtStore.wf (right s) →
  let P := shared rs local_id remote_id in
  (length (chosen P (right s)) ≤ Nat.max 1 (length (chosen P (left s))))%nat →
  ∃ r', exchange_digest transport target (CrdtDigestEntry.from_entry <$> chosen P (left s)) s =
      (Ok (CrdtDigestEntry.from_entry <$> chosen P r'), mk (left s) r') ∧
    CrdtStore.wf r' ∧ (∀ k, agree (right s !! k) (r' !! k)) ∧
    (∀ k, P k = false → r' !! k = right s !! k).
Proof.
  intros Hl Hr P Hlen. set (L := CrdtDigestEntry.from_entry <$> chosen P (left s)).
  destruct (answer_spec L (Z.max 1 (Z.of_nat (length L))) (right s) Hr) as (r' & Ea & Hr' & Hag & Hfr).
  { by apply chosen_contexts_wf. }
  exists r'. split_and!; [|done|done|].
  - simpl. unfold remote, on_right. rewrite Ea. cbn. do 2 f_equal.
    destruct (_ =? 0) eqn:E0; [apply Z.eqb_eq in E0; lia|]. apply take_ge. rewrite length_fmap.
    rewrite (length_chosen _ r' (right s)); [|done|done|symmetry; by apply agree_dom].
    unfold L. rewrite length_fmap. lia.
  - intros k HP. apply Hfr. unfold L. rewrite chosen_keys_iff by done. intros [_ HP']. congruence.
Qed.

Lemma reconcile_converges target s : node_id target = remote_id →
  CrdtStore.wf (left s) → CrdtStore.wf (right s) →
  let P := shared rs local_id remote_id in
  (∀ k, P k = true → coherent_at k s) →
  (length (chosen P (right s)) ≤ Nat.max 1 (length (chosen P (left s))))%nat →
  ∃ stats s', reconcile rs local_id remote_id default_batch target None s = (Ok stats, s') ∧
    failures stats = 0 ∧
    (∀ k, P k = true → agree (left s' !! k) (right s' !! k)) ∧
    (∀ k, P k = false → left s' !! k = left s !! k ∧ right s' !! k = right s !! k).
Proof.
  intros Ht Hl Hr P Hc Hlen. destruct (exchange_spec target s Hl Hr Hlen) as (r' & Ex & Hr' & Hag & Hfr).
  fold P in Ex, Hfr. set (s1 := mk (left s) r') in *.
  set (lm := AntiEntropyService.digest_map (CrdtDigestEntry.from_entry <$> chosen P (left s))).
  set (rm := AntiEntropyService.digest_map (CrdtDigestEntry.from_entry <$> chosen P r')).
  assert (∀ k, lm !! k = if P k then CrdtDigestEntry.from_entry <$> left s !! k else None) as Hlm
    by (intros k; by apply digest_map_chosen).
  assert (∀ k, rm !! k = if P k then CrdtDigestEntry.from_entry <$> r' !! k else None) as Hrm
    by (intros k; by apply digest_map_chosen).
  assert (∀ k, k ∈ py_sorted (dom lm ∪ dom rm) ↔ P k = true ∧ (is_Some (left s !! k) ∨ is_Some (r' !! k))) as Hk.
  { intros k. rewrite elem_of_py_sorted, elem_of_union, !elem_of_dom, Hlm, Hrm.
    destruct (P k); rewrite ?fmap_is_Some; [naive_solver|]. split; [by intros [[? ?]|[? ?]]|naive_solver]. }
  destruct (reconcile_keys_settles target lm rm (py_sorted (dom lm ∪ dom rm)) 0 s1 Hl Hr')
    as (n & s' & Er & Ha & Hf); [apply NoDup_py_sorted| |].
  { intros k [HP Hsome]%Hk. rewrite Hlm, Hrm, HP. split_and!; try done.
    intros x y Exx Eyy. simpl in *. specialize (Hag k). rewrite Eyy in Hag.
    inversion Hag as [y0 ? Hd Ey0|]; subst. apply (coherent_data x y0); [done|done|]. by apply (Hc k). }
  exists (Stats (Z.of_nat (length (py_sorted (dom lm ∪ dom rm)))) n 0), s'. split_and!; [|done|..].
  - unfold reconcile, AntiEntropyService.reconcile_peer, mbind, M_bind, reads. rewrite local_snapshot.
    rewrite (filter_result_Ok _ (λ e, P (key e))); [|intros e; rewrite Ht; done].
    unfold AntiEntropyService._reconcile_digest, mbind, M_bind, catchM, reads. fold (chosen P (left s)).
    rewrite Ex. cbn [mret M_ret]. rewrite (filter_result_Ok _ (λ d, P (CrdtDigestEntry.key d)));
      [|intros d; rewrite Ht; done].
    rewrite filter_chosen_digests by done. fold lm rm. by rewrite Er.
  - intros k HP. destruct (decide (k ∈ py_sorted (dom lm ∪ dom rm))) as [Hin|Hin]; [by apply Ha|].
    destruct (Hf k Hin) as [-> ->]. simpl. rewrite Hk in Hin.
    destruct (left s !! k), (r' !! k); try constructor; exfalso; apply Hin; (split; [done|]); eauto.
  - intros k HP. destruct (Hf k) as [-> ->]; [rewrite Hk; intros [HP' _]; congruence|]. simpl. split; [done|by apply Hfr].
Qed.

(** *** What a round can touch *)
Definition framed (k : string) (s s' : t) : Prop :=
  CrdtStore.wf (left s') ∧ CrdtStore.wf (right s') ∧
  ∀ k', k' ≠ k → left s' !! k' = left s !! k' ∧ right s' !! k' = right s !! k'.

(** An operation on well-formed replicas that touches one key, however it ends. *)
Definition touches {A} (k : string) (m : M t A) : Prop :=
  ∀ s, CrdtStore.wf (left s) → CrdtStore.wf (right s) → framed k s (m s).2.

Lemma touches_bind {A B} k (m : M t A) (f : A → M t B) :
  touches k m → (∀ s a s', CrdtStore.wf (left s) → CrdtStore.wf (right s) → m s = (Ok a, s') → touches k (f a)) →
  touches k (m ≫= f).
Proof.
  intros Hm Hf s Hl Hr. unfold mbind, M_bind. specialize (Hm s Hl Hr).
  destruct (m s) as [[a|e] s1] eqn:E; simpl in *; [|done]. destruct Hm as (Hl1 & Hr1 & F1).
  destruct (Hf s a s1 Hl Hr E s1 Hl1 Hr1) as (Hl2 & Hr2 & F2). split_and!; [done..|].
  intros k' Hk. destruct (F2 k' Hk) as [-> ->]. by apply F1.
Qed.

Lemma touches_ret {A} k (a : A) : touches k (mret a).
Proof. intros s Hl Hr. by split_and!. Qed.

Lemma touches_pure {A} k (r : t → result A) : touches k (reads r).
Proof. intros s Hl Hr. by split_and!. Qed.

Lemma merge_entry_frame (st : CrdtStore.t) e : CrdtStore.wf st → StoredCrdtEntry.wf e →
  CrdtStore.wf (CrdtStore.merge_entry e st).2 ∧
  ∀ k, k ≠ key e → (CrdtStore.merge_entry e st).2 !! k = st !! k.
Proof.
  intros Hs He. split; [by apply CrdtStore.merge_entry_wf|]. intros k Hk.
  rewrite CrdtStore.merge_entry_spec by done.
  destruct (st !! key e) as [x|]; [destruct (merge_entries x e)|]; simpl; by rewrite ?lookup_insert_ne.
Qed.

Lemma touches_merge e : StoredCrdtEntry.wf e → touches (key e) (store_merge_entry e).
Proof.
  intros He s Hl Hr. destruct (merge_entry_frame (left s) e Hl He) as [Hw Hf]. simpl. unfold on_left.
  destruct (CrdtStore.merge_entry e (left s)) as [r l']. simpl in *. split_and!; [done..|]. intros k Hk.
  split; [by apply Hf|done].
Qed.

Lemma touches_send target e : StoredCrdtEntry.wf e → touches (key e) (send_state transport target e).
Proof.
  intros He s Hl Hr. destruct (merge_entry_frame (right s) e Hr He) as [Hw Hf]. simpl.
  unfold mbind, M_bind, remote, on_right.
  destruct (CrdtStore.merge_entry e (right s)) as [[r|r] l']; simpl in *; (split_and!; [done..|]); intros k Hk;
    (split; [done|by apply Hf]).
Qed.

Lemma touches_metadata k c : VersionVector.wf c → touches k (store_merge_metadata k c).
Proof.
  intros Hc s Hl Hr. pose proof (CrdtStore.merge_metadata_wf k c (left s) Hl Hc) as Hw. simpl. unfold on_left.
  rewrite CrdtStore.merge_metadata_spec in Hw |- * by done.
  destruct (left s !! k); simpl in *; (split_and!; [done..|]); intros k' Hk; [|done].
  simpl. by rewrite lookup_insert_ne.
Qed.

Lemma touches_send_metadata target k c : VersionVector.wf c → touches k (send_metadata transport target k c).
Proof.
  intros Hc s Hl Hr. cbn [send_metadata Duo.transport]. unfold mbind, M_bind. rewrite get_left.
  destruct (left s !! k) as [x|] eqn:Ex; [|by split_and!]. pose proof (Hl _ _ Ex) as [Hk _].
  destruct (answer_spec [CrdtDigestEntry.mk (key x) (crdt_type x) (state_version x) c] 1 (right s) Hr)
    as (r' & Ea & Hr' & _ & Hfr); [by constructor|].
  unfold remote, on_right. rewrite Ea. simpl. split_and!; [done..|]. intros k' Hk'. split; [done|].
  apply Hfr. simpl. rewrite list_elem_of_singleton. congruence.
Qed.

Lemma touches_then {A B} k (m : M t A) (b : B) : touches k m → touches k (_ ← m; mret b).
Proof. intros H. apply touches_bind; [done|]. intros. apply touches_ret. Qed.

(** Sending the local entry, or merging the fetched one. *)
Lemma touches_push target k (b : bool) : touches k
  (state ← store_get k;
   match state with
   | Some state => _ ← send_state transport target state; mret true
   | None => mret b
   end).
Proof.
  apply touches_bind; [intros s Hl Hr; rewrite get_left; by split_and!|].
  intros s o s' Hl Hr E. rewrite get_left in E. injection E as <- <-.
  destruct (left s !! k) as [x|] eqn:Ex; [|apply touches_ret]. pose proof (Hl _ _ Ex) as [<- Hx].
  by apply touches_then, touches_send.
Qed.

Lemma touches_fetch {A} target k (f : option StoredCrdtEntry.t → M t A) :
  (∀ y, StoredCrdtEntry.wf y → key y = k → touches k (f (Some y))) → touches k (f None) →
  touches k (fetch_state transport target k ≫= f).
Proof.
  intros Hy Hn. apply touches_bind; [intros s Hl Hr; rewrite fetch_ok; by split_and!|].
  intros s o s' Hl Hr E. rewrite fetch_ok in E. injection E as <- <-.
  destruct (right s !! k) as [y|] eqn:Ey; [|done]. pose proof (Hr _ _ Ey) as [Hk Hw]. by apply Hy.
Qed.

(** Digests with well-formed vectors. *)
Definition map_wf (m : gmap string CrdtDigestEntry.t) : Prop :=
  map_Forall (λ _ d, VersionVector.wf (CrdtDigestEntry.causal_context d)) m.

Lemma touches_key target lm rm k : map_wf lm → map_wf rm →
  touches k (AntiEntropyService.reconcile_key transport target lm rm k).
Proof.
  intros Hlm Hrm. unfold AntiEntropyService.reconcile_key.
  assert (∀ b, touches k (state ← fetch_state transport target k;
    match state with Some state => _ ← store_merge_entry state; mret true | None => mret b end)) as Hpull.
  { intros b. apply touches_fetch; [|apply touches_ret]. intros y Hy <-. by apply touches_then, touches_merge. }
  destruct (lm !! k) as [l|] eqn:El, (rm !! k) as [r|] eqn:Er; [|apply touches_push|apply Hpull|].
  - apply touches_bind; [apply (touches_pure k (λ _, compare_digest l r))|]. intros _ rel _ _ _ _.
    destruct rel; [apply touches_ret|apply touches_push|apply Hpull| |].
    + apply touches_fetch; [|apply touches_ret]. intros y Hy Hk. apply touches_bind.
      { rewrite <-Hk. by apply touches_merge. }
      intros s m s' Hl Hr E. apply touches_then.
      pose proof (merge_entry_grows y s (Ok m) s' Hl Hy E) as (Hw & _ & Hlk & _ & Hmw).
      pose proof (Hw _ _ Hlk) as [Hkm _]. rewrite <-Hk, <-Hkm. by apply touches_send.
    + assert (VersionVector.wf (VersionVector.merge (CrdtDigestEntry.causal_context l)
        (CrdtDigestEntry.causal_context r))) as Hc.
      { apply Hlm in El. apply Hrm in Er. simpl in *. auto with distsys. }
      apply touches_bind; [by apply touches_metadata|]. intros. by apply touches_then, touches_send_metadata.
  - apply (touches_pure k (λ _, raise AssertionError "")).
Qed.

Lemma reconcile_keys_frame target lm rm keys n s k : map_wf lm → map_wf rm →
  CrdtStore.wf (left s) → CrdtStore.wf (right s) → k ∉ keys →
  let s' := (AntiEntropyService.reconcile_keys transport target lm rm keys n s).2 in
  left s' !! k = left s !! k ∧ right s' !! k = right s !! k.
Proof.
  intros Hlm Hrm. revert n s. induction keys as [|k1 keys IH]; intros n s Hl Hr Hk; [done|].
  apply not_elem_of_cons in Hk as [Hne Hk]. cbn [AntiEntropyService.reconcile_keys]. unfold mbind, M_bind.
  destruct (touches_key target lm rm k1 Hlm Hrm s Hl Hr) as (Hl1 & Hr1 & F1).
  destruct (AntiEntropyService.reconcile_key _ _ _ _ k1 s) as [[b|e] s1]; simpl in *; [|by apply F1].
  destruct (IH (if b then n + 1 else n) s1 Hl1 Hr1 Hk) as [-> ->]. by apply F1.
Qed.

(** The shared keys of a store, in order. *)
Definition shared_keys (st : CrdtStore.t) : list string :=
  filter (λ k, shared rs local_id remote_id k = true) (py_sorted (dom st)).

Lemma keys_in_order (st : CrdtStore.t) : (sorted_items st).*1 = py_sorted (dom st).
Proof.
  apply (StronglySorted_unique py_le).
  - pose proof (sorted_items_sorted st) as H. induction H as [|x l Hs IH Hx]; simpl; constructor; [done|].
    rewrite Forall_fmap. exact Hx.
  - apply py_sorted_sorted.
  - apply NoDup_Permutation; [apply NoDup_sorted_items_fst|apply NoDup_py_sorted|].
    intros k. rewrite elem_of_py_sorted, elem_of_dom, list_elem_of_fmap. split.
    + intros ([k' e] & -> & Hin%elem_of_sorted_items). eauto.
    + intros [e Ee]. exists (k, e). by rewrite elem_of_sorted_items.
Qed.

Lemma chosen_keys st : CrdtStore.wf st → key <$> chosen (shared rs local_id remote_id) st = shared_keys st.
Proof.
  intros Hs. unfold shared_keys, chosen. rewrite <-keys_in_order.
  assert (Forall (λ p, key p.2 = p.1) (sorted_items st)) as H.
  { apply Forall_forall. intros [k e] Hin%elem_of_sorted_items. by apply Hs in Hin as [? _]. }
  induction H as [|[k e] l Hk Hl IH]; [done|]. rewrite !fmap_cons, !filter_cons. simpl in *. rewrite Hk.
  repeat case_decide; try done. by rewrite fmap_cons, IH, Hk.
Qed.

Lemma digest_map_elem l k d : AntiEntropyService.digest_map l !! k = Some d → d ∈ l ∧ CrdtDigestEntry.key d = k.
Proof.
  unfold AntiEntropyService.digest_map. induction l as [|x l IH]; [done|]. rewrite fmap_cons, dict_of_cons_lookup.
  destruct (dict_of _ !! k) as [y|].
  - intros E. destruct (IH E) as [Hin Hk]. split; [by right|done].
  - case_decide; [|done]. intros [= <-]. split; [left|done].
Qed.

Lemma digest_map_wf l : contexts_wf l → map_wf (AntiEntropyService.digest_map l).
Proof.
  intros Hl k d [Hin _]%digest_map_elem. unfold contexts_wf in Hl. rewrite Forall_forall in Hl. by apply Hl.
Qed.

Lemma take_digest_keys n st k : CrdtStore.wf st →
  k ∈ CrdtDigestEntry.key <$> take n (CrdtDigestEntry.from_entry <$> chosen (shared rs local_id remote_id) st) →
  k ∈ take n (shared_keys st).
Proof.
  intros Hs. rewrite fmap_take, <-list_fmap_compose.
  change (CrdtDigestEntry.key ∘ CrdtDigestEntry.from_entry <$> _) with
    (key <$> chosen (shared rs local_id remote_id) st).
  by rewrite chosen_keys.
Qed.

Lemma contexts_wf_take n l : contexts_wf l → contexts_wf (take n l).
Proof. apply Forall_take. Qed.

Lemma elem_of_take_mono {A} (n m : nat) (l : list A) x : (n ≤ m)%nat → x ∈ take n l → x ∈ take m l.
Proof. intros Hnm. rewrite !elem_of_take. intros (i & Hi & Hn). exists i. split; [done|lia]. Qed.

Lemma reconcile_digest_frame target n limit s k :
  node_id target = remote_id → CrdtStore.wf (left s) → CrdtStore.wf (right s) → (1 ≤ n)%nat →
  k ∉ take n (shared_keys (left s)) → k ∉ take n (shared_keys (right s)) →
  let s' := (AntiEntropyService._reconcile_digest transport (λ k _, Ok (rs k)) local_id target
    (take n (CrdtDigestEntry.from_entry <$> chosen (shared rs local_id remote_id) (left s))) limit s).2 in
  left s' !! k = left s !! k ∧ right s' !! k = right s !! k.
Proof.
  intros Ht Hl Hr Hn Hkl Hkr. set (P := shared rs local_id remote_id). set (D := take n _).
  assert (contexts_wf D) as HD by (apply contexts_wf_take, chosen_contexts_wf; done).
  assert (k ∉ CrdtDigestEntry.key <$> D) as HkD by (intros H; by apply take_digest_keys in H).
  destruct (answer_spec D (Z.max 1 (Z.of_nat (length D))) (right s) Hr HD) as (r' & Ea & Hr' & Hag & Hfr).
  unfold AntiEntropyService._reconcile_digest, mbind, M_bind, catchM, reads.
  assert (exchange_digest transport target D s = (Ok (take (Z.to_nat (Z.max 1 (Z.of_nat (length D))))
    (CrdtDigestEntry.from_entry <$> chosen P r')), mk (left s) r')) as ->.
  { simpl. unfold remote, on_right. rewrite Ea. cbn. do 4 f_equal.
    destruct (_ =? 0) eqn:E0; [apply Z.eqb_eq in E0|]; lia. }
  cbn [mret M_ret]. rewrite (filter_result_Ok _ (λ d, P (CrdtDigestEntry.key d))); [|intros d; rewrite Ht; done].
  set (R := filter _ _). set (lm := AntiEntropyService.digest_map D). set (rm := AntiEntropyService.digest_map R).
  assert (contexts_wf R) as HR.
  { apply Forall_forall. intros d [_ Hd%elem_of_take_weak]%list_elem_of_filter.
    pose proof (chosen_contexts_wf P r' Hr') as H. unfold contexts_wf in H. rewrite Forall_forall in H. by apply H. }
  assert (k ∉ py_sorted (dom lm ∪ dom rm)) as Hk.
  { rewrite elem_of_py_sorted, elem_of_union, !elem_of_dom. intros [[d Hd]|[d Hd]];
      apply digest_map_elem in Hd as [Hd Hdk].
    - apply HkD. apply list_elem_of_fmap. by exists d.
    - apply list_elem_of_filter in Hd as [_ Hd]. apply Hkr.
      assert (shared_keys (right s) = shared_keys r') as ->.
      { unfold shared_keys. by rewrite (agree_dom (right s) r' Hag). }
      apply (elem_of_take_mono (Z.to_nat (Z.max 1 (Z.of_nat (length D)))) n).
      + assert (length D ≤ n)%nat by (unfold D; rewrite length_take; lia). lia.
      + apply take_digest_keys; [done|]. apply list_elem_of_fmap. by exists d. }
  pose proof (reconcile_keys_frame target lm rm
    (match limit with Some l => take (Z.to_nat l) (py_sorted (dom lm ∪ dom rm)) | None => py_sorted (dom lm ∪ dom rm) end)
    0 (mk (left s) r') k (digest_map_wf D HD) (digest_map_wf R HR) Hl Hr') as Hfin.
  destruct (AntiEntropyService.reconcile_keys _ _ _ _ _ _ _) as [[m|e] s2]; simpl in *;
    (destruct Hfin as [-> ->]; [destruct limit; [intros ?%elem_of_take_weak; done|done]|]);
    (split; [done|by apply Hfr]).
Qed.


(** The background loop never reaches keys beyond its batch.  [run_once]
    advertises the first [batch_size] shared keys in key order, and asks for as many
    back: a shared key that is not among the first [batch_size] of either replica is
    left as it is on both sides, whatever it holds, round after round. *)
Theorem late_keys_not_repaired batch chooser members s k :
  1 ≤ batch → (∀ l, node_id (chooser l) = remote_id) →
  CrdtStore.wf (left s) → CrdtStore.wf (right s) →
  k ∉ take (Z.to_nat batch) (shared_keys (left s)) →
  k ∉ take (Z.to_nat batch) (shared_keys (right s)) →
  let s' := (round rs local_id remote_id default_batch batch chooser members s).2 in
  left s' !! k = left s !! k ∧ right s' !! k = right s !! k.
Proof.
  intros Hb Ht Hl Hr Hkl Hkr. unfold round, AntiEntropyService.run_once, AntiEntropyService._peers, mbind, M_bind.
  cbn [mret M_ret]. case_decide; [done|].
  unfold AntiEntropyService._local_digest_for, mbind, M_bind, reads. rewrite local_snapshot.
  rewrite (filter_result_Ok _ (λ e, shared rs local_id remote_id (key e))); [|intros e; rewrite Ht; done].
  cbn [mret M_ret]. pose proof (reconcile_digest_frame (chooser (filter (λ m, node_id m ≠ local_id ∧ status m = ALIVE) members))
    (Z.to_nat batch) (Some batch) s k (Ht _) Hl Hr ltac:(lia) Hkl Hkr) as Hf. cbv zeta in Hf.
  fold (chosen (shared rs local_id remote_id) (left s)).
  destruct (AntiEntropyService._reconcile_digest _ _ _ _ _ _ _) as [[st|e] s2]; exact Hf.
Qed.
End converge.

(** *** Two concrete replicas *)
Definition n1 : ClusterMember.t := ClusterMember.mk "n1" "h1" 7001 ALIVE 1.
Definition n2 : ClusterMember.t := ClusterMember.mk "n2" "h2" 7002 ALIVE 1.
Definition everywhere (_ : string) : list ClusterMember.t := [n1; n2].

Definition register (k : string) (a : CausalActor.t) (v : json) : StoredCrdtEntry.t :=
  let version := VersionVector.build {[a := 1]} in
  StoredCrdtEntry.mk k MVREGISTER (SMVRegister (MVRegister.write MVRegister.empty v (Dot.mk a 1))) version version.

Definition store_of (l : list StoredCrdtEntry.t) : CrdtStore.t := list_to_map ((λ e, (key e, e)) <$> l).

Definition diverged : t :=
  mk (store_of [register "a" CrdtStore.a1 (JInt 1); register "b" CrdtStore.a1 (JInt 2)])
     (store_of [register "b" CrdtStore.a2 (JInt 3); register "c" CrdtStore.a2 (JInt 4)]).

Lemma concurrent_coherent : coherent (register "b" CrdtStore.a1 (JInt 2)) (register "b" CrdtStore.a2 (JInt 3)).
Proof.
  split_and!; [done|vm_compute; reflexivity|..].
  - intros H. specialize (H CrdtStore.a1). vm_compute in H. by destruct H.
  - intros H. specialize (H CrdtStore.a2). vm_compute in H. by destruct H.
Qed.

Lemma diverged_coherent k : coherent_at k diverged.
Proof.
  intros x y Hx Hy. unfold diverged, store_of in *. simpl in *.
  apply lookup_insert_Some in Hx as [[<- <-]|[_ Hx]]; [by vm_compute in Hy|].
  apply lookup_insert_Some in Hx as [[<- <-]|[_ Hx]]; [|done].
  apply lookup_insert_Some in Hy as [[_ <-]|[? _]]; [|done]. exact concurrent_coherent.
Qed.


Lemma late_keys_not_repaired_witness :
  let s' := (round everywhere "n1" "n2" 100 1 (λ _, n2) [n2]
               (mk (store_of [register "a" CrdtStore.a1 (JInt 1); register "z" CrdtStore.a1 (JInt 2)])
                   (store_of [register "a" CrdtStore.a1 (JInt 1); register "z" CrdtStore.a2 (JInt 3)]))).2 in
  left s' !! "z" = Some (register "z" CrdtStore.a1 (JInt 2)) ∧
  right s' !! "z" = Some (register "z" CrdtStore.a2 (JInt 3)).
Proof.
  refine (late_keys_not_repaired everywhere "n1" "n2" 100 1 (λ _, n2) [n2]
           (mk (store_of [register "a" CrdtStore.a1 (JInt 1); register "z" CrdtStore.a1 (JInt 2)])
               (store_of [register "a" CrdtStore.a1 (JInt 1); register "z" CrdtStore.a2 (JInt 3)])) "z" _ _ _ _ _ _).
  - lia.
  - reflexivity.
  - apply (bool_decide_unpack _). vm_compute. exact I.
  - apply (bool_decide_unpack _). vm_compute. exact I.
  - apply (bool_decide_unpack _). vm_compute. exact I.
  - apply (bool_decide_unpack _). vm_compute. exact I.
Defined.
End Duo.
Export (hints) Duo.
