(* ===== verification/CrdtService.v ===== *)
(** * The CRDT service: [distsys/crdt_service.py] and the write path of
    [distsys/replication/service.py]

    Reads, mutations and peer messages of one node.  The service is generic in its
    store: [ClockedStore] is what it needs of the store and the causal clock that
    the durable store shares with it.  Peer calls are operations of the service
    state, since other requests run while they are awaited. *)

From S2P Require Import Prelude Lattice Causal Json Crdt Storage Resilience Membership Ring.
From S2P Require Import Proto Protocol CrdtCodec Outbox Repair AntiEntropy.

Local Open Scope Z_scope.
Import StoredCrdtEntry (key, crdt_type, state, state_version, causal_context).
Import ClusterMember (node_id, status).
Import CrdtCodec.
Import Inflation.

(** A clock that stays its actor's, stays well formed and never goes back. *)
Definition clock_grows (c c' : CausalClock.t) : Prop :=
  CausalClock.actor c' = CausalClock.actor c ∧ (CausalClock.wf c → CausalClock.wf c') ∧
  VersionVector.le (CausalClock._frontier c) (CausalClock._frontier c').

Lemma clock_grows_refl c : clock_grows c c.
Proof. split_and!; [done|done|reflexivity]. Qed.

Lemma clock_grows_trans a b c : clock_grows a b → clock_grows b c → clock_grows a c.
Proof. intros (A1 & W1 & L1) (A2 & W2 & L2). split_and!; [congruence|auto|by etrans]. Qed.

(** A store together with the causal clock of its node, and [commit_local].  A store
    that merges may advance the clock with what it merged. *)
Class ClockedStore (St : Type) `{CrdtStateStore St} := {
  clock_of : St → CausalClock.t;
  set_clock : CausalClock.t → St → St;
  commit_local : StoredCrdtEntry.t → VersionVector.t → option Deadline.t → M St StoredCrdtEntry.t;
  view_set_clock c s : view (set_clock c s) = view s;
  clock_set_clock c s : clock_of (set_clock c s) = c;
  merge_entry_clock e s r s' : CrdtStore.wf (view s) → StoredCrdtEntry.wf e →
    store_merge_entry e s = (r, s') → clock_grows (clock_of s) (clock_of s');
  merge_metadata_clock k c s r s' : CrdtStore.wf (view s) → VersionVector.wf c →
    store_merge_metadata k c s = (r, s') → clock_grows (clock_of s) (clock_of s');
  commit_local_spec e f d s r s' : commit_local e f d s = (r, s') →
    clock_of s' = clock_of s ∧
    match r with
    | Ok x => x = e ∧ CrdtStore.replace e (Some (crdt_type e)) (view s) = (Ok e, view s')
    | Err _ => view s' = view s
    end;
}.

(** The service over the in-memory store: [_commit_local_in_memory]. *)
Module MemoryNode.
Record t := mk { memory : CrdtStore.t; clock : CausalClock.t }.

Definition on_memory {A} (m : M CrdtStore.t A) : M t A := λ s,
  match m (memory s) with (r, x) => (r, mk x (clock s)) end.

#[export] Program Instance node_store : CrdtStateStore t := {|
  view := memory;
  store_get k := on_memory (store_get k);
  store_replace e o := on_memory (store_replace e o);
  store_merge_entry e := on_memory (store_merge_entry e);
  store_merge_metadata k c := on_memory (store_merge_metadata k c);
  store_keys := on_memory store_keys;
  store_snapshot_all l := on_memory (store_snapshot_all l);
|}.
Next Obligation. by intros k [l r]. Qed.
Next Obligation.
  intros e o [l r] res [l' r'] E. unfold on_memory in E. simpl in *.
  destruct (CrdtStore.replace e o l) as [x l1] eqn:Ex. injection E as <- <- <-.
  pose proof (store_replace_spec (S:=CrdtStore.t) e o l x l1 Ex) as H. by destruct x.
Qed.
Next Obligation.
  intros e [l r] res [l' r'] Hs He E. unfold on_memory in E. simpl in *.
  destruct (CrdtStore.merge_entry e l) as [x l1] eqn:Ex. injection E as <- <- <-.
  pose proof (store_merge_entry_spec (S:=CrdtStore.t) e l x l1 Hs He Ex) as H. by destruct x.
Qed.
Next Obligation.
  intros k c [l r] res [l' r'] Hs Hc E. unfold on_memory in E. simpl in *.
  destruct (CrdtStore.merge_metadata k c l) as [x l1] eqn:Ex. injection E as <- <- <-.
  pose proof (store_merge_metadata_spec (S:=CrdtStore.t) k c l x l1 Hs Hc Ex) as H. by destruct x.
Qed.
Next Obligation. by intros [l r]. Qed.
Next Obligation.
  intros lim [l r]. unfold on_memory. simpl. pose proof (store_snapshot_all_spec (S:=CrdtStore.t) lim l) as E.
  simpl in E. by rewrite E.
Qed.

Definition _commit_local_in_memory (entry : StoredCrdtEntry.t) (frontier : VersionVector.t)
    (deadline : option Deadline.t) : M t StoredCrdtEntry.t :=
  store_replace entry (Some (crdt_type entry)).

#[export] Program Instance node_clock : ClockedStore t := {|
  clock_of := clock;
  set_clock c s := mk (memory s) c;
  commit_local := _commit_local_in_memory;
|}.
Next Obligation. by intros c []. Qed.
Next Obligation. by intros c []. Qed.
Next Obligation.
  intros e [l c] r [l' c'] _ _ E. simpl in *. unfold on_memory in E. simpl in E.
  destruct (CrdtStore.merge_entry e l). injection E as <- <- <-. by apply clock_grows_refl.
Qed.
Next Obligation.
  intros k v [l c] r [l' c'] _ _ E. simpl in *. unfold on_memory in E. simpl in E.
  destruct (CrdtStore.merge_metadata k v l). injection E as <- <- <-. by apply clock_grows_refl.
Qed.
Next Obligation.
  intros e f d [l c] r [l' c'] E. unfold _commit_local_in_memory in E. simpl in *. unfold on_memory in E. simpl in E.
  destruct (CrdtStore.replace_cases e (Some (crdt_type e)) l) as [H|[msg H]]; rewrite H in *;
    injection E as <- <- <-; done.
Qed.
End MemoryNode.
Export (hints) MemoryNode.

(** [CrdtPeerClient], as the service calls it; the last is
    [deadline.run(gather(...))] over [CausalRepairPeerAdapter.fetch_state]. *)
Record CrdtPeerClient (S : Type) := {
  forward_mutation : ClusterMember.t → CrdtMutationData → Deadline.t → M S CrdtResponseData;
  forward_read : ClusterMember.t → CrdtReadData → Deadline.t → M S CrdtResponseData;
  gather_fetch : Deadline.t → list ClusterMember.t → string → M S (list (result PeerCrdtFetch));
}.
Arguments forward_mutation {_} _ _ _ _.
Arguments forward_read {_} _ _ _ _.
Arguments gather_fetch {_} _ _ _ _.

Module CrdtService.
Record t (St : Type) := mk {
  store : St;
  selector : ReplicaSelector.t;
  outbox : ReplicationOutbox.t;
  _peer_cache : gmap string ClusterMember.t;
}.
Arguments mk {_} _ _ _ _.
Arguments store {_} _.
Arguments selector {_} _.
Arguments outbox {_} _.
Arguments _peer_cache {_} _.

Section service.
Context {St : Type} `{ClockedStore St}.
Variable _hash : string → Z.
Variable peer_client : CrdtPeerClient (t St).
Variable local_node_id : string.

Abbreviation svc := (t St).

Definition on_store {A} (m : M St A) : M svc A := λ s,
  match m (store s) with (r, x) => (r, mk x (selector s) (outbox s) (_peer_cache s)) end.

Definition on_outbox {A} (m : M ReplicationOutbox.t A) : M svc A := λ s,
  match m (outbox s) with (r, x) => (r, mk (store s) (selector s) x (_peer_cache s)) end.

Definition actor (s : svc) : CausalActor.t := CausalClock.actor (clock_of (store s)).
Definition frontier_of (s : svc) : VersionVector.t := CausalClock._frontier (clock_of (store s)).

Definition _frontier : M svc VersionVector.t := gets frontier_of.

Definition observe (version : VersionVector.t) : M svc VersionVector.t := λ s,
  let '(v, c) := CausalClock.observe (clock_of (store s)) version in
  (Ok v, mk (set_clock c (store s)) (selector s) (outbox s) (_peer_cache s)).

(** [_replicas] *)
Definition _replicas (k : string) : M svc (list ClusterMember.t) := λ s,
  match ReplicaSelector.replicas _hash k (selector s) with
  | Err e => (Err e, s)
  | Ok members =>
      (Ok members, mk (store s) (selector s) (outbox s)
         (foldl (λ d m, <[node_id m := m]> d) (_peer_cache s) members))
  end.

Definition _resolve_peer (name : string) (s : svc) : option ClusterMember.t := _peer_cache s !! name.

(** [_materialize] *)
Definition _materialize (entry : StoredCrdtEntry.t) : result json :=
  match state entry with
  | SGCounter s => Ok (JInt (GCounter.value s))
  | SPNCounter s => Ok (JInt (PNCounter.value s))
  | SORSet s => Ok (JList (JStr <$> py_sorted (ORSet.value s)))
  | SMVRegister s => l ← MVRegister.values s; Ok (JList l)
  end.

Definition _error (code : Z) (message : string) : M svc CrdtResponseData :=
  frontier ← _frontier;
  mret (mkResponseData false None JNull CausalToken.empty local_node_id false code message None frontier).

Definition _success (entry : StoredCrdtEntry.t) (repair_performed include_state : bool) : M svc CrdtResponseData :=
  _ ← observe (causal_context entry);
  frontier ← _frontier;
  let frontier := VersionVector.merge frontier (causal_context entry) in
  value ← liftM (_materialize entry);
  mret (mkResponseData true (Some (crdt_type entry)) value (CausalToken.mk frontier) local_node_id
          repair_performed 0 "" (if include_state then Some entry else None) frontier).

(** The three [except] clauses around a forwarded request. *)
Definition forwarding (m : M svc CrdtResponseData) : M svc CrdtResponseData := λ s,
  match m s with
  | (Err e, s') =>
      if isinstance e [CrdtRemoteError] then _error (exn_code e) (exn_msg e) s'
      else if isinstance e [DeadlineExceeded] then (Err e, s')
      else if isinstance e [ConnectionError; TimeoutError; OSError]
      then _error pb.PEER_UNAVAILABLE (exn_msg e) s'
      else (Err e, s')
  | r => r
  end.

(** The common shape of [_route_mutation] and [_route_read]. *)
Definition route (k : string) (forwarded : bool) (refusal : string)
    (forward : ClusterMember.t → M svc CrdtResponseData) : M svc (option CrdtResponseData) :=
  replicas ← _replicas k;
  match replicas with
  | [] => raiseM NoRouteError "no ALIVE CRDT replica is available"
  | target :: _ =>
      if existsb (λ m, bool_decide (node_id m = local_node_id)) replicas then mret None
      else if forwarded : bool then r ← _error pb.NO_ROUTE refusal; mret (Some r)
      else r ← forwarding (forward target); mret (Some r)
  end.

Definition _route_mutation (request : CrdtMutationData) (deadline : Deadline.t) : M svc (option CrdtResponseData) :=
  route (mut_key request) (mut_forwarded request) "forwarded CRDT mutation reached a non-replica"
    (λ target, forward_mutation peer_client target request deadline).

Definition _route_read (request : CrdtReadData) (deadline : Deadline.t) : M svc (option CrdtResponseData) :=
  route (read_key request) (read_forwarded request) "forwarded CRDT read reached a non-replica"
    (λ target, forward_read peer_client target request deadline).

#[export] Program Instance svc_store : CrdtStateStore svc := {|
  view s := view (store s);
  store_get k := on_store (store_get k);
  store_replace e o := on_store (store_replace e o);
  store_merge_entry e := on_store (store_merge_entry e);
  store_merge_metadata k c := on_store (store_merge_metadata k c);
  store_keys := on_store store_keys;
  store_snapshot_all l := on_store (store_snapshot_all l);
|}.
Next Obligation. intros k [s ? ? ?]. unfold on_store. simpl. by rewrite store_get_spec. Qed.
Next Obligation.
  intros e o [s sel ob pc] res [s' sel' ob' pc'] E. unfold on_store in E. simpl in *.
  destruct (store_replace e o s) as [x s1] eqn:Ex. injection E as <- <- <- <- <-.
  exact (store_replace_spec e o s x s1 Ex).
Qed.
Next Obligation.
  intros e [s sel ob pc] res [s' sel' ob' pc'] Hs He E. unfold on_store in E. simpl in *.
  destruct (store_merge_entry e s) as [x s1] eqn:Ex. injection E as <- <- <- <- <-.
  exact (store_merge_entry_spec e s x s1 Hs He Ex).
Qed.
Next Obligation.
  intros k c [s sel ob pc] res [s' sel' ob' pc'] Hs Hc E. unfold on_store in E. simpl in *.
  destruct (store_merge_metadata k c s) as [x s1] eqn:Ex. injection E as <- <- <- <- <-.
  exact (store_merge_metadata_spec k c s x s1 Hs Hc Ex).
Qed.
Next Obligation. intros [s ? ? ?]. unfold on_store. simpl. by rewrite store_keys_spec. Qed.
Next Obligation. intros l [s ? ? ?]. unfold on_store. simpl. by rewrite store_snapshot_all_spec. Qed.

Definition replicas_of (k : string) (s : svc) : result (list ClusterMember.t) :=
  ReplicaSelector.replicas _hash k (selector s).

(** [ReplicationService.ensure_causal] *)
Definition ensure_causal (k : string) (required : VersionVector.t) (deadline : Deadline.t)
    : M svc CausalRepairResult :=
  CausalRepairService.ensure replicas_of (gather_fetch peer_client deadline) local_node_id k required.

(** The end of [_ensure_causal], after the repair. *)
Definition repaired_entry (k : string) (required : VersionVector.t) (result : CausalRepairResult)
    : M svc (option StoredCrdtEntry.t * bool) :=
  let contacted := negb (bool_decide (contacted_nodes result = [])) in
  repaired ← store_get k;
  match repaired with
  | Some entry =>
      if VersionVector.dominates (causal_context entry) required then mret (Some entry, contacted)
      else raiseM CausalUnavailableError "required causal frontier is unavailable"
  | None =>
      if VersionVector.dominates (merged_version result) required then mret (None, contacted)
      else raiseM CausalUnavailableError "required causal frontier is unavailable"
  end.

Definition _ensure_causal (k : string) (token : CausalToken.t) (deadline : Deadline.t)
    (require_existing : bool) : M svc (option StoredCrdtEntry.t * bool) :=
  let required := CausalToken.version token in
  current ← store_get k;
  match current with
  | Some current =>
      if VersionVector.dominates (causal_context current) required then mret (Some current, false)
      else
        _ ← _replicas k;
        result ← ensure_causal k required deadline;
        repaired_entry k required result
  | None =>
      if negb (VersionVector.truthy required) && negb require_existing then mret (None, false)
      else
        replicas ← _replicas k;
        frontier ← _frontier;
        let remote := filter (λ m, node_id m ≠ local_node_id) replicas in
        if (negb require_existing || bool_decide (remote = [])) && VersionVector.dominates frontier required
        then mret (None, false)
        else
          result ← ensure_causal k required deadline;
          repaired_entry k required result
  end.

Definition _empty_state (crdt_type : CrdtType) : CrdtState :=
  match crdt_type with
  | GCOUNTER => SGCounter GCounter.empty
  | PNCOUNTER => SPNCounter PNCounter.empty
  | ORSET => SORSet ORSet.empty
  | MVREGISTER => SMVRegister MVRegister.empty
  end.

Definition _apply_mutation (self_actor : CausalActor.t) (state : CrdtState) (request : CrdtMutationData)
    (dot : Dot.t) : result CrdtState :=
  match mut_type request with
  | GCOUNTER =>
      if negb (bool_decide (operation request = "increment")) || (amount request <? 1)
      then raise ValueError "GCounter requires increment amount >= 1"
      else match state with
           | SGCounter c => c' ← GCounter.increment c self_actor (amount request); Ok (SGCounter c')
           | _ => raise AssertionError ""
           end
  | PNCOUNTER =>
      match state with
      | SPNCounter c =>
          if bool_decide (operation request = "increment") && (1 <=? amount request)
          then c' ← PNCounter.increment c self_actor (amount request); Ok (SPNCounter c')
          else if bool_decide (operation request = "decrement") && (1 <=? amount request)
          then c' ← PNCounter.decrement c self_actor (amount request); Ok (SPNCounter c')
          else raise ValueError "PNCounter requires increment/decrement amount >= 1"
      | _ => raise AssertionError ""
      end
  | ORSET =>
      match state with
      | SORSet c =>
          match mut_value request with
          | JStr v =>
              if bool_decide (operation request = "add") then Ok (SORSet (ORSet.add c v dot))
              else if bool_decide (operation request = "remove") then Ok (SORSet (ORSet.remove c v))
              else raise ValueError "ORSet requires add/remove"
          | _ => raise ValueError "ORSet value must be a string"
          end
      | _ => raise AssertionError ""
      end
  | MVREGISTER =>
      match state with
      | SMVRegister c =>
          if negb (bool_decide (operation request = "write")) then raise ValueError "MVRegister requires write"
          else Ok (SMVRegister (MVRegister.write c (mut_value request) dot))
      | _ => raise AssertionError ""
      end
  end.

(** [ReplicationService]: the write path to the outbox. *)
Definition reserve_write (k : string) (replica_ids : list string) : M svc OutboxReservation :=
  on_outbox (ReplicationOutbox.reserve ((λ n, (n, k)) <$> filter (λ n, n ≠ local_node_id) replica_ids)).

Definition cancel_write (reservation : OutboxReservation) : M svc unit :=
  on_outbox (modifyM (ReplicationOutbox.cancel reservation)).

Definition publish_write (reservation : OutboxReservation) (entry : StoredCrdtEntry.t) : M svc unit :=
  on_outbox (ReplicationOutbox.publish reservation {[key entry := entry]}).

(** The entry a mutation stores: [existing] is read under the key lock and the dot
    is allocated under the clock lock. *)
Definition next_entry (self_actor : CausalActor.t) (request : CrdtMutationData)
    (existing : option StoredCrdtEntry.t) (allocation : CausalClock.allocation) : result StoredCrdtEntry.t :=
  let previous_version := match existing with Some e => state_version e | None => VersionVector.empty end in
  let previous_context := match existing with Some e => causal_context e | None => VersionVector.empty end in
  let state := match existing with Some e => state e | None => _empty_state (mut_type request) end in
  let dot := CausalClock.dot allocation in
  next_state ← _apply_mutation self_actor state request dot;
  StoredCrdtEntry.make (mut_key request) (mut_type request) next_state
    (VersionVector.with_dot previous_version dot)
    (VersionVector.with_dot
       (VersionVector.merge (VersionVector.merge previous_context (CausalToken.version (mut_token request)))
          (CausalClock.frontier allocation)) dot).

(** [async with self.clock.staged_allocation(observed)]: allocate, build, commit; the
    clock advances only when the commit returned. *)
Definition staged_commit (request : CrdtMutationData) (existing : option StoredCrdtEntry.t)
    (deadline : Deadline.t) : M svc StoredCrdtEntry.t := λ s,
  let clock := clock_of (store s) in
  let previous_context := match existing with Some e => causal_context e | None => VersionVector.empty end in
  let observed := VersionVector.merge previous_context (CausalToken.version (mut_token request)) in
  let allocation := CausalClock.begin_allocation clock (Some observed) in
  match next_entry (CausalClock.actor clock) request existing allocation with
  | Err e => (Err e, s)
  | Ok entry =>
      match on_store (commit_local entry (CausalClock.frontier allocation) (Some deadline)) s with
      | (Err e, s') => (Err e, s')
      | (Ok _, s') =>
          (Ok entry, mk (set_clock (CausalClock.end_allocation clock allocation true) (store s'))
                        (selector s') (outbox s') (_peer_cache s'))
      end
  end.

Definition check_type (request : CrdtMutationData) (existing : option StoredCrdtEntry.t) : result unit :=
  match existing with
  | Some e => if bool_decide (crdt_type e = mut_type request) then Ok tt
              else raise TypeError "cannot change CRDT type for existing key"
  | None => Ok tt
  end.

(** The block under the key lock. *)
Definition commit_mutation (request : CrdtMutationData) (deadline : Deadline.t) : M svc StoredCrdtEntry.t :=
  existing ← store_get (mut_key request);
  _ ← liftM (check_type request existing);
  staged_commit request existing deadline.

(** [try: ... except Exception: cancel_write; raise] *)
Definition write_through (request : CrdtMutationData) (reservation : OutboxReservation)
    (deadline : Deadline.t) : M svc StoredCrdtEntry.t :=
  catchM (entry ← commit_mutation request deadline; _ ← publish_write reservation entry; mret entry)
    [Exception] (λ e, _ ← cancel_write reservation; failM e).

(** [mutate] before its outer [except] clauses. *)
Definition mutate_body (request : CrdtMutationData) (deadline : Deadline.t) : M svc CrdtResponseData :=
  routed ← _route_mutation request deadline;
  match routed with
  | Some response => mret response
  | None =>
      '(existing, repair_performed) ←
        _ensure_causal (mut_key request) (mut_token request) deadline
          (bool_decide (operation request = "remove"));
      _ ← liftM (check_type request existing);
      replicas ← _replicas (mut_key request);
      reservation ← reserve_write (mut_key request) (node_id <$> replicas);
      entry ← write_through request reservation deadline;
      _success entry repair_performed false
  end.

(** The [except] clauses of [mutate], tried in order. *)
Definition mutation_failure (e : exn) : option (Z * string) :=
  if isinstance e [PersistenceBackpressureError] then Some (pb.PERSISTENCE_BACKPRESSURE, exn_msg e)
  else if isinstance e [PersistenceUnavailableError] then Some (pb.PERSISTENCE_UNAVAILABLE, exn_msg e)
  else if isinstance e [ReplicationBackpressureError] then Some (pb.REPLICATION_BACKPRESSURE, exn_msg e)
  else if isinstance e [CausalUnavailableError] then Some (pb.CAUSAL_UNAVAILABLE, exn_msg e)
  else if isinstance e [NoRouteError] then Some (pb.NO_ROUTE, exn_msg e)
  else if isinstance e [DeadlineExceeded] then Some (pb.TIMEOUT, "request deadline exceeded")
  else if isinstance e [TypeError; ValueError] then Some (pb.INVALID_REQUEST, exn_msg e)
  else None.

Definition read_failure (e : exn) : option (Z * string) :=
  if isinstance e [CausalUnavailableError] then Some (pb.CAUSAL_UNAVAILABLE, exn_msg e)
  else if isinstance e [NoRouteError] then Some (pb.NO_ROUTE, exn_msg e)
  else if isinstance e [DeadlineExceeded] then Some (pb.TIMEOUT, "request deadline exceeded")
  else None.

(** [try: m except ...: return await self._error(...)] *)
Definition answering {A} (failure : exn → option (Z * string)) (report : Z → string → M svc A) (m : M svc A) : M svc A := λ s,
  match m s with
  | (Err e, s') => match failure e with Some (code, message) => report code message s' | None => (Err e, s') end
  | r => r
  end.

Definition mutate (request : CrdtMutationData) (deadline : Deadline.t) : M svc CrdtResponseData :=
  answering mutation_failure _error (mutate_body request deadline).

Definition read_body (request : CrdtReadData) (deadline : Deadline.t) : M svc CrdtResponseData :=
  routed ← _route_read request deadline;
  match routed with
  | Some response => mret response
  | None =>
      current ← store_get (read_key request);
      if bool_decide (current = None) && negb (VersionVector.truthy (CausalToken.version (read_token request)))
      then _error pb.KEY_NOT_FOUND "CRDT key not found"
      else
        '(current, repair_performed) ← _ensure_causal (read_key request) (read_token request) deadline true;
        match current with
        | None => _error pb.KEY_NOT_FOUND "CRDT key not found"
        | Some current => _success current repair_performed false
        end
  end.

Definition read (request : CrdtReadData) (deadline : Deadline.t) : M svc CrdtResponseData :=
  answering read_failure _error (read_body request deadline).

(** *** Peer and client messages *)
Section messages.
Context `{!Wire pb.CrdtMutationRequest, !Wire pb.CrdtReadRequest, !Wire pb.CrdtResponse,
          !Wire pb.CrdtReplicate, !Wire pb.CrdtFetch, !Wire pb.CrdtDigest, !Wire pb.CrdtDigestResponse}.
(** [settings.request_timeout_seconds], [settings.crdt_anti_entropy_batch_size], the
    time of arrival and the wall clock of the response. *)
Variables (request_timeout anti_entropy_batch now now_ms : Z).

Definition response_message (request : Message.t) (msg_type : MessageType) (payload : string) : Message.t :=
  Message.new_response now_ms local_node_id (Message.correlation_id request) payload msg_type 8 "" "".

Definition _wire_response (request : Message.t) (response : CrdtResponseData) : M svc Message.t :=
  payload ← liftM (encode_crdt_response response);
  mret (response_message request CRDT_RESPONSE payload).

Definition _replicate_response (entry : StoredCrdtEntry.t) : M svc CrdtResponseData :=
  merged ← store_merge_entry entry;
  _ ← observe (causal_context merged);
  _success merged false true.

Definition _fetch_response (k : string) : M svc CrdtResponseData :=
  entry ← store_get k;
  frontier ← _frontier;
  match entry with
  | None => mret (mkResponseData true None JNull (CausalToken.mk frontier) local_node_id false 0 "" None frontier)
  | Some entry => _success entry false true
  end.

Definition _handle_digest (message : Message.t) : M svc Message.t :=
  '(requester, incoming, batch_size) ← liftM (decode_digest_request (Message.payload message));
  if negb (nonempty requester) then raiseM DecodeError "CRDT digest requester_node_id is required"
  else
    entries ← DigestHandler.answer_digest replicas_of local_node_id anti_entropy_batch requester incoming batch_size;
    payload ← liftM (encode_digest_response entries);
    mret (response_message message CRDT_DIGEST_RESPONSE payload).

(** The deadline of a client or forwarded request. *)
Definition request_deadline (forwarded : bool) (remaining_timeout_ms : Z) : result Deadline.t :=
  if forwarded then
    if remaining_timeout_ms <=? 0 then raise DeadlineExceeded "forwarded CRDT request deadline exceeded"
    else Deadline.after now remaining_timeout_ms
  else Deadline.after now request_timeout.

Definition dispatch (message : Message.t) : M svc Message.t :=
  match Message.msg_type message with
  | CRDT_MUTATE_REQUEST =>
      request ← liftM (decode_mutation_request (Message.payload message));
      deadline ← liftM (request_deadline (mut_forwarded request) (mut_remaining_ms request));
      response ← mutate request deadline;
      _wire_response message response
  | CRDT_READ_REQUEST =>
      request ← liftM (decode_read_request (Message.payload message));
      deadline ← liftM (request_deadline (read_forwarded request) (read_remaining_ms request));
      response ← read request deadline;
      _wire_response message response
  | CRDT_REPLICATE =>
      entry ← liftM (decode_replication (Message.payload message));
      response ← _replicate_response entry;
      _wire_response message response
  | CRDT_FETCH =>
      k ← liftM (decode_fetch_request (Message.payload message));
      response ← _fetch_response k;
      _wire_response message response
  | CRDT_DIGEST => _handle_digest message
  | _ =>
      response ← _error pb.INVALID_REQUEST
                    ("unsupported CRDT message type: " +:+ MessageType_name (Message.msg_type message))%string;
      _wire_response message response
  end.

(** The [except] clauses of [handle_message]. *)
Definition message_failure (e : exn) : option (Z * string) :=
  if isinstance e [DecodeError] then Some (pb.INVALID_REQUEST, exn_msg e)
  else if isinstance e [DeadlineExceeded] then Some (pb.TIMEOUT, "request deadline exceeded")
  else if isinstance e [TypeError; ValueError] then Some (pb.INVALID_REQUEST, exn_msg e)
  else if isinstance e [Exception] then Some (pb.INTERNAL_ERROR, "internal server error")
  else None.

Definition handle_message (message : Message.t) : M svc Message.t :=
  answering message_failure
    (λ code text, response ← _error code text; _wire_response message response) (dispatch message).
End messages.

(** *** Mutations *)

Lemma increment_wf c a n c' : GCounter.increment c a n = Ok c' → GCounter.wf c'.
Proof. unfold GCounter.increment. case_match; [done|]. apply GCounter.gc_init_wf. Qed.

Lemma apply_mutation_wf a st request d st' : state_wf st →
  _apply_mutation a st request d = Ok st' → type_of_state st' = mut_type request ∧ state_wf st'.
Proof.
  intros Hst. unfold _apply_mutation. destruct (mut_type request).
  - case_match; [done|]. destruct st; try done. intros (c' & Ec & [= <-])%bind_Ok_inv.
    split; [done|]. by eapply increment_wf.
  - destruct st as [|c| |]; try done. destruct Hst as [Hp Hn].
    case_match; [|case_match; [|done]]; intros (c' & Ec & [= <-])%bind_Ok_inv;
      apply bind_Ok_inv in Ec as (g & Eg & [= <-]); (split; [done|]); split; simpl; try done;
      by eapply increment_wf.
  - destruct st; try done. destruct (mut_value request); try done.
    repeat case_match; try done; intros [= <-]; (split; [done|]); apply ORSet.or_init_wf.
  - destruct st; try done. case_match; [done|]. intros [= <-]. split; [done|]. apply MVRegister.mv_init_wf.
Qed.

Lemma empty_state_wf ty : type_of_state (_empty_state ty) = ty ∧ state_wf (_empty_state ty).
Proof.
  destruct ty; (split; [done|]); simpl;
    [apply GCounter.gc_wf_empty|apply PNCounter.pn_wf_empty|apply ORSet.or_init_wf|apply MVRegister.mv_init_wf].
Qed.

(** A node whose store and clock are well formed. *)
Definition svc_wf (s : svc) : Prop := CrdtStore.wf (view s) ∧ CausalClock.wf (clock_of (store s)).

Definition previous_state (s : svc) (request : CrdtMutationData) : CrdtState :=
  match view s !! mut_key request with Some e => state e | None => _empty_state (mut_type request) end.
Definition previous_version (s : svc) (k : string) : VersionVector.t :=
  match view s !! k with Some e => state_version e | None => VersionVector.empty end.
Definition previous_context (s : svc) (k : string) : VersionVector.t :=
  match view s !! k with Some e => causal_context e | None => VersionVector.empty end.

(** What a committed mutation has done to the node. *)
Definition committed (request : CrdtMutationData) (s s' : svc) (e : StoredCrdtEntry.t) : Prop :=
  ∃ dot,
    Dot.actor dot = actor s ∧
    VersionVector.get (frontier_of s) (actor s) < Dot.counter dot ∧
    VersionVector.get (previous_context s (mut_key request)) (actor s) < Dot.counter dot ∧
    _apply_mutation (actor s) (previous_state s request) request dot = Ok (state e) ∧
    key e = mut_key request ∧ crdt_type e = mut_type request ∧
    state_version e = VersionVector.with_dot (previous_version s (mut_key request)) dot ∧
    VersionVector.le (CausalToken.version (mut_token request)) (causal_context e) ∧
    VersionVector.le (previous_context s (mut_key request)) (causal_context e) ∧
    VersionVector.le (frontier_of s) (causal_context e) ∧
    Dot.counter dot ≤ VersionVector.get (causal_context e) (actor s) ∧
    view s' = <[mut_key request := e]> (view s) ∧
    actor s' = actor s ∧ VersionVector.le (frontier_of s) (frontier_of s') ∧
    VersionVector.get (frontier_of s') (actor s) = Dot.counter dot.

(** The three parts of the state a write must not disturb. *)
Definition rest_unchanged (s s' : svc) : Prop :=
  selector s' = selector s ∧ outbox s' = outbox s ∧ _peer_cache s' = _peer_cache s.

Lemma rest_refl s : rest_unchanged s s.
Proof. done. Qed.

Lemma previous_wf (s : svc) k : CrdtStore.wf (view s) →
  VersionVector.wf (previous_version s k) ∧ VersionVector.wf (previous_context s k).
Proof.
  intros Hs. unfold previous_version, previous_context. destruct (view s !! k) as [e|] eqn:E.
  - by apply Hs in E as [_ (_ & _ & _ & ? & ?)].
  - split; apply VersionVector.vv_wf_empty.
Qed.

Lemma next_entry_spec request (s : svc) e a : CrdtStore.wf (view s) →
  match view s !! mut_key request with Some x => crdt_type x = mut_type request | None => True end →
  VersionVector.wf (CausalToken.version (mut_token request)) → VersionVector.wf (CausalClock.frontier a) →
  next_entry (actor s) request (view s !! mut_key request) a = Ok e →
  StoredCrdtEntry.wf e ∧ key e = mut_key request ∧ crdt_type e = mut_type request ∧
  _apply_mutation (actor s) (previous_state s request) request (CausalClock.dot a) = Ok (state e) ∧
  state_version e = VersionVector.with_dot (previous_version s (mut_key request)) (CausalClock.dot a) ∧
  causal_context e = VersionVector.with_dot (VersionVector.merge (VersionVector.merge
      (previous_context s (mut_key request)) (CausalToken.version (mut_token request)))
      (CausalClock.frontier a)) (CausalClock.dot a).
Proof.
  intros Hs Hty Ht Ha E. unfold next_entry in E. apply bind_Ok_inv in E as (st & Est & E).
  fold (previous_version s (mut_key request)) in E. fold (previous_context s (mut_key request)) in E.
  fold (previous_state s request) in Est. destruct (previous_wf s (mut_key request) Hs) as [Hv Hc].
  assert (state_wf (previous_state s request)) as Hpw.
  { unfold previous_state. destruct (view s !! mut_key request) as [x|] eqn:Ex; [|apply empty_state_wf].
    by apply Hs in Ex as [_ (_ & _ & ? & _)]. }
  destruct (apply_mutation_wf _ _ _ _ _ Hpw Est) as [Hty' Hst].
  unfold StoredCrdtEntry.make in E. case_match eqn:Ek; [done|]. case_match; [done|]. injection E as <-.
  split; [unfold StoredCrdtEntry.wf; split_and!; simpl; try done|by split_and!].
  - apply negb_false_iff in Ek. unfold nonempty in Ek. boolify. done.
  - apply VersionVector.with_dot_wf. done.
  - apply VersionVector.with_dot_wf. auto with distsys.
Qed.

Lemma commit_view (e : StoredCrdtEntry.t) f d (st st' : St) x : commit_local e f d st = (Ok x, st') →
  view st' = <[key e := e]> (view st) ∧ clock_of st' = clock_of st.
Proof.
  intros E. destruct (commit_local_spec _ _ _ _ _ _ E) as [Hclk [_ Hrep]]. split; [|done].
  destruct (CrdtStore.replace_cases e (Some (crdt_type e)) (view st)) as [H'|[msg H']];
    rewrite H' in Hrep; [|done]. by injection Hrep as <-.
Qed.

Lemma with_dot_le v d : VersionVector.wf v → VersionVector.le v (VersionVector.with_dot v d).
Proof. intros Hv a. rewrite VersionVector.get_with_dot by done. case_decide; lia. Qed.

Lemma staged_commit_spec request deadline (s : svc) r s' : svc_wf s →
  VersionVector.wf (CausalToken.version (mut_token request)) →
  match view s !! mut_key request with Some x => crdt_type x = mut_type request | None => True end →
  staged_commit request (view s !! mut_key request) deadline s = (r, s') →
  rest_unchanged s s' ∧
  match r with
  | Ok e => committed request s s' e ∧ StoredCrdtEntry.wf e ∧ svc_wf s'
  | Err _ => view s' = view s ∧ clock_of (store s') = clock_of (store s)
  end.
Proof.
  intros [Hs Hc] Ht Hty E. unfold staged_commit in E. cbv zeta in E.
  fold (previous_context s (mut_key request)) in E.
  set (observed := VersionVector.merge (previous_context s (mut_key request))
                     (CausalToken.version (mut_token request))) in E.
  destruct (previous_wf s (mut_key request) Hs) as [Hpv Hpc].
  assert (VersionVector.wf observed) as Hob by (subst observed; auto with distsys).
  destruct (CausalClock.begin_allocation_spec (clock_of (store s)) (Some observed) Hc Hob)
    as (Hda & Hd1 & Hdf & Hfa & Hlf & Hlo & Hfw). destruct (Hlo observed eq_refl) as [Hlo1 Hlo2].
  set (a := CausalClock.begin_allocation (clock_of (store s)) (Some observed)) in *.
  destruct (next_entry _ _ _ a) as [e|err] eqn:En; [|by injection E as <- <-].
  destruct (next_entry_spec request s e a Hs Hty Ht Hfw En) as (He & Hk & Hety & Hap & Hsv & Hctx).
  unfold on_store in E. destruct (commit_local e _ _ (store s)) as [[x|err] st'] eqn:Ec.
  2: { destruct (commit_local_spec _ _ _ _ _ _ Ec) as [Hclk Hview]. injection E as <- <-. simpl. by rewrite Hview, Hclk. }
  injection E as <- <-. split; [done|]. apply commit_view in Ec as [Hv' _]. rewrite Hk in Hv'.
  assert (VersionVector.wf (VersionVector.merge observed (CausalClock.frontier a))) as Hmw by auto with distsys.
  pose proof (with_dot_le _ (CausalClock.dot a) Hmw) as Hwd. fold observed in Hctx. rewrite <-Hctx in Hwd.
  apply VersionVector.le_merge_iff in Hwd as [Hwo Hwf].
  pose proof (proj1 (VersionVector.le_merge_iff _ _ _) Hwo) as [Hwp Hwt].
  split_and!; [exists (CausalClock.dot a); split_and!|done|..]; try done.
  - specialize (Hlo2). unfold observed in Hlo2. rewrite VersionVector.get_merge in Hlo2. unfold actor. lia.
  - by etrans.
  - specialize (Hwf (actor s)). unfold actor in *. lia.
  - simpl. by rewrite view_set_clock.
  - unfold actor. simpl. by rewrite clock_set_clock.
  - unfold frontier_of at 2. simpl. by rewrite clock_set_clock.
  - unfold frontier_of. simpl. by rewrite clock_set_clock.
  - split; simpl.
    + rewrite view_set_clock, Hv'. rewrite <-Hk. by apply CrdtStore.store_wf_insert.
    + by rewrite clock_set_clock.
Qed.

Lemma commit_mutation_spec request deadline (s : svc) r s' : svc_wf s →
  VersionVector.wf (CausalToken.version (mut_token request)) →
  commit_mutation request deadline s = (r, s') →
  rest_unchanged s s' ∧
  match r with
  | Ok e => committed request s s' e ∧ StoredCrdtEntry.wf e ∧ svc_wf s'
  | Err _ => view s' = view s ∧ clock_of (store s') = clock_of (store s)
  end.
Proof.
  intros Hs Ht E. unfold commit_mutation, mbind, M_bind, liftM in E. rewrite store_get_spec in E.
  destruct (check_type request _) as [[]|err] eqn:Eck; [|by injection E as <- <-].
  apply (staged_commit_spec request deadline); [done..| |done]. unfold check_type in Eck.
  destruct (view s !! mut_key request); [|done]. destruct (bool_decide _) eqn:Eb; [|done]. by boolify.
Qed.
(** C8: a write is all or nothing.  Once a write has reserved its outbox places,
    either the mutation is committed (applied with a fresh dot, stored, and the clock
    advanced to it) and every other replica has the new entry queued or in flight; or
    an exception is raised, the store and the clock are what they were, and, unless
    the request was cancelled, so is the outbox. *)
Theorem write_all_or_nothing request deadline ids (s : svc) res s1 r s2 :
  svc_wf s → VersionVector.wf (CausalToken.version (mut_token request)) →
  ReplicationOutbox.tidy (outbox s) →
  reserve_write (mut_key request) ids s = (Ok res, s1) →
  write_through request res deadline s1 = (r, s2) →
  match r with
  | Ok e => committed request s s2 e ∧
      ∀ n, n ∈ ids → n ≠ local_node_id →
        ∃ c, ReplicationOutbox._pending (outbox s2) !! (n, mut_key request) = Some c ∧
             Pending.state c = Some e ∧ (Pending.queued c = true ∨ Pending.in_flight c = true)
  | Err x => view s2 = view s ∧ clock_of (store s2) = clock_of (store s) ∧
      (isinstance x [Exception] = true → outbox s2 = outbox s)
  end.
Proof.
  intros Hs Ht Hob Er E. unfold reserve_write, on_outbox in Er.
  destruct (ReplicationOutbox.reserve _ (outbox s)) as [[rv|err] ob1] eqn:Erv; [|done].
  injection Er as <- <-. unfold write_through, catchM, mbind, M_bind in E.
  set (s1 := mk (store s) (selector s) ob1 (_peer_cache s)) in E.
  destruct (commit_mutation request deadline s1) as [[e|x] s3] eqn:Ec;
    destruct (commit_mutation_spec request deadline s1 _ _ Hs Ht Ec) as ((Hsel & Ho & Hpc) & Hr).
  - destruct Hr as (Hcm & He & _). unfold publish_write, on_outbox in E. rewrite Ho in E.
    assert (key e = mut_key request) as Hk by (destruct Hcm as (? & _ & _ & _ & _ & ? & _); done).
    destruct (ReplicationOutbox.reserve_publish _ _ _ _ {[key e := e]} Hob Erv) as (ob2 & Ep & Hin & _).
    { intros p (n & -> & _)%list_elem_of_fmap. simpl. rewrite Hk, lookup_singleton_eq. eauto. }
    cbn [outbox s1] in E. rewrite Ep in E. injection E as <- <-. split; [exact Hcm|].
    intros n Hn Hne. destruct (Hin (n, mut_key request)) as (c & Hc & Hst & Hq).
    + apply list_elem_of_fmap. exists n. split; [done|]. by apply list_elem_of_filter.
    + exists c. cbn [outbox]. rewrite Hst. simpl. rewrite Hk, lookup_singleton_eq. done.
  - destruct Hr as [Hv Hck]. destruct (isinstance x [Exception]) eqn:Ex; injection E as <- <-.
    + split_and!; [exact Hv|exact Hck|]. intros _. cbn [outbox]. rewrite Ho.
      by apply (ReplicationOutbox.reserve_cancel _ _ _ _ Hob Erv).
    + rewrite Ex. done.
Qed.
(** *** Mutations are inflations *)

Lemma apply_mutation_inflates a st request d st' : state_wf st →
  (∀ r, st = SMVRegister r → MVRegister._value_map r !! d = None) →
  _apply_mutation a st request d = Ok st' → _merge_state st st' = Ok st'.
Proof.
  intros Hst Hd. unfold _apply_mutation. destruct (mut_type request), st as [c|c|c|c]; repeat case_match; try done.
  - intros (c' & Ec & [= <-])%bind_Ok_inv. simpl. by rewrite (increment_inflates c a (amount request)).
  - intros (c' & Ec & [= <-])%bind_Ok_inv. apply bind_Ok_inv in Ec as (g & Eg & [= <-]). destruct Hst as [Hp Hn].
    unfold _merge_state, PNCounter.merge. simpl. rewrite (increment_inflates _ _ _ _ Hp Eg), GCounter.gc_merge_idemp by done. done.
  - intros (c' & Ec & [= <-])%bind_Ok_inv. apply bind_Ok_inv in Ec as (g & Eg & [= <-]). destruct Hst as [Hp Hn].
    unfold _merge_state, PNCounter.merge. simpl. rewrite (increment_inflates _ _ _ _ Hn Eg), GCounter.gc_merge_idemp by done. done.
  - intros [= <-]. simpl. by rewrite add_inflates.
  - intros [= <-]. simpl. by rewrite remove_inflates.
  - intros [= <-]. simpl. by rewrite write_inflates by by apply Hd.
Qed.

(** The dots of a register are among those its context has seen. *)
Definition covered (e : StoredCrdtEntry.t) : Prop :=
  match state e with
  | SMVRegister r => ∀ d x, MVRegister._value_map r !! d = Some x →
                       Dot.counter d ≤ VersionVector.get (causal_context e) (Dot.actor d)
  | _ => True
  end.
Lemma apply_mutation_type a st request d st' :
  _apply_mutation a st request d = Ok st' → type_of_state st = mut_type request.
Proof.
  unfold _apply_mutation. destruct (mut_type request), st; try done; by repeat case_match.
Qed.

Lemma absorbed v w : VersionVector.wf v → VersionVector.wf w → VersionVector.le v w → VersionVector.merge v w = w.
Proof. intros Hv Hw Hle. rewrite VersionVector.vv_merge_comm by done. by apply VersionVector.merge_absorb. Qed.

(** The entry a mutation builds contains the one it replaces. *)
Lemma mutated_contains request (s : svc) e x d : CrdtStore.wf (view s) → StoredCrdtEntry.wf e →
  view s !! mut_key request = Some x → covered x →
  Dot.actor d = actor s → VersionVector.get (causal_context x) (actor s) < Dot.counter d →
  _apply_mutation (actor s) (state x) request d = Ok (state e) → key e = mut_key request →
  crdt_type e = mut_type request → state_version e = VersionVector.with_dot (state_version x) d →
  VersionVector.le (causal_context x) (causal_context e) → m_le x e.
Proof.
  intros Hs He Ex Hcov Hda Hdp Hap Hk Hty Hsv Hpc.
  destruct (Hs _ _ Ex) as [Hkx Hx]. pose proof Hx as (Hxk & Hxt & Hxs & Hxv & Hxc).
  pose proof (apply_mutation_type _ _ _ _ _ Hap) as Ht.
  assert (_merge_state (state x) (state e) = Ok (state e)) as Hm.
  { eapply apply_mutation_inflates; [done| |exact Hap]. intros r Er. unfold covered in Hcov. rewrite Er in Hcov.
    destruct (_ !! d) as [t|] eqn:Et; [|done]. apply Hcov in Et. rewrite Hda in Et. lia. }
  unfold m_le. rewrite result_equiv_Ok. cbn [m_merge entry_mergeable]. unfold merge_entries.
  rewrite bool_decide_eq_true_2 by congruence. rewrite bool_decide_eq_true_2 by congruence. simpl.
  pose proof He as (_ & Het & _ & Hev & Hec). pose proof (with_dot_le _ d Hxv) as Hle. rewrite <-Hsv in Hle.
  rewrite Hm. simpl. rewrite !absorbed, StoredCrdtEntry.entry_make_ok by congruence || done.
  destruct e; simpl in *; congruence.
Qed.

Lemma committed_inflates request (s s' : svc) e x : svc_wf s → StoredCrdtEntry.wf e →
  committed request s s' e → view s !! mut_key request = Some x → covered x → m_le x e.
Proof.
  intros [Hs _] He (d & Hda & _ & Hdp & Hap & Hk & Hty & Hsv & _ & Hpc & _) Ex Hcov.
  unfold previous_context, previous_version, previous_state in *. rewrite Ex in *.
  by apply (mutated_contains request s e x d).
Qed.

Lemma write_covered request (s s' : svc) e : svc_wf s → StoredCrdtEntry.wf e → committed request s s' e →
  (∀ k x, view s !! k = Some x → covered x) → covered e.
Proof.
  intros Hs He (d & Hda & _ & _ & Hap & _ & _ & _ & _ & Hpc & _ & Hdc & _) Hcov.
  unfold covered. destruct (state e) as [| | |r] eqn:Er; try done. unfold _apply_mutation in Hap.
  destruct (mut_type request), (previous_state s request) as [| | |c] eqn:Ep; repeat case_match; try done;
    try (by apply bind_Ok_inv in Hap as (? & _ & [=])). injection Hap as <-. intros d' x Hx.
  unfold MVRegister.write in Hx. rewrite MVRegister.value_map_init, lookup_insert_Some in Hx.
  destruct Hx as [[<- _]|[_ Hx]]; [by rewrite Hda|].
  unfold previous_state in Ep. unfold previous_context in Hpc.
  destruct (view s !! mut_key request) as [y|] eqn:Ey; [|].
  2: { destruct (mut_type request); try done. injection Ep as <-. unfold MVRegister.empty in Hx.
       by rewrite MVRegister.value_map_init in Hx. }
  specialize (Hcov _ _ Ey). unfold covered in Hcov. rewrite Ep in Hcov. specialize (Hcov _ _ Hx).
  specialize (Hpc (Dot.actor d')). lia.
Qed.

Lemma merge_covered l r m : StoredCrdtEntry.wf l → StoredCrdtEntry.wf r → merge_entries l r = Ok m →
  covered l → covered r → covered m.
Proof.
  intros Hl Hr E Hcl Hcr. apply merge_entries_inv in E as (_ & _ & _ & _ & Es & _ & Ec); [|done..].
  unfold covered in *. destruct (state l) as [| | |rl], (state r) as [| | |rr] eqn:Err; simpl in Es;
    try (by injection Es as <-); try done. apply bind_Ok_inv in Es as (c & Em & [= <-]).
  destruct Hr as (_ & _ & Hrs & _). rewrite Err in Hrs. apply MVRegister.merge_inv in Em as [_ ->]; [|done].
  intros d x. rewrite MVRegister.value_map_init, Ec, VersionVector.get_merge.
  intros [Hx|[_ Hx]]%lookup_union_Some_raw; [specialize (Hcl _ _ Hx)|specialize (Hcr _ _ Hx)]; lia.
Qed.

(** Local mutations are inflations, as state-based replication needs.  A committed
    mutation replaces the entry of its key by one that contains it (merging the old
    entry back changes nothing), so a replica never un-learns an update by writing.
    This needs every register's dots to be covered by its entry's causal context,
    which mutations and merges preserve. *)
Theorem mutation_is_inflation request deadline (s : svc) e s' :
  svc_wf s → VersionVector.wf (CausalToken.version (mut_token request)) →
  (∀ k x, view s !! k = Some x → covered x) →
  commit_mutation request deadline s = (Ok e, s') →
  store_le (view s) (view s') ∧ (∀ k x, view s' !! k = Some x → covered x) ∧
  ∀ x m, StoredCrdtEntry.wf x → covered x → merge_entries e x = Ok m → covered m.
Proof.
  intros Hs Ht Hcov E. destruct (commit_mutation_spec request deadline s _ _ Hs Ht E) as (_ & Hcm & He & Hs').
  pose proof (write_covered _ _ _ _ Hs He Hcm Hcov) as Hce.
  assert (view s' = <[mut_key request := e]> (view s)) as Hv.
  { by destruct Hcm as (d & _ & _ & _ & _ & _ & _ & _ & _ & _ & _ & _ & Hv & _). }
  split_and!.
  - rewrite Hv. apply store_le_insert; [by destruct Hs|]. destruct (view s !! _) as [x|] eqn:Ex; [|done].
    apply (committed_inflates request s s' e x); [done..|by eapply Hcov].
  - intros k x. rewrite Hv, lookup_insert_Some. intros [[_ <-]|[_ Hx]]; [done|by eapply Hcov].
  - intros x m Hx Hcx Em. by apply (merge_covered e x m).
Qed.
(** *** Session guarantees

    [hoare P m Q]: from a well-formed node where [P] holds, [m] leaves a well-formed
    node whether it returns or raises, and [Q] holds of what it returns. *)
Definition hoare {A} (P : svc → Prop) (m : M svc A) (Q : A → svc → Prop) : Prop := ∀ s r s',
  svc_wf s → P s → m s = (r, s') → svc_wf s' ∧ match r with Ok a => Q a s' | Err _ => True end.

Lemma hoare_ret {A} P (a : A) (Q : A → svc → Prop) : (∀ s, P s → Q a s) → hoare P (mret a) Q.
Proof. intros HQ s r s' Hs HP [= <- <-]. auto. Qed.

Lemma hoare_bind {A B} P (m : M svc A) (f : A → M svc B) R Q :
  hoare P m R → (∀ a, hoare (R a) (f a) Q) → hoare P (m ≫= f) Q.
Proof.
  intros Hm Hf s r s' Hs HP E. unfold mbind, M_bind in E. destruct (m s) as [[a|e] s1] eqn:Em;
    destruct (Hm _ _ _ Hs HP Em) as [Hs1 HR]; [by apply (Hf a s1)|by injection E as <- <-].
Qed.

Lemma hoare_lift {A} P (x : result A) (Q : A → svc → Prop) : (∀ a s, x = Ok a → P s → Q a s) → hoare P (liftM x) Q.
Proof. intros HQ s r s' Hs HP [= <- <-]. split; [done|]. destruct x; auto. Qed.

Lemma hoare_raise {A} P c msg (Q : A → svc → Prop) : hoare P (raiseM c msg) Q.
Proof. by intros s r s' Hs HP [= <- <-]. Qed.

Lemma hoare_weaken {A} (P P' : svc → Prop) (m : M svc A) (Q Q' : A → svc → Prop) :
  hoare P m Q → (∀ s, P' s → P s) → (∀ a s, svc_wf s → Q a s → Q' a s) → hoare P' m Q'.
Proof.
  intros Hm HP HQ s r s' Hs HP' E. destruct (Hm s r s' Hs (HP s HP') E) as [Hs' Hr]. split; [done|].
  destruct r; auto.
Qed.

(** An operation that leaves the store alone. *)
Lemma hoare_frame {A} P (m : M svc A) (Q : A → svc → Prop) :
  (∀ s r s', m s = (r, s') → store s' = store s) → (∀ s a s', P s → m s = (Ok a, s') → Q a s') → hoare P m Q.
Proof.
  intros Hst HQ s r s' Hs HP E. unfold svc_wf in *. rewrite (Hst _ _ _ E) in *. cbn [view svc_store] in *.
  rewrite (Hst _ _ _ E). split; [done|]. destruct r; eauto.
Qed.

(** A successful response returns a well-formed token that covers [token]. *)
Definition answers (token : CausalToken.t) (response : CrdtResponseData) : Prop :=
  success response = true → VersionVector.wf (CausalToken.version (resp_token response)) ∧
    VersionVector.le (CausalToken.version token) (CausalToken.version (resp_token response)).

(** What the peers' code guarantees, and what other requests may do to this node while
    a peer is awaited. *)
Record good_peers : Prop := {
  gp_mutation target request deadline :
    hoare (λ _, VersionVector.wf (CausalToken.version (mut_token request)))
      (forward_mutation peer_client target request deadline) (λ resp _, answers (mut_token request) resp);
  gp_read target request deadline :
    hoare (λ _, VersionVector.wf (CausalToken.version (read_token request)))
      (forward_read peer_client target request deadline) (λ resp _, answers (read_token request) resp);
  gp_gather deadline : CausalRepairService.good_gather (gather_fetch peer_client deadline);
  gp_clock deadline peers k s r s' : gather_fetch peer_client deadline peers k s = (r, s') →
    CausalClock.wf (clock_of (store s)) → CausalClock.wf (clock_of (store s'));
}.

Lemma replicas_hoare k P : (∀ s s', store s' = store s → P s → P s') → hoare P (_replicas k) (λ _ s, P s).
Proof.
  intros HP. apply hoare_frame.
  - intros s r s' E. unfold _replicas in E. destruct (ReplicaSelector.replicas _ _ _); by injection E as <- <-.
  - intros s a s' HPs E. unfold _replicas in E. destruct (ReplicaSelector.replicas _ _ _); [|done].
    injection E as <- <-. by apply (HP s).
Qed.

Lemma error_hoare P code msg token : hoare P (_error code msg) (λ resp _, answers token resp).
Proof. apply hoare_frame; [by intros s r s' [= <- <-]|]. by intros s resp s' _ [= <- <-] Hsc. Qed.

Lemma success_hoare entry rp inc token : VersionVector.wf (causal_context entry) →
  VersionVector.le (CausalToken.version token) (causal_context entry) →
  hoare (λ _, True) (_success entry rp inc) (λ resp _, answers token resp).
Proof.
  intros Hc Hle s r s' [Hs Hcl] _ E. unfold _success, mbind, M_bind, observe, _frontier, gets, liftM, CausalClock.observe in E.
  set (s1 := mk _ _ _ _) in E.
  assert (svc_wf s1) as Hs1.
  { split; simpl; [by rewrite view_set_clock|]. rewrite clock_set_clock. unfold CausalClock.wf. simpl.
    unfold CausalClock.begin_observe. auto with distsys. }
  destruct (_materialize entry); injection E as <- <-; (split; [done|]); [|done]. intros _. simpl. split.
  - apply VersionVector.vv_merge_wf; [apply (proj2 Hs1)|done].
  - etrans; [done|]. apply VersionVector.le_merge_r.
Qed.
Section session.
Context (Hpeers : good_peers).
Abbreviation anywhere := (λ _ : svc, True).

Lemma route_hoare k forwarded refusal forward token :
  (∀ t, hoare anywhere (forward t) (λ resp _, answers token resp)) →
  hoare anywhere (route k forwarded refusal forward)
    (λ o _, match o with Some resp => answers token resp | None => True end).
Proof.
  intros Hf. eapply hoare_bind; [by apply (replicas_hoare k anywhere)|]. intros [|target l]; [apply hoare_raise|].
  destruct (existsb _ _); [by apply hoare_ret|]. destruct forwarded.
  - eapply hoare_bind; [by apply (error_hoare _ _ _ token)|]. intros r. by apply hoare_ret.
  - eapply hoare_bind with (R := λ resp _, answers token resp); [|intros r; by apply hoare_ret].
    intros s r s' Hs _ E. unfold forwarding in E. destruct (forward target s) as [[resp|e] s1] eqn:Ef;
      destruct (Hf target s _ _ Hs I Ef) as [Hs1 Hr]; [by injection E as <- <-|].
    destruct (isinstance e [CrdtRemoteError]); [by apply (error_hoare anywhere (exn_code e) (exn_msg e) token s1)|].
    destruct (isinstance e [DeadlineExceeded]); [by injection E as <- <-|].
    destruct (isinstance e _); [|by injection E as <- <-].
    by apply (error_hoare anywhere pb.PEER_UNAVAILABLE (exn_msg e) token s1).
Qed.

(** What a causal check returns: an entry that has seen the token. *)
Definition checked (token : CausalToken.t) (o : option StoredCrdtEntry.t * bool) : Prop :=
  match o.1 with
  | Some e => VersionVector.wf (causal_context e) ∧
              VersionVector.le (CausalToken.version token) (causal_context e)
  | None => True
  end.

Lemma repair_hoare k required deadline : VersionVector.wf required →
  hoare anywhere (ensure_causal k required deadline) (λ _ _, True).
Proof.
  intros Hq s r s' [Hs Hc] _ E. unfold ensure_causal in E. split; [|by destruct r].
  destruct (CausalRepairService.ensure_spec _ _ _ _ _ _ _ _ Hs Hq (gp_gather Hpeers deadline) E) as (Hs' & _ & _).
  split; [done|]. revert Hc.
  refine (CausalRepairService.ensure_keeps _ _ _ (λ s, CausalClock.wf (clock_of (store s))) _ _ _ _ _ _ _ _
            (gp_gather Hpeers deadline) Hs E).
  - intros e x rx x' Hx He Ex. cbn [store_merge_entry svc_store] in Ex. unfold on_store in Ex.
    destruct (store_merge_entry e (store x)) as [y st] eqn:Ey. injection Ex as <- <-.
    by apply (merge_entry_clock (St:=St) e (store x) y st Hx He Ey).
  - intros k' c x rx x' Hx Hv Ex. cbn [store_merge_metadata svc_store] in Ex. unfold on_store in Ex.
    destruct (store_merge_metadata k' c (store x)) as [y st] eqn:Ey. injection Ex as <- <-.
    by apply (merge_metadata_clock (St:=St) k' c (store x) y st Hx Hv Ey).
  - intros peers k' x rx x' Ex. by apply (gp_clock Hpeers deadline peers k' x rx x').
Qed.

Lemma repaired_hoare k token result : VersionVector.wf (CausalToken.version token) →
  hoare anywhere (repaired_entry k (CausalToken.version token) result) (λ o _, checked token o).
Proof.
  intros Hq s r s' [Hs Hc] _ E. unfold repaired_entry, mbind, M_bind in E. rewrite store_get_spec in E.
  destruct (view s !! k) as [e|] eqn:Ek; destruct (VersionVector.dominates _ _) eqn:Ed; injection E as <- <-;
    (split; [done|]); try done. pose proof (CausalRepairService.context_wf _ _ _ Hs Ek).
  split; [done|]. by apply VersionVector.dominates_spec in Ed.
Qed.

Lemma ensure_causal_hoare k token deadline require_existing : VersionVector.wf (CausalToken.version token) →
  hoare anywhere (_ensure_causal k token deadline require_existing) (λ o _, checked token o).
Proof.
  intros Hq. pose proof (repair_hoare k _ deadline Hq) as Hr.
  eapply hoare_bind with (R := λ cur _, match cur with Some e => VersionVector.wf (causal_context e) | None => True end).
  { intros s r s' [Hs Hc] _ E. rewrite store_get_spec in E. injection E as <- <-. split; [done|].
    destruct (view (store s) !! k) as [e|] eqn:Ek; [|done]. by apply (CausalRepairService.context_wf (view s) k). }
  intros [e|].
  - destruct (VersionVector.dominates _ _) eqn:Ed.
    + apply hoare_ret. intros _ Hw. split; [done|]. by apply VersionVector.dominates_spec in Ed.
    + eapply hoare_bind; [by apply (replicas_hoare k)|]. intros l.
      eapply hoare_weaken with (P := anywhere) (Q := λ o _, checked token o); [|done..].
      eapply hoare_bind; [exact Hr|]. intros res. by apply repaired_hoare.
  - destruct (_ && _); [by apply hoare_ret|]. eapply hoare_bind; [by apply (replicas_hoare k)|]. intros l.
    eapply hoare_bind with (R := λ _ _, True). { apply hoare_frame; [by intros s r s' [= <- <-]|done]. }
    intros f. cbv zeta. destruct (_ && _); [by apply hoare_ret|].
    eapply hoare_weaken with (P := anywhere) (Q := λ o _, checked token o); [|done..].
    eapply hoare_bind; [exact Hr|].
    intros res. by apply repaired_hoare.
Qed.

Lemma write_hoare request reservation deadline : VersionVector.wf (CausalToken.version (mut_token request)) →
  hoare anywhere (write_through request reservation deadline)
    (λ e _, VersionVector.wf (causal_context e) ∧
            VersionVector.le (CausalToken.version (mut_token request)) (causal_context e)).
Proof.
  intros Ht s r s' Hs _ E. unfold write_through, catchM, mbind, M_bind in E.
  destruct (commit_mutation request deadline s) as [[e|x] s1] eqn:Ec;
    destruct (commit_mutation_spec request deadline s _ _ Hs Ht Ec) as (_ & Hr).
  - destruct Hr as ((d & _ & _ & _ & _ & _ & _ & _ & Hle & _) & He & Hs1). unfold publish_write, on_outbox in E.
    destruct (ReplicationOutbox.publish _ _ _) as [[[]|x] ob].
    + injection E as <- <-. split; [done|]. by destruct He as (_ & _ & _ & _ & ?).
    + destruct (isinstance x _); by injection E as <- <-.
  - destruct Hr as [Hv Hc]. assert (svc_wf s1) as Hs1. { destruct Hs. split; [by rewrite Hv|by rewrite Hc]. }
    destruct (isinstance x _); by injection E as <- <-.
Qed.
Lemma answering_hoare failure (m : M svc CrdtResponseData) token :
  hoare anywhere m (λ resp _, answers token resp) →
  hoare anywhere (answering failure _error m) (λ resp _, answers token resp).
Proof.
  intros Hm s r s' Hs _ E. unfold answering in E. destruct (m s) as [[resp|e] s1] eqn:Em;
    destruct (Hm s _ _ Hs I Em) as [Hs1 Hr]; [by injection E as <- <-|].
  destruct (failure e) as [[code msg]|]; [|by injection E as <- <-].
  by apply (error_hoare anywhere code msg token s1).
Qed.

Lemma mutate_hoare request deadline : VersionVector.wf (CausalToken.version (mut_token request)) →
  hoare anywhere (mutate request deadline) (λ resp _, answers (mut_token request) resp).
Proof.
  intros Ht. apply answering_hoare. eapply hoare_bind.
  { apply (route_hoare _ _ _ _ (mut_token request)). intros t.
    eapply hoare_weaken; [apply (gp_mutation Hpeers)|done|done]. }
  intros [resp|]; [by apply hoare_ret|]. eapply hoare_weaken with (P := anywhere) (Q := λ resp _, answers (mut_token request) resp); [|done..].
  eapply hoare_bind; [by apply ensure_causal_hoare|]. intros [existing rp].
  eapply hoare_bind with (R := λ _ _, True); [by apply hoare_lift|]. intros [].
  eapply hoare_bind; [by apply (replicas_hoare _ anywhere)|]. intros l.
  eapply hoare_bind with (R := λ _ _, True).
  { apply hoare_frame; [|done]. intros s r s' E. unfold reserve_write, on_outbox in E.
    destruct (ReplicationOutbox.reserve _ _). by injection E as <- <-. }
  intros rv. eapply hoare_bind; [by apply write_hoare|]. intros e s r s' Hs [Hw Hle] E.
  by apply (success_hoare e rp false (mut_token request) Hw Hle s).
Qed.

Lemma read_hoare request deadline : VersionVector.wf (CausalToken.version (read_token request)) →
  hoare anywhere (read request deadline) (λ resp _, answers (read_token request) resp).
Proof.
  intros Ht. apply answering_hoare. eapply hoare_bind.
  { apply (route_hoare _ _ _ _ (read_token request)). intros t.
    eapply hoare_weaken; [apply (gp_read Hpeers)|done|done]. }
  intros [resp|]; [by apply hoare_ret|]. eapply hoare_weaken with (P := anywhere) (Q := λ resp _, answers (read_token request) resp); [|done..].
  eapply hoare_bind with (R := λ _ _, True).
  { intros s r s' Hs _ E. rewrite store_get_spec in E. by injection E as <- <-. }
  intros cur. destruct (_ && _); [apply error_hoare|].
  eapply hoare_bind; [by apply ensure_causal_hoare|]. intros [[e|] rp]; [|apply error_hoare].
  intros s r s' Hs [Hw Hle] E. by apply (success_hoare e rp false (read_token request) Hw Hle s).
Qed.
End session.

(** C7: sessions only move forward.  As long as the peers a request is forwarded to
    keep the same promise, a successful mutation or read returns a causal token that
    covers the token the client sent, so a client that passes its token along never
    loses a dependency; and whatever happens, raised exceptions included, the node's
    store and clock stay well formed. *)
Theorem session_tokens_monotonic (s : svc) : good_peers → svc_wf s →
  (∀ request deadline r s', VersionVector.wf (CausalToken.version (mut_token request)) →
     mutate request deadline s = (r, s') →
     svc_wf s' ∧ ∀ resp, r = Ok resp → success resp = true →
       VersionVector.le (CausalToken.version (mut_token request)) (CausalToken.version (resp_token resp))) ∧
  (∀ request deadline r s', VersionVector.wf (CausalToken.version (read_token request)) →
     read request deadline s = (r, s') →
     svc_wf s' ∧ ∀ resp, r = Ok resp → success resp = true →
       VersionVector.le (CausalToken.version (read_token request)) (CausalToken.version (resp_token resp))).
Proof.
  intros Hp Hs. split; intros request deadline r s' Ht E.
  - destruct (mutate_hoare Hp request deadline Ht s r s' Hs I E) as [Hs' Hr]. split; [done|]. intros resp -> Hsc. by apply Hr.
  - destruct (read_hoare Hp request deadline Ht s r s' Hs I E) as [Hs' Hr]. split; [done|]. intros resp -> Hsc. by apply Hr.
Qed.
(** *** Messages are always answered *)
Section answers.
Context `{!Wire pb.CrdtMutationRequest, !Wire pb.CrdtReadRequest, !Wire pb.CrdtResponse,
          !Wire pb.CrdtReplicate, !Wire pb.CrdtFetch, !Wire pb.CrdtDigest, !Wire pb.CrdtDigestResponse}.
Variables (request_timeout anti_entropy_batch now now_ms : Z).

Lemma M_bind_inv {S A B} (m : M S A) (f : A → M S B) s b s' : (m ≫= f) s = (Ok b, s') →
  ∃ a s1, m s = (Ok a, s1) ∧ f a s1 = (Ok b, s').
Proof. unfold mbind, M_bind. destruct (m s) as [[a|e] s1]; [eauto|done]. Qed.

(** A reply to [message]. *)
Definition is_reply (message reply : Message.t) : Prop :=
  Message.correlation_id reply = Message.correlation_id message ∧
  Message.sender_id reply = local_node_id ∧
  (Message.msg_type reply = CRDT_RESPONSE ∨ Message.msg_type reply = CRDT_DIGEST_RESPONSE).

Lemma wire_reply message response s reply s' :
  _wire_response now_ms message response s = (Ok reply, s') → is_reply message reply.
Proof. intros E. apply M_bind_inv in E as (p & s1 & _ & E). injection E as <- <-. split_and!; [done..|by left]. Qed.

Lemma dispatch_reply message (s : svc) reply s' :
  dispatch request_timeout anti_entropy_batch now now_ms message s = (Ok reply, s') → is_reply message reply.
Proof.
  unfold dispatch. intros E. destruct (Message.msg_type message);
    try (repeat match goal with E : (_ ≫= _) _ = _ |- _ => apply M_bind_inv in E as (? & ? & _ & E) end;
         by eapply wire_reply).
  unfold _handle_digest in E. apply M_bind_inv in E as ([[rq inc] bs] & s1 & _ & E). case_match; [done|].
  apply M_bind_inv in E as (entries & s2 & _ & E). apply M_bind_inv in E as (p & s3 & _ & E).
  injection E as <- <-. split_and!; [done..|by right].
Qed.

(** An error response can always be sent, and says what the receiver sees. *)
Lemma wire_error message code text (s : svc) : enum32 code = true →
  ∃ reply, (response ← _error code text; _wire_response now_ms message response) s = (Ok reply, s) ∧
    is_reply message reply ∧
    decode_crdt_response (Message.payload reply) =
      Ok (mkResponseData false None JNull CausalToken.empty "" false code text None VersionVector.empty).
Proof.
  intros Hc. unfold mbind at 1. unfold M_bind at 1. unfold _error, mbind at 1. unfold M_bind at 1. simpl.
  destruct (serialize_ok (pb.mkResponse false 0 "" no_token "" false (pb.mkError code text) None None)) as [data Ed].
  { unfold in_range, pb.Response_ranged. simpl. unfold in_range, pb.Error_ranged. simpl. by rewrite Hc. }
  unfold _wire_response, mbind, M_bind, liftM, encode_crdt_response. simpl. rewrite Ed.
  eexists. split; [done|]. split; [split_and!; [done..|by left]|]. simpl.
  unfold decode_crdt_response. by rewrite (proj1 (parse_of_serialize _ _ _ Ed)).
Qed.

Lemma message_failure_code e code text : message_failure e = Some (code, text) → enum32 code = true.
Proof. unfold message_failure. repeat case_match; by intros [= <- <-]. Qed.

Lemma message_failure_none e : message_failure e = None → isinstance e [Exception] = false.
Proof. unfold message_failure. repeat case_match; done. Qed.

(** Every message is answered.  Whatever bytes a client or a peer sends,
    [handle_message] returns a reply that carries the request's correlation id and
    this node's name; it raises only what is not an [Exception] (cancellation).  A
    payload that does not decode is answered with [INVALID_REQUEST] and the decoder's
    message, and changes nothing. *)
Theorem handle_message_answers message (s : svc) :
  match handle_message request_timeout anti_entropy_batch now now_ms message s with
  | (Ok reply, _) => is_reply message reply
  | (Err e, _) => isinstance e [Exception] = false
  end ∧
  ∀ e, isinstance e [DecodeError] = true →
    match Message.msg_type message with
    | CRDT_MUTATE_REQUEST => decode_mutation_request (Message.payload message) = Err e
    | CRDT_READ_REQUEST => decode_read_request (Message.payload message) = Err e
    | CRDT_REPLICATE => decode_replication (Message.payload message) = Err e
    | CRDT_FETCH => decode_fetch_request (Message.payload message) = Err e
    | CRDT_DIGEST => decode_digest_request (Message.payload message) = Err e
    | _ => False
    end →
    ∃ reply, handle_message request_timeout anti_entropy_batch now now_ms message s = (Ok reply, s) ∧
      is_reply message reply ∧
      decode_crdt_response (Message.payload reply) =
        Ok (mkResponseData false None JNull CausalToken.empty "" false pb.INVALID_REQUEST (exn_msg e) None
              VersionVector.empty).
Proof.
  unfold handle_message, answering. split.
  - destruct (dispatch _ _ _ _ message s) as [[reply|e] s'] eqn:E; [by eapply dispatch_reply|].
    destruct (message_failure e) as [[code text]|] eqn:Ef; [|by apply message_failure_none].
    destruct (wire_error message code text s') as (reply & -> & Hr & _); [by eapply message_failure_code|done].
  - intros e He Hd.
    assert (dispatch request_timeout anti_entropy_batch now now_ms message s = (Err e, s)) as ->.
    { unfold dispatch. destruct (Message.msg_type message); try done;
        unfold _handle_digest, mbind, M_bind, liftM; by rewrite Hd. }
    assert (message_failure e = Some (pb.INVALID_REQUEST, exn_msg e)) as ->
      by (unfold message_failure; by rewrite He).
    destruct (wire_error message pb.INVALID_REQUEST (exn_msg e) s eq_refl) as (reply & -> & Hr & Hdec). eauto.
Qed.
End answers.
End service.
End CrdtService.

(** ** A concrete node *)
Module CrdtServiceSample.
Import CrdtService.

Definition dead_client : CrdtPeerClient (t MemoryNode.t) := {|
  forward_mutation _ _ _ := raiseM ConnectionError "connection refused";
  forward_read _ _ _ := raiseM ConnectionError "connection refused";
  gather_fetch _ _ _ := mret [];
|}.

Definition ring : ConsistentHashRing.t :=
  ConsistentHashRing.rebuild RingSample.toy_hash
    [RingSample.member "n1" ALIVE; RingSample.member "n2" ALIVE] (ConsistentHashRing.mk 3 [] []).

Definition node0 : t MemoryNode.t :=
  mk (MemoryNode.mk ∅ (CausalClock.init (CausalActor.mk "n1" 1))) (ReplicaSelector.mk ring 2)
    (ReplicationOutbox.mk 4 ∅ []) ∅.

Definition add_x : CrdtMutationData :=
  mkMutationData "k" ORSET "add" (JStr "x") 0 CausalToken.empty false "" 0.
Definition soon : Deadline.t := Deadline.mk 100.

Definition places : OutboxReservation := Reservation [("n2", "k")] [("n2", "k")].
Definition node1 : t MemoryNode.t := (reserve_write "n1" "k" ["n1"; "n2"] node0).2.
Definition written := write_through add_x places soon node1.
Definition entry_x : StoredCrdtEntry.t := match written.1 with Ok e => e | Err _ => CrdtCodecSample.entry end.

Lemma node0_wf : svc_wf node0.
Proof. split; [exact CrdtStore.store_wf_init|apply VersionVector.vv_wf_empty]. Qed.

Lemma node0_tidy : ReplicationOutbox.tidy (outbox node0).
Proof. intros p c E. change ((∅ : gmap Pair Pending.t) !! p = Some c) in E. by rewrite lookup_empty in E. Qed.

Lemma write_all_or_nothing_witness :
  written.1 = Ok entry_x ∧ committed add_x node0 written.2 entry_x ∧
  ∃ c, ReplicationOutbox._pending (outbox written.2) !! ("n2", "k") = Some c ∧ Pending.state c = Some entry_x.
Proof.
  assert (written = (Ok entry_x, written.2)) as E by (vm_compute; reflexivity).
  assert (reserve_write "n1" "k" ["n1"; "n2"] node0 = (Ok places, node1)) as Er by (vm_compute; reflexivity).
  destruct (write_all_or_nothing "n1" add_x soon ["n1"; "n2"] node0 places node1 (Ok entry_x) written.2
              node0_wf VersionVector.vv_wf_empty node0_tidy Er E) as [Hc Hq].
  split; [by rewrite E|]. split; [exact Hc|].
  destruct (Hq "n2") as (c & Ec & Es & _); [right; left|done|]. exists c. by split.
Defined.

Definition write_1 : CrdtMutationData :=
  mkMutationData "r" MVREGISTER "write" (JInt 1) 0 CausalToken.empty false "" 0.

Lemma mutation_is_inflation_witness :
  store_le (view node0) (view (commit_mutation write_1 soon node0).2).
Proof.
  assert (∃ e s', commit_mutation write_1 soon node0 = (Ok e, s')) as (e & s' & E)
    by (do 2 eexists; vm_compute; reflexivity).
  rewrite E. apply (mutation_is_inflation write_1 soon node0 e s' node0_wf); [apply VersionVector.vv_wf_empty| |exact E].
  intros k x Hx. change ((∅ : gmap string StoredCrdtEntry.t) !! k = Some x) in Hx. by rewrite lookup_empty in Hx.
Defined.
Lemma dead_client_good : good_peers dead_client.
Proof.
  split.
  - by intros t r d s x s' Hs _ [= <- <-].
  - by intros t r d s x s' Hs _ [= <- <-].
  - intros d ps k s x s' [= <- <-] Hs. split_and!; [done|by apply store_le_refl|by constructor].
  - by intros d ps k s x s' [= <- <-].
Qed.

(** A client that has seen three updates of [n2], as this node has. *)
Definition seen : VersionVector.t := VersionVector.build {[CausalActor.mk "n2" 1 := 3]}.
Definition node2 : t MemoryNode.t :=
  mk (MemoryNode.mk ∅ (CausalClock.mk (CausalActor.mk "n1" 1) seen)) (ReplicaSelector.mk ring 2)
    (ReplicationOutbox.mk 4 ∅ []) ∅.
Definition add_y : CrdtMutationData :=
  mkMutationData "k" ORSET "add" (JStr "y") 0 (CausalToken.mk seen) false "" 0.
Definition answered := mutate RingSample.toy_hash dead_client "n1" add_y soon node2.

Lemma seen_wf : VersionVector.wf seen.
Proof. apply (bool_decide_unpack _). vm_compute. exact I. Qed.

Lemma session_tokens_monotonic_witness : ∃ resp, answered.1 = Ok resp ∧ success resp = true ∧
  resp_value resp = JList [JStr "y"] ∧ VersionVector.le seen (CausalToken.version (resp_token resp)).
Proof.
  assert (∃ resp, answered.1 = Ok resp ∧ success resp = true ∧ resp_value resp = JList [JStr "y"])
    as (resp & E & Es & Ev) by (eexists; vm_compute; done).
  exists resp. split_and!; [done..|].
  destruct (session_tokens_monotonic RingSample.toy_hash dead_client "n1" node2 dead_client_good) as [Hm _].
  { split; [exact CrdtStore.store_wf_init|exact seen_wf]. }
  apply (Hm add_y soon answered.1 answered.2 seen_wf); [|done..]. unfold answered. by destruct (mutate _ _ _ _ _ _).
Defined.

#[local] Instance wire1 : Wire pb.CrdtMutationRequest := countable_wire.
#[local] Instance wire2 : Wire pb.CrdtReadRequest := countable_wire.
#[local] Instance wire3 : Wire pb.CrdtResponse := countable_wire.
#[local] Instance wire4 : Wire pb.CrdtReplicate := countable_wire.
#[local] Instance wire5 : Wire pb.CrdtFetch := countable_wire.
#[local] Instance wire6 : Wire pb.CrdtDigest := countable_wire.
#[local] Instance wire7 : Wire pb.CrdtDigestResponse := countable_wire.

Definition garbage : Message.t := Message.mk CRDT_READ_REQUEST "client" "c-7" 0 8 "?" "" "".

Lemma handle_message_answers_witness : ∃ reply,
  handle_message RingSample.toy_hash dead_client "n1" 1000 100 0 0 garbage node0 = (Ok reply, node0) ∧
  Message.correlation_id reply = "c-7".
Proof.
  assert (∃ e, isinstance e [DecodeError] = true ∧ decode_read_request "?" = Err e) as (e & He & Ed)
    by (exists (Exn DecodeError "invalid CrdtReadRequest protobuf" 0); split; vm_compute; reflexivity).
  destruct (handle_message_answers RingSample.toy_hash dead_client "n1" 1000 100 0 0 garbage node0) as [_ Hd].
  destruct (Hd e He Ed) as (reply & E & (Hc & _) & _). exists reply. by split.
Defined.
End CrdtServiceSample.
