(* ===== verification/Persistence.v ===== *)
(** * The durable codec: [distsys/persistence/codec.py]

    The JSON text of every stored column, its reader with all its checks, and their
    round trips. *)

From S2P Require Import Prelude Lattice Causal Json Crdt Storage Resilience.
From S2P Require Import Membership Ring CrdtCodec Repair AntiEntropy CrdtService.

Local Open Scope Z_scope.
Import StoredCrdtEntry (key, crdt_type, state, state_version, causal_context).
Import CrdtCodecSpec (dot_valid, counters_valid, vector_valid, state_valid, entry_valid, counters_normalized,
  mapM_fmap_back).

(** ** [persistence/codec.py] *)
Module DurableCodec.

Definition _canonical_json (value : json) : string := dumps value.

Definition _parse_json (raw : string) : result json :=
  match loads raw with
  | Ok v => Ok v
  | Err _ => raise ValueError "invalid durable JSON payload"
  end.

(** [isinstance(value, int)]; a Python [bool] is an [int]. *)
Definition as_int (j : json) : option Z :=
  match j with JInt z => Some z | JBool b => Some (if b then 1 else 0) | _ => None end.

Definition encode_actor (actor : CausalActor.t) : json :=
  JObj [("node_id", JStr (CausalActor.node_id actor)); ("incarnation", JInt (CausalActor.incarnation actor))].

Definition decode_actor (data : json) : result CausalActor.t :=
  match data with
  | JObj d =>
      match py_get "node_id" d, as_int (py_get "incarnation" d) with
      | JStr node_id, Some incarnation => CausalActor.make node_id incarnation
      | _, _ => raise TypeError "invalid causal actor"
      end
  | _ => raise TypeError "causal actor must be an object"
  end.

Definition encode_dot (dot : Dot.t) : json :=
  JObj [("actor", encode_actor (Dot.actor dot)); ("counter", JInt (Dot.counter dot))].

Definition decode_dot (data : json) : result Dot.t :=
  match data with
  | JObj d =>
      match as_int (py_get "counter" d) with
      | Some counter => actor ← decode_actor (py_get "actor" d); Dot.make actor counter
      | None => raise TypeError "invalid causal dot"
      end
  | _ => raise TypeError "invalid causal dot"
  end.

Definition encode_counter (field : string) (item : CausalActor.t * Z) : json :=
  JObj [("actor", encode_actor item.1); (field, JInt item.2)].

Definition encode_version_vector (vector : VersionVector.t) : string :=
  _canonical_json (JList (encode_counter "counter" <$> VersionVector.items vector)).

(** The loop that fills [entries]. *)
Fixpoint vector_entries (items : list json) (entries : gmap CausalActor.t Z) : result (gmap CausalActor.t Z) :=
  match items with
  | [] => Ok entries
  | JObj item :: items =>
      match as_int (py_get "counter" item) with
      | None => raise TypeError "invalid version vector entry"
      | Some counter =>
          actor ← decode_actor (py_get "actor" item);
          match entries !! actor with
          | Some existing =>
              if negb (existing =? counter) then raise ValueError "duplicate actor with conflicting counter"
              else vector_entries items (<[actor := counter]> entries)
          | None => vector_entries items (<[actor := counter]> entries)
          end
      end
  | _ :: _ => raise TypeError "invalid version vector entry"
  end.

Definition decode_version_vector (raw : string) : result VersionVector.t :=
  payload ← _parse_json raw;
  match payload with
  | JList items => entries ← vector_entries items ∅; VersionVector.init entries
  | _ => raise TypeError "version vector payload must be a list"
  end.

Definition _encode_gcounter (counter : GCounter.t) : json :=
  JList (encode_counter "value" <$> GCounter.components counter).

Definition decode_component (item : json) : result (CausalActor.t * Z) :=
  match item with
  | JObj item =>
      match as_int (py_get "value" item) with
      | Some value => actor ← decode_actor (py_get "actor" item); Ok (actor, value)
      | None => raise TypeError "invalid gcounter component"
      end
  | _ => raise TypeError "invalid gcounter component"
  end.

Definition _decode_gcounter (payload : json) : result GCounter.t :=
  match payload with
  | JList items => components ← mapM_result decode_component items; GCounter.init (dict_of components)
  | _ => raise TypeError "gcounter payload must be a list"
  end.

Definition encode_dots (dots : gset Dot.t) : json := JList (encode_dot <$> py_sorted dots).

Definition encode_add (item : string * gset Dot.t) : json :=
  JObj [("element", JStr item.1); ("dots", encode_dots item.2)].

Definition encode_value (item : Dot.t * string) : json :=
  JObj [("dot", encode_dot item.1); ("value_json", JStr item.2)].

Definition state_payload (state : CrdtState) : json :=
  match state with
  | SGCounter s => JObj [("components", _encode_gcounter s)]
  | SPNCounter s => JObj [("positive", _encode_gcounter (PNCounter.positive s));
                          ("negative", _encode_gcounter (PNCounter.negative s))]
  | SORSet s => JObj [("adds", JList (encode_add <$> ORSet._adds s)); ("removed", encode_dots (ORSet._removed s))]
  | SMVRegister s => JObj [("values", JList (encode_value <$> MVRegister._values s));
                           ("superseded", encode_dots (MVRegister._superseded s))]
  end.

Definition encode_crdt_state (state : CrdtState) (crdt_type : CrdtType) : result string :=
  if bool_decide (type_of_state state = crdt_type) then Ok (_canonical_json (state_payload state))
  else raise TypeError "CRDT state does not match CRDT type".

Definition decode_dots (items : list json) : result (gset Dot.t) :=
  dots ← mapM_result decode_dot items; Ok (list_to_set dots).

Definition decode_add (item : json) : result (string * gset Dot.t) :=
  match item with
  | JObj item =>
      match py_get "element" item with
      | JStr element =>
          match py_get "dots" item with
          | JList dots_raw => dots ← decode_dots dots_raw; Ok (element, dots)
          | _ => raise TypeError "invalid ORSet dots"
          end
      | _ => raise TypeError "invalid ORSet add entry"
      end
  | _ => raise TypeError "invalid ORSet add entry"
  end.

Definition decode_value (item : json) : result (Dot.t * string) :=
  match item with
  | JObj item =>
      match py_get "value_json" item with
      | JStr value_json =>
          dot ← decode_dot (py_get "dot" item);
          _ ← _parse_json value_json;
          Ok (dot, value_json)
      | _ => raise TypeError "invalid MVRegister value entry"
      end
  | _ => raise TypeError "invalid MVRegister value entry"
  end.

Definition decode_crdt_state (raw : string) (crdt_type : CrdtType) : result CrdtState :=
  payload ← _parse_json raw;
  match payload with
  | JObj payload =>
      match crdt_type with
      | GCOUNTER => s ← _decode_gcounter (py_get "components" payload); Ok (SGCounter s)
      | PNCOUNTER =>
          positive ← _decode_gcounter (py_get "positive" payload);
          negative ← _decode_gcounter (py_get "negative" payload);
          Ok (SPNCounter (PNCounter.mk positive negative))
      | ORSET =>
          match py_get "adds" payload, py_get "removed" payload with
          | JList adds_raw, JList removed_raw =>
              adds ← mapM_result decode_add adds_raw;
              removed ← decode_dots removed_raw;
              Ok (SORSet (ORSet.init (dict_of adds) removed))
          | _, _ => raise ValueError "invalid ORSet durable payload"
          end
      | MVREGISTER =>
          match py_get "values" payload, py_get "superseded" payload with
          | JList values_raw, JList superseded_raw =>
              values ← mapM_result decode_value values_raw;
              superseded ← decode_dots superseded_raw;
              Ok (SMVRegister (MVRegister.init (dict_of values) superseded))
          | _, _ => raise ValueError "invalid MVRegister durable payload"
          end
      end
  | _ => raise TypeError "CRDT payload must be an object"
  end.

Record EncodedCrdtEntry := Encoded {
  enc_key : string; enc_type : string; state_json : string;
  state_version_json : string; causal_context_json : string }.

Definition encode_entry (entry : StoredCrdtEntry.t) : result EncodedCrdtEntry :=
  state_json ← encode_crdt_state (state entry) (crdt_type entry);
  Ok (Encoded (key entry) (CrdtType_value (crdt_type entry)) state_json
        (encode_version_vector (state_version entry)) (encode_version_vector (causal_context entry))).

Definition decode_entry (encoded : EncodedCrdtEntry) : result StoredCrdtEntry.t :=
  match CrdtType_of (enc_type encoded) with
  | Err _ => raise ValueError ("unknown CRDT type: " +:+ enc_type encoded)%string
  | Ok crdt_type =>
      state ← decode_crdt_state (state_json encoded) crdt_type;
      state_version ← decode_version_vector (state_version_json encoded);
      causal_context ← decode_version_vector (causal_context_json encoded);
      StoredCrdtEntry.make (enc_key encoded) crdt_type state state_version causal_context
  end.

(** *** Round trip *)

(** Reading back what was written: the text parses to the canonical value. *)
Lemma parse_canonical j : unique_keys j → _parse_json (_canonical_json j) = Ok (canon j).
Proof. intros Hu. unfold _parse_json, _canonical_json. by rewrite loads_dumps_canon. Qed.

Ltac keys := apply (bool_decide_unpack _); vm_compute; exact I.
Ltac members :=
  apply unique_obj; split; [try keys|];
  repeat first [apply Forall_nil_2 | apply Forall_cons; split]; cbn [snd]; try exact I.

Lemma unique_fmap {A} (f : A → json) l : (∀ x, unique_keys (f x)) → unique_keys (JList (f <$> l)).
Proof. intros Hf. apply unique_list, Forall_fmap, Forall_true. intros x. apply Hf. Qed.

Lemma unique_actor a : unique_keys (encode_actor a).
Proof. members. Qed.

Lemma unique_dot d : unique_keys (encode_dot d).
Proof. members. apply unique_actor. Qed.

Lemma unique_counter f item : f ≠ "actor" → unique_keys (encode_counter f item).
Proof.
  intros Hf. members; [|apply unique_actor]. simpl. apply NoDup_cons. split; [set_solver|apply NoDup_singleton].
Qed.

Lemma unique_dots X : unique_keys (encode_dots X).
Proof. apply unique_fmap, unique_dot. Qed.

Lemma unique_payload s : unique_keys (state_payload s).
Proof.
  assert (∀ c, unique_keys (_encode_gcounter c)) as Hg by (intros c; apply unique_fmap; intros; by apply unique_counter).
  destruct s; members; try apply Hg; try apply unique_dots.
  - apply unique_fmap. intros x. members. apply unique_dots.
  - apply unique_fmap. intros x. members. apply unique_dot.
Qed.

Lemma actor_read a : CausalActor.valid a = true → decode_actor (canon (encode_actor a)) = Ok a.
Proof.
  intros Hv. unfold decode_actor, encode_actor. rewrite canon_obj, !get_canon by keys.
  change (CausalActor.make (CausalActor.node_id a) (CausalActor.incarnation a) = Ok a).
  exact (CrdtCodecSpec.actor_back a Hv).
Qed.

Lemma dot_read d : dot_valid d → decode_dot (canon (encode_dot d)) = Ok d.
Proof.
  intros [Ha Hc]. unfold decode_dot, encode_dot. rewrite canon_obj, !get_canon by keys.
  change ((actor ← decode_actor (canon (encode_actor (Dot.actor d))); Dot.make actor (Dot.counter d)) = Ok d).
  rewrite actor_read by done. simpl. unfold Dot.make. rewrite (proj2 (Z.ltb_ge _ _)) by lia. by destruct d.
Qed.

Lemma mapM_canon_back {A} (f : json → result A) (g : A → json) (l : list A) :
  (∀ x, x ∈ l → f (canon (g x)) = Ok x) → mapM_result f (canon <$> (g <$> l)) = Ok l.
Proof. intros H. rewrite <-list_fmap_compose. by apply mapM_fmap_back. Qed.

Lemma dots_read X : (∀ d, d ∈ X → dot_valid d) →
  ∃ l, canon (encode_dots X) = JList l ∧ decode_dots l = Ok X.
Proof.
  intros HX. eexists. split; [apply canon_list|]. unfold decode_dots. rewrite mapM_canon_back.
  - simpl. by rewrite list_to_set_py_sorted.
  - intros d ?%elem_of_py_sorted. by apply dot_read, HX.
Qed.

Lemma counter_member f item : f ≠ "actor" →
  ∃ d, canon (encode_counter f item) = JObj d ∧ py_get f d = JInt item.2 ∧
       py_get "actor" d = canon (encode_actor item.1).
Proof.
  intros Hf. eexists. split; [apply canon_obj|].
  assert (NoDup ["actor"; f]) as Hnd by (apply NoDup_cons; split; [set_solver|apply NoDup_singleton]).
  rewrite !get_canon by exact Hnd. unfold py_get. simpl. rewrite (decide_False (P:="actor" = f)) by done.
  by rewrite (decide_True (P:=f = f)).
Qed.

Lemma entries_read l acc : Forall (λ av : CausalActor.t * Z, CausalActor.valid av.1 = true) l → NoDup l.*1 →
  (∀ a, a ∈ l.*1 → acc !! a = None) →
  vector_entries (canon <$> (encode_counter "counter" <$> l)) acc = Ok (foldl (λ d kv, <[kv.1 := kv.2]> d) acc l).
Proof.
  intros Hv. revert acc. induction Hv as [|[a n] l Ha Hv IH]; intros acc Hnd Hacc; [done|].
  apply NoDup_cons in Hnd as [Hn Hnd]. rewrite !fmap_cons.
  destruct (counter_member "counter" (a, n)) as (d & -> & Hc & Hd); [done|]. cbn [vector_entries].
  rewrite Hc, Hd. cbn [as_int snd fst]. rewrite actor_read by done. cbn [mbind result_bind].
  rewrite Hacc by left. rewrite IH; [done|done|]. intros b Hb. rewrite lookup_insert_ne by set_solver.
  apply Hacc. by right.
Qed.

Lemma counters_NoDup (l : list (CausalActor.t * Z)) : counters_wf l → NoDup l.*1.
Proof. intros [E _]. rewrite E. apply NoDup_sorted_items_fst. Qed.

Lemma vector_read v : vector_valid v → decode_version_vector (encode_version_vector v) = Ok v.
Proof.
  intros [Hw Hv]. unfold decode_version_vector, encode_version_vector.
  rewrite parse_canonical by (apply unique_fmap; intros; by apply unique_counter).
  cbn [mbind result_bind]. rewrite canon_list, entries_read; [|done|by apply counters_NoDup|by intros; rewrite lookup_empty].
  change (foldl _ ∅ _) with (dict_of (VersionVector.items v)). cbn [mbind result_bind].
  destruct (counters_normalized _ Hw) as [E Hn]. rewrite VersionVector.vv_init_ok by done.
  unfold VersionVector.build, VersionVector.items. rewrite E. by destruct v.
Qed.

Lemma gcounter_read s : GCounter.wf s → counters_valid (GCounter.components s) →
  _decode_gcounter (canon (_encode_gcounter s)) = Ok s.
Proof.
  intros Hw Hv. unfold _decode_gcounter, _encode_gcounter. rewrite canon_list, mapM_canon_back.
  - cbn [mbind result_bind]. destruct (counters_normalized _ Hw) as [E Hn].
    rewrite GCounter.gc_init_ok by done. unfold GCounter.build, GCounter.components. rewrite E. by destruct s.
  - intros [a n] Hin. destruct (counter_member "value" (a, n)) as (d & -> & Hc & Hd); [done|].
    unfold decode_component. rewrite Hc, Hd. cbn [as_int snd fst]. unfold counters_valid in Hv.
    rewrite Forall_forall in Hv. by rewrite actor_read by exact (Hv _ Hin).
Qed.

Lemma add_read item : set_Forall dot_valid item.2 → decode_add (canon (encode_add item)) = Ok item.
Proof.
  intros Hd. destruct (dots_read item.2 Hd) as (l & El & Dl). unfold decode_add, encode_add.
  rewrite canon_obj, !get_canon by keys. change (py_get "element" _) with (JStr item.1).
  change (py_get "dots" _) with (encode_dots item.2). rewrite El. cbn [canon]. rewrite Dl. by destruct item.
Qed.

Lemma value_read item : dot_valid item.1 → is_ok (loads item.2) = true →
  decode_value (canon (encode_value item)) = Ok item.
Proof.
  intros Hd Ht. unfold decode_value, encode_value. rewrite canon_obj, !get_canon by keys.
  change ((dot ← decode_dot (canon (encode_dot item.1)); _ ← _parse_json item.2; Ok (dot, item.2)) = Ok item).
  rewrite dot_read by done. simpl. unfold _parse_json. destruct (loads item.2); [|done]. by destruct item.
Qed.

Lemma state_read s : state_wf s → state_valid s →
  decode_crdt_state (_canonical_json (state_payload s)) (type_of_state s) = Ok s.
Proof.
  intros Hw Hv. unfold decode_crdt_state. rewrite parse_canonical by apply unique_payload. cbn [mbind result_bind].
  destruct s as [s|s|s|s]; cbn [type_of_state state_payload]; rewrite canon_obj; rewrite ?get_canon by keys.
  - change (py_get "components" _) with (_encode_gcounter s). by rewrite gcounter_read.
  - destruct Hw, Hv. change (py_get "positive" _) with (_encode_gcounter (PNCounter.positive s)).
    change (py_get "negative" _) with (_encode_gcounter (PNCounter.negative s)).
    rewrite !gcounter_read by done. by destruct s.
  - destruct Hv as [Hv Hr]. destruct (dots_read (ORSet._removed s) Hr) as (l & El & Dl).
    change (py_get "adds" _) with (JList (encode_add <$> ORSet._adds s)).
    change (py_get "removed" _) with (encode_dots (ORSet._removed s)).
    rewrite El, canon_list, mapM_canon_back.
    + cbn [mbind result_bind]. rewrite Dl. cbn [mbind result_bind]. unfold ORSet.init. rewrite <-Hw. by destruct s.
    + intros x Hx. rewrite Forall_forall in Hv. by apply add_read, Hv.
  - destruct Hv as [Hv Hr]. destruct (dots_read (MVRegister._superseded s) Hr) as (l & El & Dl).
    change (py_get "values" _) with (JList (encode_value <$> MVRegister._values s)).
    change (py_get "superseded" _) with (encode_dots (MVRegister._superseded s)).
    rewrite El, canon_list, mapM_canon_back.
    + cbn [mbind result_bind]. rewrite Dl. cbn [mbind result_bind]. unfold MVRegister.init. rewrite <-Hw. by destruct s.
    + intros x Hx. rewrite Forall_forall in Hv. by apply value_read; apply Hv.
Qed.

Lemma entry_read e : entry_valid e → ∃ enc, encode_entry e = Ok enc ∧ enc_key enc = key e ∧ decode_entry enc = Ok e.
Proof.
  intros (Hw & Hv & Hs & Hc). pose proof Hw as (Hk & Ht & Hsw & Hvw & Hcw).
  unfold encode_entry, encode_crdt_state. rewrite bool_decide_eq_true_2 by done. cbn [mbind result_bind].
  eexists. split; [done|]. split; [done|]. unfold decode_entry. cbn [enc_key enc_type state_json state_version_json causal_context_json].
  rewrite CrdtType_of_value, <-Ht, state_read by done. cbn [mbind result_bind].
  rewrite !vector_read by done. cbn [mbind result_bind]. rewrite StoredCrdtEntry.entry_make_ok by done.
  rewrite Ht. by destruct e.
Qed.

(** C33: durable entries are read back exactly.  Every entry the store can hold
    (checked actors and dots, register values that are JSON) is encoded as JSON text
    and decodes to itself: key, type, state, state version and causal context, empty
    sets and registers included, whatever the size of its counters. *)
Theorem durable_entry_roundtrip e : entry_valid e →
  ∃ enc, encode_entry e = Ok enc ∧ enc_key enc = key e ∧ enc_type enc = CrdtType_value (crdt_type e) ∧
         decode_entry enc = Ok e.
Proof.
  intros He. destruct (entry_read e He) as (enc & E & Hk & D). exists enc. split_and!; try done.
  unfold encode_entry in E. apply bind_Ok_inv in E as (j & _ & [= <-]). done.
Qed.

Lemma durable_entry_roundtrip_witness :
  ∃ enc, encode_entry CrdtCodecSample.blank_set = Ok enc ∧ decode_entry enc = Ok CrdtCodecSample.blank_set.
Proof.
  destruct (durable_entry_roundtrip CrdtCodecSample.blank_set) as (enc & E & _ & _ & D).
  - apply (bool_decide_unpack _). vm_compute. exact I.
  - exists enc. by split.
Defined.
End DurableCodec.
