(* ===== verification/Repository.v ===== *)
(** * The durable repository: [distsys/persistence/]

    [models.py], [repository.py], [executor.py], [migrations.py] and
    [sqlite_repository.py].  [StateRepository] is the contract the durable store and
    the recovery code rely on; [SQLiteStateRepository] implements it over the tables
    of the schema.  SQLite itself is outside the model: a transaction commits all its
    statements or none.  What the environment does to each piece of blocking work (the
    wait for admission, the clock, a failing disk, a cancelled request whose thread
    still commits) is read from a list of fates. *)

From S2P Require Import Prelude Lattice Causal Json Crdt Storage Resilience.
From S2P Require Import CrdtCodec Repair Persistence.

Local Open Scope Z_scope.
Import StoredCrdtEntry (key, crdt_type, state, state_version, causal_context).
Import CrdtCodecSpec (vector_valid, entry_valid).
Import DurableCodec.

(** ** [persistence/models.py] *)
Module DurableNodeIdentity.
Record t := mk { node_uuid : string; configured_node_id : string; causal_incarnation : Z }.

#[export] Instance eq_dec : EqDecision t.
Proof. solve_decision. Defined.

Definition make (node_uuid configured_node_id : string) (causal_incarnation : Z) : result t :=
  if negb (nonempty configured_node_id) then raise ValueError "configured_node_id must not be empty"
  else if causal_incarnation <? 1 then raise ValueError "causal_incarnation must be positive"
  else Ok (mk node_uuid configured_node_id causal_incarnation).

Definition valid (i : t) : Prop := configured_node_id i ≠ "" ∧ 1 ≤ causal_incarnation i.

(** [CausalActor(identity.configured_node_id, identity.causal_incarnation)] *)
Definition actor_of (i : t) : CausalActor.t := CausalActor.mk (configured_node_id i) (causal_incarnation i).
End DurableNodeIdentity.

Module DurableCausalState.
Record t := mk { actor : CausalActor.t; local_counter : Z; frontier : VersionVector.t }.

#[export] Instance eq_dec : EqDecision t.
Proof. solve_decision. Defined.

Definition make (actor : CausalActor.t) (local_counter : Z) (frontier : VersionVector.t) : result t :=
  if local_counter <? 0 then raise ValueError "local_counter must be non-negative"
  else if negb (VersionVector.get frontier actor =? local_counter)
  then raise ValueError "frontier local actor component must equal local_counter"
  else Ok (mk actor local_counter frontier).

Definition valid (c : t) : Prop :=
  vector_valid (frontier c) ∧ VersionVector.get (frontier c) (actor c) = local_counter c.

(** The state of a clock whose frontier is [f]. *)
Definition at_frontier (a : CausalActor.t) (f : VersionVector.t) : t := mk a (VersionVector.get f a) f.

Lemma make_at a f : VersionVector.wf f → make a (VersionVector.get f a) f = Ok (at_frontier a f).
Proof.
  intros Hf. unfold make. pose proof (VersionVector.get_nonneg f a Hf).
  by rewrite (proj2 (Z.ltb_ge _ _)), Z.eqb_refl by lia.
Qed.

Lemma valid_at a f : vector_valid f → valid (at_frontier a f).
Proof. by split. Qed.

Lemma valid_eta c : valid c → c = at_frontier (actor c) (frontier c).
Proof. intros [_ E]. destruct c. unfold at_frontier. simpl in *. by rewrite E. Qed.
End DurableCausalState.

Record RepositoryHealth := Health { healthy : bool; health_schema : Z; health_message : string }.

(** ** [persistence/repository.py]

    What the methods promise in terms of the entries, the clock and the identity they
    keep.  A commit that raises an [Exception] has changed nothing; one that is
    cancelled may have happened or not. *)
Section contract.
Context {R : Type} (stored : R → gmap string StoredCrdtEntry.t) (saved_clock : R → option DurableCausalState.t)
  (saved_identity : R → option DurableNodeIdentity.t).

Definition unchanged (r r' : R) : Prop :=
  stored r' = stored r ∧ saved_clock r' = saved_clock r ∧ saved_identity r' = saved_identity r.

Definition owned (r : R) (c : DurableCausalState.t) : Prop :=
  ∃ i, saved_identity r = Some i ∧ DurableCausalState.actor c = DurableNodeIdentity.actor_of i.

Definition commit_contract (e : StoredCrdtEntry.t) (c : DurableCausalState.t) (r r' : R) (x : result unit) : Prop :=
  match x with
  | Ok _ => stored r' = <[key e := e]> (stored r) ∧ saved_clock r' = Some c ∧
            saved_identity r' = saved_identity r
  | Err err => unchanged r r' ∨
      (isinstance err [Exception] = false ∧ stored r' = <[key e := e]> (stored r) ∧ saved_clock r' = Some c ∧
       saved_identity r' = saved_identity r)
  end.
End contract.

Class StateRepository (R : Type) := {
  repo_wf : R → Prop;
  stored : R → gmap string StoredCrdtEntry.t;
  saved_clock : R → option DurableCausalState.t;
  saved_identity : R → option DurableNodeIdentity.t;
  integrity_check : M R RepositoryHealth;
  load_identity : M R (option DurableNodeIdentity.t);
  initialize_identity : string → M R DurableNodeIdentity.t;
  load_clock : M R (option DurableCausalState.t);
  save_clock : DurableCausalState.t → option Deadline.t → M R unit;
  load_entries : M R (list StoredCrdtEntry.t);
  commit_mutation : StoredCrdtEntry.t → DurableCausalState.t → option Deadline.t → M R unit;
  commit_observed_entry : StoredCrdtEntry.t → DurableCausalState.t → option Deadline.t → M R unit;
  mark_authority : string → bool → M R unit;

  stored_valid r : repo_wf r → CrdtStore.wf (stored r) ∧ map_Forall (λ _ e, entry_valid e) (stored r);
  clock_valid r c : repo_wf r → saved_clock r = Some c →
    DurableCausalState.valid c ∧ owned saved_identity r c;
  identity_valid r i : repo_wf r → saved_identity r = Some i → DurableNodeIdentity.valid i;
  integrity_check_spec r x r' : repo_wf r → integrity_check r = (x, r') →
    repo_wf r' ∧ unchanged stored saved_clock saved_identity r r';
  load_identity_spec r x r' : repo_wf r → load_identity r = (x, r') →
    repo_wf r' ∧ unchanged stored saved_clock saved_identity r r' ∧
    match x with Ok i => i = saved_identity r | Err _ => True end;
  initialize_identity_spec n r x r' : repo_wf r → initialize_identity n r = (x, r') →
    repo_wf r' ∧ stored r' = stored r ∧ saved_clock r' = saved_clock r ∧
    match saved_identity r with
    | Some i => saved_identity r' = Some i ∧
                match x with
                | Ok i' => i' = i ∧ DurableNodeIdentity.configured_node_id i = n
                | Err _ => True
                end
    | None => match x with
              | Ok i => saved_identity r' = Some i ∧ DurableNodeIdentity.configured_node_id i = n
              | Err _ => True
              end
    end;
  load_clock_spec r x r' : repo_wf r → load_clock r = (x, r') →
    repo_wf r' ∧ unchanged stored saved_clock saved_identity r r' ∧
    match x with Ok c => c = saved_clock r | Err _ => True end;
  save_clock_spec c d r x r' : repo_wf r → DurableCausalState.valid c → owned saved_identity r c →
    save_clock c d r = (x, r') →
    repo_wf r' ∧ stored r' = stored r ∧ saved_identity r' = saved_identity r ∧
    match x with
    | Ok _ => saved_clock r' = Some c
    | Err _ => saved_clock r' = saved_clock r ∨ saved_clock r' = Some c
    end;
  load_entries_spec r x r' : repo_wf r → load_entries r = (x, r') →
    repo_wf r' ∧ unchanged stored saved_clock saved_identity r r' ∧
    match x with Ok l => l = (sorted_items (stored r)).*2 | Err _ => True end;
  commit_mutation_spec e c d r x r' :
    repo_wf r → entry_valid e → DurableCausalState.valid c → owned saved_identity r c →
    commit_mutation e c d r = (x, r') →
    repo_wf r' ∧ commit_contract stored saved_clock saved_identity e c r r' x;
  commit_observed_spec e c d r x r' :
    repo_wf r → entry_valid e → DurableCausalState.valid c → owned saved_identity r c →
    commit_observed_entry e c d r = (x, r') →
    repo_wf r' ∧ commit_contract stored saved_clock saved_identity e c r r' x;
  mark_authority_spec k b r x r' : repo_wf r → mark_authority k b r = (x, r') →
    repo_wf r' ∧ unchanged stored saved_clock saved_identity r r';
}.

(** ** [persistence/executor.py] *)
Module PersistenceExecutor.
(** [_permits] is the value of the semaphore. *)
Record t := mk { _capacity : Z; _permits : Z; _in_flight : Z }.

Definition init (capacity : Z) : result t :=
  if capacity <? 1 then raise ValueError "capacity must be at least 1" else Ok (mk capacity capacity 0).

(** [waits]: how long a permit takes to become free. *)
Definition _acquire (deadline : option Deadline.t) (now waits : Z) : M t unit := λ s,
  let permit := match deadline with
                  | None => Ok tt
                  | Some d => (Deadline.run d now (Deadline.Awaitable waits (Ok tt))).1
                  end in
  match permit with
  | Ok _ => (Ok tt, mk (_capacity s) (_permits s - 1) (_in_flight s + 1))
  | Err e =>
      if isinstance e [DeadlineExceeded]
      then (raise PersistenceBackpressureError "persistence admission deadline exceeded", s)
      else (Err e, s)
  end.

(** The [finally] block of [run]. *)
Definition release (s : t) : t := mk (_capacity s) (_permits s + 1) (_in_flight s - 1).

(** Callers interleave: one is admitted when a permit is free, and each admitted one
    finishes once. *)
Inductive step : t → t → Prop :=
  | enter deadline now waits s s' : 0 < _permits s → _acquire deadline now waits s = (Ok tt, s') → step s s'
  | refuse deadline now waits s s' e : _acquire deadline now waits s = (Err e, s') → step s s'
  | finish s : 0 < _in_flight s → step s (release s).

Definition inv (s : t) : Prop := 0 ≤ _in_flight s ∧ 0 ≤ _permits s ∧ _permits s + _in_flight s = _capacity s.

Lemma acquire_cases deadline now waits s r s' : _acquire deadline now waits s = (r, s') →
  (r = Ok tt ∧ s' = mk (_capacity s) (_permits s - 1) (_in_flight s + 1)) ∨
  (s' = s ∧ ∃ e, r = Err e ∧ isinstance e [Exception] = true).
Proof.
  unfold _acquire. destruct deadline as [d|]; [|intros [= <- <-]; by left].
  unfold Deadline.run, Deadline.wait_for. simpl. repeat case_match; simplify_eq/=; intros [= <- <-];
    first [by left | right; split; [done|]; by eexists].
Qed.

Lemma executor_step_inv s s' : inv s → step s s' → inv s' ∧ _capacity s' = _capacity s.
Proof.
  intros (H1 & H2 & H3) Hs. destruct Hs as [d n w s s' Hp E|d n w s s' e E|s Hp].
  - apply acquire_cases in E as [[_ ->]|[_ (? & ? & _)]]; [|done]. unfold inv. simpl. split; [lia|done].
  - apply acquire_cases in E as [[? _]|[-> _]]; [done|]. by split.
  - unfold inv. simpl. split; [lia|done].
Qed.

Lemma executor_bounded cap s0 s : init cap = Ok s0 → reachable step s0 s → 0 ≤ _in_flight s ≤ cap.
Proof.
  intros Hi Hr. assert (inv s ∧ _capacity s = cap) as [Hs Hc]; [|unfold inv in Hs; lia].
  revert s Hr. apply reachable_invariant.
  - unfold init in Hi. case_match eqn:Hcap; [done|]. injection Hi as <-. boolify. unfold inv. simpl. lia.
  - intros s s' [Hs Hc] Hst. destruct (executor_step_inv s s' Hs Hst). split; [done|congruence].
Qed.
End PersistenceExecutor.

(** ** [persistence/sqlite_repository.py] and [persistence/migrations.py] *)
Module SQLiteStateRepository.

(** What happens to one piece of blocking work once it is admitted: it runs, SQLite
    raises before anything is committed, or the awaiting request is cancelled while
    the thread runs to its end. *)
Inductive disk := Commits | Fails | Cancelled.

Record fate := Fate { asked_at : Z; waits : Z; disk_does : disk; time_ns : Z; uuid4 : string }.

Record clock_row := ClockRow { row_counter : Z; frontier_json : string; clock_updated_at_ns : Z }.
Record entry_row := EntryRow { row_entry : EncodedCrdtEntry; last_authoritative : bool; updated_at_ns : Z }.

(** The four tables; [quick_check] is what [PRAGMA quick_check] would answer. *)
Record db := Db {
  schema_migrations : list Z;
  node_identity : option DurableNodeIdentity.t;
  causal_clock : option clock_row;
  crdt_entries : gmap string entry_row;
  quick_check : bool;
}.

Record t := mk {
  executor : PersistenceExecutor.t; _opened : bool; database : db; fates : list fate }.

Definition synchronous_modes : list string := ["OFF"; "NORMAL"; "FULL"; "EXTRA"].

(** [str.upper] on ASCII. *)
Fixpoint upper (s : string) : string :=
  match s with
  | EmptyString => EmptyString
  | String a s =>
      let n := Ascii.N_of_ascii a in
      String (if (97 <=? n)%N && (n <=? 122)%N then Ascii.ascii_of_N (n - 32) else a) (upper s)
  end.

Definition init (executor : PersistenceExecutor.t) (d : db) (fates : list fate)
    (busy_timeout_seconds : Z) (synchronous : string) : result t :=
  if busy_timeout_seconds <=? 0 then raise ValueError "busy_timeout_seconds must be greater than zero"
  else if negb (bool_decide (upper synchronous ∈ synchronous_modes))
  then raise ValueError "unsupported SQLite synchronous mode"
  else Ok (mk executor false d fates).

(** *** Migrations *)
Definition CURRENT_SCHEMA_VERSION : Z := 1.

Definition schema_version (d : db) : Z := foldr Z.max 0 (schema_migrations d).

(** [CREATE TABLE IF NOT EXISTS] keeps tables that are there. *)
Definition _migration_v1 (d : db) : db := d.

Definition record_migration (version : Z) (d : db) : db :=
  Db (version :: schema_migrations d) (node_identity d) (causal_clock d) (crdt_entries d) (quick_check d).

Definition apply_migrations (d : db) : result Z * db :=
  let current := schema_version d in
  if CURRENT_SCHEMA_VERSION <? current
  then (raise RepositorySchemaError ("database schema " +:+ str_of_int current +:+
          " is newer than supported " +:+ str_of_int CURRENT_SCHEMA_VERSION)%string, d)
  else
    let d := if current <? 1 then record_migration 1 (_migration_v1 d) else d in
    (Ok (schema_version d), d).

(** *** Blocking work *)
Definition idle_fate : fate := Fate 0 0 Commits 0 "".

Definition set_executor (x : PersistenceExecutor.t) (s : t) : t := mk x (_opened s) (database s) (fates s).
Definition set_database (d : db) (s : t) : t := mk (executor s) (_opened s) d (fates s).
Definition set_opened (b : bool) (s : t) : t := mk (executor s) b (database s) (fates s).

(** [await self.executor.run(fn, deadline)]: admission, [asyncio.to_thread], release. *)
Definition run {A} (fn : fate → db → result A * db) (deadline : option Deadline.t) : M t A := λ s,
  let f := default idle_fate (head (fates s)) in
  let s := mk (executor s) (_opened s) (database s) (tail (fates s)) in
  match PersistenceExecutor._acquire deadline (asked_at f) (waits f) (executor s) with
  | (Err e, x) => (Err e, set_executor x s)
  | (Ok _, x) =>
      let s := set_executor (PersistenceExecutor.release x) s in
      match disk_does f with
      | Fails => (raise SqliteError "disk I/O error", s)
      | Commits => let '(r, d) := fn f (database s) in (r, set_database d s)
      | Cancelled => let '(_, d) := fn f (database s) in (raise CancelledError "", set_database d s)
      end
  end.

(** A transaction: an exception rolls it back. *)
Definition transaction {A} (body : db → result (A * db)) (d : db) : result A * db :=
  match body d with Ok (a, d') => (Ok a, d') | Err e => (Err e, d) end.

Definition _ensure_open : M t unit := λ s,
  if _opened s then (Ok tt, s) else (raise PersistenceUnavailableError "repository is not open", s).

Definition _open_sync (d : db) : result unit * db :=
  match apply_migrations d with
  | (Err e, d) => (Err e, d)
  | (Ok _, d) =>
      if quick_check d then (Ok tt, d) else (raise RepositoryIntegrityError "SQLite quick_check failed", d)
  end.

Definition open : M t unit :=
  _ ← catchM (run (λ _, _open_sync) None) [SqliteError]
        (λ _, raiseM PersistenceUnavailableError "unable to open SQLite repository");
  modifyM (set_opened true).

Definition close : M t unit := modifyM (set_opened false).

Definition integrity_check : M t RepositoryHealth :=
  _ ← _ensure_open;
  catchM (run (λ _ d, (if quick_check d then Ok (Health true (schema_version d) "ok")
                       else raise RepositoryIntegrityError "SQLite quick_check failed", d)) None)
    [SqliteError] (λ _, raiseM RepositoryIntegrityError "SQLite integrity check failed").

(** The row's columns are checked by the constructor again. *)
Definition _identity_from_row (row : DurableNodeIdentity.t) : result DurableNodeIdentity.t :=
  DurableNodeIdentity.make (DurableNodeIdentity.node_uuid row)
    (DurableNodeIdentity.configured_node_id row) (DurableNodeIdentity.causal_incarnation row).

Definition select_identity (d : db) : result (option DurableNodeIdentity.t) :=
  match node_identity d with
  | None => Ok None
  | Some row => identity ← _identity_from_row row; Ok (Some identity)
  end.

Definition load_identity : M t (option DurableNodeIdentity.t) :=
  _ ← _ensure_open;
  run (λ _ d, (select_identity d, d)) None.

(** SQLite's [INTEGER] has 64 bits; a larger Python integer raises. *)
Definition int64 (z : Z) : bool := (- 2 ^ 63 <=? z) && (z <? 2 ^ 63).

Definition column (z : Z) : result Z :=
  if int64 z then Ok z else raise OverflowError "Python int too large to convert to SQLite INTEGER".

Definition set_identity (i : DurableNodeIdentity.t) (d : db) : db :=
  Db (schema_migrations d) (Some i) (causal_clock d) (crdt_entries d) (quick_check d).

Definition initialize (configured_node_id : string) (f : fate) : db → result DurableNodeIdentity.t * db :=
  transaction (λ d,
    row ← select_identity d;
    match row with
    | Some identity =>
        if negb (bool_decide (DurableNodeIdentity.configured_node_id identity = configured_node_id))
        then raise NodeIdentityMismatchError "durable database belongs to a different configured node id"
        else Ok (identity, d)
    | None =>
        identity ← DurableNodeIdentity.make (uuid4 f) configured_node_id (Z.max 1 (time_ns f));
        _ ← column (DurableNodeIdentity.causal_incarnation identity);
        _ ← column (time_ns f);
        Ok (identity, set_identity identity d)
    end).

Definition initialize_identity (configured_node_id : string) : M t DurableNodeIdentity.t :=
  _ ← _ensure_open;
  if negb (nonempty configured_node_id) then raiseM ValueError "configured_node_id must not be empty"
  else run (initialize configured_node_id) None.

Definition select_clock (d : db) : result (option DurableCausalState.t) :=
  match node_identity d with
  | None => Ok None
  | Some identity_row =>
      match causal_clock d with
      | None => Ok None
      | Some clock_row =>
          identity ← _identity_from_row identity_row;
          actor ← CausalActor.make (DurableNodeIdentity.configured_node_id identity)
                    (DurableNodeIdentity.causal_incarnation identity);
          frontier ← decode_version_vector (frontier_json clock_row);
          state ← DurableCausalState.make actor (row_counter clock_row) frontier;
          Ok (Some state)
      end
  end.

Definition load_clock : M t (option DurableCausalState.t) :=
  _ ← _ensure_open;
  run (λ _ d, (select_clock d, d)) None.

Definition _upsert_clock (state : DurableCausalState.t) (now : Z) (d : db) : result db :=
  counter ← column (DurableCausalState.local_counter state);
  now ← column now;
  Ok (Db (schema_migrations d) (node_identity d)
        (Some (ClockRow counter (encode_version_vector (DurableCausalState.frontier state)) now))
        (crdt_entries d) (quick_check d)).

Definition save_clock (state : DurableCausalState.t) (deadline : option Deadline.t) : M t unit :=
  _ ← _ensure_open;
  run (λ f, transaction (λ d, d ← _upsert_clock state (time_ns f) d; Ok (tt, d))) deadline.

Definition _upsert_entry (encoded : EncodedCrdtEntry) (authoritative : bool) (now : Z) (d : db) : result db :=
  now ← column now;
  Ok (Db (schema_migrations d) (node_identity d) (causal_clock d)
        (<[enc_key encoded := EntryRow encoded authoritative now]> (crdt_entries d)) (quick_check d)).

Definition select_entries (d : db) : result (list StoredCrdtEntry.t) :=
  mapM_result (λ kr : string * entry_row, decode_entry (row_entry kr.2)) (sorted_items (crdt_entries d)).

Definition load_entries : M t (list StoredCrdtEntry.t) :=
  _ ← _ensure_open;
  run (λ _ d, (select_entries d, d)) None.

Definition commit (encoded : EncodedCrdtEntry) (causal_state : DurableCausalState.t) (authoritative : bool)
    (f : fate) : db → result unit * db :=
  transaction (λ d,
    d ← _upsert_clock causal_state (time_ns f) d;
    d ← _upsert_entry encoded authoritative (time_ns f) d;
    Ok (tt, d)).

Definition _commit_entry_and_clock (entry : StoredCrdtEntry.t) (causal_state : DurableCausalState.t)
    (deadline : option Deadline.t) (authoritative : bool) : M t unit :=
  _ ← _ensure_open;
  encoded ← liftM (encode_entry entry);
  catchM (run (commit encoded causal_state authoritative) deadline) [SqliteError]
    (λ _, raiseM PersistenceUnavailableError "SQLite commit failed").

Definition commit_mutation (entry : StoredCrdtEntry.t) (causal_state : DurableCausalState.t)
    (deadline : option Deadline.t) : M t unit :=
  _commit_entry_and_clock entry causal_state deadline true.

Definition commit_observed_entry (entry : StoredCrdtEntry.t) (causal_state : DurableCausalState.t)
    (deadline : option Deadline.t) : M t unit :=
  _commit_entry_and_clock entry causal_state deadline true.

Definition set_authority (authoritative : bool) (now : Z) (r : entry_row) : entry_row :=
  EntryRow (row_entry r) authoritative now.

Definition mark_authority (k : string) (authoritative : bool) : M t unit :=
  _ ← _ensure_open;
  run (λ f, transaction (λ d,
    now ← column (time_ns f);
    Ok (tt, Db (schema_migrations d) (node_identity d) (causal_clock d)
              (alter (set_authority authoritative now) k (crdt_entries d)) (quick_check d)))) None.

(** [backup]: a copy of the database at the destination. *)
Definition backup : M t db := _ ← _ensure_open; run (λ _ d, (Ok d, d)) None.

(** *** The tables implement the contract *)

Lemma run_cases {A} (fn : fate → db → result A * db) deadline s r s' : run fn deadline s = (r, s') →
  _opened s' = _opened s ∧
  ((database s' = database s ∧ ∃ e, r = Err e ∧ isinstance e [Exception] = true) ∨
   ∃ f, database s' = (fn f (database s)).2 ∧ (r = (fn f (database s)).1 ∨ r = raise CancelledError "")).
Proof.
  unfold run. destruct (PersistenceExecutor._acquire _ _ _ _) as [x ex] eqn:Ea. apply PersistenceExecutor.acquire_cases in Ea.
  destruct Ea as [[-> _]|(_ & e & -> & He)].
  - destruct (disk_does _); simpl.
    + destruct (fn _ _) as [y d] eqn:E. intros [= <- <-]. split; [done|]. right. eexists. simpl. rewrite E. auto.
    + intros [= <- <-]. split; [done|]. left. split; [done|]. by eexists.
    + destruct (fn _ _) as [y d] eqn:E. intros [= <- <-]. split; [done|]. right. eexists. simpl. rewrite E. auto.
  - intros [= <- <-]. split; [done|]. left. split; [done|]. by eexists.
Qed.

(** Work that only reads. *)
Lemma run_reads {A} (q : db → result A) deadline s r s' : run (λ _ d, (q d, d)) deadline s = (r, s') →
  database s' = database s ∧ match r with Ok a => q (database s) = Ok a | Err _ => True end.
Proof.
  intros (_ & [(Hd & e & -> & _)|(f & Hd & [Hr|Hr])])%run_cases; simpl in *; subst; try done.
  split; [done|]. by destruct (q (database s)).
Qed.

Definition row_valid (k : string) (row : entry_row) : Prop :=
  ∃ e, decode_entry (row_entry row) = Ok e ∧ key e = k ∧ entry_valid e.

Definition clock_row_valid (d : db) (row : clock_row) : Prop :=
  ∃ i f, node_identity d = Some i ∧ decode_version_vector (frontier_json row) = Ok f ∧ vector_valid f ∧
         VersionVector.get f (DurableNodeIdentity.actor_of i) = row_counter row.

(** What every transaction keeps true of the tables. *)
Record db_wf (d : db) : Prop := {
  wf_rows : map_Forall row_valid (crdt_entries d);
  wf_clock row : causal_clock d = Some row → clock_row_valid d row;
  wf_identity i : node_identity d = Some i → DurableNodeIdentity.valid i;
}.

Definition decoded (row : entry_row) : option StoredCrdtEntry.t :=
  match decode_entry (row_entry row) with Ok e => Some e | Err _ => None end.

Definition db_stored (d : db) : gmap string StoredCrdtEntry.t := omap decoded (crdt_entries d).

Definition db_clock (d : db) : option DurableCausalState.t :=
  match select_clock d with Ok c => c | Err _ => None end.

Lemma stored_lookup d k e : db_wf d → db_stored d !! k = Some e → key e = k ∧ entry_valid e.
Proof.
  intros Hd E. unfold db_stored in E. rewrite lookup_omap in E. destruct (crdt_entries d !! k) as [row|] eqn:Er; [|done].
  destruct (wf_rows d Hd k row Er) as (e' & De & Hk & Hv). simpl in E. unfold decoded in E. rewrite De in E.
  by injection E as <-.
Qed.

Lemma identity_from_valid i : DurableNodeIdentity.valid i → _identity_from_row i = Ok i.
Proof.
  intros [Hn Hi]. unfold _identity_from_row, DurableNodeIdentity.make, nonempty.
  rewrite bool_decide_eq_false_2, (proj2 (Z.ltb_ge _ _)) by done || lia. by destruct i.
Qed.

Lemma select_identity_wf d : db_wf d → select_identity d = Ok (node_identity d).
Proof.
  intros Hd. unfold select_identity. destruct (node_identity d) as [i|] eqn:E; [|done].
  by rewrite identity_from_valid by by apply (wf_identity d Hd).
Qed.

Lemma actor_make_valid i : DurableNodeIdentity.valid i →
  CausalActor.make (DurableNodeIdentity.configured_node_id i) (DurableNodeIdentity.causal_incarnation i) =
  Ok (DurableNodeIdentity.actor_of i).
Proof.
  intros [Hn Hi]. unfold CausalActor.make, nonempty. by rewrite bool_decide_eq_false_2, (proj2 (Z.ltb_ge _ _)) by done || lia.
Qed.

Lemma select_clock_wf d : db_wf d → select_clock d = Ok (db_clock d) ∧
  ∀ c, db_clock d = Some c → DurableCausalState.valid c ∧
    ∃ i, node_identity d = Some i ∧ DurableCausalState.actor c = DurableNodeIdentity.actor_of i.
Proof.
  intros Hd. unfold db_clock, select_clock. destruct (node_identity d) as [i|] eqn:Ei; [|done].
  destruct (causal_clock d) as [row|] eqn:Er; [|done].
  destruct (wf_clock d Hd row Er) as (i' & f & Ei' & Ef & Hf & Hc). rewrite Ei in Ei'. injection Ei' as <-.
  pose proof (wf_identity d Hd i Ei) as Hi. rewrite identity_from_valid by done. cbn [mbind result_bind].
  rewrite actor_make_valid by done. cbn [mbind result_bind]. rewrite Ef. cbn [mbind result_bind].
  rewrite <-Hc, DurableCausalState.make_at by apply Hf. cbn [mbind result_bind]. split; [done|].
  intros c [= <-]. split; [by apply DurableCausalState.valid_at|]. by exists i.
Qed.

(** The clock read back after it was written. *)
Lemma clock_written d i c now row : node_identity d = Some i → DurableNodeIdentity.valid i →
  DurableCausalState.valid c → DurableCausalState.actor c = DurableNodeIdentity.actor_of i →
  causal_clock d = Some (ClockRow (DurableCausalState.local_counter c)
                           (encode_version_vector (DurableCausalState.frontier c)) now) →
  (causal_clock d = Some row → clock_row_valid d row) ∧ db_clock d = Some c.
Proof.
  intros Ei Hi [Hv Hc] Ha Er. split.
  - rewrite Er. intros [= <-]. exists i, (DurableCausalState.frontier c). split_and!; simpl; [done|by apply vector_read|done|].
    by rewrite <-Ha.
  - unfold db_clock, select_clock. rewrite Ei, Er. rewrite identity_from_valid by done. cbn [mbind result_bind].
    rewrite actor_make_valid by done. cbn [mbind result_bind frontier_json row_counter]. rewrite vector_read by done.
    cbn [mbind result_bind]. rewrite <-Ha, <-Hc, DurableCausalState.make_at by apply Hv. cbn [mbind result_bind].
    by rewrite <-DurableCausalState.valid_eta by by split.
Qed.

Lemma column_inv z z' : column z = Ok z' → z' = z.
Proof. unfold column. case_match; [|done]. by intros [= <-]. Qed.

(** A clock write on its own. *)
Lemma upsert_clock_db c now d d' i : db_wf d → DurableCausalState.valid c → node_identity d = Some i →
  DurableCausalState.actor c = DurableNodeIdentity.actor_of i → _upsert_clock c now d = Ok d' →
  db_wf d' ∧ node_identity d' = node_identity d ∧ crdt_entries d' = crdt_entries d ∧ db_clock d' = Some c.
Proof.
  intros Hd Hc Ei Ha E. unfold _upsert_clock in E. apply bind_Ok_inv in E as (n & ->%column_inv & E).
  apply bind_Ok_inv in E as (m & ->%column_inv & E). injection E as <-.
  pose proof (wf_identity d Hd i Ei) as Hi. split_and!; [split; simpl|done|done|].
  - apply (wf_rows d Hd).
  - intros row Er. by eapply (clock_written (Db _ _ _ _ _) i c now row).
  - apply (wf_identity d Hd).
  - by eapply (clock_written (Db _ _ _ _ _) i c now (ClockRow 0 "" 0)).
Qed.

Lemma upsert_entry_db e enc b now d d' : db_wf d → entry_valid e → encode_entry e = Ok enc →
  _upsert_entry enc b now d = Ok d' →
  db_wf d' ∧ node_identity d' = node_identity d ∧ db_clock d' = db_clock d ∧
  db_stored d' = <[key e := e]> (db_stored d).
Proof.
  intros Hd He Ee E. destruct (entry_read e He) as (enc' & Ee' & Hk & De). rewrite Ee in Ee'. injection Ee' as <-.
  unfold _upsert_entry in E. apply bind_Ok_inv in E as (n & ->%column_inv & E). injection E as <-.
  split_and!; [split; simpl|done|done|].
  - apply map_Forall_insert_2; [|apply (wf_rows d Hd)]. by exists e.
  - apply (wf_clock d Hd).
  - apply (wf_identity d Hd).
  - unfold db_stored. simpl. rewrite Hk. apply omap_insert_Some. unfold decoded. simpl. by rewrite De.
Qed.

Lemma bind_Err_inv {A B} (f : A → result B) (m : result A) x :
  (m ≫= f) = Err x → m = Err x ∨ ∃ a, m = Ok a ∧ f a = Err x.
Proof. destruct m; [eauto|]. simpl. intros [= ->]. by left. Qed.

Definition same_db (d d' : db) : Prop :=
  db_stored d' = db_stored d ∧ db_clock d' = db_clock d ∧ node_identity d' = node_identity d.

Lemma commit_db e enc c b f d : db_wf d → entry_valid e → encode_entry e = Ok enc → DurableCausalState.valid c →
  (∃ i, node_identity d = Some i ∧ DurableCausalState.actor c = DurableNodeIdentity.actor_of i) →
  let '(r, d') := commit enc c b f d in
  db_wf d' ∧
  match r with
  | Ok _ => db_stored d' = <[key e := e]> (db_stored d) ∧ db_clock d' = Some c ∧ node_identity d' = node_identity d
  | Err x => d' = d ∧ isinstance x [Exception] = true
  end.
Proof.
  intros Hd He Ee Hc (i & Ei & Ha). unfold commit, transaction.
  assert (∀ z x, column z = Err x → isinstance x [Exception] = true) as Hcol.
  { intros z x. unfold column. case_match; [done|]. by intros [= <-]. }
  destruct (_upsert_clock c (time_ns f) d) as [d1|x] eqn:E1; cbn [mbind result_bind].
  2: { split; [done|]. split; [done|]. apply bind_Err_inv in E1 as [E1|(n & _ & E1)]; [by eapply Hcol|].
       apply bind_Err_inv in E1 as [E1|(m & _ & E1)]; [by eapply Hcol|done]. }
  destruct (upsert_clock_db c _ d d1 i Hd Hc Ei Ha E1) as (Hd1 & Ei1 & Er1 & Ec1).
  destruct (_upsert_entry enc b (time_ns f) d1) as [d2|x] eqn:E2; cbn [mbind result_bind].
  2: { split; [done|]. split; [done|]. apply bind_Err_inv in E2 as [E2|(n & _ & E2)]; [by eapply Hcol|done]. }
  destruct (upsert_entry_db e enc b _ d1 d2 Hd1 He Ee E2) as (Hd2 & Ei2 & Ec2 & Es2).
  split; [done|]. split_and!; [|congruence..]. rewrite Es2. unfold db_stored. by rewrite Er1.
Qed.

(** [ORDER BY key]. *)
Lemma sorted_items_fmap {A B} (f : A → B) (m : gmap string A) :
  sorted_items (f <$> m) = prod_map id f <$> sorted_items m.
Proof.
  assert ((prod_map id f <$> sorted_items m).*1 = (sorted_items m).*1) as Hk.
  { rewrite <-list_fmap_compose. by apply list_fmap_ext. }
  rewrite <-(sorted_items_dict_of (prod_map id f <$> sorted_items m)).
  - f_equal. rewrite dict_of_NoDup by (rewrite Hk; apply NoDup_sorted_items_fst).
    rewrite list_to_map_fmap. f_equal. rewrite <-dict_of_NoDup by apply NoDup_sorted_items_fst.
    symmetry. apply dict_of_sorted_items.
  - rewrite Hk. apply NoDup_sorted_items_fst.
  - apply StronglySorted_fmap with (R1 := key_le); [by intros ???|]. apply sorted_items_sorted.
Qed.

Lemma select_entries_wf d : db_wf d → select_entries d = Ok (sorted_items (db_stored d)).*2.
Proof.
  intros Hd. unfold select_entries. set (dflt := StoredCrdtEntry.mk "" GCOUNTER (SGCounter GCounter.empty)
    VersionVector.empty VersionVector.empty). set (g := λ row, default dflt (decoded row)).
  assert (db_stored d = g <$> crdt_entries d) as ->.
  { unfold db_stored. apply map_eq. intros k. rewrite lookup_omap, lookup_fmap.
    destruct (crdt_entries d !! k) as [row|] eqn:Er; [|done]. simpl. unfold g, decoded.
    by destruct (wf_rows d Hd k row Er) as (e & -> & _). }
  rewrite sorted_items_fmap, <-list_fmap_compose. apply mapM_result_Ok. intros [k row] Hin. simpl.
  apply elem_of_sorted_items in Hin. unfold g, decoded. by destruct (wf_rows d Hd k row Hin) as (e & -> & _).
Qed.

Definition r_stored (s : t) : gmap string StoredCrdtEntry.t := db_stored (database s).
Definition r_clock (s : t) : option DurableCausalState.t := db_clock (database s).
Definition r_identity (s : t) : option DurableNodeIdentity.t := node_identity (database s).

Lemma ensure_open_cases {A} (m : M t A) s r s' : (_ensure_open ≫= λ _, m) s = (r, s') →
  (m s = (r, s')) ∨ (s' = s ∧ ∃ e, r = Err e ∧ isinstance e [Exception] = true).
Proof.
  unfold mbind, M_bind, _ensure_open. destruct (_opened s); [by left|]. intros [= <- <-]. right. split; [done|]. by eexists.
Qed.

Lemma catch_cases {A} (m : M t A) cs c msg s r s' : issubclass c Exception = true →
  catchM m cs (λ _, raiseM c msg) s = (r, s') →
  ∃ r0, m s = (r0, s') ∧ (r = r0 ∨ ∃ e e', r0 = Err e ∧ r = Err e' ∧ isinstance e cs = true ∧ isinstance e' [Exception] = true).
Proof.
  intros Hc. unfold catchM. destruct (m s) as [[a|e] s1].
  - intros [= <- <-]. eexists. split; [done|]. by left.
  - destruct (isinstance e cs) eqn:Ei; simpl; intros [= <- <-]; eexists; (split; [done|]); [right|by left].
    exists e. eexists. split_and!; [done..|]. unfold isinstance. simpl. by rewrite Hc.
Qed.

Lemma reads_unchanged (s s' : t) : db_wf (database s) → database s' = database s →
  db_wf (database s') ∧ unchanged r_stored r_clock r_identity s s'.
Proof. intros Hs E. unfold unchanged, r_stored, r_clock, r_identity. rewrite E. done. Qed.

Lemma initialize_db n f d : db_wf d → n ≠ "" →
  let '(x, d') := initialize n f d in
  db_wf d' ∧ db_stored d' = db_stored d ∧ db_clock d' = db_clock d ∧
  match node_identity d with
  | Some i => node_identity d' = Some i ∧
      match x with Ok i' => i' = i ∧ DurableNodeIdentity.configured_node_id i = n | Err _ => True end
  | None => match x with
            | Ok i => node_identity d' = Some i ∧ DurableNodeIdentity.configured_node_id i = n
            | Err _ => node_identity d' = None
            end
  end.
Proof.
  intros Hd Hn. unfold initialize, transaction. rewrite select_identity_wf by done. cbn [mbind result_bind].
  destruct (node_identity d) as [i|] eqn:Ei.
  { destruct (bool_decide _) eqn:Eb; simpl; boolify; by rewrite Ei. }
  destruct (DurableNodeIdentity.make _ _ _) as [i|x] eqn:Em; cbn [mbind result_bind]; [|by rewrite Ei].
  destruct (column (DurableNodeIdentity.causal_incarnation i)); cbn [mbind result_bind]; [|by rewrite Ei].
  destruct (column (time_ns f)); cbn [mbind result_bind]; [|by rewrite Ei].
  assert (i = DurableNodeIdentity.mk (uuid4 f) n (Z.max 1 (time_ns f))) as ->.
  { unfold DurableNodeIdentity.make in Em. repeat case_match; try done. by injection Em as <-. }
  assert (causal_clock d = None) as Hc.
  { destruct (causal_clock d) as [row|] eqn:Er; [|done]. destruct (wf_clock d Hd row Er) as (i & f' & ? & _). congruence. }
  split_and!; [split; simpl|done| |done|done].
  - apply (wf_rows d Hd).
  - rewrite Hc. done.
  - intros i [= <-]. split; [done|]. simpl. lia.
  - unfold db_clock, select_clock. simpl. by rewrite Ei, Hc.
Qed.

Lemma commit_entry_spec e c dl b s x s' : db_wf (database s) → entry_valid e → DurableCausalState.valid c →
  owned r_identity s c → _commit_entry_and_clock e c dl b s = (x, s') →
  db_wf (database s') ∧ commit_contract r_stored r_clock r_identity e c s s' x.
Proof.
  intros Hs He Hc Ho E. unfold _commit_entry_and_clock in E. apply ensure_open_cases in E as [E|(-> & err & -> & _)].
  2: { split; [done|]. by left. }
  destruct (entry_read e He) as (enc & Ee & _). unfold mbind, M_bind, liftM in E. rewrite Ee in E.
  apply catch_cases in E as (r0 & E & Hr0); [|done]. apply run_cases in E as (_ & Hrun).
  pose proof (λ f, commit_db e enc c b f (database s) Hs He Ee Hc Ho) as Hcm.
  destruct Hrun as [(Hd & err & -> & _)|(f & Hd & Hr)].
  - destruct Hr0 as [->|(? & ? & _ & -> & _)]; (split; [by rewrite Hd|]); left; by apply reads_unchanged.
  - specialize (Hcm f). destruct (commit enc c b f (database s)) as [y d'] eqn:Ey. simpl in Hd, Hr. destruct Hcm as [Hd' Hy].
    split; [by rewrite Hd|]. destruct y as [[]|y].
    + destruct Hr as [-> | ->].
      * destruct Hr0 as [->|(? & ? & ? & _)]; [|done]. unfold commit_contract, r_stored, r_clock, r_identity. by rewrite Hd.
      * destruct Hr0 as [->|(e1 & ? & E1 & _ & E2 & _)]; [|injection E1 as <-; by vm_compute in E2].
        right. unfold r_stored, r_clock, r_identity. by rewrite Hd.
    + destruct Hy as [-> Hex]. assert (unchanged r_stored r_clock r_identity s s') as Hu by (by apply reads_unchanged).
      destruct Hr0 as [->|(? & ? & _ & -> & _)]; [destruct Hr as [-> | ->]|]; by left.
Qed.

#[export] Program Instance sqlite_repository : StateRepository t := {|
  repo_wf s := db_wf (database s);
  Repository.stored := r_stored;
  Repository.saved_clock := r_clock;
  Repository.saved_identity := r_identity;
  Repository.integrity_check := integrity_check;
  Repository.load_identity := load_identity;
  Repository.initialize_identity := initialize_identity;
  Repository.load_clock := load_clock;
  Repository.save_clock := save_clock;
  Repository.load_entries := load_entries;
  Repository.commit_mutation := commit_mutation;
  Repository.commit_observed_entry := commit_observed_entry;
  Repository.mark_authority := mark_authority;
|}.
Next Obligation.
  intros s Hs. split; intros k e E; by apply stored_lookup in E as [Hk Hv]; [try (split; [done|]; apply Hv)|].
Qed.
Next Obligation. intros s c Hs E. by apply (select_clock_wf (database s) Hs). Qed.
Next Obligation. intros s i Hs E. by apply (wf_identity (database s) Hs). Qed.
Next Obligation.
  intros s x s' Hs E. apply ensure_open_cases in E as [E|(-> & _)]; [|done].
  apply catch_cases in E as (r0 & E & _); [|done]. apply (run_reads (λ d, if quick_check d then _ else _)) in E as [E _].
  by apply reads_unchanged.
Qed.
Next Obligation.
  intros s x s' Hs E. apply ensure_open_cases in E as [E|(-> & ? & -> & _)]; [|by split].
  apply run_reads in E as [E Hx]. destruct (reads_unchanged s s' Hs E). split_and!; try done.
  destruct x as [i|]; [|done]. rewrite select_identity_wf in Hx by done. by injection Hx as <-.
Qed.
Next Obligation.
  intros n s x s' Hs E. assert (r_identity s = node_identity (database s)) as Ei by done.
  apply ensure_open_cases in E as [E|(-> & ? & -> & _)]; [|rewrite Ei; by destruct (node_identity (database s))].
  destruct (nonempty n) eqn:Hn; simpl in E; [|injection E as <- <-; rewrite Ei; by destruct (node_identity (database s))].
  assert (n ≠ "") as Hne by (intros ->; done). apply run_cases in E as (_ & [(Hd & e & -> & _)|(f & Hd & Hr)]).
  - unfold r_stored, r_clock, r_identity. rewrite Hd. by destruct (node_identity (database s)).
  - pose proof (initialize_db n f (database s) Hs Hne) as Hin. destruct (initialize n f (database s)) as [y d].
    simpl in *. subst d. destruct Hin as (H1 & H2 & H3 & H4). split_and!; try done.
    unfold r_identity in *. destruct (node_identity (database s)) as [i|]; [destruct H4 as [H4 H5]; split; [done|]|];
      destruct Hr as [-> | ->]; try done; by destruct y.
Qed.
Next Obligation.
  intros s x s' Hs E. apply ensure_open_cases in E as [E|(-> & ? & -> & _)]; [|by split].
  apply run_reads in E as [E Hx]. destruct (reads_unchanged s s' Hs E). split_and!; try done.
  destruct x as [c|]; [|done]. rewrite (proj1 (select_clock_wf _ Hs)) in Hx. by injection Hx as <-.
Qed.
Next Obligation.
  intros c dl s x s' Hs Hc (i & Ei & Ha) E. apply ensure_open_cases in E as [E|(-> & ? & -> & _)]; [|by split_and!; auto].
  apply run_cases in E as (_ & [(Hd & e & -> & _)|(f & Hd & Hr)]).
  - destruct (reads_unchanged s s' Hs Hd) as (? & ? & ? & ?). by split_and!; auto.
  - unfold transaction in *. destruct (_upsert_clock c (time_ns f) (database s)) as [d|y] eqn:Eu; cbn [mbind result_bind fst snd] in *.
    + destruct (upsert_clock_db c _ _ d i Hs Hc Ei Ha Eu) as (Hd1 & Ei1 & Er1 & Ec1).
      unfold r_stored, r_clock, r_identity, db_stored in *. rewrite Hd, Er1, Ei1, Ec1. split_and!; try done.
      destruct Hr as [-> | ->]; simpl; auto.
    + destruct (reads_unchanged s s' Hs Hd) as (? & ? & ? & ?). split_and!; try done.
      destruct Hr as [-> | ->]; simpl; auto.
Qed.
Next Obligation.
  intros s x s' Hs E. apply ensure_open_cases in E as [E|(-> & ? & -> & _)]; [|by split].
  apply run_reads in E as [E Hx]. destruct (reads_unchanged s s' Hs E). split_and!; try done.
  destruct x as [l|]; [|done]. rewrite select_entries_wf in Hx by done. by injection Hx as <-.
Qed.
Next Obligation. intros e c dl s x s'. apply commit_entry_spec. Qed.
Next Obligation. intros e c dl s x s'. apply commit_entry_spec. Qed.
Next Obligation.
  intros k b s x s' Hs E. apply ensure_open_cases in E as [E|(-> & _)]; [|done].
  apply run_cases in E as (_ & [(Hd & _)|(f & Hd & _)]); [by apply reads_unchanged|].
  unfold transaction in Hd. destruct (column (time_ns f)); cbn [mbind result_bind fst snd] in Hd; [|by apply reads_unchanged].
  assert (∀ k', omap decoded (alter (set_authority b a) k (crdt_entries (database s))) !! k' =
                omap decoded (crdt_entries (database s)) !! k') as Hom.
  { intros k'. rewrite !lookup_omap. destruct (decide (k = k')) as [<-|Hne].
    - rewrite lookup_alter_eq. by destruct (crdt_entries (database s) !! k).
    - by rewrite lookup_alter_ne. }
  split.
  - rewrite Hd. split; simpl; [|apply (wf_clock _ Hs)|apply (wf_identity _ Hs)].
    intros k' row Er. apply lookup_alter_Some in Er as [(-> & row' & Er & ->)|[_ Er]]; apply (wf_rows _ Hs) in Er; done.
  - unfold unchanged, r_stored, r_clock, r_identity. rewrite Hd. split_and!; try done. by apply map_eq.
Qed.
End SQLiteStateRepository.
Export (hints) SQLiteStateRepository.
