(* ===== verification/DurableStore.v ===== *)
(** * The durable store: [distsys/persistence/durable_store.py]

    The store that persists an entry and the causal clock before it changes memory.
    It is generic in its repository, and it implements the store interface the CRDT
    service is written against.  [safe] is what makes a crash harmless; every
    operation of the node preserves it, whatever the disk does. *)

From S2P Require Import Prelude Lattice Causal Json Crdt Storage Resilience.
From S2P Require Import Membership Ring CrdtCodec Repair CrdtService Persistence Repository.

Local Open Scope Z_scope.
Import StoredCrdtEntry (key, crdt_type, state, state_version, causal_context).
Import CrdtCodec.
Import CrdtCodecSpec (dot_valid, counters_valid, vector_valid, state_valid, entry_valid).

(** ** Merging keeps entries fit for the disk *)

Lemma counters_valid_normalized (d : gmap CausalActor.t Z) :
  (∀ a n, d !! a = Some n → CausalActor.valid a = true) → counters_valid (normalized d).
Proof.
  intros Hd. unfold counters_valid. rewrite Forall_forall. intros [a n] Hin. simpl.
  assert (dict_of (normalized d) !! a = Some n) as E.
  { unfold normalized in *. rewrite dict_of_sorted_items. by apply elem_of_sorted_items. }
  apply lookup_normalized in E as [E _]. by eapply Hd.
Qed.

Lemma counters_valid_dict l a n : counters_valid l → dict_of l !! a = Some n → CausalActor.valid a = true.
Proof.
  intros H. revert n. induction H as [|[b m] l Hb Hl IH]; intros n; [done|]. rewrite dict_of_cons_lookup.
  destruct (dict_of l !! a) as [x|]; [intros _; by apply (IH x)|]. case_decide; [by subst|done].
Qed.

Lemma counters_valid_merged l1 l2 : counters_valid l1 → counters_valid l2 →
  counters_valid (normalized (max_dict l1 l2)).
Proof.
  intros H1 H2. apply counters_valid_normalized. intros a n E. unfold max_dict in E.
  unfold counters_valid in *. rewrite Forall_forall in H1, H2.
  apply lookup_set_to_map in E as (b & Hb & [= -> _]); [|naive_solver].
  unfold keys_of in Hb. rewrite elem_of_union, !elem_of_list_to_set, !list_elem_of_fmap in Hb.
  destruct Hb as [([b m] & -> & Hb)|([b m] & -> & Hb)]; [exact (H1 _ Hb)|exact (H2 _ Hb)].
Qed.

Lemma counters_valid_insert l a n : counters_valid l → CausalActor.valid a = true →
  counters_valid (normalized (<[a := n]> (dict_of l))).
Proof.
  intros Hl Ha. apply counters_valid_normalized. intros b m.
  rewrite lookup_insert_Some. intros [[<- _]|[_ E]]; [done|]. by eapply counters_valid_dict.
Qed.

Lemma vector_valid_merge v w : vector_valid v → vector_valid w → vector_valid (VersionVector.merge v w).
Proof. intros [H1 H2] [H3 H4]. split; [auto with distsys|by apply counters_valid_merged]. Qed.

Lemma orset_valid_iff s : ORSet.wf s →
  Forall (λ ed, set_Forall dot_valid ed.2) (ORSet._adds s) ↔
  map_Forall (λ _ ds, set_Forall dot_valid ds) (ORSet._add_map s).
Proof.
  intros Hw. rewrite Forall_forall. unfold ORSet._add_map. split.
  - intros H k ds E. apply elem_of_sorted_items in E. rewrite <-Hw in E. exact (H _ E).
  - intros H [k ds] Hin. rewrite Hw in Hin. apply elem_of_sorted_items in Hin. exact (H _ _ Hin).
Qed.

Lemma register_valid_iff s : MVRegister.wf s →
  Forall (λ de, dot_valid de.1 ∧ is_ok (loads de.2) = true) (MVRegister._values s) ↔
  map_Forall (λ d t, dot_valid d ∧ is_ok (loads t) = true) (MVRegister._value_map s).
Proof.
  intros Hw. rewrite Forall_forall. unfold MVRegister._value_map. split.
  - intros H d t E. apply elem_of_sorted_items in E. rewrite <-Hw in E. exact (H _ E).
  - intros H [d t] Hin. rewrite Hw in Hin. apply elem_of_sorted_items in Hin. exact (H _ _ Hin).
Qed.

Lemma state_valid_merge a b c : state_wf a → state_wf b → state_valid a → state_valid b →
  _merge_state a b = Ok c → state_valid c.
Proof.
  destruct a as [a|a|a|a], b as [b|b|b|b]; intros Ha Hb Va Vb E; simpl in E; try done.
  - injection E as <-. by apply counters_valid_merged.
  - injection E as <-. destruct Va, Vb. by split; apply counters_valid_merged.
  - injection E as <-. destruct Va as [Va Ra], Vb as [Vb Rb]. split.
    + apply orset_valid_iff; [apply ORSet.or_init_wf|]. apply orset_valid_iff in Va, Vb; [|done..].
      rewrite ORSet.add_map_merge by done. intros k ds E. apply lookup_union_with_Some in E.
      destruct E as [[E _]|[[_ E]|(x & y & Ex & Ey & [= <-])]]; [exact (Va _ _ E)|exact (Vb _ _ E)|].
      apply set_Forall_union; [exact (Va _ _ Ex)|exact (Vb _ _ Ey)].
    + by apply set_Forall_union.
  - apply bind_Ok_inv in E as (m & Em & [= <-]). destruct Va as [Va Ra], Vb as [Vb Rb].
    apply MVRegister.merge_inv in Em as [_ ->]; [|done]. split; [|by apply set_Forall_union].
    apply register_valid_iff; [apply MVRegister.mv_init_wf|]. apply register_valid_iff in Va, Vb; [|done..].
    rewrite MVRegister.value_map_init. intros d t [E|[_ E]]%lookup_union_Some_raw; [exact (Va _ _ E)|exact (Vb _ _ E)].
Qed.

Lemma entry_valid_merge x e m : entry_valid x → entry_valid e → merge_entries x e = Ok m → entry_valid m.
Proof.
  intros (Wx & Sx & Vx & Cx) (We & Se & Ve & Ce) E. pose proof (merge_entries_wf x e m Wx We E) as Wm.
  apply merge_entries_inv in E as (_ & _ & _ & _ & Es & Ev & Ec); [|done..].
  pose proof Wx as (_ & _ & Hx & _). pose proof We as (_ & _ & He & _).
  split; [done|]. split; [by apply (state_valid_merge (state x) (state e))|].
  rewrite Ev, Ec. split; by apply counters_valid_merged.
Qed.

Lemma entry_valid_learned e c : entry_valid e → vector_valid c → entry_valid (CrdtStore.learned e c).
Proof.
  intros (We & Se & Ve & Ce) [Wc Vc]. split; [by apply CrdtStore.learned_wf|]. split; [done|]. split; [done|].
  by apply counters_valid_merged.
Qed.

Lemma entry_context_valid e : entry_valid e → vector_valid (causal_context e).
Proof. intros (We & _ & _ & Ce). split; [by destruct We as (_ & _ & _ & _ & ?)|done]. Qed.

(** ** Local mutations keep entries fit for the disk *)

Lemma vector_valid_with_dot v d : vector_valid v → CausalActor.valid (Dot.actor d) = true →
  vector_valid (VersionVector.with_dot v d).
Proof.
  intros [Wv Vv] Hd. split; [by apply VersionVector.with_dot_wf|]. by apply counters_valid_insert.
Qed.

Lemma increment_valid c a n c' : counters_valid (GCounter.components c) → CausalActor.valid a = true →
  GCounter.increment c a n = Ok c' → counters_valid (GCounter.components c').
Proof.
  unfold GCounter.increment. intros Hc Ha. case_match; [done|]. unfold GCounter.init. case_match; [done|].
  intros [= <-]. by apply counters_valid_insert.
Qed.

Lemma empty_state_valid ty : state_valid (CrdtService._empty_state ty).
Proof.
  destruct ty; apply (bool_decide_unpack _); vm_compute; exact I.
Qed.

Lemma apply_mutation_valid a st request d st' : state_wf st → state_valid st → dot_valid d →
  CausalActor.valid a = true → unique_keys (mut_value request) →
  CrdtService._apply_mutation a st request d = Ok st' → state_valid st'.
Proof.
  intros Hw Hst Hd Ha Hu. unfold CrdtService._apply_mutation. destruct (mut_type request).
  - case_match; [done|]. destruct st; try done. intros (c' & Ec & [= <-])%bind_Ok_inv. by eapply increment_valid.
  - destruct st as [|c| |]; try done. destruct Hst as [Hp Hn].
    case_match; [|case_match; [|done]]; intros (c' & Ec & [= <-])%bind_Ok_inv;
      apply bind_Ok_inv in Ec as (g & Eg & [= <-]); split; simpl; try done; (eapply increment_valid; [| |exact Eg]; done).
  - destruct st as [| |c|]; try done. destruct (mut_value request); try done. destruct Hst as [Hadd Hrem].
    apply orset_valid_iff in Hadd; [|done].
    assert (∀ e, set_Forall dot_valid (ORSet.dots_of (ORSet._add_map c) e)) as Hdots.
    { intros e. unfold ORSet.dots_of. destruct (_ !! e) as [ds|] eqn:E; [exact (Hadd _ _ E)|]. intros ? ?. set_solver. }
    case_match; [|case_match; [|done]]; intros [= <-]; (split; [apply orset_valid_iff; [apply ORSet.or_init_wf|]|]);
      unfold ORSet.add, ORSet.remove; rewrite ?ORSet.add_map_init; simpl; try done.
    + apply map_Forall_insert_2; [|done]. apply set_Forall_union; [apply Hdots|]. by apply set_Forall_singleton.
    + apply set_Forall_union; [done|]. intros x Hx. apply (Hdots s). set_solver.
  - destruct st as [| | |c]; try done. case_match; [done|]. intros [= <-]. destruct Hst as [Hv Hs].
    apply register_valid_iff in Hv; [|done]. split.
    + apply register_valid_iff; [apply MVRegister.mv_init_wf|]. unfold MVRegister.write.
      rewrite MVRegister.value_map_init. apply map_Forall_insert_2; [|done]. split; [done|].
      unfold MVRegister._canonical_json. by rewrite loads_dumps_canon.
    + apply set_Forall_union; [done|]. intros x Hx. apply elem_of_list_to_set, list_elem_of_filter in Hx as [_ Hx].
      apply list_elem_of_fmap in Hx as ([y z] & -> & Hx). unfold MVRegister.wf in Hw. simpl in Hw. rewrite Hw in Hx.
      apply elem_of_sorted_items in Hx. by destruct (Hv _ _ Hx).
Qed.

(** ** The store *)
Module DurableCrdtStore.
Section store.
Context {R : Type} `{StateRepository R}.

Record t := mk { memory : CrdtStore.t; repository : R; clock : CausalClock.t }.

Definition on_memory {A} (m : M CrdtStore.t A) : M t A := λ s,
  match m (memory s) with (r, x) => (r, mk x (repository s) (clock s)) end.
Definition on_repository {A} (m : M R A) : M t A := λ s,
  match m (repository s) with (r, x) => (r, mk (memory s) x (clock s)) end.
Definition put_clock (c : CausalClock.t) (s : t) : t := mk (memory s) (repository s) c.

Definition get (k : string) : M t (option StoredCrdtEntry.t) := on_memory (CrdtStore.get k).
Definition snapshot (k : string) : M t (option StoredCrdtEntry.t) := on_memory (CrdtStore.snapshot k).
Definition replace (entry : StoredCrdtEntry.t) (expected_type : option CrdtType) : M t StoredCrdtEntry.t :=
  on_memory (CrdtStore.replace entry expected_type).
Definition keys : M t (list string) := on_memory CrdtStore.keys.
Definition snapshot_all (limit : option Z) : M t (list StoredCrdtEntry.t) := on_memory (CrdtStore.snapshot_all limit).

Fixpoint restore_entries (entries : list StoredCrdtEntry.t) : M t unit :=
  match entries with
  | [] => mret tt
  | entry :: entries => _ ← replace entry (Some (crdt_type entry)); restore_entries entries
  end.

(** [DurableCausalState(actor=..., local_counter=frontier.get(actor), frontier=frontier)] *)
Definition causal_state (frontier : VersionVector.t) (s : t) : result DurableCausalState.t :=
  let actor := CausalClock.actor (clock s) in
  DurableCausalState.make actor (VersionVector.get frontier actor) frontier.

Definition commit_local (entry : StoredCrdtEntry.t) (frontier : VersionVector.t) (deadline : option Deadline.t)
    : M t StoredCrdtEntry.t :=
  cs ← reads (causal_state frontier);
  _ ← on_repository (commit_mutation entry cs deadline);
  replace entry (Some (crdt_type entry)).

(** [async with self.clock.staged_observe(version) as observation: persist, replace in
    memory, observation.commit()]. *)
Definition observed_commit (entry : StoredCrdtEntry.t) (expected_type : CrdtType) : M t StoredCrdtEntry.t := λ s,
  let staged := CausalClock.begin_observe (clock s) (causal_context entry) in
  (cs ← reads (causal_state staged);
   _ ← on_repository (commit_observed_entry entry cs None);
   result ← replace entry (Some expected_type);
   _ ← modifyM (λ s, put_clock (CausalClock.end_observe (clock s) staged true) s);
   mret result) s.

Definition merge_entry (incoming : StoredCrdtEntry.t) : M t StoredCrdtEntry.t :=
  existing ← get (key incoming);
  merged ← liftM (match existing with None => Ok incoming | Some existing => merge_entries existing incoming end);
  observed_commit merged (crdt_type merged).

Definition merge_metadata (k : string) (context : VersionVector.t) : M t (option StoredCrdtEntry.t) :=
  existing ← get k;
  match existing with
  | None => mret None
  | Some existing =>
      updated ← liftM (StoredCrdtEntry.with_context existing
                         (VersionVector.merge (causal_context existing) context));
      result ← observed_commit updated (crdt_type existing);
      mret (Some result)
  end.

(** *** It is a store *)

(** What a commit does to the three parts. *)
Lemma observed_commit_cases entry ty s r s' : observed_commit entry ty s = (r, s') →
  match r with
  | Ok x => x = entry ∧ CrdtStore.replace entry (Some ty) (memory s) = (Ok entry, memory s') ∧
            clock s' = CausalClock.mk (CausalClock.actor (clock s))
                         (VersionVector.merge (CausalClock._frontier (clock s)) (causal_context entry))
  | Err _ => memory s' = memory s ∧ clock s' = clock s
  end.
Proof.
  unfold observed_commit, replace, on_memory, on_repository, reads, modifyM, mbind, M_bind.
  destruct (causal_state _ s) as [cs|]; [|by intros [= <- <-]]. simpl.
  destruct (commit_observed_entry _ _ _ _) as [[[]|e] rp]; simpl; [|by intros [= <- <-]].
  destruct (CrdtStore.replace_cases entry (Some ty) (memory s)) as [Hc|[msg Hc]]; rewrite Hc;
    intros [= <- <-]; [|done].
  split_and!; reflexivity.
Qed.

#[export] Program Instance durable_store : CrdtStateStore t := {|
  view := memory;
  store_get := get;
  store_replace := replace;
  store_merge_entry := merge_entry;
  store_merge_metadata := merge_metadata;
  store_keys := keys;
  store_snapshot_all := snapshot_all;
|}.
Next Obligation. by intros k []. Qed.
Next Obligation.
  intros e ty [m rp c] r [m' rp' c'] E. unfold replace, on_memory in E. simpl in *.
  destruct (CrdtStore.replace_cases e ty m) as [Hc|[msg Hc]]; rewrite Hc in E; injection E as <- <- <- <-; done.
Qed.
Next Obligation.
  intros e s r s' Hs He E. unfold merge_entry, get, on_memory, mbind, M_bind, liftM in E. simpl in E.
  destruct s as [m rp c]. simpl in *. rewrite CrdtStore.merge_entry_spec by done.
  destruct (m !! key e) as [x|] eqn:Ex.
  - destruct (merge_entries x e) as [y|err] eqn:Ey; [|by injection E as <- <-].
    apply observed_commit_cases in E. simpl in E. destruct r as [z|]; [|by destruct E]. destruct E as (-> & E & _).
    pose proof (Hs _ _ Ex) as [_ Hx]. apply merge_entries_inv in Ey as (Hk & _ & Hky & _); [|done..].
    destruct (CrdtStore.replace_cases y (Some (crdt_type y)) m) as [Hc|[msg Hc]]; rewrite Hc in E; [|done].
    injection E as <-. by rewrite Hky, Hk.
  - apply observed_commit_cases in E. simpl in E. destruct r as [z|]; [|by destruct E]. destruct E as (-> & E & _).
    destruct (CrdtStore.replace_cases e (Some (crdt_type e)) m) as [Hc|[msg Hc]]; rewrite Hc in E; [|done].
    by injection E as <-.
Qed.
Next Obligation.
  intros k v s r s' Hs Hv E. unfold merge_metadata, get, on_memory, mbind, M_bind, liftM in E. simpl in E.
  destruct s as [m rp c]. simpl in *. rewrite CrdtStore.merge_metadata_spec by done.
  destruct (m !! k) as [x|] eqn:Ex; [|by injection E as <- <-]. pose proof (Hs _ _ Ex) as [Hk Hx].
  rewrite StoredCrdtEntry.with_context_ok in E by done.
  destruct (observed_commit _ _ _) as [[z|err] s1] eqn:Eo; injection E as <- <-; apply observed_commit_cases in Eo;
    simpl in Eo; [|by destruct Eo]. destruct Eo as (-> & Eo & _).
  destruct (CrdtStore.replace_cases (CrdtStore.learned x v) (Some (crdt_type x)) m) as [Hc|[msg Hc]];
    unfold CrdtStore.learned in *; rewrite Hc in Eo; [|done]. injection Eo as <-. simpl. by rewrite Hk.
Qed.
Next Obligation. by intros []. Qed.
Next Obligation.
  intros l [m rp c]. unfold snapshot_all, on_memory. simpl. pose proof (store_snapshot_all_spec (S:=CrdtStore.t) l m) as E.
  simpl in E. by rewrite E.
Qed.

Lemma observed_grows entry ty s r s' : VersionVector.wf (causal_context entry) →
  observed_commit entry ty s = (r, s') → clock_grows (clock s) (clock s').
Proof.
  intros Hc E. apply observed_commit_cases in E. destruct r as [x|]; [|destruct E as [_ ->]; apply clock_grows_refl].
  destruct E as (_ & _ & ->). split_and!; [done| |apply VersionVector.le_merge_l].
  unfold CausalClock.wf. simpl. auto with distsys.
Qed.

#[export] Program Instance durable_clock : ClockedStore t := {|
  clock_of := clock;
  set_clock := put_clock;
  CrdtService.commit_local := commit_local;
|}.
Next Obligation. done. Qed.
Next Obligation. done. Qed.
Next Obligation.
  intros e s r s' Hs He E. simpl in E. unfold merge_entry, get, on_memory, mbind, M_bind, liftM in E. simpl in E.
  destruct s as [m rp c]. simpl in *. destruct (m !! key e) as [x|] eqn:Ex.
  - destruct (merge_entries x e) as [y|err] eqn:Ey; [|injection E as <- <-; apply clock_grows_refl].
    pose proof (Hs _ _ Ex) as [_ Hx]. apply merge_entries_wf in Ey as (_ & _ & _ & _ & Hy); [|done..].
    by apply (observed_grows y _ _ _ _ Hy E).
  - destruct He as (_ & _ & _ & _ & Hc). by apply (observed_grows e _ _ _ _ Hc E).
Qed.
Next Obligation.
  intros k v s r s' Hs Hv E. simpl in E. unfold merge_metadata, get, on_memory, mbind, M_bind, liftM in E. simpl in E.
  destruct s as [m rp c]. simpl in *. destruct (m !! k) as [x|] eqn:Ex; [|injection E as <- <-; apply clock_grows_refl].
  pose proof (Hs _ _ Ex) as [_ Hx]. rewrite StoredCrdtEntry.with_context_ok in E by done.
  destruct (observed_commit _ _ _) as [[z|err] s1] eqn:Eo; injection E as <- <-;
    (eapply observed_grows in Eo; [exact Eo|]); simpl; destruct Hx as (_ & _ & _ & _ & ?); auto with distsys.
Qed.
Next Obligation.
  intros e f d [m rp c] r [m' rp' c'] E. unfold commit_local, replace, on_memory, on_repository, reads, mbind, M_bind in E.
  destruct (causal_state f _) as [cs|]; [|by injection E as <- <- <- <-]. simpl in E.
  destruct (commit_mutation e cs d rp) as [[[]|err] rp1]; [|by injection E as <- <- <- <-]. simpl in E.
  destruct (CrdtStore.replace_cases e (Some (crdt_type e)) m) as [Hc|[msg Hc]]; rewrite Hc in E;
    injection E as <- <- <- <-; simpl; by rewrite ?Hc.
Qed.

(** *** What a crash may lose: nothing

    Everything in memory is on the disk, in the saved entry or in one that contains
    it; and every update the clock has seen, its own included, is counted by the saved
    clock or by the context of an entry. *)
Definition saved_count (r : R) (a : CausalActor.t) : Z :=
  match saved_clock r with Some c => VersionVector.get (DurableCausalState.frontier c) a | None => 0 end.

Definition counted (s : t) : Prop := ∀ a,
  VersionVector.get (CausalClock._frontier (clock s)) a ≤ saved_count (repository s) a ∨
  ∃ k e, memory s !! k = Some e ∧
    VersionVector.get (CausalClock._frontier (clock s)) a ≤ VersionVector.get (causal_context e) a.

Definition owner (s : t) : Prop := ∃ i, saved_identity (repository s) = Some i ∧
  CausalClock.actor (clock s) = DurableNodeIdentity.actor_of i.

Record safe (s : t) : Prop := {
  safe_repo : repo_wf (repository s);
  safe_memory : CrdtStore.wf (memory s);
  safe_entries : map_Forall (λ _ e, entry_valid e) (memory s);
  safe_clock : vector_valid (CausalClock._frontier (clock s));
  safe_owner : owner s;
  safe_saved : store_le (memory s) (stored (repository s));
  safe_counted : counted s;
}.

(** What the node does to its durable state: local writes (the service proves the side
    conditions), merges of entries and of contexts that peers send, and observing a
    context of its own. *)
Definition grows_entry (s : t) (e : StoredCrdtEntry.t) : Prop :=
  match memory s !! key e with Some x => m_le x e | None => True end.

Inductive step : t → t → Prop :=
  | local_write e f d s r s' : entry_valid e → vector_valid f →
      VersionVector.le (CausalClock._frontier (clock s)) f → grows_entry s e →
      commit_local e f d s = (r, s') →
      step s (if is_ok r then put_clock (CausalClock.mk (CausalClock.actor (clock s)) f) s' else s')
  | remote_entry e s r s' : entry_valid e → merge_entry e s = (r, s') → step s s'
  | remote_context k c s r s' : vector_valid c → merge_metadata k c s = (r, s') → step s s'
  | observed k e s : memory s !! k = Some e →
      step s (put_clock (CausalClock.observe (clock s) (causal_context e)).2 s).

Lemma context_le e e' : StoredCrdtEntry.wf e → StoredCrdtEntry.wf e' → m_le e e' →
  VersionVector.le (causal_context e) (causal_context e').
Proof.
  intros He He' E. unfold m_le in E. apply result_equiv_Ok in E. cbn [m_merge entry_mergeable] in E.
  apply merge_entries_inv in E as (_ & _ & _ & _ & _ & _ & Ec); [|done..]. rewrite Ec.
  apply VersionVector.le_merge_l.
Qed.

Lemma causal_state_at f s : VersionVector.wf f →
  causal_state f s = Ok (DurableCausalState.at_frontier (CausalClock.actor (clock s)) f).
Proof. apply DurableCausalState.make_at. Qed.

Lemma owned_at s f : owner s →
  owned saved_identity (repository s) (DurableCausalState.at_frontier (CausalClock.actor (clock s)) f).
Proof. done. Qed.

(** A commit of an entry that contains the one in memory, whatever its outcome. *)
Definition persisted (s : t) (e : StoredCrdtEntry.t) (f : VersionVector.t) (r : result unit) (rp : R) : Prop :=
  repo_wf rp ∧ commit_contract stored saved_clock saved_identity e
    (DurableCausalState.at_frontier (CausalClock.actor (clock s)) f) (repository s) rp r.

Lemma persisted_safe s e f r rp : safe s → entry_valid e → VersionVector.le (CausalClock._frontier (clock s)) f →
  grows_entry s e → persisted s e f r rp → safe (mk (memory s) rp (clock s)).
Proof.
  intros Hs He Hf Hg [Hrp Hc].
  assert (unchanged stored saved_clock saved_identity (repository s) rp ∨
    stored rp = <[key e := e]> (stored (repository s)) ∧
    saved_clock rp = Some (DurableCausalState.at_frontier (CausalClock.actor (clock s)) f) ∧
    saved_identity rp = saved_identity (repository s)) as [(E1 & E2 & E3)|(E1 & E2 & E3)].
  { unfold commit_contract in Hc. destruct r; [by right|]. destruct Hc as [?|(_ & ?)]; auto. }
  - destruct Hs as [? ? ? ? (i & Hi & Ha) Hsv Hct]. split; simpl; try done.
    + exists i. simpl. by rewrite E3.
    + by rewrite E1.
    + intros a. unfold saved_count. simpl. rewrite E2. apply Hct.
  - destruct Hs as [? ? ? ? (i & Hi & Ha) Hsv Hct]. split; simpl; try done.
    + exists i. simpl. by rewrite E3.
    + rewrite E1. intros k x Ex. destruct (decide (k = key e)) as [->|Hne].
      * exists e. rewrite lookup_insert_eq. split; [done|]. unfold grows_entry in Hg. by rewrite Ex in Hg.
      * rewrite lookup_insert_ne by done. by apply Hsv.
    + intros a. left. unfold saved_count. simpl. rewrite E2. apply Hf.
Qed.

Lemma replaced_safe s e f g rp : safe s → entry_valid e → VersionVector.le (CausalClock._frontier (clock s)) f →
  grows_entry s e → persisted s e f (Ok tt) rp → vector_valid g → VersionVector.le g f →
  safe (mk (<[key e := e]> (memory s)) rp (CausalClock.mk (CausalClock.actor (clock s)) g)).
Proof.
  intros Hs He Hf Hg Hp Hvg Hgf. pose proof Hp as [Hrp (E1 & E2 & E3)].
  pose proof (persisted_safe s e f _ rp Hs He Hf Hg Hp) as [_ Hm Hv _ (i & Hi & Ha) Hsv _]. simpl in *.
  split; simpl; try done.
  - by apply CrdtStore.store_wf_insert; [|destruct He].
  - by apply map_Forall_insert_2.
  - by exists i.
  - intros k x. rewrite lookup_insert_Some. intros [[<- <-]|[_ Ex]]; [|by apply Hsv].
    exists e. rewrite E1, lookup_insert_eq. split; [done|]. apply m_le_refl. by destruct He.
  - intros a. left. unfold saved_count. simpl. rewrite E2. apply Hgf.
Qed.

Lemma commit_local_safe e f d s r s' : safe s → entry_valid e → vector_valid f →
  VersionVector.le (CausalClock._frontier (clock s)) f → grows_entry s e → commit_local e f d s = (r, s') →
  safe (if is_ok r then put_clock (CausalClock.mk (CausalClock.actor (clock s)) f) s' else s').
Proof.
  intros Hs He Hf Hle Hg E. unfold commit_local, replace, on_memory, on_repository, reads, mbind, M_bind in E.
  rewrite causal_state_at in E by apply Hf. simpl in E.
  destruct (Repository.commit_mutation e _ d (repository s)) as [x rp] eqn:Ec.
  assert (persisted s e f x rp) as Hp.
  { by apply (commit_mutation_spec e _ d); [apply Hs|..|apply owned_at, Hs|]; [|apply DurableCausalState.valid_at|]. }
  pose proof (persisted_safe s e f x rp Hs He Hle Hg Hp) as Hsafe.
  destruct x as [[]|err]; simpl in E; [|by injection E as <- <-].
  destruct (CrdtStore.replace_cases e (Some (crdt_type e)) (memory s)) as [Hc|[msg Hc]]; rewrite Hc in E;
    injection E as <- <-; [|done]. by apply (replaced_safe s e f f rp).
Qed.

Lemma observed_commit_safe e ty s r s' : safe s → entry_valid e → grows_entry s e →
  observed_commit e ty s = (r, s') → safe s'.
Proof.
  intros Hs He Hg E. set (f := CausalClock.begin_observe (clock s) (causal_context e)).
  assert (vector_valid f) as Hf by (apply vector_valid_merge; [apply Hs|by apply entry_context_valid]).
  assert (VersionVector.le (CausalClock._frontier (clock s)) f) as Hle by apply VersionVector.le_merge_l.
  unfold observed_commit, replace, on_memory, on_repository, reads, modifyM, mbind, M_bind in E. cbv zeta in E. fold f in E.
  rewrite causal_state_at in E by apply Hf. simpl in E.
  destruct (Repository.commit_observed_entry e _ None (repository s)) as [x rp] eqn:Ec.
  assert (persisted s e f x rp) as Hp.
  { by apply (commit_observed_spec e _ None); [apply Hs|..|apply owned_at, Hs|]; [|apply DurableCausalState.valid_at|]. }
  pose proof (persisted_safe s e f x rp Hs He Hle Hg Hp) as Hsafe.
  destruct x as [[]|err]; simpl in E; [|by injection E as <- <-].
  destruct (CrdtStore.replace_cases e (Some ty) (memory s)) as [Hc|[msg Hc]]; rewrite Hc in E;
    injection E as <- <-; [|done]. by apply (replaced_safe s e f f rp).
Qed.

Lemma merge_entry_safe e s r s' : safe s → entry_valid e → merge_entry e s = (r, s') → safe s'.
Proof.
  intros Hs He E. unfold merge_entry, get, on_memory, mbind, M_bind, liftM in E. simpl in E.
  destruct s as [m rp c]. simpl in *. destruct (m !! key e) as [x|] eqn:Ex.
  - destruct (merge_entries x e) as [y|err] eqn:Ey; [|by injection E as <- <-].
    pose proof (safe_entries _ Hs _ _ Ex) as Hx. pose proof (safe_memory _ Hs _ _ Ex) as [_ Wx]. simpl in Wx.
    apply (observed_commit_safe y (crdt_type y) _ r s' Hs); [by apply (entry_valid_merge x e)| |done].
    pose proof Ey as Ey'. destruct He as [We _]. apply merge_entries_inv in Ey as (Hk & _ & Hky & _); [|done..].
    unfold grows_entry. simpl. rewrite Hky, Hk, Ex. by apply (m_le_merge_l x e).
  - apply (observed_commit_safe e (crdt_type e) _ r s' Hs); [done| |done]. unfold grows_entry. simpl. by rewrite Ex.
Qed.

Lemma merge_metadata_safe k c s r s' : safe s → vector_valid c → merge_metadata k c s = (r, s') → safe s'.
Proof.
  intros Hs Hc E. unfold merge_metadata, get, on_memory, mbind, M_bind, liftM in E. simpl in E.
  destruct s as [m rp ck]. simpl in *. destruct (m !! k) as [x|] eqn:Ex; [|by injection E as <- <-].
  pose proof (safe_entries _ Hs _ _ Ex) as Hx. pose proof (safe_memory _ Hs _ _ Ex) as [Hk Wx]. simpl in Hk, Wx.
  rewrite StoredCrdtEntry.with_context_ok in E by done. fold (CrdtStore.learned x c) in E.
  assert (grows_entry (mk m rp ck) (CrdtStore.learned x c)) as Hg.
  { unfold grows_entry. change (key (CrdtStore.learned x c)) with (key x). simpl. rewrite Hk, Ex.
    apply m_le_learned; [done|apply Hc]. }
  destruct (observed_commit _ _ _) as [[z|err] s1] eqn:Eo; injection E as <- <-;
    apply observed_commit_safe in Eo; try done; by apply entry_valid_learned.
Qed.

Lemma observed_safe k e s : safe s → memory s !! k = Some e →
  safe (put_clock (CausalClock.observe (clock s) (causal_context e)).2 s).
Proof.
  intros [Hr Hm Hv Hc (i & Hi & Ha) Hsv Hct] Ex. split; simpl; try done.
  - apply vector_valid_merge; [done|]. apply entry_context_valid. by apply (Hv k).
  - by exists i.
  - intros a. simpl. unfold CausalClock.begin_observe. rewrite VersionVector.get_merge.
    destruct (Z.max_spec (VersionVector.get (CausalClock._frontier (clock s)) a)
                (VersionVector.get (causal_context e) a)) as [[_ ->]|[_ ->]]; [|apply Hct].
    right. by exists k, e.
Qed.

Lemma step_safe s s' : safe s → step s s' → safe s'.
Proof.
  intros Hs Hst. destruct Hst.
  - by eapply commit_local_safe.
  - by eapply merge_entry_safe.
  - by eapply merge_metadata_safe.
  - by eapply observed_safe.
Qed.

(** *** The service over this store

    A mutation of the CRDT service is a local write in this sense, whether the commit
    returns, fails or is cancelled. *)
Lemma owner_valid s : safe s → CausalActor.valid (CausalClock.actor (clock s)) = true.
Proof.
  intros Hs. destruct (safe_owner s Hs) as (i & Hi & ->). destruct (identity_valid _ _ (safe_repo s Hs) Hi) as [Hn Hc].
  unfold CausalActor.valid, DurableNodeIdentity.actor_of. simpl. unfold nonempty.
  rewrite bool_decide_eq_false_2 by done. simpl. apply Z.leb_le. lia.
Qed.

Section mutation.
Context (request : CrdtMutationData) (s : CrdtService.t t) (Hs : safe (CrdtService.store s)).
Hypothesis (Htoken : vector_valid (CausalToken.version (mut_token request))).
Hypothesis (Hvalue : unique_keys (mut_value request)).
Hypothesis (Hcov : ∀ k x, memory (CrdtService.store s) !! k = Some x → CrdtService.covered x).

Let st := CrdtService.store s.
Let prev := match memory st !! mut_key request with Some e => causal_context e | None => VersionVector.empty end.
Let seen := VersionVector.merge prev (CausalToken.version (mut_token request)).
Let a := CausalClock.begin_allocation (clock st) (Some seen).

Lemma seen_valid : vector_valid prev ∧ vector_valid seen.
Proof using Hs Htoken.
  assert (vector_valid prev) as Hp; [|split; [done|by apply vector_valid_merge]].
  unfold prev. destruct (memory st !! mut_key request) as [x|] eqn:Ex; [|by apply (bool_decide_unpack _)].
  apply entry_context_valid. by apply (safe_entries st Hs _ _ Ex).
Qed.

Lemma allocation_valid : vector_valid (CausalClock.frontier a) ∧ dot_valid (CausalClock.dot a).
Proof using Hs Htoken.
  destruct seen_valid as [_ Hv]. pose proof (owner_valid st Hs) as Ho.
  destruct (CausalClock.begin_allocation_spec (clock st) (Some seen) (proj1 (safe_clock st Hs)) (proj1 Hv))
    as (Hda & Hd1 & _). fold a in Hda, Hd1. split.
  - apply vector_valid_with_dot; [|done]. apply vector_valid_merge; [apply Hs|done].
  - split; [by rewrite Hda|done].
Qed.

Lemma next_entry_fit e :
  match memory st !! mut_key request with Some x => crdt_type x = mut_type request | None => True end →
  CrdtService.next_entry (CausalClock.actor (clock st)) request (memory st !! mut_key request) a = Ok e →
  entry_valid e ∧ grows_entry st e.
Proof using Hs Htoken Hvalue Hcov.
  intros Hty En. destruct seen_valid as [Hp Hv]. destruct allocation_valid as [Hfv Hdv].
  destruct (CausalClock.begin_allocation_spec (clock st) (Some seen) (proj1 (safe_clock st Hs)) (proj1 Hv))
    as (Hda & _ & _ & _ & _ & Hlo & _). fold a in Hda, Hlo. destruct (Hlo seen eq_refl) as [_ Hlt].
  pose proof (CrdtService.next_entry_spec (St:=t) request s e a) as Hspec.
  destruct (Hspec (safe_memory st Hs) Hty (proj1 Htoken) (proj1 Hfv) En) as (He & Hk & Hety & Hap & Hsv & Hctx).
  unfold CrdtService.previous_state, CrdtService.previous_version, CrdtService.previous_context in *.
  cbn [view CrdtService.svc_store durable_store] in *. fold st in Hap, Hsv, Hctx. fold prev in Hctx. fold seen in Hctx.
  assert (vector_valid (causal_context e)) as Hcv.
  { rewrite Hctx. apply vector_valid_with_dot; [by apply vector_valid_merge|apply Hdv]. }
  destruct (memory st !! mut_key request) as [x|] eqn:Ex.
  - destruct (safe_memory st Hs _ _ Ex) as [Hkx Hx]. pose proof Hx as (_ & _ & Wst & Wv & _).
    destruct (safe_entries st Hs _ _ Ex) as (_ & Sx & Vx & _). split.
    + split; [done|]. split; [|split; [|apply Hcv]].
      * by apply (apply_mutation_valid _ (state x) request _ _ Wst Sx Hdv (owner_valid st Hs) Hvalue Hap).
      * rewrite Hsv. apply (vector_valid_with_dot (state_version x)); [by split|apply Hdv].
    + unfold grows_entry. rewrite Hk, Ex.
      apply (CrdtService.mutated_contains request s e x (CausalClock.dot a)); try done.
      * apply (safe_memory st Hs).
      * by eapply Hcov.
      * unfold seen in Hlt. rewrite VersionVector.get_merge in Hlt. unfold prev in Hlt. fold st in Hlt.
        change (CrdtService.actor s) with (CausalClock.actor (clock st)). lia.
      * rewrite Hctx. etrans; [|by apply CrdtService.with_dot_le, VersionVector.vv_merge_wf; [apply Hv|apply Hfv]].
        etrans; [|apply VersionVector.le_merge_l]. apply VersionVector.le_merge_l.
  - split; [|unfold grows_entry; by rewrite Hk, Ex].
    split; [done|]. split; [|split; [|apply Hcv]].
    + by apply (apply_mutation_valid _ _ request _ _ (proj2 (CrdtService.empty_state_wf _))
        (empty_state_valid (mut_type request)) Hdv (owner_valid st Hs) Hvalue Hap).
    + rewrite Hsv. apply vector_valid_with_dot; [by apply (bool_decide_unpack _)|apply Hdv].
Qed.

Lemma mutation_step deadline r s' : CrdtService.commit_mutation request deadline s = (r, s') →
  CrdtService.store s' = st ∨ step st (CrdtService.store s').
Proof using Hs Htoken Hvalue Hcov.
  intros E. unfold CrdtService.commit_mutation, mbind, M_bind, liftM in E.
  rewrite store_get_spec in E. cbn [view CrdtService.svc_store durable_store] in E. fold st in E.
  destruct (CrdtService.check_type request _) as [[]|] eqn:Eck; [|injection E as _ <-; by left].
  assert (match memory st !! mut_key request with Some x => crdt_type x = mut_type request | None => True end) as Hty.
  { unfold CrdtService.check_type in Eck. destruct (memory st !! mut_key request); [|done].
    destruct (bool_decide _) eqn:Eb; [|done]. by boolify. }
  unfold CrdtService.staged_commit in E. cbv zeta in E. cbn [clock_of durable_clock] in E.
  fold st in E. fold prev in E. fold seen in E. fold a in E.
  destruct (CrdtService.next_entry _ _ _ a) as [e|err] eqn:En; [|injection E as _ <-; by left].
  destruct (next_entry_fit e Hty En) as [He Hg]. destruct allocation_valid as [Hfv _].
  unfold CrdtService.on_store in E. fold st in E. cbn [CrdtService.commit_local durable_clock] in E.
  destruct (commit_local e _ _ st) as [x st'] eqn:Ec.
  destruct (CausalClock.begin_allocation_spec (clock st) (Some seen) (proj1 (safe_clock st Hs))
    (proj1 (proj2 seen_valid))) as (_ & _ & _ & _ & Hle & _).
  pose proof (local_write e _ _ st x st' He Hfv Hle Hg Ec) as Hst.
  right. destruct x as [x|err]; injection E as _ <-; exact Hst.
Qed.
End mutation.
End store.
End DurableCrdtStore.
