(* ===== verification/Recovery.v ===== *)
(** * Recovery: [distsys/recovery/restore.py] and [distsys/health/state.py]

    What a durable node does first when it starts: restore its identity, its clock and its
    entries from the repository.  The theorem of this file joins it to the durable store: a
    node that crashes at any point and restores has lost nothing it ever showed. *)

From S2P Require Import Prelude Lattice Causal Json Crdt Storage Resilience.
From S2P Require Import Membership Ring CrdtCodec Repair AntiEntropy CrdtService Persistence Repository DurableStore.

Local Open Scope Z_scope.
Import StoredCrdtEntry (key, crdt_type, causal_context).
Import ClusterMember (node_id, status).
Import CrdtCodecSpec (vector_valid, entry_valid).

(** ** [health/state.py] *)
Inductive RecoveryPhase :=
  STARTING | OPENING_REPOSITORY | RESTORING | BINDING | COORDINATING | JOINING_CLUSTER | RECONCILING |
  READY | STARTUP_FAILED.

#[export] Instance RecoveryPhase_eq_dec : EqDecision RecoveryPhase.
Proof. solve_decision. Defined.

Record HealthSnapshot := Snapshot {
  liveness : bool; readiness : bool; coordination : bool; cluster : bool;
  recovery_phase : RecoveryPhase; coordination_message : string; last_error : string }.

Module HealthState.
Definition init : HealthSnapshot := Snapshot true false false false STARTING "" "".

Definition set_recovery_phase (phase : RecoveryPhase) (error : string) (s : HealthSnapshot) : HealthSnapshot :=
  Snapshot (liveness s) (readiness s) (coordination s) (cluster s) phase (coordination_message s) error.
Definition set_readiness (ready : bool) (s : HealthSnapshot) : HealthSnapshot :=
  Snapshot (liveness s) ready (coordination s) (cluster s) (recovery_phase s) (coordination_message s) (last_error s).
Definition set_coordination (healthy : bool) (message : string) (s : HealthSnapshot) : HealthSnapshot :=
  Snapshot (liveness s) (readiness s) healthy (cluster s) (recovery_phase s) message (last_error s).
Definition set_cluster (healthy : bool) (s : HealthSnapshot) : HealthSnapshot :=
  Snapshot (liveness s) (readiness s) (coordination s) healthy (recovery_phase s) (coordination_message s) (last_error s).
Definition set_liveness (healthy : bool) (s : HealthSnapshot) : HealthSnapshot :=
  Snapshot healthy (readiness s) (coordination s) (cluster s) (recovery_phase s) (coordination_message s) (last_error s).
End HealthState.

Lemma M_bind_cases {S A B} (m : M S A) (f : A → M S B) s r s' : (m ≫= f) s = (r, s') →
  (∃ e, m s = (Err e, s') ∧ r = Err e) ∨ ∃ a s1, m s = (Ok a, s1) ∧ f a s1 = (r, s').
Proof. unfold mbind, M_bind. destruct (m s) as [[a|e] s1]; [by right; eauto|]. intros [= <- <-]. left. eauto. Qed.

Lemma M_bind_Ok {S A B} (m : M S A) (f : A → M S B) s a s1 : m s = (Ok a, s1) → (m ≫= f) s = f a s1.
Proof. unfold mbind, M_bind. by intros ->. Qed.

Lemma M_bind_Err {S A B} (m : M S A) (f : A → M S B) s e s1 : m s = (Err e, s1) → (m ≫= f) s = (Err e, s1).
Proof. unfold mbind, M_bind. by intros ->. Qed.

(** ** [recovery/restore.py] *)
Record RestoredNodeState := Restored {
  identity : DurableNodeIdentity.t;
  causal_state : DurableCausalState.t;
  clock : CausalClock.t;
  memory_store : CrdtStore.t;
}.

Module RestoreService.
Section restore.
Context {R : Type} `{StateRepository R}.
Variable configured_node_id : string.

Definition restore_identity : M R DurableNodeIdentity.t :=
  identity ← load_identity;
  match identity with
  | None => initialize_identity configured_node_id
  | Some identity =>
      if bool_decide (DurableNodeIdentity.configured_node_id identity = configured_node_id) then mret identity
      else _ ← initialize_identity configured_node_id; mret identity
  end.

Definition restore_clock (actor : CausalActor.t) : M R DurableCausalState.t :=
  causal_state ← load_clock;
  match causal_state with
  | Some causal_state => mret causal_state
  | None =>
      causal_state ← liftM (DurableCausalState.make actor 0 VersionVector.empty);
      _ ← save_clock causal_state None;
      mret causal_state
  end.

(** [for entry in entries: merged_frontier = merged_frontier.merge(entry.causal_context)] *)
Definition merge_contexts (frontier : VersionVector.t) (entries : list StoredCrdtEntry.t) : VersionVector.t :=
  foldl (λ f e, VersionVector.merge f (causal_context e)) frontier entries.

Definition advance_clock (actor : CausalActor.t) (causal_state : DurableCausalState.t)
    (entries : list StoredCrdtEntry.t) : M R DurableCausalState.t :=
  let merged_frontier := merge_contexts (DurableCausalState.frontier causal_state) entries in
  if bool_decide (merged_frontier = DurableCausalState.frontier causal_state) then mret causal_state
  else
    causal_state ← liftM (DurableCausalState.make actor (VersionVector.get merged_frontier actor) merged_frontier);
    _ ← save_clock causal_state None;
    mret causal_state.

(** [for entry in entries: await memory.replace(entry, expected_type=entry.crdt_type)] *)
Fixpoint fill (entries : list StoredCrdtEntry.t) (memory : CrdtStore.t) : result CrdtStore.t :=
  match entries with
  | [] => Ok memory
  | entry :: entries =>
      match CrdtStore.replace entry (Some (crdt_type entry)) memory with
      | (Ok _, memory) => fill entries memory
      | (Err e, _) => Err e
      end
  end.

Definition restore : M R RestoredNodeState :=
  _ ← integrity_check;
  identity ← restore_identity;
  actor ← liftM (CausalActor.make (DurableNodeIdentity.configured_node_id identity)
                   (DurableNodeIdentity.causal_incarnation identity));
  causal_state ← restore_clock actor;
  entries ← load_entries;
  causal_state ← advance_clock actor causal_state entries;
  memory ← liftM (fill entries ∅);
  mret (Restored identity causal_state
          (CausalClock.restore (CausalClock.init actor) (DurableCausalState.frontier causal_state)) memory).

(** *** What every outcome of [restore] keeps *)
Abbreviation saved_count := DurableCrdtStore.saved_count.

Definition kept (r r' : R) : Prop :=
  repo_wf r' ∧ stored r' = stored r ∧
  (∀ i, saved_identity r = Some i → saved_identity r' = Some i) ∧
  ∀ a, saved_count r a ≤ saved_count r' a.

Lemma kept_trans r1 r2 r3 : kept r1 r2 → kept r2 r3 → kept r1 r3.
Proof.
  intros (_ & E1 & I1 & C1) (W & E2 & I2 & C2). split_and!; [done|congruence|auto|].
  intros a. specialize (C1 a). specialize (C2 a). lia.
Qed.

Lemma unchanged_kept r r' : repo_wf r' → unchanged stored saved_clock saved_identity r r' → kept r r'.
Proof.
  intros W (E1 & E2 & E3). split_and!; [done..| |]; [by rewrite E3|].
  intros a. unfold saved_count. by rewrite E2.
Qed.

Lemma restore_identity_spec r x r' : repo_wf r → restore_identity r = (x, r') →
  kept r r' ∧ saved_clock r' = saved_clock r ∧
  match x with
  | Ok i => saved_identity r' = Some i ∧ DurableNodeIdentity.configured_node_id i = configured_node_id
  | Err _ => True
  end.
Proof.
  intros W E. unfold restore_identity in E. apply M_bind_cases in E as [(e & E & ->)|(o & r1 & E1 & E)].
  { destruct (load_identity_spec _ _ _ W E) as (W1 & U & _). split; [by apply unchanged_kept|by destruct U as (_ & ? & _)]. }
  destruct (load_identity_spec _ _ _ W E1) as (W1 & U & ->). pose proof (unchanged_kept _ _ W1 U) as K1.
  destruct U as (_ & Ec & Ei). destruct (saved_identity r) as [i|] eqn:Hi.
  - destruct (bool_decide _) eqn:Eb.
    { injection E as <- <-. boolify. by split_and!; [|congruence..]. }
    boolify. apply M_bind_cases in E as [(e & E & ->)|(i' & r2 & E2 & E)].
    + destruct (initialize_identity_spec _ _ _ _ W1 E) as (W2 & Es2 & Ec2 & Hm). rewrite Ei in Hm.
      split; [|split; [congruence|done]]. apply (kept_trans _ _ _ K1). split_and!; [done..| |].
      * intros j Hj. rewrite Ei in Hj. injection Hj as <-. apply Hm.
      * intros a. unfold saved_count. by rewrite Ec2.
    + destruct (initialize_identity_spec _ _ _ _ W1 E2) as (W2 & Es2 & Ec2 & Hm). rewrite Ei in Hm.
      by destruct Hm as (_ & _ & Hm).
  - destruct (initialize_identity_spec _ _ _ _ W1 E) as (W2 & Es2 & Ec2 & Hm). rewrite Ei in Hm.
    split; [|split; [congruence|by destruct x]]. apply (kept_trans _ _ _ K1). split_and!; [done..| |].
    + intros j Hj. congruence.
    + intros a. unfold saved_count. by rewrite Ec2.
Qed.

Lemma save_clock_kept c r x r' : repo_wf r → DurableCausalState.valid c → owned saved_identity r c →
  (∀ a, saved_count r a ≤ VersionVector.get (DurableCausalState.frontier c) a) →
  save_clock c None r = (x, r') →
  kept r r' ∧ saved_identity r' = saved_identity r ∧ match x with Ok _ => saved_clock r' = Some c | Err _ => True end.
Proof.
  intros W Hc Ho Hle E. destruct (save_clock_spec _ _ _ _ _ W Hc Ho E) as (W' & Es & Ei & Hx).
  split_and!; [split_and!|done|by destruct x]; [done..| |].
  - by rewrite Ei.
  - intros a. unfold saved_count in *. destruct x; [by rewrite Hx|]. destruct Hx as [-> | ->]; [done|apply Hle].
Qed.

Lemma restore_clock_spec i r x r' : repo_wf r → saved_identity r = Some i →
  restore_clock (DurableNodeIdentity.actor_of i) r = (x, r') →
  kept r r' ∧ saved_identity r' = Some i ∧
  match x with Ok c => saved_clock r' = Some c | Err _ => True end.
Proof.
  intros W Hi E. unfold restore_clock in E. apply M_bind_cases in E as [(e & E & ->)|(o & r1 & E1 & E)].
  { destruct (load_clock_spec _ _ _ W E) as (W1 & U & _). destruct U as (?&?&?).
    split_and!; [by apply unchanged_kept|congruence|done]. }
  destruct (load_clock_spec _ _ _ W E1) as (W1 & U & ->). pose proof (unchanged_kept _ _ W1 U) as K1.
  destruct U as (_ & Ec & Ei). rewrite Hi in Ei. destruct (saved_clock r) as [c|] eqn:Hc.
  { injection E as <- <-. by split_and!. }
  apply M_bind_cases in E as [(e & E & ->)|(c & r2 & E2 & E)]; [by injection E as _ <-|].
  pose proof (DurableCausalState.make_at (DurableNodeIdentity.actor_of i) VersionVector.empty VersionVector.vv_wf_empty) as Hm.
  unfold liftM in E2. rewrite VersionVector.get_empty in Hm. rewrite Hm in E2. injection E2 as <- <-.
  set (c := DurableCausalState.at_frontier _ _) in *.
  assert (DurableCausalState.valid c) as Hv by (apply DurableCausalState.valid_at; by apply (bool_decide_unpack _)).
  assert (owned saved_identity r1 c) as Ho by by exists i.
  assert (∀ a, saved_count r1 a ≤ VersionVector.get (DurableCausalState.frontier c) a) as Hle.
  { intros a. unfold saved_count. rewrite Ec. by rewrite VersionVector.get_empty. }
  apply M_bind_cases in E as [(e & E & ->)|([] & r2 & E2 & E)].
  - destruct (save_clock_kept c _ _ _ W1 Hv Ho Hle E) as (K2 & E3 & _). split_and!; [by eapply kept_trans|congruence|done].
  - destruct (save_clock_kept c _ _ _ W1 Hv Ho Hle E2) as (K2 & E3 & E4). injection E as <- <-.
    split_and!; [by eapply kept_trans|congruence|done].
Qed.

Lemma merge_contexts_le f l :
  VersionVector.le f (merge_contexts f l) ∧
  ∀ e, e ∈ l → VersionVector.le (causal_context e) (merge_contexts f l).
Proof.
  revert f. induction l as [|x l IH]; intros f; simpl.
  { split; [reflexivity|]. intros e He. by apply elem_of_nil in He. }
  destruct (IH (VersionVector.merge f (causal_context x))) as [H1 H2].
  apply VersionVector.le_merge_iff in H1 as [Hf Hx]. split; [done|].
  intros e [-> | He]%elem_of_cons; [done|by apply H2].
Qed.

Lemma merge_contexts_valid f l : vector_valid f → Forall entry_valid l → vector_valid (merge_contexts f l).
Proof.
  intros Hf Hl. revert f Hf. induction Hl as [|x l Hx Hl IH]; intros f Hf; [done|]. simpl.
  apply IH, vector_valid_merge; [done|]. by apply entry_context_valid.
Qed.

Lemma advance_clock_spec i c l r x r' : repo_wf r → saved_identity r = Some i → saved_clock r = Some c →
  Forall entry_valid l → advance_clock (DurableNodeIdentity.actor_of i) c l r = (x, r') →
  kept r r' ∧ saved_identity r' = Some i ∧
  match x with
  | Ok c' => saved_clock r' = Some c' ∧ vector_valid (DurableCausalState.frontier c') ∧
             DurableCausalState.actor c' = DurableNodeIdentity.actor_of i ∧
             VersionVector.le (DurableCausalState.frontier c) (DurableCausalState.frontier c') ∧
             ∀ e, e ∈ l → VersionVector.le (causal_context e) (DurableCausalState.frontier c')
  | Err _ => True
  end.
Proof.
  intros W Hi Hc Hl E. destruct (clock_valid _ _ W Hc) as [Hv (i' & Hi' & Ha)]. rewrite Hi in Hi'. injection Hi' as <-.
  pose proof (merge_contexts_valid _ l (proj1 Hv) Hl) as Hm.
  destruct (merge_contexts_le (DurableCausalState.frontier c) l) as [Hle Hin].
  unfold advance_clock in E. cbv zeta in E. set (f := merge_contexts _ l) in *. destruct (bool_decide _) eqn:Eb.
  { injection E as <- <-. boolify. split_and!; [by apply unchanged_kept|done|done|apply Hv|done|reflexivity|].
    rewrite Eb in Hin. done. }
  apply M_bind_cases in E as [(e & E & ->)|(c' & r1 & E1 & E)]; unfold liftM in *;
    rewrite DurableCausalState.make_at in * by apply Hm; [done|]. injection E1 as <- <-.
  set (c' := DurableCausalState.at_frontier _ _) in *.
  assert (∀ a, saved_count r a ≤ VersionVector.get (DurableCausalState.frontier c') a) as Hcount.
  { intros a. unfold saved_count. rewrite Hc. apply Hle. }
  apply M_bind_cases in E as [(e & E & ->)|([] & r2 & E2 & E)].
  - apply save_clock_kept in E as (K & Ei & _); [|done|by apply DurableCausalState.valid_at|by exists i|done].
    split_and!; [done|congruence|done].
  - apply save_clock_kept in E2 as (K & Ei & Es); [|done|by apply DurableCausalState.valid_at|by exists i|done].
    injection E as <- <-. split_and!; try done. congruence.
Qed.

(** Replacing the entries of a store one by one in an empty one rebuilds it. *)
Lemma fill_fresh (l : list (string * StoredCrdtEntry.t)) memory :
  (∀ k e, (k, e) ∈ l → key e = k ∧ memory !! k = None) → NoDup l.*1 →
  fill l.*2 memory = Ok (foldl (λ d kv, <[kv.1 := kv.2]> d) memory l).
Proof.
  revert memory. induction l as [|[k e] l IH]; intros memory Hl Hnd; [done|]. simpl in *.
  apply NoDup_cons in Hnd as [Hnin Hnd]. destruct (Hl k e) as [Hk Hm]; [by left|].
  unfold CrdtStore.replace, CrdtStore.get, gets, mbind, M_bind. rewrite Hk, Hm. simpl. apply IH; [|done].
  intros k' e' Hin. destruct (Hl k' e') as [Hk' Hm']; [by right|]. split; [done|].
  rewrite lookup_insert_ne; [done|]. intros ->. apply Hnin. apply list_elem_of_fmap. by exists (k', e').
Qed.

Lemma fill_stored d : CrdtStore.wf d → fill (sorted_items d).*2 ∅ = Ok d.
Proof.
  intros Hd. rewrite fill_fresh.
  - f_equal. apply dict_of_sorted_items.
  - intros k e Hin. apply elem_of_sorted_items in Hin. split; [by apply Hd in Hin as [? _]|apply lookup_empty].
  - apply NoDup_sorted_items_fst.
Qed.

Lemma entries_valid r : repo_wf r → Forall entry_valid (sorted_items (stored r)).*2.
Proof.
  intros W. apply Forall_forall. intros e ([k x] & -> & Hin)%list_elem_of_fmap.
  apply elem_of_sorted_items in Hin. by apply (proj2 (stored_valid r W) k).
Qed.

(** The node that starts from a restored state: [DurableCrdtStore(restored.memory_store,
    repository, restored.clock)]. *)
Definition restarted (x : RestoredNodeState) (r : R) : DurableCrdtStore.t :=
  DurableCrdtStore.mk (memory_store x) r (clock x).

Lemma restore_spec r x r' : repo_wf r → restore r = (x, r') →
  kept r r' ∧
  match x with
  | Ok n => DurableCrdtStore.safe (restarted n r') ∧ memory_store n = stored r ∧
            saved_identity r' = Some (identity n) ∧
            DurableNodeIdentity.configured_node_id (identity n) = configured_node_id ∧
            CausalClock.actor (clock n) = DurableNodeIdentity.actor_of (identity n) ∧
            (∀ a, saved_count r a ≤ VersionVector.get (CausalClock._frontier (clock n)) a) ∧
            ∀ k e, stored r !! k = Some e → VersionVector.le (causal_context e) (CausalClock._frontier (clock n))
  | Err _ => True
  end.
Proof.
  intros W E. unfold restore in E. apply M_bind_cases in E as [(e & E & ->)|(h & r1 & E1 & E)].
  { apply integrity_check_spec in E as [W1 U]; [|done]. split; [by apply unchanged_kept|done]. }
  apply integrity_check_spec in E1 as [W1 U]; [|done]. pose proof (unchanged_kept _ _ W1 U) as K1. clear U.
  apply M_bind_cases in E as [(e & E & ->)|(i & r2 & E2 & E)].
  { apply restore_identity_spec in E as [K _]; [|done]. split; [by eapply kept_trans|done]. }
  apply restore_identity_spec in E2 as (K2 & _ & Hi & Hn); [|done]. pose proof (kept_trans _ _ _ K1 K2) as K. clear K1 K2 W1.
  pose proof (proj1 K) as W2. destruct (identity_valid _ _ W2 Hi) as [Hne Hinc].
  assert (CausalActor.make (DurableNodeIdentity.configured_node_id i) (DurableNodeIdentity.causal_incarnation i) =
    Ok (DurableNodeIdentity.actor_of i)) as Ha.
  { unfold CausalActor.make, nonempty. rewrite bool_decide_eq_false_2 by done. simpl. by rewrite (proj2 (Z.ltb_ge _ _)) by lia. }
  apply M_bind_cases in E as [(e & E & ->)|(a & r3 & E3 & E)]; unfold liftM in *; rewrite Ha in *; [done|].
  injection E3 as <- <-. apply M_bind_cases in E as [(e & E & ->)|(c & r3 & E3 & E)].
  { eapply restore_clock_spec in E as (K3 & _); [|done..]. split; [by eapply kept_trans|done]. }
  eapply restore_clock_spec in E3 as (K3 & Hi3 & Hc3); [|done..]. pose proof (kept_trans _ _ _ K K3) as K'. clear K3.
  pose proof (proj1 K') as W3. apply M_bind_cases in E as [(e & E & ->)|(l & r4 & E4 & E)].
  { apply load_entries_spec in E as (W4 & U & _); [|done]. split; [|done]. eapply kept_trans; [done|by apply unchanged_kept]. }
  apply load_entries_spec in E4 as (W4 & U & ->); [|done]. pose proof (kept_trans _ _ _ K' (unchanged_kept _ _ W4 U)) as K4.
  destruct U as (U1 & U2 & U3). rewrite <-U2 in Hc3. rewrite <-U3 in Hi3. clear K' W3.
  assert (stored r3 = stored r) as Es by (rewrite <-U1; apply K4). rewrite Es in E.
  pose proof (entries_valid r4 W4) as Hval. rewrite U1, Es in Hval.
  apply M_bind_cases in E as [(e & E & ->)|(c' & r5 & E5 & E)].
  { eapply advance_clock_spec in E as (K5 & _); [|done..]. split; [by eapply kept_trans|done]. }
  eapply advance_clock_spec in E5 as (K5 & Hi5 & Hc5 & Hv5 & Ha5 & Hle5 & Hin5); [|done..].
  pose proof (kept_trans _ _ _ K4 K5) as K6. rewrite fill_stored in E by apply stored_valid, W.
  injection E as <- <-. split; [done|].
  assert (∀ a, saved_count r a ≤ VersionVector.get (DurableCausalState.frontier c') a) as Hcount.
  { intros a. destruct K6 as (_ & _ & _ & K6). specialize (K6 a). unfold saved_count at 2 in K6. by rewrite Hc5 in K6. }
  split_and!; [|done..| |].
  - destruct K6 as (W6 & Es6 & _). split; simpl; try done; [by apply stored_valid|by apply stored_valid|by exists i| |].
    + rewrite Es6. apply store_le_refl, stored_valid, W.
    + intros a. left. unfold saved_count. simpl. by rewrite Hc5.
  - done.
  - intros k e Hk. apply Hin5. apply list_elem_of_fmap. exists (k, e). split; [done|]. by apply elem_of_sorted_items.
Qed.
End restore.
End RestoreService.

(** *** Crash and restart *)
Section crash.
Context {R : Type} `{StateRepository R}.
Import RestoreService.

(** Restarts that may each fail half way. *)
Definition attempt (r r' : R) : Prop := ∃ n x, restore n r = (x, r').

Lemma attempts_keep r r' : repo_wf r → rtc attempt r r' → kept r r'.
Proof.
  intros W Hr. induction Hr as [r|r r1 r2 (n & x & E) Hr IH]; [by apply unchanged_kept|].
  apply restore_spec in E as [K _]; [|done]. apply (kept_trans _ _ _ K), IH, K.
Qed.

(** C6: a crash loses nothing.  Take any run of a durable node: local writes, merges
    and observations in any order, over a disk that may fail or commit work whose
    request was cancelled.  Stop it anywhere, open its database again, let any number
    of restarts fail half way.  If a restart returns, every entry the node held is
    contained in the restored one, the actor is the same, the restored clock has seen
    every update the old one had, so the next dot is one never used, and the new node
    satisfies the same invariant. *)
Theorem recovery_loses_nothing n (s0 s : DurableCrdtStore.t) (r0 r : R) x r' :
  DurableCrdtStore.safe s0 → reachable DurableCrdtStore.step s0 s →
  repo_wf r0 → unchanged stored saved_clock saved_identity (DurableCrdtStore.repository s) r0 →
  rtc attempt r0 r → restore n r = (Ok x, r') →
  store_le (DurableCrdtStore.memory s) (memory_store x) ∧
  CausalClock.actor (clock x) = CausalClock.actor (DurableCrdtStore.clock s) ∧
  VersionVector.le (CausalClock._frontier (DurableCrdtStore.clock s)) (CausalClock._frontier (clock x)) ∧
  DurableCrdtStore.safe (restarted x r') ∧
  ∀ o, CausalClock.observed_wf o →
    VersionVector.get (CausalClock._frontier (DurableCrdtStore.clock s)) (CausalClock.actor (clock x)) <
    Dot.counter (CausalClock.dot (CausalClock.begin_allocation (clock x) o)).
Proof.
  intros Hs0 Hreach W0 U Hat E.
  assert (DurableCrdtStore.safe s) as Hs.
  { clear U. revert s Hreach. apply reachable_invariant; [done|]. apply DurableCrdtStore.step_safe. }
  pose proof (kept_trans _ _ _ (unchanged_kept _ _ W0 U) (attempts_keep _ _ W0 Hat)) as (W & Es & Ki & Kc).
  apply restore_spec in E as ((W' & _ & Ki' & _) & Hsafe & Hm & Hi & _ & Ha & Hcount & Hctx); [|done].
  destruct (DurableCrdtStore.safe_owner _ Hs) as (i & Hown & Hact).
  assert (identity x = i) as Hid by (apply Ki, Ki' in Hown; congruence).
  assert (CausalClock.actor (clock x) = CausalClock.actor (DurableCrdtStore.clock s)) as Hsame by congruence.
  assert (VersionVector.le (CausalClock._frontier (DurableCrdtStore.clock s)) (CausalClock._frontier (clock x))) as Hle.
  { intros a. destruct (DurableCrdtStore.safe_counted _ Hs a) as [Hc|(k & e & Hk & Hc)].
    - specialize (Kc a). specialize (Hcount a). lia.
    - destruct (DurableCrdtStore.safe_saved _ Hs _ _ Hk) as (e' & Hk' & Hee).
      assert (VersionVector.le (causal_context e) (causal_context e')) as Hcc.
      { apply DurableCrdtStore.context_le; [|rewrite <-Es in Hk'|done].
        - by destruct (DurableCrdtStore.safe_memory _ Hs _ _ Hk).
        - by destruct (proj1 (stored_valid _ W) _ _ Hk'). }
      rewrite <-Es in Hk'. specialize (Hctx _ _ Hk' a). specialize (Hcc a). lia. }
  split_and!; [|done..|].
  - rewrite Hm, Es. apply (DurableCrdtStore.safe_saved _ Hs).
  - intros o Ho. destruct (CausalClock.begin_allocation_spec (clock x) o (proj1 (DurableCrdtStore.safe_clock _ Hsafe)) Ho)
      as (_ & _ & Hlt & _). specialize (Hle (CausalClock.actor (clock x))). lia.
Qed.
End crash.

(** *** Restoring from SQLite returns *)
Module SqliteRestore.
Import SQLiteStateRepository RestoreService.
Import DurableCrdtStore (saved_count).

(** A repository that is open, sound, and whose disk works. *)
Definition good_fate (f : fate) : Prop := disk_does f = Commits ∧ int64 (time_ns f) = true.
Definition coop (s : t) : Prop :=
  _opened s = true ∧ quick_check (database s) = true ∧ Forall good_fate (fates s).

Lemma run_coop {A} (fn : fate → db → result A * db) s : coop s →
  (∀ f, quick_check (fn f (database s)).2 = quick_check (database s)) →
  ∃ f s', run fn None s = ((fn f (database s)).1, s') ∧ good_fate f ∧ coop s'.
Proof.
  intros (Ho & Hq & Hf) Hk. unfold run. set (f := default idle_fate (head (fates s))).
  assert (good_fate f) as [Hc Ht].
  { unfold f. destruct (fates s) as [|g l]; [done|]. by inversion Hf. }
  simpl. rewrite Hc. specialize (Hk f). destruct (fn f (database s)) as [r d] eqn:E. exists f. eexists.
  rewrite E. split_and!; [done..|]. simpl in *. split_and!; simpl; [done|congruence|].
  destruct (fates s); [done|]. by inversion Hf.
Qed.

Lemma reads_coop {A} (q : db → result A) s : coop s →
  ∃ s', run (λ _ d, (q d, d)) None s = (q (database s), s') ∧ coop s'.
Proof. intros Hs. destruct (run_coop (λ _ d, (q d, d)) s Hs) as (f & s' & E & _ & Hc); [done|]. eauto. Qed.

Lemma open_coop {A} (m : M t A) s : coop s → (_ensure_open ≫= λ _, m) s = m s.
Proof. intros (Ho & _). unfold mbind, M_bind, _ensure_open. by rewrite Ho. Qed.

Lemma integrity_coop s : coop s → ∃ h s', integrity_check s = (Ok h, s') ∧ coop s' ∧ database s' = database s.
Proof.
  intros Hs. unfold integrity_check. rewrite open_coop by done. unfold catchM.
  destruct (reads_coop (λ d, if quick_check d then Ok (Health true (schema_version d) "ok")
    else raise RepositoryIntegrityError "SQLite quick_check failed") s Hs) as (s' & E & Hc).
  rewrite E. apply run_reads in E as [Hd _]. destruct Hs as (_ & -> & _). eauto.
Qed.

(** The three loads. *)
Lemma query_coop {A} (q : db → result A) s a : coop s → q (database s) = Ok a →
  ∃ s', (_ensure_open ≫= λ _, run (λ _ d, (q d, d)) None) s = (Ok a, s') ∧ coop s' ∧ database s' = database s.
Proof.
  intros Hs Hq. rewrite open_coop by done. destruct (reads_coop q s Hs) as (s' & E & Hc). rewrite E, Hq.
  apply run_reads in E as [Hd _]. eauto.
Qed.

Lemma save_coop c s : coop s → int64 (DurableCausalState.local_counter c) = true →
  ∃ s', save_clock c None s = (Ok tt, s') ∧ coop s'.
Proof.
  intros Hs Hc. unfold save_clock. rewrite open_coop by done.
  set (fn := λ f, transaction (λ d, d ← _upsert_clock c (time_ns f) d; Ok (tt, d))).
  assert (∀ f, good_fate f → ∃ d, fn f (database s) = (Ok tt, d) ∧ quick_check d = quick_check (database s)) as Hfn.
  { intros f [_ Hf]. unfold fn, transaction, _upsert_clock, column. rewrite Hc, Hf. eexists. by split. }
  destruct (run_coop fn s Hs) as (f & s' & E & Hf & Hco).
  { intros f. unfold fn, transaction, _upsert_clock, column. repeat case_match; by simplify_eq/=. }
  destruct (Hfn f Hf) as (d & Ed & _). fold fn. rewrite E, Ed. eauto.
Qed.

Definition mismatch_text : string := "durable database belongs to a different configured node id".

Lemma initialize_coop n s : db_wf (database s) → coop s → n ≠ "" →
  match node_identity (database s) with
  | Some i => DurableNodeIdentity.configured_node_id i ≠ n →
              ∃ s', initialize_identity n s = (raise NodeIdentityMismatchError mismatch_text, s')
  | None => ∃ i s', initialize_identity n s = (Ok i, s') ∧ coop s'
  end.
Proof.
  intros Hd Hs Hn.
  assert (initialize_identity n s = run (initialize n) None s) as ->.
  { unfold initialize_identity. rewrite open_coop by done. unfold nonempty. by rewrite bool_decide_eq_false_2. }
  destruct (run_coop (initialize n) s Hs) as (f & s' & E & [_ Hf] & Hco).
  { intros f. unfold initialize, transaction. rewrite select_identity_wf by done. cbn [mbind result_bind].
    destruct (node_identity (database s)); [by destruct (bool_decide _)|].
    destruct (DurableNodeIdentity.make _ _ _) as [i|]; [|done]. cbn [mbind result_bind].
    by destruct (column (DurableNodeIdentity.causal_incarnation i)), (column (time_ns f)). }
  rewrite E. unfold initialize, transaction. rewrite select_identity_wf by done. cbn [mbind result_bind].
  destruct (node_identity (database s)) as [i|].
  - intros Hne. rewrite bool_decide_eq_false_2 by done. eauto.
  - unfold DurableNodeIdentity.make, nonempty. rewrite bool_decide_eq_false_2 by done. simpl.
    rewrite (proj2 (Z.ltb_ge _ _)) by lia. cbn [mbind result_bind DurableNodeIdentity.causal_incarnation].
    unfold column. rewrite Hf. assert (int64 (Z.max 1 (time_ns f)) = true) as ->; [|by eauto].
    unfold int64 in *. apply andb_true_iff in Hf as [H1 H2]. apply andb_true_iff. split; [apply Z.leb_le; lia|].
    apply Z.ltb_lt in H2. apply Z.ltb_lt. apply Z.max_lub_lt; [done|lia].
Qed.

Lemma identity_coop n s : db_wf (database s) → coop s → n ≠ "" →
  match node_identity (database s) with
  | Some i => if bool_decide (DurableNodeIdentity.configured_node_id i = n)
              then ∃ s', restore_identity n s = (Ok i, s') ∧ coop s'
              else ∃ s', restore_identity n s = (raise NodeIdentityMismatchError mismatch_text, s')
  | None => ∃ i s', restore_identity n s = (Ok i, s') ∧ coop s'
  end.
Proof.
  intros Hd Hs Hn. unfold restore_identity.
  destruct (query_coop select_identity s _ Hs (select_identity_wf _ Hd)) as (s1 & E1 & Hs1 & Hd1).
  change (Repository.load_identity s = (Ok (node_identity (database s)), s1)) in E1.
  rewrite (M_bind_Ok _ _ _ _ _ E1). rewrite <-Hd1 in Hd |- *. pose proof (initialize_coop n s1 Hd Hs1 Hn) as Hin.
  destruct (node_identity (database s1)) as [i|]; [|done].
  destruct (bool_decide _) eqn:Eb; [by eauto|]. boolify. destruct (Hin Eb) as (s2 & E2).
  exists s2. by apply M_bind_Err.
Qed.

(** Counters that fit SQLite's 64-bit integers. *)
Definition counters_fit (s : t) : Prop := ∀ a, saved_count s a < 2 ^ 63 ∧
  ∀ k e, stored s !! k = Some e → VersionVector.get (causal_context e) a < 2 ^ 63.

Lemma merge_contexts_bound f l a b : VersionVector.get f a < b →
  (∀ e, e ∈ l → VersionVector.get (causal_context e) a < b) → VersionVector.get (merge_contexts f l) a < b.
Proof.
  revert f. induction l as [|x l IH]; intros f Hf Hl; [done|]. simpl. apply IH.
  - rewrite VersionVector.get_merge. pose proof (Hl x ltac:(by left)). lia.
  - intros e He. apply Hl. by right.
Qed.

Lemma int64_counter v a : VersionVector.wf v → VersionVector.get v a < 2 ^ 63 → int64 (VersionVector.get v a) = true.
Proof.
  intros Hv Hlt. pose proof (VersionVector.get_nonneg v a Hv). unfold int64. apply andb_true_iff.
  split; [apply Z.leb_le|apply Z.ltb_lt]; lia.
Qed.

Lemma clock_coop i s : db_wf (database s) → coop s → saved_identity s = Some i →
  ∃ c s', restore_clock (DurableNodeIdentity.actor_of i) s = (Ok c, s') ∧ coop s' ∧
          ∀ a, VersionVector.get (DurableCausalState.frontier c) a = saved_count s a.
Proof.
  intros Hd Hs Hi. unfold restore_clock. destruct (select_clock_wf _ Hd) as [Hsel _].
  destruct (query_coop select_clock s _ Hs Hsel) as (s1 & E1 & Hs1 & Hd1).
  change (Repository.load_clock s = (Ok (saved_clock s), s1)) in E1. rewrite (M_bind_Ok _ _ _ _ _ E1).
  unfold saved_count. destruct (saved_clock s) as [c|]; [by eauto|].
  pose proof (DurableCausalState.make_at (DurableNodeIdentity.actor_of i) VersionVector.empty VersionVector.vv_wf_empty) as Hm.
  rewrite VersionVector.get_empty in Hm. rewrite (M_bind_Ok (liftM _) _ s1 _ s1 (f_equal (λ x, (x, s1)) Hm)).
  destruct (save_coop (DurableCausalState.at_frontier (DurableNodeIdentity.actor_of i) VersionVector.empty) s1 Hs1 eq_refl)
    as (s2 & E2 & Hs2).
  change (Repository.save_clock (DurableCausalState.at_frontier (DurableNodeIdentity.actor_of i) VersionVector.empty)
            None s1 = (Ok tt, s2)) in E2.
  rewrite (M_bind_Ok _ _ _ _ _ E2). do 2 eexists. split_and!; [done|done|]. intros a. by rewrite VersionVector.get_empty.
Qed.

Lemma advance_coop a c l s : coop s → vector_valid (DurableCausalState.frontier c) → Forall entry_valid l →
  VersionVector.get (merge_contexts (DurableCausalState.frontier c) l) a < 2 ^ 63 →
  ∃ c' s', advance_clock a c l s = (Ok c', s') ∧ coop s'.
Proof.
  intros Hs Hv Hl Hlt. unfold advance_clock. cbv zeta. pose proof (merge_contexts_valid _ l Hv Hl) as [Hm _].
  set (f := merge_contexts _ l) in *. destruct (bool_decide _); [by eauto|].
  rewrite (M_bind_Ok (liftM _) _ s _ s (f_equal (λ x, (x, s)) (DurableCausalState.make_at a f Hm))).
  destruct (save_coop (DurableCausalState.at_frontier a f) s Hs (int64_counter f a Hm Hlt)) as (s2 & E2 & Hs2).
  change (Repository.save_clock (DurableCausalState.at_frontier a f) None s = (Ok tt, s2)) in E2.
  rewrite (M_bind_Ok _ _ _ _ _ E2). by eauto.
Qed.

(** The rest of [restore] once the identity is known. *)
Lemma restore_coop n i s0 s1 h s : coop s → repo_wf s0 → kept s0 s → counters_fit s0 → saved_clock s = saved_clock s0 →
  integrity_check s0 = (Ok h, s1) → restore_identity n s1 = (Ok i, s) → saved_identity s = Some i →
  ∃ x s', restore n s0 = (Ok x, s').
Proof.
  intros Hs W0 (W & Est & _) Hfit Hck E1 E2 Hi.
  unfold restore. change (integrity_check s0) with (Repository.integrity_check s0) in E1.
  rewrite (M_bind_Ok _ _ _ _ _ E1), (M_bind_Ok _ _ _ _ _ E2).
  rewrite (M_bind_Ok (liftM _) _ s _ s (f_equal (λ x, (x, s)) (actor_make_valid i (identity_valid _ _ W Hi)))).
  destruct (clock_coop i s W Hs Hi) as (c & s2 & E3 & Hs2 & Hc). rewrite (M_bind_Ok _ _ _ _ _ E3).
  apply restore_clock_spec in E3 as ((W2 & Est2 & _) & Hi2 & Hc2); [|done..].
  destruct (query_coop select_entries s2 _ Hs2 (select_entries_wf _ W2)) as (s3 & E4 & Hs3 & Hd3).
  change (Repository.load_entries s2 = (Ok (sorted_items (stored s2)).*2, s3)) in E4. rewrite (M_bind_Ok _ _ _ _ _ E4).
  destruct (clock_valid _ _ W2 Hc2) as [[Hv _] _].
  destruct (advance_coop (DurableNodeIdentity.actor_of i) c (sorted_items (stored s2)).*2 s3 Hs3 Hv (entries_valid s2 W2))
    as (c' & s4 & E5 & _).
  { apply merge_contexts_bound.
    - rewrite Hc. unfold saved_count. rewrite Hck.
      apply (Hfit (DurableNodeIdentity.actor_of i)).
    - intros e ([k x] & -> & Hin)%list_elem_of_fmap. apply elem_of_sorted_items in Hin. rewrite Est2, Est in Hin.
      by apply (Hfit (DurableNodeIdentity.actor_of i)) in Hin. }
  rewrite (M_bind_Ok _ _ _ _ _ E5). rewrite (M_bind_Ok (liftM _) _ s4 _ s4
    (f_equal (λ x, (x, s4)) (fill_stored _ (proj1 (stored_valid s2 W2))))). by eauto.
Qed.

(** C11: restoring from SQLite returns.  When the repository is open and sound, its disk
    works and its counters fit 64 bits, [restore] returns the node's state, on a new
    database as on one of this node, with exactly the stored entries in memory; on the
    database of another node it raises [NodeIdentityMismatchError]. *)
Theorem restore_from_sqlite_returns n s : repo_wf s → coop s → n ≠ "" → counters_fit s →
  match saved_identity s with
  | Some i =>
      if bool_decide (DurableNodeIdentity.configured_node_id i = n)
      then ∃ x s', restore n s = (Ok x, s') ∧ memory_store x = stored s ∧ identity x = i
      else ∃ s', restore n s = (raise NodeIdentityMismatchError mismatch_text, s')
  | None => ∃ x s', restore n s = (Ok x, s') ∧ memory_store x = stored s
  end.
Proof.
  intros W Hs Hn Hfit. destruct (integrity_coop s Hs) as (h & s1 & E1 & Hs1 & Hd1).
  assert (saved_identity s1 = saved_identity s) as Ei1 by (by apply (f_equal node_identity) in Hd1).
  assert (saved_clock s1 = saved_clock s) as Ec1 by (by apply (f_equal db_clock) in Hd1).
  assert (repo_wf s1) as W1 by (unfold repo_wf; simpl; by rewrite Hd1).
  assert (kept s s1) as K1 by (apply unchanged_kept; [done|]; split_and!; [by apply (f_equal db_stored) in Hd1|done..]).
  pose proof (identity_coop n s1 W1 Hs1 Hn) as Hid.
  assert (∀ i s2, restore_identity n s1 = (Ok i, s2) → coop s2 →
    ∃ x s', restore n s = (Ok x, s') ∧ memory_store x = stored s ∧
            ∀ j, saved_identity s = Some j → identity x = j) as Hok.
  { intros i s2 E2 Hs2. pose proof (restore_identity_spec _ _ _ _ W1 E2) as (K2 & Ec2 & Hi2 & _).
    destruct (restore_coop n i s s1 h s2) as (x & s' & E); [done|done|by eapply kept_trans|done|congruence|done|done|done|].
    exists x, s'. split; [done|]. apply restore_spec in E as ((_ & _ & Hk & _) & _ & Hm & Hi' & _); [|done].
    split; [done|]. intros j Hj%Hk. congruence. }
  change (node_identity (database s1)) with (saved_identity s1) in Hid. rewrite Ei1 in Hid.
  destruct (saved_identity s) as [i|] eqn:Hi.
  - destruct (bool_decide _).
    + destruct Hid as (s2 & E2 & Hs2). destruct (Hok i s2 E2 Hs2) as (x & s' & E & Hm & Hx).
      exists x, s'. split_and!; [done..|by apply Hx].
    + destruct Hid as (s2 & E2). exists s2. unfold restore.
      change (Repository.integrity_check s = (Ok h, s1)) in E1. rewrite (M_bind_Ok _ _ _ _ _ E1). by apply M_bind_Err.
  - destruct Hid as (i & s2 & E2 & Hs2). destruct (Hok i s2 E2 Hs2) as (x & s' & E & Hm & _). eauto.
Qed.
End SqliteRestore.

(** ** A crash after a cancelled write *)
Module RecoverySample.
Import SQLiteStateRepository RestoreService SqliteRestore.
Import DurableCrdtStore (saved_count).

Definition executor0 : PersistenceExecutor.t := PersistenceExecutor.mk 4 4 0.
Definition db0 : db := Db [1] None None ∅ true.
Definition disk (l : list fate) (d : db) : t := mk executor0 true d l.

(** The first start of [n1]: a new database. *)
Definition first : result RestoredNodeState * t := restore "n1" (disk [Fate 0 0 Commits 7 "u"; Fate 0 0 Commits 7 "u"] db0).
Definition node : RestoredNodeState :=
  match first.1 with
  | Ok x => x
  | Err _ => Restored (DurableNodeIdentity.mk "" "" 0) (DurableCausalState.mk (CausalActor.mk "" 0) 0 VersionVector.empty)
               (CausalClock.init (CausalActor.mk "" 0)) ∅
  end.
Definition start : DurableCrdtStore.t := restarted node (disk [Fate 0 0 Cancelled 9 "u"] (database first.2)).

(** A write whose request is cancelled while its transaction commits. *)
Definition actor1 : CausalActor.t := CausalActor.mk "n1" 1.
Definition frontier1 : VersionVector.t := VersionVector.with_dot VersionVector.empty (Dot.mk actor1 1).
Definition entry1 : StoredCrdtEntry.t :=
  StoredCrdtEntry.mk "k" GCOUNTER (SGCounter (GCounter.build {[actor1 := 5]})) frontier1 frontier1.
Definition written := DurableCrdtStore.commit_local entry1 frontier1 None start.

(** The database as the next process opens it, and that process. *)
Definition reopened : t := disk [] (database (DurableCrdtStore.repository written.2)).
Definition second : result RestoredNodeState * t := restore "n1" reopened.

Lemma db0_wf : db_wf db0.
Proof. split; [apply map_Forall_empty|done|done]. Qed.

Lemma disk_wf l d : db_wf d → repo_wf (disk l d).
Proof. done. Qed.

Lemma first_ok : first = (Ok node, first.2).
Proof. vm_compute. reflexivity. Qed.

Lemma start_safe : DurableCrdtStore.safe start.
Proof.
  destruct (restore_spec "n1" (disk [Fate 0 0 Commits 7 "u"; Fate 0 0 Commits 7 "u"] db0) (Ok node) first.2 (disk_wf _ _ db0_wf) first_ok)
    as (K & [? ? ? ? ? ? ?] & _). split; done.
Qed.

Lemma recovery_loses_nothing_witness : ∃ x r',
  second = (Ok x, r') ∧ memory_store x !! "k" = Some entry1 ∧
  VersionVector.get (CausalClock._frontier (clock x)) actor1 = 1 ∧
  store_le (DurableCrdtStore.memory written.2) (memory_store x).
Proof.
  assert (DurableCrdtStore.step start written.2) as Hst.
  { assert (written = (raise CancelledError "", written.2)) as E by (vm_compute; reflexivity).
    refine (DurableCrdtStore.local_write entry1 frontier1 None start (raise CancelledError "") written.2 _ _ _ I E).
    - apply (bool_decide_unpack _). vm_compute. exact I.
    - apply (bool_decide_unpack _). vm_compute. exact I.
    - intros a. assert (CausalClock._frontier (DurableCrdtStore.clock start) = VersionVector.empty) as -> by (vm_compute; reflexivity).
      rewrite VersionVector.get_empty. apply VersionVector.get_nonneg. apply (bool_decide_unpack _). vm_compute. exact I. }
  pose proof (DurableCrdtStore.step_safe _ _ start_safe Hst) as Hs.
  assert (∃ x r', second = (Ok x, r')) as (x & r' & E) by (do 2 eexists; vm_compute; reflexivity).
  exists x, r'. split; [done|].
  assert (memory_store x !! "k" = Some entry1 ∧ VersionVector.get (CausalClock._frontier (clock x)) actor1 = 1) as [Hk Hf].
  { assert (match second.1 with
            | Ok x => bool_decide (memory_store x !! "k" = Some entry1) &&
                      (VersionVector.get (CausalClock._frontier (clock x)) actor1 =? 1)
            | Err _ => false
            end = true) as H by (vm_compute; reflexivity).
    rewrite E in H. apply andb_true_iff in H as [H1 H2]. split; [by apply bool_decide_eq_true in H1|by apply Z.eqb_eq]. }
  split_and!; [done..|].
  by apply (recovery_loses_nothing "n1" start written.2 reopened reopened x r' start_safe
    (reachable_step _ _ _ _ (reachable_init _ _) Hst) (DurableCrdtStore.safe_repo _ Hs) (conj eq_refl (conj eq_refl eq_refl))
    (rtc_refl _ _) E).
Defined.

Lemma restore_from_sqlite_returns_witness :
  (∃ x s', restore "n1" (disk [] db0) = (Ok x, s') ∧ memory_store x = stored (disk [] db0)) ∧
  ∃ s', restore "n2" (disk [] (database first.2)) = (raise NodeIdentityMismatchError mismatch_text, s').
Proof.
  pose proof (proj1 (restore_spec "n1" _ (Ok node) first.2 (disk_wf _ _ db0_wf) first_ok)) as (W & _ & _ & _).
  split.
  - refine (restore_from_sqlite_returns "n1" (disk [] db0) (disk_wf _ _ db0_wf) _ _ _); [by split_and!|done|].
    intros a. split; [done|]. intros k e E. change (stored (disk [] db0)) with (omap decoded (∅ : gmap string entry_row)) in E.
    by rewrite omap_empty, lookup_empty in E.
  - pose proof (restore_from_sqlite_returns "n2" (disk [] (database first.2)) (disk_wf _ _ W)) as Hr.
    apply Hr; [by split_and!|done|]. intros a.
    assert (saved_count (disk [] (database first.2)) a = 0) as ->.
    { assert (saved_clock (disk [] (database first.2)) = Some (DurableCausalState.at_frontier actor1 VersionVector.empty)) as E
        by (vm_compute; reflexivity). unfold saved_count. by rewrite E. }
    split; [done|]. intros k e E. exfalso.
    assert (stored (disk [] (database first.2)) = ∅) as He by (apply (bool_decide_unpack _); vm_compute; exact I).
    rewrite He in E. exact (lookup_empty_Some (M:=gmap string) k e E).
Defined.
End RecoverySample.
