(* ===== verification/PeerClient.v ===== *)
(** * Peer transport: [distsys/replication/peer_client.py] and
    [distsys/replication/replicator.py]

    The client side of the CRDT protocol: one connection per exchange, the checks on
    the reply, the adapters the replication components are written against, and the
    replicator's worker.  Sockets and TLS are parameters: [connect] opens a connection
    (and verifies the peer), [talk] writes a frame and is what then arrives. *)

From S2P Require Import Prelude Lattice Causal Json Crdt Storage Resilience.
From S2P Require Import Membership Ring Proto Protocol CrdtCodec Outbox Repair AntiEntropy CrdtService.

Local Open Scope Z_scope.
Import StoredCrdtEntry (key, crdt_type, state_version, causal_context).
Import ClusterMember (node_id).
Import CrdtCodec.

Record Network (S : Type) := {
  connect : ClusterMember.t → Z → M S unit;
  talk : ClusterMember.t → string → M S string;
  (** [int(time.time() * 1000)] and [str(uuid.uuid4())] *)
  stamp : S → Z * string;
  (** [time.monotonic()], in milliseconds *)
  monotonic : S → Z;
}.
Arguments connect {_} _ _ _.
Arguments talk {_} _ _ _.
Arguments stamp {_} _ _.
Arguments monotonic {_} _ _.

Module CrdtPeerClient.
Section client.
Context {S : Type} (net : Network S) (local_node_id : string) (max_frame_size : Z).
Context `{!Wire pb.Envelope, !Wire pb.CrdtMutationRequest, !Wire pb.CrdtReadRequest, !Wire pb.CrdtResponse,
  !Wire pb.CrdtReplicate, !Wire pb.CrdtFetch, !Wire pb.CrdtDigest, !Wire pb.CrdtDigestResponse}.

Definition _exchange_raw (peer : ClusterMember.t) (message : Message.t) (timeout_seconds : Z) : M S Message.t :=
  if timeout_seconds <=? 0 then raiseM TimeoutError "CRDT peer exchange timeout exhausted"
  else
    _ ← connect net peer timeout_seconds;
    frame ← liftM (encode_frame message max_frame_size);
    stream ← talk net peer frame;
    response ← catchM (liftM (read_message max_frame_size stream).1) [IncompleteReadError]
      (λ _, raiseM CrdtPeerProtocolError "peer closed connection before sending a complete response");
    if bool_decide (Message.correlation_id response = Message.correlation_id message) then mret response
    else raiseM CrdtPeerProtocolError "CRDT peer correlation mismatch".

(** [Message.new_request(sender_id=..., msg_type=..., payload=...)] *)
Definition request (msg_type : MessageType) (payload : string) : M S Message.t := λ s,
  let '(now_ms, fresh_id) := stamp net s in
  (Ok (Message.new_request now_ms fresh_id local_node_id payload None 8 msg_type "" ""), s).

Definition _crdt_round_trip (peer : ClusterMember.t) (msg_type : MessageType) (payload : result string)
    (timeout_seconds : Z) (raise_remote : bool) : M S CrdtResponseData :=
  payload ← liftM payload;
  request ← request msg_type payload;
  response ← _exchange_raw peer request timeout_seconds;
  if bool_decide (Message.msg_type response = CRDT_RESPONSE) then
    decoded ← liftM (decode_crdt_response (Message.payload response));
    if raise_remote && negb (success decoded)
    then failM (Exn CrdtRemoteError (error_message decoded) (error_code decoded))
    else mret decoded
  else raiseM CrdtPeerProtocolError ("expected CRDT_RESPONSE, got " +:+ MessageType_name (Message.msg_type response)).

Definition replicate (peer : ClusterMember.t) (state : StoredCrdtEntry.t) (timeout_seconds : Z) : M S unit :=
  _ ← _crdt_round_trip peer CRDT_REPLICATE (encode_replication state) timeout_seconds true; mret tt.

Definition fetch (peer : ClusterMember.t) (k : string) (timeout_seconds : Z) : M S CrdtResponseData :=
  _crdt_round_trip peer CRDT_FETCH (encode_fetch_request k) timeout_seconds false.

Definition digest (peer : ClusterMember.t) (entries : list CrdtDigestEntry.t) (batch_size timeout_seconds : Z)
    : M S (list CrdtDigestEntry.t) :=
  payload ← liftM (encode_digest_request local_node_id entries batch_size);
  request ← request CRDT_DIGEST payload;
  response ← _exchange_raw peer request timeout_seconds;
  if bool_decide (Message.msg_type response = CRDT_DIGEST_RESPONSE)
  then liftM (decode_digest_response (Message.payload response))
  else raiseM CrdtPeerProtocolError ("expected CRDT_DIGEST_RESPONSE, got " +:+ MessageType_name (Message.msg_type response)).

Definition origin_or_self (origin : string) : string := if nonempty origin then origin else local_node_id.

Definition forward_mutation (peer : ClusterMember.t) (request : CrdtMutationData) (deadline : Deadline.t)
    : M S CrdtResponseData :=
  now ← gets (monotonic net);
  let remaining := Deadline.remaining deadline now in
  if remaining <=? 0 then raiseM DeadlineExceeded "CRDT request deadline exceeded before forwarding"
  else
    let forwarded := mkMutationData (mut_key request) (mut_type request) (operation request) (mut_value request)
      (amount request) (mut_token request) true (origin_or_self (mut_origin request)) (Z.max 1 remaining) in
    now ← gets (monotonic net);
    _crdt_round_trip peer CRDT_MUTATE_REQUEST (encode_mutation_request forwarded) (Deadline.remaining deadline now) true.

Definition forward_read (peer : ClusterMember.t) (request : CrdtReadData) (deadline : Deadline.t)
    : M S CrdtResponseData :=
  now ← gets (monotonic net);
  let remaining := Deadline.remaining deadline now in
  if remaining <=? 0 then raiseM DeadlineExceeded "CRDT request deadline exceeded before forwarding"
  else
    let forwarded := mkReadData (read_key request) (read_token request) true
      (origin_or_self (read_origin request)) (Z.max 1 remaining) in
    now ← gets (monotonic net);
    _crdt_round_trip peer CRDT_READ_REQUEST (encode_read_request forwarded) (Deadline.remaining deadline now) true.
End client.
End CrdtPeerClient.

(** ** The adapters *)
Module ReplicationTransportAdapter.
Section adapter.
Context {S : Type} (replicate : ClusterMember.t → StoredCrdtEntry.t → Z → M S unit).
Context (resolver : S → string → option ClusterMember.t) (timeout_seconds : Z).

Definition send_state (peer_node_id : string) (state : StoredCrdtEntry.t) : M S unit :=
  peer ← gets (λ s, resolver s peer_node_id);
  match peer with
  | None => raiseM ConnectionError ("peer " +:+ peer_node_id +:+ " is not currently ALIVE")
  | Some peer => replicate peer state timeout_seconds
  end.
End adapter.
End ReplicationTransportAdapter.

Module CausalRepairPeerAdapter.
Section adapter.
Context {S : Type} (net : Network S) (fetch : ClusterMember.t → string → Z → M S CrdtResponseData).
Context (timeout_cap_seconds : Z).

Definition fetch_state (peer : ClusterMember.t) (k : string) (deadline : Deadline.t) : M S PeerCrdtFetch :=
  now ← gets (monotonic net);
  let timeout := Z.min timeout_cap_seconds (Deadline.remaining deadline now) in
  if timeout <=? 0 then raiseM DeadlineExceeded "causal repair deadline exhausted"
  else
    response ← fetch peer k timeout;
    mret (Fetched (node_id peer) (if success response then resp_state response else None) (peer_frontier response)).
End adapter.
End CausalRepairPeerAdapter.

Module AntiEntropyPeerAdapter.
Section adapter.
Context {S : Type} `{CrdtStateStore S} (replicate : ClusterMember.t → StoredCrdtEntry.t → Z → M S unit)
  (fetch : ClusterMember.t → string → Z → M S CrdtResponseData)
  (digest : ClusterMember.t → list CrdtDigestEntry.t → Z → Z → M S (list CrdtDigestEntry.t)).
Context (timeout_seconds : Z).

Definition exchange_digest (peer : ClusterMember.t) (digest_entries : list CrdtDigestEntry.t)
    : M S (list CrdtDigestEntry.t) :=
  digest peer digest_entries (Z.max 1 (Z.of_nat (length digest_entries))) timeout_seconds.

Definition fetch_state (peer : ClusterMember.t) (k : string) : M S (option StoredCrdtEntry.t) :=
  response ← fetch peer k timeout_seconds;
  mret (if success response then resp_state response else None).

Definition send_state (peer : ClusterMember.t) (state : StoredCrdtEntry.t) : M S unit :=
  replicate peer state timeout_seconds.

Definition send_metadata (peer : ClusterMember.t) (k : string) (context : VersionVector.t) : M S unit :=
  local ← store_get k;
  match local with
  | None => mret tt
  | Some local =>
      _ ← digest peer [CrdtDigestEntry.mk (key local) (crdt_type local) (state_version local) context] 1 timeout_seconds;
      mret tt
  end.

Definition adapter : AntiEntropyPeer S := {|
  AntiEntropy.exchange_digest := exchange_digest;
  AntiEntropy.fetch_state := fetch_state;
  AntiEntropy.send_state := send_state;
  AntiEntropy.send_metadata := send_metadata;
|}.
End adapter.
End AntiEntropyPeerAdapter.

(** ** [replication/replicator.py] *)
Module Replicator.
Definition _RETRYABLE : list exn_class := [ConnectionError; TimeoutError; OSError].
Definition _EXPECTED_SEND_FAILURES : list exn_class := _RETRYABLE ++ [CrdtRemoteError; ProtocolError].

Definition init_check (worker_count : Z) : result unit :=
  if worker_count <? 1 then raise ValueError "worker_count must be >= 1" else Ok tt.

Section worker.
Context {S : Type} (send_state : string → StoredCrdtEntry.t → M S unit).
Context (on_outbox : ∀ A, M ReplicationOutbox.t A → M S A) (max_attempts : Z).

(** [retry_async] without a deadline, over an operation that changes the state: the
    loop ends with the first success, the first error that is not retried, or the
    error of the last attempt. *)
Fixpoint attempts (n : nat) (attempt : M S unit) : M S unit :=
  match n with
  | O => raiseM RuntimeError "retry loop exhausted unexpectedly"
  | 1%nat => attempt
  | Datatypes.S n => catchM attempt _RETRYABLE (λ _, attempts n attempt)
  end.

Definition _send_with_retry (item : PendingReplication.t) : M S unit :=
  attempts (Z.to_nat max_attempts)
    (send_state (PendingReplication.peer_node_id item) (PendingReplication.state item)).

Definition abandon (item : PendingReplication.t) : M S unit :=
  on_outbox unit (modifyM (ReplicationOutbox.abandon (PendingReplication.peer_node_id item)
    (PendingReplication.key item) (PendingReplication.generation item))).

Definition complete (item : PendingReplication.t) : M S unit :=
  on_outbox unit (modifyM (ReplicationOutbox.complete (PendingReplication.peer_node_id item)
    (PendingReplication.key item) (PendingReplication.generation item))).

(** One round of [_worker] once [next_ready] has returned an item.  It raises when the
    task ends: the worker is cancelled, or the error is not an expected one. *)
Definition _worker (item : PendingReplication.t) : M S unit := λ s,
  match _send_with_retry item s with
  | (Ok _, s) => complete item s
  | (Err e, s) =>
      if isinstance e [CancelledError] then (_ ← abandon item; failM e) s
      else if isinstance e _EXPECTED_SEND_FAILURES then abandon item s
      else (Err e, s)
  end.
End worker.
End Replicator.

(** *** A worker that dies *)
Module WorkerLoss.
Import ReplicationOutbox.

(** What the rest of the node does to the outbox while no worker holds the item of
    [p]: writers reserve, cancel and publish, workers take and report other items. *)
Inductive traffic (p : Pair) : t → t → Prop :=
  | other_reserve l r ob ob' : reserve l ob = (r, ob') → traffic p ob ob'
  | other_cancel r ob : traffic p ob (cancel r ob)
  | other_publish r states x ob ob' : publish r states ob = (x, ob') → traffic p ob ob'
  | other_next o ob ob' : next_ready ob = (o, ob') → traffic p ob ob'
  | other_complete peer k g ob : (peer, k) ≠ p → traffic p ob (complete peer k g ob)
  | other_abandon peer k g ob : (peer, k) ≠ p → traffic p ob (ReplicationOutbox.abandon peer k g ob).

Definition busy_in (p : Pair) (d : gmap Pair Pending.t) : Prop :=
  ∃ c, d !! p = Some c ∧ Pending.in_flight c = true.
Definition busy (p : Pair) (ob : t) : Prop := busy_in p (_pending ob).

Lemma busy_insert d p q c : busy_in p d → (q = p → Pending.in_flight c = true) → busy_in p (<[q := c]> d).
Proof.
  intros (x & Hx & Hf) Hc. destruct (decide (q = p)) as [->|Hne].
  - exists c. rewrite lookup_insert_eq. split; [done|]. by apply Hc.
  - exists x. by rewrite lookup_insert_ne.
Qed.

Lemma busy_foldl {A} (f : gmap Pair Pending.t → A → gmap Pair Pending.t) p l d :
  (∀ d x, busy_in p d → busy_in p (f d x)) → busy_in p d → busy_in p (foldl f d l).
Proof. intros Hf. revert d. induction l as [|x l IH]; intros d Hd; simpl; auto. Qed.

Lemma busy_reserve p l r ob ob' : busy p ob → reserve l ob = (r, ob') → busy p ob'.
Proof.
  intros Hb E. destruct r as [r|e].
  - destruct Hb as (c & Hc & Hf). pose proof (reserve_lookup l ob r ob' p E) as Hp. rewrite Hc in Hp. simpl in Hp.
    unfold busy, busy_in. case_decide; [exists (Pending.reserved c)|exists c]; by split.
  - unfold reserve in E. case_match; [|done]. by injection E as _ <-.
Qed.

Lemma busy_cancel p r ob : busy p ob → busy p (cancel r ob).
Proof.
  intros Hb. apply busy_foldl; [|done]. intros d q (c & Hc & Hf). unfold cancel_one.
  destruct (d !! q) as [x|] eqn:Hx; [|by exists c]. cbv zeta.
  set (y := if 0 <? Pending.reservations x then Pending.released x else x).
  assert (Pending.in_flight y = Pending.in_flight x) as Hy by (unfold y; by case_match).
  destruct (decide (q = p)) as [->|Hne].
  - rewrite Hc in Hx. injection Hx as <-. rewrite Hy, Hf, andb_false_r. apply busy_insert; [by exists c|congruence].
  - case_match; [|by apply busy_insert; [exists c|]]. exists c. by rewrite lookup_delete_ne.
Qed.

Lemma busy_publish p r states x ob ob' : busy p ob → publish r states ob = (x, ob') → busy p ob'.
Proof.
  intros Hb. unfold publish. assert (∀ l d q, busy_in p d → busy_in p (publish_loop states l d q).2) as Hl.
  { intros l. induction l as [|y l IH]; intros d q Hd; simpl; [done|].
    destruct (states !! y.2); [|done]. destruct (d !! y) as [c|] eqn:Hc; [|done]. case_match; [done|].
    apply IH, busy_insert; [done|]. simpl. intros ->. destruct Hd as (z & Hz & ?). congruence. }
  specialize (Hl (pairs r) (_pending ob) [] Hb). destruct (publish_loop _ _ _ _) as [[q|e] d];
    intros [= <- <-]; exact Hl.
Qed.

Lemma next_from_busy p d l o l' : busy_in p d → next_from d l = (o, l') →
  match o with
  | Some (i, d') => (PendingReplication.peer_node_id i, PendingReplication.key i) ≠ p ∧ busy_in p d'
  | None => True
  end.
Proof.
  intros Hb. induction l as [|q l IH]; simpl; [by intros [= <- <-]|].
  destruct (d !! q) as [c|] eqn:Hc; [|done]. destruct (Pending.state c); [|done].
  destruct (Pending.in_flight c) eqn:Hf; [done|]. intros [= <- <-]. simpl. split.
  - rewrite <-surjective_pairing. intros ->. destruct Hb as (x & Hx & ?). congruence.
  - apply busy_insert; [done|]. done.
Qed.

Lemma busy_next p o ob ob' : busy p ob → next_ready ob = (o, ob') →
  busy p ob' ∧ ∀ i, o = Some i → (PendingReplication.peer_node_id i, PendingReplication.key i) ≠ p.
Proof.
  intros Hb. unfold next_ready. destruct (next_from _ _) as [[[i d]|] l] eqn:E; intros [= <- <-];
    apply (next_from_busy p) in E; try done.
  - destruct E as [Hn Hd]. split; [done|]. by intros ? [= <-].
Qed.

Lemma busy_complete p peer k g ob : (peer, k) ≠ p → busy p ob → busy p (complete peer k g ob).
Proof.
  intros Hne (c & Hc & Hf). unfold complete. cbv zeta. destruct (_pending ob !! (peer, k)) as [x|]; [|by exists c].
  unfold busy, busy_in. repeat case_match; simpl; exists c; rewrite ?lookup_delete_ne, ?lookup_insert_ne by done; done.
Qed.

Lemma busy_traffic p ob ob' : busy p ob → traffic p ob ob' → busy p ob'.
Proof.
  intros Hb Ht. destruct Ht.
  - by eapply busy_reserve.
  - by apply busy_cancel.
  - by eapply busy_publish.
  - by eapply busy_next.
  - by apply busy_complete.
  - rewrite OutboxSystem.abandon_complete. by apply busy_complete.
Qed.

Lemma busy_forever p ob ob' : busy p ob → rtc (traffic p) ob ob' → busy p ob'.
Proof. intros Hb Hr. induction Hr; [done|]. eauto using busy_traffic. Qed.

(** The worker of a node: the outbox is a part of its state. *)
Section node.
Context {S : Type} (ob_of : S → t) (put_ob : t → S → S).
Context (net : Network S) (local_node_id : string) (max_frame_size max_attempts timeout : Z)
  (resolver : S → string → option ClusterMember.t).
Context `{!Wire pb.Envelope, !Wire pb.CrdtMutationRequest, !Wire pb.CrdtReadRequest, !Wire pb.CrdtResponse,
  !Wire pb.CrdtReplicate, !Wire pb.CrdtFetch, !Wire pb.CrdtDigest, !Wire pb.CrdtDigestResponse}.

Definition on_outbox (A : Type) (m : M t A) : M S A := λ s,
  match m (ob_of s) with (r, ob) => (r, put_ob ob s) end.

Definition send : string → StoredCrdtEntry.t → M S unit :=
  ReplicationTransportAdapter.send_state (CrdtPeerClient.replicate net local_node_id max_frame_size) resolver timeout.

Definition worker (item : PendingReplication.t) : M S unit :=
  Replicator._worker send on_outbox max_attempts item.

Lemma oversized_not_encoded e c a n : crdt_type e = GCOUNTER → StoredCrdtEntry.state e = SGCounter c →
  (a, n) ∈ GCounter.components c → 2 ^ 64 ≤ n → encode_replication e = raise ValueError "Value out of range".
Proof.
  intros Ht Es Hin Hn. unfold encode_replication, state_to_proto. rewrite Ht, Es. cbn [oneof_to_proto mbind result_bind].
  unfold serialize. set (m := pb.mkReplicate _). assert (in_range m = false) as ->; [|done].
  unfold m. cbn [in_range pb.Replicate_ranged pb.rep_state pb.CrdtState_ranged pb.cs_state].
  apply andb_false_intro2.
  change (forallb in_range (counters_to_proto (GCounter.components c)) = false).
  apply not_true_is_false. rewrite forallb_forall. intros Hall.
  assert (In (actor_to_proto a, n) (counters_to_proto (GCounter.components c))) as Hi.
  { apply list_elem_of_In, list_elem_of_fmap. by exists (a, n). }
  apply Hall in Hi. unfold in_range, pb.counted_actor_ranged in Hi. apply andb_true_iff in Hi as [_ Hi]. simpl in Hi.
  unfold uint64 in Hi. apply andb_true_iff in Hi as [_ Hi%Z.ltb_lt]. lia.
Qed.

(** A counter past 64 bits stops replication of its key.  The wire format holds
    counters below 2^64 and the node accepts larger ones; when a worker takes such a
    state, the [ValueError] of the encoder is neither retried nor among the failures
    the worker expects, so the worker task ends without completing or abandoning the
    item.  Its place in the outbox stays in flight: whatever is written afterwards, no
    worker is ever given that peer and key again. *)
Theorem oversized_counter_stops_worker item peer c a n s :
  crdt_type (PendingReplication.state item) = GCOUNTER →
  StoredCrdtEntry.state (PendingReplication.state item) = SGCounter c →
  (a, n) ∈ GCounter.components c → 2 ^ 64 ≤ n → 1 ≤ max_attempts →
  resolver s (PendingReplication.peer_node_id item) = Some peer →
  busy (PendingReplication.peer_node_id item, PendingReplication.key item) (ob_of s) →
  worker item s = (raise ValueError "Value out of range", s) ∧
  ∀ ob ob' i, rtc (traffic (PendingReplication.peer_node_id item, PendingReplication.key item)) (ob_of s) ob →
    next_ready ob = (Some i, ob') →
    (PendingReplication.peer_node_id i, PendingReplication.key i) ≠
      (PendingReplication.peer_node_id item, PendingReplication.key item).
Proof.
  intros Ht Es Hin Hn Hmax Hres Hbusy. pose proof (oversized_not_encoded _ _ _ _ Ht Es Hin Hn) as Henc.
  split.
  - assert (send (PendingReplication.peer_node_id item) (PendingReplication.state item) s =
      (raise ValueError "Value out of range", s)) as Esend.
    { unfold send, ReplicationTransportAdapter.send_state, gets, mbind, M_bind. rewrite Hres.
      unfold CrdtPeerClient.replicate, CrdtPeerClient._crdt_round_trip, mbind, M_bind, liftM. by rewrite Henc. }
    unfold worker, Replicator._worker, Replicator._send_with_retry.
    destruct (Z.to_nat max_attempts) as [|[|k]] eqn:Em; [lia|simpl; by rewrite Esend|].
    cbn [Replicator.attempts]. unfold catchM. by rewrite Esend.
  - intros ob ob' i Hr E. pose proof (busy_forever _ _ _ Hbusy Hr) as Hb. by apply (busy_next _ _ _ _ Hb) in E as [_ ?]; auto.
Qed.
End node.
End WorkerLoss.

(** ** A node whose counter has overflowed *)
Module WorkerLossSample.
#[local] Instance env_wire : Wire pb.Envelope := countable_wire.
#[local] Instance mut_wire : Wire pb.CrdtMutationRequest := countable_wire.
#[local] Instance read_wire : Wire pb.CrdtReadRequest := countable_wire.
#[local] Instance resp_wire : Wire pb.CrdtResponse := countable_wire.
#[local] Instance rep_wire : Wire pb.CrdtReplicate := countable_wire.
#[local] Instance fetch_wire : Wire pb.CrdtFetch := countable_wire.
#[local] Instance digest_wire : Wire pb.CrdtDigest := countable_wire.
#[local] Instance digest_resp_wire : Wire pb.CrdtDigestResponse := countable_wire.

Definition a1 : CausalActor.t := CausalActor.mk "n1" 1.
(** Two increments of the largest amount a request can carry. *)
Definition twice : GCounter.t :=
  match (c ← GCounter.increment GCounter.empty a1 (2 ^ 64 - 1); GCounter.increment c a1 (2 ^ 64 - 1)) with
  | Ok c => c
  | Err _ => GCounter.empty
  end.
Definition v2 : VersionVector.t := VersionVector.with_dot VersionVector.empty (Dot.mk a1 2).
Definition big : StoredCrdtEntry.t := StoredCrdtEntry.mk "k" GCOUNTER (SGCounter twice) v2 v2.

Definition quiet : Network ReplicationOutbox.t := {|
  connect _ _ := mret tt;
  talk _ _ := mret "";
  stamp _ := (0, "id");
  monotonic _ := 0;
|}.
Definition n2 : ClusterMember.t := ClusterMember.mk "n2" "h2" 7002 ALIVE 1.
Definition item : PendingReplication.t := PendingReplication.mk "n2" "k" 1 big.
Definition taken : ReplicationOutbox.t :=
  ReplicationOutbox.mk 4 {[("n2", "k") := Pending.mk 1 (Some big) false true 0]} [].

Lemma oversized_counter_stops_worker_witness :
  WorkerLoss.worker id (λ ob _, ob) quiet "n1" 1000 3 1 (λ _ _, Some n2) item taken =
    (raise ValueError "Value out of range", taken).
Proof.
  apply (WorkerLoss.oversized_counter_stops_worker id (λ ob _, ob) quiet "n1" 1000 3 1 (λ _ _, Some n2) item n2 twice a1
           (2 * (2 ^ 64 - 1)) taken); [reflexivity|reflexivity| |lia|lia|reflexivity|].
  - apply (bool_decide_unpack _). vm_compute. exact I.
  - exists (Pending.mk 1 (Some big) false true 0). split; [apply lookup_singleton_eq|reflexivity].
Defined.
End WorkerLossSample.
