(* ===== verification/Node.v ===== *)
(** * The node: [distsys/node.py]

    The connection loop and the dispatch of messages: tasks under rate limiting and
    backpressure, control messages to the cluster service, CRDT messages to the CRDT
    service once the node has recovered.  The services are what [NodeParts] names; the
    limiter and the backpressure controller are the components modelled before.  Times
    are in milliseconds, processing times in microseconds. *)

From Stdlib Require Import QArith.
From S2P Require Import Prelude Causal Json Resilience Membership Proto Protocol Cluster CrdtCodec.

Local Open Scope Z_scope.

(** The parts of a node, as operations on its state. *)
Record NodeParts (S : Type) := {
  (** [TaskExecutor.execute] *)
  execute : string → json → Deadline.t → M S json;
  (** [self.cluster_service], when there is one: its control handler and its router *)
  cluster_service : option ((Message.t → M S Message.t) * (string → json → string → Deadline.t → M S json));
  (** [self.crdt_service.handle_message], when there is one *)
  crdt_service : option (Message.t → M S Message.t);
  (** [(await self.health.snapshot()).readiness] *)
  ready : S → bool;
  stopping : S → bool;
  backpressure_of : S → BackpressureController.t;
  set_backpressure : BackpressureController.t → S → S;
  limiter_of : S → TokenBucketRateLimiter.t;
  set_limiter : TokenBucketRateLimiter.t → S → S;
  (** the clocks: [time.monotonic] in milliseconds and in seconds, [time.time] in
      milliseconds, [time.perf_counter_ns()] *)
  monotonic_ms : S → Z;
  monotonic_s : S → Q;
  time_ms : S → Z;
  perf_ns : S → Z;
}.
Arguments execute {_} _ _ _ _.
Arguments cluster_service {_} _.
Arguments crdt_service {_} _.
Arguments ready {_} _ _.
Arguments stopping {_} _ _.
Arguments backpressure_of {_} _ _.
Arguments set_backpressure {_} _ _ _.
Arguments limiter_of {_} _ _.
Arguments set_limiter {_} _ _ _.
Arguments monotonic_ms {_} _ _.
Arguments monotonic_s {_} _ _.
Arguments time_ms {_} _ _.
Arguments perf_ns {_} _ _.

(** The settings the dispatch reads. *)
Record Settings := mkSettings {
  node_id : string; max_frame_size : Z; request_timeout_ms : Z; crdt_enabled : bool; persistence_enabled : bool;
  tls_enabled : bool; mtls_required : bool }.

Definition _CRDT_TYPES : list MessageType :=
  [CRDT_MUTATE_REQUEST; CRDT_READ_REQUEST; CRDT_REPLICATE; CRDT_FETCH; CRDT_DIGEST].
Definition _CONTROL_TYPES : list MessageType := [JOIN_REQUEST; PING; PING_REQ; GOSSIP].

(** [security/identity.py], on the DNS names of a certificate. *)
Definition verify_node_identity (dns_sans : list string) (expected_node_id : string) : result unit :=
  if negb (nonempty expected_node_id) then raise ValueError "expected_node_id must not be empty"
  else if bool_decide (expected_node_id ∈ dns_sans) then Ok tt
  else raise TlsPeerIdentityError ("authenticated peer certificate does not identify " +:+ expected_node_id)%string.

(** What a connection shows of its peer: [get_extra_info("ssl_object")] and the DNS
    names of [getpeercert()], [None] when it is empty. *)
Definition Connection : Type := option (option (list string)).

Module DistributedNode.
Section node.
Context {S : Type} (parts : NodeParts S) (settings : Settings).
Context `{!Wire pb.Envelope, !Wire pb.TaskRequest, !Wire pb.TaskResponse, !Wire pb.ForwardedTaskRequest,
  !Wire pb.CrdtResponse}.

Definition on_backpressure {A} (m : M BackpressureController.t A) : M S A := λ s,
  match m (backpressure_of parts s) with (r, c) => (r, set_backpressure parts c s) end.
Definition on_limiter {A} (m : M TokenBucketRateLimiter.t A) : M S A := λ s,
  match m (limiter_of parts s) with (r, c) => (r, set_limiter parts c s) end.

Definition _response (request : Message.t) (success : bool) (result : json) (error_code : Z) (error_message : string)
    (processing_time_us : Z) : M S Message.t := λ s,
  (payload ← encode_task_response success result error_code error_message processing_time_us;
   Ok (Message.new_response (time_ms parts s) (node_id settings) (Message.correlation_id request) payload
         (if success then RESPONSE else ERROR) 8 "" ""), s).

(** [try: ... finally: release], where the release's own error replaces the outcome. *)
Definition finally {A} (m : M S A) (release : M S unit) : M S A := λ s,
  match m s with
  | (r, s') => match release s' with (Ok _, s'') => (r, s'') | (Err e, s'') => (Err e, s'') end
  end.

Definition _execute_local (task_name : string) (payload : json) (deadline : Deadline.t) : M S json :=
  acquired ← on_backpressure BackpressureController.try_acquire;
  if negb acquired then raiseM LocalOverloadedError "node is at execution capacity"
  else
    finally
      (catchM (execute parts task_name payload deadline) [WorkerPoolSaturatedError]
         (λ _, raiseM LocalOverloadedError "worker pool pending capacity is full"))
      (on_backpressure BackpressureController.release).

Definition _handle_control (message : Message.t) : M S Message.t :=
  match cluster_service parts with
  | None => _response message false JNull pb.INVALID_REQUEST "cluster mode is disabled" 0
  | Some (handle_control, _) =>
      catchM (handle_control message) [DecodeError]
        (λ exc, _response message false JNull pb.INVALID_REQUEST (exn_msg exc) 0)
  end.

(** The reply to a CRDT message the service does not see. *)
Definition crdt_refusal (message : Message.t) (code : Z) (text : string) : M S Message.t := λ s,
  (payload ← CrdtCodec.encode_crdt_response
     (CrdtCodec.mkResponseData false None JNull CausalToken.empty (node_id settings) false code text
        None VersionVector.empty);
   Ok (Message.new_response (time_ms parts s) (node_id settings) (Message.correlation_id message) payload
         CRDT_RESPONSE 8 "" ""), s).

Definition _handle_crdt (message : Message.t) : M S Message.t :=
  recovered ← gets (ready parts);
  if crdt_enabled settings && persistence_enabled settings &&
     bool_decide (Message.msg_type message ∈ [CRDT_MUTATE_REQUEST; CRDT_READ_REQUEST]) && negb recovered
  then crdt_refusal message pb.RECOVERY_IN_PROGRESS "durable recovery is still in progress"
  else
    match crdt_service parts with
    | Some handle_message => handle_message message
    | None => crdt_refusal message pb.INVALID_REQUEST "CRDT mode is disabled"
    end.

(** The [except] clauses of [handle_message], in order. *)
Definition task_failure (task_name : string) (e : exn) : option (Z * string) :=
  if isinstance e [UnknownTaskError] then Some (pb.UNKNOWN_TASK, ("unknown task: " +:+ task_name)%string)
  else if isinstance e [DecodeError; TaskValidationError] then Some (pb.INVALID_REQUEST, exn_msg e)
  else if isinstance e [DeadlineExceeded] then Some (pb.TIMEOUT, "request deadline exceeded"%string)
  else if isinstance e [LocalOverloadedError] then Some (pb.OVERLOADED, exn_msg e)
  else if isinstance e [NoRouteError] then Some (pb.NO_ROUTE, exn_msg e)
  else if isinstance e [PeerUnavailableError] then Some (pb.PEER_UNAVAILABLE, exn_msg e)
  else if isinstance e [PeerApplicationError] then Some (exn_code e, exn_msg e)
  else if isinstance e [WorkerPoolBrokenError; WorkerPoolClosedError]
  then Some (pb.INTERNAL_ERROR, "internal server error"%string)
  else if isinstance e [Exception] then Some (pb.INTERNAL_ERROR, "internal server error"%string)
  else None.

(** [(time.perf_counter_ns() - started_ns) // 1_000] *)
Definition elapsed (started : Z) (s : S) : Z := (perf_ns parts s - started) / 1000.

(** The [try] block from a point where the task is called [task_name]. *)
Definition attempt (message : Message.t) (started : Z) (task_name : string) (m : M S Message.t) : M S Message.t := λ s,
  match m s with
  | (Err e, s') =>
      match task_failure task_name e with
      | Some (code, text) => _response message false JNull code text (elapsed started s') s'
      | None => (Err e, s')
      end
  | r => r
  end.

Definition succeed (message : Message.t) (started : Z) (m : M S json) : M S Message.t :=
  result ← m;
  took ← gets (elapsed started);
  _response message true result 0 "" took.

Definition run_forwarded (message : Message.t) (started : Z) : M S Message.t :=
  match cluster_service parts with
  | None => _response message false JNull pb.INVALID_REQUEST "cluster mode is disabled" 0
  | Some _ =>
      match decode_forwarded_request (Message.payload message) with
      | Err e => attempt message started "unknown" (failM e)
      | Ok forwarded =>
          let task := forwarded_task forwarded in
          attempt message started (task_name task)
            (if remaining_timeout_ms forwarded <=? 0
             then raiseM DeadlineExceeded "forwarded request deadline exceeded"
             else
               now ← gets (monotonic_ms parts);
               deadline ← liftM (Deadline.after now (remaining_timeout_ms forwarded));
               succeed message started (_execute_local (task_name task) (request_payload task) deadline))
      end
  end.

Definition run_request (message : Message.t) (started : Z) : M S Message.t :=
  match decode_task_request (Message.payload message) with
  | Err e => attempt message started "unknown" (failM e)
  | Ok request =>
      attempt message started (task_name request)
        (now_s ← gets (monotonic_s parts);
         allowed ← on_limiter (TokenBucketRateLimiter.allow now_s 1);
         if negb allowed then
           took ← gets (elapsed started);
           _response message false JNull pb.RATE_LIMITED "request rate limit exceeded" took
         else
           now ← gets (monotonic_ms parts);
           deadline ← liftM (Deadline.after now (request_timeout_ms settings));
           succeed message started
             (match cluster_service parts with
              | Some (_, route) =>
                  if nonempty (routing_key request)
                  then route (task_name request) (request_payload request) (routing_key request) deadline
                  else _execute_local (task_name request) (request_payload request) deadline
              | None => _execute_local (task_name request) (request_payload request) deadline
              end))
  end.

Definition handle_message (message : Message.t) : M S Message.t :=
  started ← gets (perf_ns parts);
  if bool_decide (Message.msg_type message ∈ _CONTROL_TYPES) then _handle_control message
  else if bool_decide (Message.msg_type message ∈ _CRDT_TYPES) then _handle_crdt message
  else
    match Message.msg_type message with
    | FORWARDED_REQUEST => run_forwarded message started
    | REQUEST => run_request message started
    | other => _response message false JNull pb.INVALID_REQUEST
                 ("unsupported message type: " +:+ MessageType_name other) 0
    end.

(** *** Connections *)
Definition _verify_authenticated_sender (message : Message.t) (ssl_object : Connection) : result unit :=
  if negb (tls_enabled settings) then Ok tt
  else
    match ssl_object with
    | None => raise TlsPeerIdentityError "TLS connection did not expose an SSL object"
    | Some None =>
        if mtls_required settings then raise TlsPeerIdentityError "mTLS peer did not present a certificate"
        else Ok tt
    | Some (Some dns_sans) => verify_node_identity dns_sans (Message.sender_id message)
    end.

(** How a connection ends: [handle_connection] returned, or raised. *)
Definition ending : Type := result unit.

(** The [while] loop: the bytes that arrive before end of file, and the bytes written
    back.  Every round reads a whole frame, so [fuel] above the number of bytes left is
    never used up. *)
Fixpoint serve (fuel : nat) (conn : Connection) (stream : string) (s : S) : string * ending * S :=
  match fuel with
  | O => ("", Ok tt, s)
  | Datatypes.S fuel =>
      if stopping parts s then ("", Ok tt, s)
      else
        match read_message (max_frame_size settings) stream with
        | (Err e, _) =>
            if isinstance e [IncompleteReadError; ProtocolError] then ("", Ok tt, s) else ("", Err e, s)
        | (Ok message, stream) =>
            match _verify_authenticated_sender message conn with
            | Err e => if isinstance e [TlsPeerIdentityError] then ("", Ok tt, s) else ("", Err e, s)
            | Ok _ =>
                match (response ← handle_message message; liftM (encode_frame response (max_frame_size settings))) s with
                | (Err e, s) => ("", Err e, s)
                | (Ok frame, s) =>
                    match serve fuel conn stream s with (out, r, s) => ((frame +:+ out)%string, r, s) end
                end
            end
        end
  end.

Definition handle_connection (conn : Connection) (stream : string) : S → string * ending * S :=
  serve (Datatypes.S (String.length stream)) conn stream.

(** *** What the parts promise *)

(** The controller has released no more than was acquired. *)
Definition sound (s : S) : Prop := 0 ≤ BackpressureController._in_flight (backpressure_of parts s).

(** [m] does not turn the performance counter back and leaves the backpressure
    controller as it found it; [Q] holds of its outcome. *)
Definition orderly {A} (m : M S A) (Q : result A → Prop) : Prop := ∀ s r s', sound s → m s = (r, s') →
  perf_ns parts s ≤ perf_ns parts s' ∧ backpressure_of parts s' = backpressure_of parts s ∧ Q r.

(** Values are JSON, no object with a key twice; remote errors carry codes of the schema. *)
Definition proper (r : result json) : Prop :=
  match r with Ok j => unique_keys j | Err e => enum32 (exn_code e) = true end.

Record parts_ok : Prop := {
  perf_range s : 0 ≤ perf_ns parts s < 2 ^ 64;
  execute_orderly name payload deadline : unique_keys payload → orderly (execute parts name payload deadline) proper;
  route_orderly control route name payload k deadline :
    cluster_service parts = Some (control, route) → unique_keys payload → orderly (route name payload k deadline) proper;
  set_backpressure_of c s : backpressure_of parts (set_backpressure parts c s) = c;
  set_backpressure_same s : set_backpressure parts (backpressure_of parts s) s = s;
  set_backpressure_perf c s : perf_ns parts (set_backpressure parts c s) = perf_ns parts s;
  set_limiter_parts c s : perf_ns parts (set_limiter parts c s) = perf_ns parts s ∧
                          backpressure_of parts (set_limiter parts c s) = backpressure_of parts s;
}.

Section answers.
Hypothesis Hparts : parts_ok.

(** An execution slot is given back on every path. *)
Lemma execute_local_orderly name payload deadline : unique_keys payload →
  orderly (_execute_local name payload deadline) proper.
Proof using Hparts.
  intros Hu s r s' Hs E. unfold _execute_local, mbind, M_bind, on_backpressure at 1 in E. pose proof Hs as Hs'.
  destruct (backpressure_of parts s) as [cap n] eqn:Eb. unfold sound in Hs. rewrite Eb in Hs. simpl in Hs.
  unfold BackpressureController.try_acquire, getM, putM, mbind, M_bind in E. simpl in E.
  destruct (cap <=? n); simpl in E.
  { injection E as <- <-. rewrite <-Eb, (set_backpressure_same Hparts). by split_and!. }
  unfold finally in E. set (s0 := set_backpressure parts _ s) in E.
  assert (sound s0) as Hs0 by (unfold sound, s0; rewrite (set_backpressure_of Hparts); simpl; lia).
  destruct (catchM _ _ _ s0) as [x s1] eqn:Ex.
  assert (perf_ns parts s0 ≤ perf_ns parts s1 ∧ backpressure_of parts s1 = backpressure_of parts s0 ∧ proper x)
    as (P1 & B1 & Hx).
  { unfold catchM in Ex. destruct (execute parts name payload deadline s0) as [[j|e] s2] eqn:Ee;
      destruct (execute_orderly Hparts _ _ _ Hu _ _ _ Hs0 Ee) as (P & B & HQ); [by injection Ex as <- <-|].
    destruct (isinstance e _); injection Ex as <- <-; by split_and!. }
  unfold s0 in P1, B1. rewrite (set_backpressure_of Hparts) in B1. rewrite (set_backpressure_perf Hparts) in P1.
  unfold on_backpressure, BackpressureController.release, getM, putM, mbind, M_bind in E. rewrite B1 in E. simpl in E.
  rewrite (proj2 (Z.leb_gt _ _)) in E by lia. simpl in E. injection E as <- <-.
  rewrite (set_backpressure_perf Hparts), (set_backpressure_of Hparts). split_and!; [done| |done]. f_equal. lia.
Qed.

(** A reply to [message] that the client can read. *)
Definition replies (message reply : Message.t) : Prop :=
  Message.correlation_id reply = Message.correlation_id message ∧ Message.sender_id reply = node_id settings ∧
  ∃ d, decode_task_response (Message.payload reply) = Ok d ∧
       Message.msg_type reply = if Protocol.success d then RESPONSE else ERROR.

Definition answered (message : Message.t) (r : result Message.t) : Prop :=
  match r with Ok reply => replies message reply | Err e => isinstance e [Exception] = false end.

Lemma response_replies message ok j code text took s : (ok = true → unique_keys j) → enum32 code = true →
  0 ≤ took < 2 ^ 64 → ∃ reply, _response message ok j code text took s = (Ok reply, s) ∧ replies message reply.
Proof.
  intros Hj Hc Ht. unfold _response, encode_task_response.
  set (m := pb.mkTaskResponse ok _ _ took).
  assert (in_range m = true) as Hin.
  { unfold in_range, pb.TaskResponse_ranged, m. cbn [pb.tr_error pb.processing_time_us]. apply andb_true_iff. split.
    - by destruct ok.
    - unfold uint64. apply andb_true_iff. split; [apply Z.leb_le|apply Z.ltb_lt]; lia. }
  destruct (serialize_ok m Hin) as [data Hd]. rewrite Hd. cbn [mbind result_bind]. eexists. split; [done|].
  split_and!; [done..|]. cbn [Message.payload Message.new_response Message.msg_type]. unfold decode_task_response.
  rewrite (proj1 (parse_of_serialize _ m data Hd)). unfold m. cbn [mbind result_bind pb.tr_success pb.result_json].
  destruct ok; cbn [mbind result_bind].
  - rewrite json_dump_load by by apply Hj. eexists. by split.
  - eexists. by split.
Qed.

(** A successful reply carries the result. *)
Lemma response_success message (j : json) took s : unique_keys j → 0 ≤ took < 2 ^ 64 →
  ∃ reply, _response message true j 0 "" took s = (Ok reply, s) ∧
    Message.correlation_id reply = Message.correlation_id message ∧ Message.sender_id reply = node_id settings ∧
    Message.msg_type reply = RESPONSE ∧
    decode_task_response (Message.payload reply) = Ok (mkTaskResponseData true j 0 "" took).
Proof.
  intros Hj Ht. unfold _response, encode_task_response. set (m := pb.mkTaskResponse _ _ _ took).
  assert (in_range m = true) as Hin.
  { unfold in_range, pb.TaskResponse_ranged, m, uint64. cbn [pb.tr_error pb.processing_time_us]. apply andb_true_iff.
    split; [done|]. apply andb_true_iff. split; [apply Z.leb_le|apply Z.ltb_lt]; lia. }
  destruct (serialize_ok m Hin) as [data Hd]. rewrite Hd. cbn [mbind result_bind]. eexists. split; [done|].
  split_and!; [done..|]. cbn [Message.payload Message.new_response]. unfold decode_task_response.
  rewrite (proj1 (parse_of_serialize _ m data Hd)). unfold m. cbn [mbind result_bind pb.tr_success pb.result_json].
  rewrite json_dump_load by done. done.
Qed.

(** The [except] clauses cover every [Exception], with codes of the schema. *)
Lemma task_failure_covers name e :
  match task_failure name e with
  | Some (code, _) => enum32 (exn_code e) = true → enum32 code = true
  | None => isinstance e [Exception] = false
  end.
Proof.
  unfold task_failure. do 8 (destruct (isinstance e _); [done|]). by destruct (isinstance e [Exception]) eqn:E.
Qed.

Lemma elapsed_range started s s' : started = perf_ns parts s → perf_ns parts s ≤ perf_ns parts s' →
  0 ≤ elapsed started s' < 2 ^ 64.
Proof using Hparts.
  intros -> Hle. unfold elapsed. pose proof (perf_range Hparts s). pose proof (perf_range Hparts s').
  split; [apply Z.div_pos; lia|]. apply Z.div_lt_upper_bound; lia.
Qed.

(** The [try] block, entered at [s] in a request that started at [s0]: what its body
    raises becomes a reply. *)
Definition run_ok (message : Message.t) (s s' : S) (r : result Message.t) : Prop :=
  perf_ns parts s ≤ perf_ns parts s' ∧ backpressure_of parts s' = backpressure_of parts s ∧
  match r with Ok reply => replies message reply | Err e => enum32 (exn_code e) = true end.

Lemma attempt_answers message name s0 (m : M S Message.t) s r s' : perf_ns parts s0 ≤ perf_ns parts s →
  (∀ r s', m s = (r, s') → run_ok message s s' r) →
  attempt message (perf_ns parts s0) name m s = (r, s') →
  backpressure_of parts s' = backpressure_of parts s ∧ answered message r.
Proof using Hparts.
  intros Hle Hm E. unfold attempt in E. destruct (m s) as [[reply|e] s1] eqn:Em;
    destruct (Hm _ _ eq_refl) as (P & B & HQ); [by injection E as <- <-|].
  pose proof (task_failure_covers name e) as Hf. destruct (task_failure name e) as [[code text]|].
  - destruct (response_replies message false JNull code text (elapsed (perf_ns parts s0) s1) s1) as (reply & Er & Hr);
      [done|by apply Hf|by apply (elapsed_range _ s0); [|lia]|]. rewrite Er in E. by injection E as <- <-.
  - by injection E as <- <-.
Qed.

Lemma succeed_ok message s0 (m : M S json) s r s' : orderly m proper → perf_ns parts s0 ≤ perf_ns parts s → sound s →
  succeed message (perf_ns parts s0) m s = (r, s') → run_ok message s s' r.
Proof using Hparts.
  intros Hm Hle Hs E. unfold succeed, mbind, M_bind, gets in E. destruct (m s) as [[j|e] s1] eqn:Em;
    destruct (Hm _ _ _ Hs Em) as (P & B & HQ); [|by injection E as <- <-].
  destruct (response_replies message true j 0 "" (elapsed (perf_ns parts s0) s1) s1) as (reply & Er & Hr);
    [done|done|by apply (elapsed_range _ s0); [|lia]|]. rewrite Er in E. by injection E as <- <-.
Qed.

Lemma fail_ok message (e : exn) s r s' : enum32 (exn_code e) = true → (failM e : M S Message.t) s = (r, s') →
  run_ok message s s' r.
Proof. intros He [= <- <-]. by split_and!. Qed.

(** Decoders raise without a code. *)
Definition codeless {A} (r : result A) : Prop := match r with Ok _ => True | Err e => exn_code e = 0 end.

Lemma codeless_bind {A B} (r : result A) (f : A → result B) : codeless r → (∀ a, codeless (f a)) → codeless (r ≫= f).
Proof. intros Hr Hf. destruct r; [apply Hf|done]. Qed.

Lemma parse_codeless {T} `{Wire T} label data : codeless (parse (T:=T) label data).
Proof. unfold parse, codeless. by destruct (ParseFromString data). Qed.

Lemma task_request_codeless data : codeless (decode_task_request data).
Proof.
  apply codeless_bind; [apply parse_codeless|]. intros q. destruct (negb _); [done|].
  apply codeless_bind; [|done]. unfold _json_load. destruct (nonempty _); [|done]. by destruct (loads _).
Qed.

Lemma forwarded_codeless data : codeless (decode_forwarded_request data).
Proof.
  apply codeless_bind; [apply parse_codeless|]. intros q. destruct (negb _); [done|].
  apply codeless_bind; [unfold serialize; by destruct (in_range _)|]. intros d.
  apply codeless_bind; [apply task_request_codeless|done].
Qed.

Lemma codeless_enum {A} (r : result A) e : codeless r → r = Err e → enum32 (exn_code e) = true.
Proof. intros Hr ->. simpl in Hr. by rewrite Hr. Qed.

Lemma deadline_codeless now t : codeless (Deadline.after now t).
Proof. unfold Deadline.after. by destruct (t <=? 0). Qed.

(** Decoded payloads are Python values. *)
Lemma request_payload_unique data q : decode_task_request data = Ok q → unique_keys (request_payload q).
Proof.
  intros (v & _ & E)%bind_Ok_inv. destruct (negb _); [done|]. apply bind_Ok_inv in E as (j & Hj & [= <-]). simpl.
  unfold _json_load in Hj. destruct (nonempty _); [|by injection Hj as <-].
  destruct (loads _) as [v'|] eqn:El; [|done]. injection Hj as <-. by eapply loads_unique.
Qed.

Lemma forwarded_payload_unique data q : decode_forwarded_request data = Ok q →
  unique_keys (request_payload (forwarded_task q)).
Proof.
  intros (v & _ & E)%bind_Ok_inv. destruct (negb _); [done|].
  apply bind_Ok_inv in E as (d & _ & (t & Ht%request_payload_unique & [= <-])%bind_Ok_inv). done.
Qed.

Lemma forwarded_answers message s r s' : sound s → run_forwarded message (perf_ns parts s) s = (r, s') →
  backpressure_of parts s' = backpressure_of parts s ∧ answered message r.
Proof using Hparts.
  intros Hs E. unfold run_forwarded in E. destruct (cluster_service parts) as [c|].
  2: { destruct (response_replies message false JNull pb.INVALID_REQUEST "cluster mode is disabled" 0 s)
         as (reply & Er & Hr); [done|done|lia|]. rewrite Er in E. by injection E as <- <-. }
  pose proof (forwarded_codeless (Message.payload message)) as Hc.
  destruct (decode_forwarded_request _) as [q|e] eqn:Eq.
  - apply forwarded_payload_unique in Eq. eapply (attempt_answers _ _ s); [done| |exact E]. clear r s' E. intros r s' E.
    destruct (remaining_timeout_ms q <=? 0).
    { by apply (fail_ok message (Exn DeadlineExceeded "forwarded request deadline exceeded" 0)) in E. }
    unfold mbind, M_bind, gets, liftM in E. pose proof (deadline_codeless (monotonic_ms parts s) (remaining_timeout_ms q)) as Hd.
    destruct (Deadline.after _ _) as [d|e].
    + by eapply succeed_ok in E; [exact E|by apply execute_local_orderly|done|done].
    + apply (fail_ok message e); [by apply (codeless_enum (Err e : result unit) e)|done].
  - eapply (attempt_answers _ _ s); [done| |exact E]. intros r1 s1. apply fail_ok. by apply (codeless_enum (Err e : result unit) e).
Qed.

Lemma request_answers message s r s' : sound s → run_request message (perf_ns parts s) s = (r, s') →
  backpressure_of parts s' = backpressure_of parts s ∧ answered message r.
Proof using Hparts.
  intros Hs E. unfold run_request in E. pose proof (task_request_codeless (Message.payload message)) as Hc.
  destruct (decode_task_request _) as [q|e] eqn:Eq.
  2: { eapply (attempt_answers _ _ s); [done| |exact E]. intros r1 s1. apply fail_ok. by apply (codeless_enum (Err e : result unit) e). }
  apply request_payload_unique in Eq. eapply (attempt_answers _ _ s); [done| |exact E]. clear r s' E. intros r s' E.
  unfold mbind at 1, M_bind at 1, gets at 1 in E. unfold mbind at 1, M_bind at 1, on_limiter in E.
  destruct (TokenBucketRateLimiter.allow _ _ _) as [[ok|e] lim] eqn:El.
  2: { injection E as <- <-. unfold run_ok. destruct (set_limiter_parts Hparts lim s) as [-> ->]. split_and!; [done|done|].
       unfold TokenBucketRateLimiter.allow, TokenBucketRateLimiter._refill, mbind, M_bind, modifyM, getM in El.
       simpl in El. by destruct (negb _). }
  set (s1 := set_limiter parts lim s) in *. destruct (set_limiter_parts Hparts lim s) as [P1 B1]. fold s1 in P1, B1.
  assert (sound s1) as Hs1 by (unfold sound; by rewrite B1).
  assert (∀ r s', run_ok message s1 s' r → run_ok message s s' r) as Hback.
  { intros r1 s2 (P & B & HQ). split_and!; [lia|congruence|done]. }
  apply Hback. destruct ok; cbn [negb] in E.
  - unfold mbind, M_bind, gets, liftM in E. pose proof (deadline_codeless (monotonic_ms parts s1) (request_timeout_ms settings)) as Hd.
    destruct (Deadline.after _ _) as [d|e]; [|apply (fail_ok message e); [by apply (codeless_enum (Err e : result unit) e)|done]].
    eapply succeed_ok in E; [exact E| |lia|done]. destruct (cluster_service parts) as [[control route]|] eqn:Ecl.
    + destruct (nonempty _); [by apply (route_orderly Hparts control)|by apply execute_local_orderly].
    + by apply execute_local_orderly.
  - unfold mbind, M_bind, gets in E.
    destruct (response_replies message false JNull pb.RATE_LIMITED "request rate limit exceeded"
      (elapsed (perf_ns parts s) s1) s1) as (reply & Er & Hr); [done|done|by apply (elapsed_range _ s); [|lia]|].
    rewrite Er in E. by injection E as <- <-.
Qed.

(** C28: every task message is answered, and no execution slot leaks.  Whatever the
    payload and whatever the task, the router or a remote node raises, the reply
    carries the request's correlation id and this node's name and decodes to a result
    or to an error of the schema; only cancellation escapes.  On every path the
    backpressure controller ends as it was. *)
Theorem tasks_always_answered message s r s' : sound s →
  Message.msg_type message ∉ _CONTROL_TYPES → Message.msg_type message ∉ _CRDT_TYPES →
  handle_message message s = (r, s') →
  backpressure_of parts s' = backpressure_of parts s ∧ answered message r.
Proof using Hparts.
  intros Hs H1 H2 E. unfold handle_message, mbind, M_bind, gets in E.
  rewrite (bool_decide_eq_false_2 _ H1), (bool_decide_eq_false_2 _ H2) in E.
  destruct (Message.msg_type message); try (by apply request_answers); try (by apply forwarded_answers);
    match type of E with _response _ _ _ ?c ?t _ _ = _ =>
      destruct (response_replies message false JNull c t 0 s) as (reply & Er & Hr); [done|done|lia|] end;
    rewrite Er in E; by injection E as <- <-.
Qed.
End answers.

(** A recovering node serves no client.  Until the node is ready, a durable node
    answers every mutation and every read with [RECOVERY_IN_PROGRESS] and changes
    nothing; messages from peers reach the CRDT service all the while, so the node can
    be repaired. *)
Theorem recovering_node_serves_no_client message s :
  crdt_enabled settings = true → persistence_enabled settings = true → ready parts s = false →
  (Message.msg_type message ∈ [CRDT_MUTATE_REQUEST; CRDT_READ_REQUEST] →
   ∃ reply, handle_message message s = (Ok reply, s) ∧
     Message.correlation_id reply = Message.correlation_id message ∧ Message.msg_type reply = CRDT_RESPONSE ∧
     CrdtCodec.decode_crdt_response (Message.payload reply) =
       Ok (CrdtCodec.mkResponseData false None JNull CausalToken.empty "" false pb.RECOVERY_IN_PROGRESS
             "durable recovery is still in progress" None VersionVector.empty)) ∧
  (Message.msg_type message ∈ [CRDT_REPLICATE; CRDT_FETCH; CRDT_DIGEST] →
   ∀ handler, crdt_service parts = Some handler → handle_message message s = handler message s).
Proof.
  intros Hc Hp Hr. unfold handle_message, mbind, M_bind, gets. split.
  - intros Hin.
    assert (_handle_crdt message s = crdt_refusal message pb.RECOVERY_IN_PROGRESS "durable recovery is still in progress" s) as Ec.
    { unfold _handle_crdt, mbind, M_bind, gets. by rewrite Hc, Hp, Hr, (bool_decide_eq_true_2 _ Hin). }
    set (resp := CrdtCodec.mkResponseData false None JNull CausalToken.empty (node_id settings) false pb.RECOVERY_IN_PROGRESS
      "durable recovery is still in progress" None VersionVector.empty).
    assert (∃ data, CrdtCodec.encode_crdt_response resp = Ok data) as [data Hd] by by apply serialize_ok.
    unfold crdt_refusal in Ec. fold resp in Ec. rewrite Hd in Ec. cbn [mbind result_bind] in Ec. eexists. split_and!.
    + apply list_elem_of_In in Hin as [E|[E|[]]]; rewrite <-E in *; exact Ec.
    + done.
    + done.
    + cbn [Message.payload Message.new_response]. by rewrite (CrdtCodecSpec.response_back resp data).
  - intros Hin handler Hh.
    assert (_handle_crdt message s = handler message s) as Ec.
    { unfold _handle_crdt, mbind, M_bind, gets.
      apply list_elem_of_In in Hin as [E|[E|[E|[]]]]; rewrite <-E, Hh; cbn [bool_decide]; rewrite andb_false_r; done. }
    apply list_elem_of_In in Hin as [E|[E|[E|[]]]]; rewrite <-E; exact Ec.
Qed.

(** *** Conversations *)

(** The requests [ms] of one connection, handled one after the other from [s], and the
    bytes written back. *)
Inductive dialogue (conn : Connection) : list Message.t → S → string → S → Prop :=
  | dialogue_over s : dialogue conn [] s "" s
  | dialogue_turn m ms s reply s1 frame out s2 :
      stopping parts s = false → _verify_authenticated_sender m conn = Ok tt →
      handle_message m s = (Ok reply, s1) → encode_frame reply (max_frame_size settings) = Ok frame →
      dialogue conn ms s1 out s2 → dialogue conn (m :: ms) s (frame +:+ out)%string s2.

(** A stream at which the loop returns: the node is stopping, no whole or valid frame
    is left, or the next message does not come from whom the certificate names. *)
Definition hangs_up (conn : Connection) (stream : string) (s : S) : Prop :=
  stopping parts s = true ∨
  match (read_message (max_frame_size settings) stream).1 with
  | Err e => isinstance e [IncompleteReadError; ProtocolError] = true
  | Ok m => ∃ e, _verify_authenticated_sender m conn = Err e ∧ isinstance e [TlsPeerIdentityError] = true
  end.

Definition framed (m : Message.t) (frame : string) : Prop :=
  Message.sender_id m ≠ "" ∧ Message.correlation_id m ≠ "" ∧ encode_frame m (max_frame_size settings) = Ok frame.

Fixpoint concat (l : list string) : string :=
  match l with [] => "" | x :: l => (x +:+ concat l)%string end.

Lemma hangs_up_serve conn stream s fuel : hangs_up conn stream s →
  serve (Datatypes.S fuel) conn stream s = ("", Ok tt, s).
Proof.
  intros [Hs|Hr]; simpl; [by rewrite Hs|]. destruct (stopping parts s); [done|].
  destruct (read_message _ stream) as [[m|e] rest]; simpl in Hr; [|by rewrite Hr].
  destruct Hr as (e & -> & He). by rewrite He.
Qed.

Lemma serve_dialogue conn ms s out s' frames tail fuel :
  dialogue conn ms s out s' → Forall2 framed ms frames → hangs_up conn tail s' → (length ms < fuel)%nat →
  serve fuel conn (concat frames +:+ tail)%string s = (out, Ok tt, s').
Proof.
  intros Hd. revert frames fuel. induction Hd as [s|m ms s reply s1 frame out s2 Hst Hv Hh Hf Hd IH]; intros frames fuel HF Ht Hfu.
  - apply Forall2_nil_inv_l in HF as ->. destruct fuel; [simpl in Hfu; lia|]. by apply hangs_up_serve.
  - apply Forall2_cons_inv_l in HF as (f & frames' & (Hs1 & Hs2 & Hs3) & HF & ->).
    destruct fuel as [|fuel]; [simpl in Hfu; lia|]. cbn [serve concat]. rewrite Hst, app_assoc'.
    rewrite (FrameDecoder.read_frame (max_frame_size settings) m f _ Hs1 Hs2 Hs3), Hv.
    unfold mbind, M_bind, liftM. rewrite Hh, Hf. rewrite (IH frames' fuel HF Ht) by (simpl in Hfu; lia). done.
Qed.

Lemma framed_length m frame : framed m frame → (1 ≤ String.length frame)%nat.
Proof.
  intros (Hs & Hc & E). destruct frame as [|a frame]; [|simpl; lia]. exfalso.
  pose proof (FrameDecoder.read_frame _ _ _ "" Hs Hc E) as Hr. unfold read_message, readexactly, mbind, M_bind in Hr.
  by rewrite decide_False in Hr by (unfold HEADER_SIZE; simpl; lia).
Qed.

(** One frame and then the end of the stream: one request handled, its reply written. *)
Lemma hangs_up_empty conn s : hangs_up conn "" s.
Proof. by right. Qed.

Lemma one_request conn message frame s : stopping parts s = false →
  _verify_authenticated_sender message conn = Ok tt → framed message frame →
  handle_connection conn frame s =
    match handle_message message s with
    | (Err e, s') => ("", Err e, s')
    | (Ok reply, s') => match encode_frame reply (max_frame_size settings) with
                        | Ok rf => (rf, Ok tt, s')
                        | Err e => ("", Err e, s')
                        end
    end.
Proof.
  intros Hst Hv Hf. unfold handle_connection. cbn [serve]. rewrite Hst.
  pose proof (FrameDecoder.read_frame (max_frame_size settings) message frame "" (proj1 Hf) (proj1 (proj2 Hf)) (proj2 (proj2 Hf))) as Hr.
  rewrite app_nil_end in Hr. rewrite Hr, Hv. unfold mbind, M_bind, liftM.
  destruct (handle_message message s) as [[reply|e] s']; [|done].
  destruct (encode_frame reply _) as [rf|e]; [|done].
  pose proof (framed_length message frame Hf) as Hlen. destruct (String.length frame) as [|k]; [lia|].
  rewrite (hangs_up_serve conn "" s' k (hangs_up_empty conn s')). by rewrite app_nil_end.
Qed.

Lemma frames_length ms frames : Forall2 framed ms frames → (length ms ≤ String.length (concat frames))%nat.
Proof.
  induction 1 as [|m f ms frames Hf _ IH]; [done|]. simpl. rewrite length_str_app. apply framed_length in Hf. lia.
Qed.

(** A connection answers its requests one by one and in order.  When the frames of
    [ms] arrive, followed by anything at which the loop hangs up, the bytes written
    back are the frames of the replies, in the order of the requests, each request
    handled in the state the previous one left; what follows is not executed.  In
    particular a message whose sender the peer's certificate does not name ends the
    connection without an answer and without effect. *)
Theorem connection_answers_in_order conn ms s out s' frames tail :
  dialogue conn ms s out s' → Forall2 framed ms frames → hangs_up conn tail s' →
  handle_connection conn (concat frames +:+ tail)%string s = (out, Ok tt, s').
Proof.
  intros Hd HF Ht. apply (serve_dialogue conn ms); [done..|]. apply frames_length in HF. rewrite length_str_app. lia.
Qed.
End node.
End DistributedNode.

(** ** A node with two certificates to deal with *)
Module NodeSample.
#[local] Instance env_wire : Wire pb.Envelope := countable_wire.
#[local] Instance task_wire : Wire pb.TaskRequest := countable_wire.
#[local] Instance resp_wire : Wire pb.TaskResponse := countable_wire.
#[local] Instance fwd_wire : Wire pb.ForwardedTaskRequest := countable_wire.
#[local] Instance crdt_wire : Wire pb.CrdtResponse := countable_wire.

(** The state is the backpressure controller and the limiter; there is one task. *)
Definition St : Type := BackpressureController.t * TokenBucketRateLimiter.t.
Definition parts : NodeParts St := {|
  execute name payload deadline :=
    if bool_decide (name = "ping") then mret (JStr "pong") else raiseM UnknownTaskError name;
  cluster_service := None;
  crdt_service := Some (λ m, mret m);
  ready _ := false;
  stopping _ := false;
  backpressure_of s := s.1;
  set_backpressure c s := (c, s.2);
  limiter_of s := s.2;
  set_limiter c s := (s.1, c);
  monotonic_ms _ := 0;
  monotonic_s _ := 0%Q;
  time_ms _ := 5;
  perf_ns _ := 0;
|}.
Definition settings : Settings := mkSettings "n1" 100000 1000 true true true true.
Definition idle : St := (BackpressureController.mk 2 0, TokenBucketRateLimiter.mk 10 10 10 0).

Lemma parts_are_ok : DistributedNode.parts_ok parts.
Proof.
  split; try done; simpl.
  - intros name payload deadline Hu s r s' Hs E. simpl in E.
    destruct (bool_decide _); injection E as <- <-; by split_and!.
  - by intros [].
Qed.

Definition request (name : string) : Message.t :=
  Message.mk REQUEST "client" "id1" 5 8 (SerializeToString (pb.mkTaskRequest name "" "")) "" "".

Lemma tasks_always_answered_witness : ∃ reply s',
  DistributedNode.handle_message parts settings (request "nope") idle = (Ok reply, s') ∧
  s'.1 = idle.1 ∧ DistributedNode.replies settings (request "nope") reply.
Proof.
  destruct (DistributedNode.handle_message parts settings (request "nope") idle) as [[reply|e] s'] eqn:E.
  2: { exfalso. vm_compute in E. discriminate. }
  exists reply, s'. split; [reflexivity|].
  apply (DistributedNode.tasks_always_answered parts settings parts_are_ok (request "nope") idle (Ok reply) s'); [|..|exact E].
  - unfold DistributedNode.sound. simpl. lia.
  - apply (bool_decide_unpack _). vm_compute. exact I.
  - apply (bool_decide_unpack _). vm_compute. exact I.
Defined.

Definition read_request : Message.t := Message.mk CRDT_READ_REQUEST "client" "id2" 5 8 "" "" "".

Lemma recovering_node_serves_no_client_witness : ∃ reply,
  DistributedNode.handle_message parts settings read_request idle = (Ok reply, idle) ∧
  Message.msg_type reply = CRDT_RESPONSE.
Proof.
  destruct (DistributedNode.recovering_node_serves_no_client parts settings read_request idle eq_refl eq_refl eq_refl)
    as [Hc _]. destruct Hc as (reply & E & _ & Ht & _); [apply (bool_decide_unpack _); vm_compute; exact I|].
  exists reply. by split.
Defined.

(** The certificate names [client]; the second message claims another sender. *)
Definition fetch_from (sender : string) : Message.t := Message.mk CRDT_FETCH sender "id3" 5 8 "" "" "".
Definition frame_of (m : Message.t) : string := match encode_frame m 100000 with Ok f => f | Err _ => "" end.
Definition cert : Connection := Some (Some ["client"]).
Definition reply_frame : string :=
  match (DistributedNode.handle_message parts settings (fetch_from "client") idle).1 with Ok m => frame_of m | Err _ => "" end.

Lemma connection_answers_in_order_witness :
  DistributedNode.handle_connection parts settings cert
    (DistributedNode.concat [frame_of (fetch_from "client")] +:+ frame_of (fetch_from "mallory"))%string idle =
    ((reply_frame +:+ "")%string, Ok tt, idle).
Proof.
  destruct (DistributedNode.handle_message parts settings (fetch_from "client") idle) as [[reply|e] s'] eqn:E.
  2: { exfalso. vm_compute in E. discriminate. }
  assert (s' = idle) as -> by (vm_compute in E; injection E as _ <-; reflexivity).
  assert (encode_frame (fetch_from "mallory") 100000 = Ok (frame_of (fetch_from "mallory"))) as Em by (vm_compute; reflexivity).
  assert (encode_frame (fetch_from "client") 100000 = Ok (frame_of (fetch_from "client"))) as Ec by (vm_compute; reflexivity).
  assert (encode_frame reply 100000 = Ok reply_frame) as Er.
  { unfold reply_frame. rewrite E. vm_compute in E. injection E as <-. vm_compute. reflexivity. }
  apply (DistributedNode.connection_answers_in_order parts settings cert [fetch_from "client"] idle (reply_frame +:+ "")%string idle).
  - eapply DistributedNode.dialogue_turn; [reflexivity|reflexivity|exact E|exact Er|constructor].
  - constructor; [|constructor]. by split_and!.
  - right. pose proof (FrameDecoder.read_frame 100000 (fetch_from "mallory") (frame_of (fetch_from "mallory")) "") as Hr.
    rewrite app_nil_end in Hr. change (max_frame_size settings) with 100000. rewrite (Hr ltac:(done) ltac:(done) Em).
    cbn [fst]. eexists. by split.
Defined.
End NodeSample.
