(* ===== verification/Rpc.v ===== *)
(** * Remote calls: the peer client against the node that serves it

    Joins [replication/peer_client.py], the framing, [node.py]'s connection loop and the
    CRDT service: over a network that delivers bytes, an exchange is a call of the other
    node's [handle_message], and what a client's [replicate] reports is what the other
    node's store holds. *)

From Stdlib Require Import Ascii QArith.
From S2P Require Import Prelude Lattice Causal Json Crdt Storage Resilience.
From S2P Require Import Membership Ring Proto Protocol Cluster CrdtCodec Outbox Repair AntiEntropy CrdtService PeerClient Node.

Local Open Scope Z_scope.
Import StoredCrdtEntry (key, causal_context).

Module Rpc.
Section rpc.
Context {L N : Type} (parts : NodeParts N) (settings : Settings) (conn : Connection).
Context (stamps : L * N → Z * string) (ticks : L * N → Z).
Context `{!Wire pb.Envelope, !Wire pb.TaskRequest, !Wire pb.TaskResponse, !Wire pb.ForwardedTaskRequest,
  !Wire pb.CrdtMutationRequest, !Wire pb.CrdtReadRequest, !Wire pb.CrdtResponse,
  !Wire pb.CrdtReplicate, !Wire pb.CrdtFetch, !Wire pb.CrdtDigest, !Wire pb.CrdtDigestResponse}.

(** A network that works: the frame reaches the other node's connection loop, and what
    that loop writes comes back. *)
Definition wire : Network (L * N) := {|
  connect _ _ := mret tt;
  talk _ frame := λ s,
    match DistributedNode.handle_connection parts settings conn frame s.2 with
    | (out, _, n) => (Ok out, (s.1, n))
    end;
  stamp := stamps;
  monotonic := ticks;
|}.

Definition closed_early : exn :=
  Exn CrdtPeerProtocolError "peer closed connection before sending a complete response" 0.

Definition remote_call (message : Message.t) : M (L * N) Message.t := λ s,
  match DistributedNode.handle_message parts settings message s.2 with
  | (Err _, n) => (Err closed_early, (s.1, n))
  | (Ok reply, n) =>
      match encode_frame reply (max_frame_size settings) with
      | Err _ => (Err closed_early, (s.1, n))
      | Ok _ =>
          if bool_decide (Message.correlation_id reply = Message.correlation_id message) then (Ok reply, (s.1, n))
          else (raise CrdtPeerProtocolError "CRDT peer correlation mismatch", (s.1, n))
      end
  end.

(** What a server may reply: named and correlated. *)
Definition named (reply : Message.t) : Prop := Message.sender_id reply ≠ "" ∧ Message.correlation_id reply ≠ "".

Lemma read_empty limit : read_message limit "" = (raise IncompleteReadError "", "").
Proof. done. Qed.

Lemma exchange_remote peer message frame timeout s :
  0 < timeout → stopping parts s.2 = false →
  DistributedNode._verify_authenticated_sender settings message conn = Ok tt →
  DistributedNode.framed settings message frame →
  (∀ reply n, DistributedNode.handle_message parts settings message s.2 = (Ok reply, n) → named reply) →
  CrdtPeerClient._exchange_raw wire (max_frame_size settings) peer message timeout s = remote_call message s.
Proof.
  intros Ht Hst Hv Hf Hnamed. unfold CrdtPeerClient._exchange_raw. rewrite (proj2 (Z.leb_gt _ _)) by lia.
  unfold mbind, M_bind. cbn [connect wire mret M_ret]. unfold liftM at 1. rewrite (proj2 (proj2 Hf)).
  cbn [talk wire]. destruct s as [l n]. cbn [fst snd] in *.
  rewrite (DistributedNode.one_request parts settings conn message frame n Hst Hv Hf). unfold remote_call. cbn [fst snd].
  destruct (DistributedNode.handle_message parts settings message n) as [[reply|e] n'] eqn:Eh; [|by rewrite read_empty].
  destruct (encode_frame reply (max_frame_size settings)) as [rf|e] eqn:Ef; [|by rewrite read_empty].
  destruct (Hnamed _ _ eq_refl) as [H1 H2].
  pose proof (FrameDecoder.read_frame (max_frame_size settings) reply rf "" H1 H2 Ef) as Hr. rewrite app_nil_end in Hr.
  rewrite Hr. unfold catchM, liftM. cbn [fst]. by destruct (bool_decide _).
Qed.

(** An exchange is a remote call.  Over a network that delivers bytes, with both
    sides using the same frame limit and the server accepting the sender,
    [_exchange_raw] behaves as one call of the other node's [handle_message]: the reply
    it returns is the reply that was computed, the other node's state is the state that
    call left, and when the call raises or its reply cannot be framed the client sees
    the connection close early. *)
Theorem exchange_is_remote_call peer message frame timeout s :
  0 < timeout → stopping parts s.2 = false →
  DistributedNode._verify_authenticated_sender settings message conn = Ok tt →
  DistributedNode.framed settings message frame →
  (∀ reply n, DistributedNode.handle_message parts settings message s.2 = (Ok reply, n) → named reply) →
  CrdtPeerClient._exchange_raw wire (max_frame_size settings) peer message timeout s = remote_call message s.
Proof. apply exchange_remote. Qed.
End rpc.

(** *** Replicating to a node that runs the CRDT service *)
Section replicate.
Context {L N St : Type} `{ClockedStore St} (parts : NodeParts N) (settings : Settings) (conn : Connection).
Context (stamps : L * N → Z * string) (ticks : L * N → Z).
Context (svc_of : N → CrdtService.t St) (put_svc : CrdtService.t St → N → N).
Context (_hash : string → Z) (client : CrdtService.CrdtPeerClient (CrdtService.t St)).
Context (request_timeout batch : Z) (clock_ms wall_ms : N → Z).
Context `{!Wire pb.Envelope, !Wire pb.TaskRequest, !Wire pb.TaskResponse, !Wire pb.ForwardedTaskRequest,
  !Wire pb.CrdtMutationRequest, !Wire pb.CrdtReadRequest, !Wire pb.CrdtResponse,
  !Wire pb.CrdtReplicate, !Wire pb.CrdtFetch, !Wire pb.CrdtDigest, !Wire pb.CrdtDigestResponse}.

(** The other node's CRDT service. *)
Definition serve_crdt (message : Message.t) : M N Message.t := λ n,
  match CrdtService.handle_message _hash client (node_id settings) request_timeout batch (clock_ms n) (wall_ms n)
          message (svc_of n) with
  | (r, x) => (r, put_svc x n)
  end.

Hypothesis (Hserves : crdt_service parts = Some serve_crdt).
Hypothesis (Hput : ∀ x n, svc_of (put_svc x n) = x).

#[local] Existing Instance CrdtService.svc_store.

Abbreviation remote_view n := (view (CrdtService.store (svc_of n))).

Lemma observe_view v (x : CrdtService.t St) : view (CrdtService.store (CrdtService.observe v x).2) = view (CrdtService.store x).
Proof. apply view_set_clock. Qed.

(** A step of the service that leaves its entries alone. *)
Definition keeps {A} (m : M (CrdtService.t St) A) : Prop :=
  ∀ x r x', m x = (r, x') → view (CrdtService.store x') = view (CrdtService.store x).

Lemma keeps_bind {A B} (m : M (CrdtService.t St) A) (f : A → M (CrdtService.t St) B) :
  keeps m → (∀ a, keeps (f a)) → keeps (m ≫= f).
Proof.
  intros Hm Hf x r x' E. unfold mbind, M_bind in E. destruct (m x) as [[a|e] x1] eqn:Em.
  - apply Hf in E. apply Hm in Em. congruence.
  - injection E as <- <-. by apply Hm in Em.
Qed.

Lemma keeps_lift {A} (r : result A) : keeps (liftM r).
Proof. by intros x r' x' [= <- <-]. Qed.

Lemma success_keeps m b1 b2 : keeps (CrdtService._success (node_id settings) m b1 b2).
Proof.
  apply keeps_bind; [intros x r x' E; pose proof (observe_view (causal_context m) x) as Hv; by rewrite E in Hv|].
  intros _. apply keeps_bind; [by intros x r x' [= <- <-]|]. intros f.
  apply keeps_bind; [apply keeps_lift|]. intros v x r x' [= <- <-]. done.
Qed.

Lemma wire_keeps message response wall : keeps (CrdtService._wire_response (node_id settings) wall message response).
Proof. apply keeps_bind; [apply keeps_lift|]. by intros p x r x' [= <- <-]. Qed.

(** What the service does with a replicated entry. *)
Lemma replicate_handled message e n r x' :
  CrdtStore.wf (remote_view n) → CrdtCodecSpec.entry_valid e → Message.msg_type message = CRDT_REPLICATE →
  CrdtCodec.encode_replication e = Ok (Message.payload message) →
  CrdtService.handle_message _hash client (node_id settings) request_timeout batch (clock_ms n) (wall_ms n)
    message (svc_of n) = (r, x') →
  store_le (remote_view n) (view (CrdtService.store x')) ∧
  ∀ reply d, r = Ok reply → CrdtCodec.decode_crdt_response (Message.payload reply) = Ok d → CrdtCodec.success d = true →
    ∃ m, view (CrdtService.store x') !! key e = Some m ∧ m_le e m.
Proof.
  intros Hw He Hty Henc E. pose proof (CrdtCodecSpec.replication_back e _ He Henc) as Hdec.
  unfold CrdtService.handle_message, CrdtService.answering in E.
  destruct (CrdtService.dispatch _ _ _ _ _ _ _ message (svc_of n)) as [y x1] eqn:Ed.
  assert (store_le (remote_view n) (view (CrdtService.store x1)) ∧
    ∀ reply, y = Ok reply → ∃ m, view (CrdtService.store x1) !! key e = Some m ∧ m_le e m) as [Hle Hok].
  { unfold CrdtService.dispatch in Ed. rewrite Hty in Ed. unfold mbind at 1, M_bind at 1, liftM at 1 in Ed.
    rewrite Hdec in Ed. destruct (CrdtCodecSpec.blank _).
    { injection Ed as <- <-. split; [by apply store_le_refl|done]. }
    unfold mbind at 1, M_bind at 1, CrdtService._replicate_response in Ed. unfold mbind at 1, M_bind at 1 in Ed.
    destruct (store_merge_entry e (svc_of n)) as [ym xm] eqn:Em.
    destruct (merge_entry_grows e (svc_of n) ym xm) as (_ & Hg & Hm); [done|by destruct He|done|].
    cbn [view CrdtService.svc_store] in Hg, Hm. destruct ym as [m|err]; [|injection Ed as <- <-; by split].
    destruct Hm as (Hm1 & Hm2 & _).
    destruct ((CrdtService.observe (causal_context m) ≫= λ _, CrdtService._success (node_id settings) m false true) xm)
      as [yr xr] eqn:Er.
    assert (view (CrdtService.store xr) = view (CrdtService.store xm)) as Hvr.
    { refine (keeps_bind _ _ _ (λ _, success_keeps m false true) _ _ _ Er).
      intros x r0 x0 E0. pose proof (observe_view (causal_context m) x) as Hv. by rewrite E0 in Hv. }
    assert (view (CrdtService.store x1) = view (CrdtService.store xm)) as ->.
    { destruct yr as [resp|err]; [|injection Ed as <- <-; done]. apply wire_keeps in Ed. congruence. }
    split; [done|]. eauto. }
  destruct y as [reply|err].
  - injection E as <- <-. split; [done|]. intros reply' d [= <-] _ _. by apply (Hok reply).
  - destruct (CrdtService.message_failure err) as [[code text]|] eqn:Ef; [|injection E as <- <-; by split].
    destruct (CrdtService.wire_error (node_id settings) (wall_ms n) message code text x1) as (reply & Er & _ & Hdr).
    { by apply CrdtService.message_failure_code in Ef. }
    rewrite Er in E. injection E as <- <-. split; [done|]. intros reply' d [= <-] Hd Hs. rewrite Hdr in Hd. by injection Hd as <-.
Qed.

Lemma handles_replicate message n : Message.msg_type message = CRDT_REPLICATE →
  DistributedNode.handle_message parts settings message n = serve_crdt message n.
Proof using Hserves.
  intros Hty. unfold DistributedNode.handle_message, DistributedNode._handle_crdt, mbind, M_bind, gets. rewrite Hty.
  rewrite Hserves. change (bool_decide (CRDT_REPLICATE ∈ [CRDT_MUTATE_REQUEST; CRDT_READ_REQUEST])) with false.
  by rewrite andb_false_r.
Qed.

Lemma serve_reply message n reply n' : serve_crdt message n = (Ok reply, n') →
  CrdtService.is_reply (node_id settings) message reply.
Proof.
  intros E. unfold serve_crdt in E. destruct (CrdtService.handle_message _ _ _ _ _ _ _ message _) as [r x] eqn:Eh.
  injection E as -> <-. unfold CrdtService.handle_message, CrdtService.answering in Eh.
  destruct (CrdtService.dispatch _ _ _ _ _ _ _ message _) as [[y|err] x1] eqn:Ed.
  - injection Eh as -> ->. by apply CrdtService.dispatch_reply in Ed.
  - destruct (CrdtService.message_failure err) as [[code text]|] eqn:Ef; [|done].
    destruct (CrdtService.wire_error (node_id settings) (wall_ms n) message code text x1) as (reply' & Er & Hr & _).
    { by apply CrdtService.message_failure_code in Ef. }
    rewrite Er in Eh. by injection Eh as <- _.
Qed.

Lemma serve_named message n reply n' : node_id settings ≠ "" → Message.correlation_id message ≠ "" →
  serve_crdt message n = (Ok reply, n') → named reply.
Proof. intros Hn Hc (H1 & H2 & _)%serve_reply. split; congruence. Qed.

Section call.
Context (local : string) (s : L * N) (e : StoredCrdtEntry.t).
Hypothesis (Hlocal : local ≠ "") (Hid : (stamps s).2 ≠ "") (Hnode : node_id settings ≠ "").
Hypothesis (Hup : stopping parts s.2 = false).
Hypothesis (Hauth : ∀ m, Message.sender_id m = local →
  DistributedNode._verify_authenticated_sender settings m conn = Ok tt).
Hypothesis (Hwf : CrdtStore.wf (remote_view s.2)).
Hypothesis (Hentry : CrdtCodecSpec.entry_valid e).

(** The message [replicate] sends. *)
Definition replication_request (data : string) : Message.t :=
  Message.new_request (stamps s).1 (stamps s).2 local data None 8 CRDT_REPLICATE "" "".

(** C12: what [replicate] reports is what the peer holds.  A client node sends an entry to
    a node that runs the CRDT service, through the codec, the framing, the connection
    loop and the service's dispatch.  Whatever happens, the peer's store only grows; if
    [replicate] returns, the peer's entry for the key contains the one sent; and it
    does return when the request fits a frame and the peer's reply reports success. *)
Theorem replicate_reaches_peer peer timeout r s' : 0 < timeout →
  CrdtPeerClient.replicate (wire parts settings conn stamps ticks) local (max_frame_size settings) peer e timeout s =
    (r, s') →
  store_le (remote_view s.2) (remote_view s'.2) ∧
  (r = Ok tt → ∃ m, remote_view s'.2 !! key e = Some m ∧ m_le e m) ∧
  (∀ data frame reply n rframe d, CrdtCodec.encode_replication e = Ok data →
     encode_frame (replication_request data) (max_frame_size settings) = Ok frame →
     serve_crdt (replication_request data) s.2 = (Ok reply, n) →
     encode_frame reply (max_frame_size settings) = Ok rframe → Message.msg_type reply = CRDT_RESPONSE →
     CrdtCodec.decode_crdt_response (Message.payload reply) = Ok d → CrdtCodec.success d = true → r = Ok tt).
Proof using Hserves Hput Hlocal Hid Hnode Hup Hauth Hwf Hentry.
  intros Ht E. unfold CrdtPeerClient.replicate, CrdtPeerClient._crdt_round_trip, CrdtPeerClient.request in E.
  unfold mbind, M_bind, liftM in E. destruct (CrdtCodec.encode_replication e) as [data|err] eqn:Een.
  2: { injection E as <- <-. split_and!; [by apply store_le_refl|done|done]. }
  cbn [stamp wire] in E. destruct (stamps s) as [now fresh] eqn:Est.
  assert (Message.new_request now fresh local data None 8 CRDT_REPLICATE "" "" = replication_request data) as Eq
    by (unfold replication_request; by rewrite Est). rewrite Eq in E. clear Eq.
  set (q := replication_request data) in *.
  assert (Message.correlation_id q ≠ "") as Hcid by (unfold q, replication_request; by rewrite Est).
  destruct (encode_frame q (max_frame_size settings)) as [frame|err] eqn:Ef.
  2: { unfold CrdtPeerClient._exchange_raw in E. rewrite (proj2 (Z.leb_gt _ _)) in E by lia.
       unfold mbind, M_bind, liftM in E. cbn [connect wire mret M_ret] in E. rewrite Ef in E. injection E as <- <-.
       split_and!; [by apply store_le_refl|done|]. intros data' frame reply n rframe d [= <-] Ef'. fold q in Ef'. congruence. }
  rewrite (exchange_remote parts settings conn stamps ticks peer q frame timeout s Ht Hup) in E;
    [|by apply Hauth|by split_and!|intros reply n; rewrite handles_replicate by done; by apply serve_named].
  unfold remote_call in E. rewrite handles_replicate in E by done.
  unfold serve_crdt at 1 in E. destruct (CrdtService.handle_message _ _ _ _ _ _ _ q _) as [y x] eqn:Eh.
  pose proof (replicate_handled q e s.2 y x Hwf Hentry eq_refl Een Eh) as [Hle Hok].
  assert (∀ z, svc_of ((s.1, put_svc x s.2) : L * N).2 = z ↔ x = z) as Hx by (intros z; simpl; by rewrite Hput).
  assert (s' = (s.1, put_svc x s.2)) as Es'.
  { destruct y as [reply|err]; [|by injection E as _ <-]. destruct (encode_frame reply _); [|by injection E as _ <-].
    destruct (bool_decide _); [|by injection E as _ <-]. destruct (bool_decide _); [|by injection E as _ <-].
    destruct (CrdtCodec.decode_crdt_response _) as [d|]; [|by injection E as _ <-].
    destruct (CrdtCodec.success d); by injection E as _ <-. }
  rewrite Es'. cbn [fst snd]. rewrite Hput. split_and!; [done| |].
  - intros ->. destruct y as [reply|err]; [|done]. destruct (encode_frame reply _); [|done].
    destruct (bool_decide _); [|done]. destruct (bool_decide _); [|done].
    destruct (CrdtCodec.decode_crdt_response _) as [d|] eqn:Ed; [|done].
    destruct (CrdtCodec.success d) eqn:Esd; [|done]. by apply (Hok reply d).
  - intros data' frame' reply n rframe d [= <-] _ Eserve Erf Ety Ed Esd. fold q in Eserve.
    destruct (serve_reply _ _ _ _ Eserve) as (Hcorr & _).
    unfold serve_crdt in Eserve. rewrite Eh in Eserve. injection Eserve as -> <-.
    rewrite Erf, (bool_decide_eq_true_2 _ Hcorr), (bool_decide_eq_true_2 _ Ety), Ed, Esd in E. by injection E as <- _.
Qed.
End call.
End replicate.
End Rpc.

(** ** One entry sent from one node to another *)

(** A serializer that gives the messages of a table one byte each. *)
Section table.
Context {T : Type} `{!EqDecision T, !Countable T, !Ranged T} (table : list T).

Definition short (m : T) : string :=
  match list_find (λ x, x = m) table with
  | Some (i, _) => String (Ascii.ascii_of_nat i) ""
  | None => String "~"%char (string_of_pos (encode m))
  end.

Definition unshort (s : string) : option T :=
  match s with
  | String "~" s => p ← pos_of_string s; decode p
  | String a "" => table !! Ascii.nat_of_ascii a
  | _ => None
  end.

Lemma unshort_short m : (length table ≤ 100)%nat → unshort (short m) = Some m.
Proof.
  intros Hl. unfold short. destruct (list_find _ table) as [[i x]|] eqn:E.
  - apply list_find_Some in E as (Hi & -> & _). pose proof (lookup_lt_Some _ _ _ Hi) as Hlt.
    assert (Ascii.nat_of_ascii (Ascii.ascii_of_nat i) = i) as Hb by (apply Ascii.nat_ascii_embedding; lia).
    set (a := Ascii.ascii_of_nat i) in *. assert (unshort (String a "") = table !! Ascii.nat_of_ascii a) as ->; [|by rewrite Hb].
    destruct (decide (a = "~"%char)) as [Ha|Ha].
    { rewrite Ha in Hb. change (Ascii.nat_of_ascii "~") with 126%nat in Hb. lia. }
    destruct a as [[] [] [] [] [] [] [] []]; try done; by exfalso; apply Ha.
  - simpl. rewrite pos_of_string_of_pos. simpl. apply decode_encode.
Qed.

Definition table_wire (Hl : (length table ≤ 100)%nat) : Wire T.
Proof. refine {| SerializeToString := short; ParseFromString := unshort |}. intros m _. by apply unshort_short. Defined.
End table.

Module RpcSample.
#[local] Instance task_wire : Wire pb.TaskRequest := countable_wire.
#[local] Instance task_resp_wire : Wire pb.TaskResponse := countable_wire.
#[local] Instance fwd_wire : Wire pb.ForwardedTaskRequest := countable_wire.
#[local] Instance mut_wire : Wire pb.CrdtMutationRequest := countable_wire.
#[local] Instance read_wire : Wire pb.CrdtReadRequest := countable_wire.
#[local] Instance resp_wire : Wire pb.CrdtResponse := countable_wire.
#[local] Instance rep_wire : Wire pb.CrdtReplicate := countable_wire.
#[local] Instance fetch_wire : Wire pb.CrdtFetch := countable_wire.
#[local] Instance digest_wire : Wire pb.CrdtDigest := countable_wire.
#[local] Instance digest_resp_wire : Wire pb.CrdtDigestResponse := countable_wire.

Definition node : Type := CrdtService.t MemoryNode.t.
Definition settings : Settings := mkSettings "n1" 1000 1000 true true false false.
Definition stamps (_ : unit * node) : Z * string := (5, "id1").

Definition serve : Message.t → M node Message.t :=
  Rpc.serve_crdt settings id (λ x _, x) RingSample.toy_hash CrdtServiceSample.dead_client 1000 10 (λ _, 0) (λ _, 5).

Definition parts : NodeParts node := {|
  execute _ _ _ := raiseM UnknownTaskError "";
  cluster_service := None;
  crdt_service := Some serve;
  ready _ := true;
  stopping _ := false;
  backpressure_of _ := BackpressureController.mk 1 0;
  set_backpressure _ n := n;
  limiter_of _ := TokenBucketRateLimiter.mk 1 1 1 0;
  set_limiter _ n := n;
  monotonic_ms _ := 0;
  monotonic_s _ := 0%Q;
  time_ms _ := 5;
  perf_ns _ := 0;
|}.

Definition entry : StoredCrdtEntry.t := CrdtCodecSample.entry.
Definition data : string := match CrdtCodec.encode_replication entry with Ok d => d | Err _ => "" end.
Definition start : unit * node := (tt, CrdtServiceSample.node0).
Definition question : Message.t := Rpc.replication_request stamps "n2" start data.
Definition answer : Message.t :=
  match (serve question CrdtServiceSample.node0).1 with Ok m => m | Err _ => question end.

Definition envelope (m : Message.t) : pb.Envelope :=
  pb.mkEnvelope (Message.sender_id m) (Message.correlation_id m) (Message.timestamp_ms m)
    (Message.ttl m) (Message.payload m) (Message.traceparent m) (Message.tracestate m).
#[local] Instance envelope_wire : Wire pb.Envelope := table_wire [envelope question; envelope answer] ltac:(simpl; lia).

Definition sent := CrdtPeerClient.replicate (Rpc.wire parts settings None stamps (λ _, 0)) "n2" 1000
  (RingSample.member "n1" ALIVE) entry 50 start.

Lemma accepts m : DistributedNode._verify_authenticated_sender settings m None = Ok tt.
Proof. done. Qed.

Lemma sent_ok : sent = (Ok tt, sent.2).
Proof.
  assert (match sent.1 with Ok tt => true | Err _ => false end = true) as E by (vm_compute; reflexivity).
  destruct sent as [[[]|e] s']; [reflexivity|done].
Qed.

Lemma replicate_reaches_peer_witness :
  sent.1 = Ok tt ∧ ∃ m, view (CrdtService.store (id sent.2.2)) !! StoredCrdtEntry.key entry = Some m ∧ m_le entry m.
Proof.
  split; [rewrite sent_ok; reflexivity|].
  pose proof (Rpc.replicate_reaches_peer parts settings None stamps (λ _, 0) id (λ x _, x) RingSample.toy_hash
    CrdtServiceSample.dead_client 1000 10 (λ _, 0) (λ _, 5) eq_refl (λ x n, eq_refl) "n2" start entry
    ltac:(done) ltac:(done) ltac:(done) eq_refl (λ m _, accepts m) (proj1 CrdtServiceSample.node0_wf)
    ltac:(apply (bool_decide_unpack _); vm_compute; exact I) (RingSample.member "n1" ALIVE) 50 (Ok tt) sent.2
    ltac:(lia) sent_ok) as (_ & Hm & _).
  exact (Hm eq_refl).
Defined.

Lemma exchange_is_remote_call_witness :
  CrdtPeerClient._exchange_raw (Rpc.wire parts settings None stamps (λ _, 0)) 1000 (RingSample.member "n1" ALIVE)
    question 50 start = Rpc.remote_call parts settings question start.
Proof.
  assert (∃ f, encode_frame question 1000 = Ok f) as [f Ef] by (eexists; vm_compute; reflexivity).
  apply (Rpc.exchange_is_remote_call parts settings None stamps (λ _, 0) (RingSample.member "n1" ALIVE) question f 50 start);
    [lia|reflexivity|reflexivity| |].
  - split_and!; [discriminate|discriminate|exact Ef].
  - intros reply n E. rewrite (Rpc.handles_replicate parts settings id (λ x _, x) RingSample.toy_hash
      CrdtServiceSample.dead_client 1000 10 (λ _, 0) (λ _, 5) eq_refl question) in E by reflexivity.
    eapply Rpc.serve_named; [| |exact E]; discriminate.
Defined.
End RpcSample.
