(* ===== verification/Coordination.v ===== *)
(** * Coordination through etcd: [distsys/coordination/]

    The registration records, the client of the etcd library, the background lease,
    seed discovery and the service that puts them together.  The etcd library is a
    parameter ([Etcd]): its calls may fail in any way; [EtcdLaws] is what its
    documentation promises of the calls that succeed. *)

From Stdlib Require Import Ascii.
From S2P Require Import Prelude Json Membership.

Local Open Scope Z_scope.

(** ** [json.dumps] with [ensure_ascii=True]

    As [Json.dumps], but every character outside the printable ASCII range is written
    as [\uXXXX], above the basic plane as a surrogate pair. *)
Definition u_escape (n : N) : string :=
  String backslash (String "u" (String (hex_digit (n / 4096)) (String (hex_digit (n / 256 mod 16))
    (String (hex_digit (n / 16 mod 16)) (str1 (hex_digit (n mod 16))))))).

Definition escape_code (n : N) : string :=
  if (n <? 65536)%N then u_escape n
  else (u_escape (55296 + (n - 65536) / 1024) +:+ u_escape (56320 + (n - 65536) mod 1024))%string.

(** The payload of a continuation byte. *)
Definition low6 (a : ascii) : N := (N_of_ascii a mod 64)%N.

Fixpoint escape_ascii (s : string) : string :=
  match s with
  | EmptyString => EmptyString
  | String a r =>
      let n := N_of_ascii a in
      if (n <? 127)%N then (escape_char a +:+ escape_ascii r)%string
      else if (n <? 192)%N then (escape_code n +:+ escape_ascii r)%string
      else if (n <? 224)%N then
        match r with
        | String b r => (escape_code (n mod 32 * 64 + low6 b) +:+ escape_ascii r)%string
        | EmptyString => EmptyString
        end
      else if (n <? 240)%N then
        match r with
        | String b (String c r) =>
            (escape_code (n mod 16 * 4096 + low6 b * 64 + low6 c) +:+ escape_ascii r)%string
        | _ => EmptyString
        end
      else
        match r with
        | String b (String c (String d r)) =>
            (escape_code (n mod 8 * 262144 + low6 b * 4096 + low6 c * 64 + low6 d) +:+ escape_ascii r)%string
        | _ => EmptyString
        end
  end.

Definition dump_string_ascii (s : string) : string := String quote (escape_ascii s +:+ str1 quote)%string.

Fixpoint dumps_ascii (j : json) : string :=
  match j with
  | JStr s => dump_string_ascii s
  | JList l =>
      ("[" +:+ join ((fix go (l : list json) : list string :=
                        match l with [] => [] | x :: l => dumps_ascii x :: go l end) l) +:+ "]")%string
  | JObj kvs =>
      ("{" +:+ join ((λ kv : string * string, dump_string_ascii kv.1 +:+ ":" +:+ kv.2)%string <$>
                     merge_sort key_le
                       ((fix go (l : list (string * json)) : list (string * string) :=
                           match l with
                           | [] => []
                           | (k, x) :: l => (k, dumps_ascii x) :: go l
                           end) kvs)) +:+ "}")%string
  | _ => dumps j
  end.

(** "é", U+20AC and U+1F600 *)
Example escape_samples :
  escape_ascii (String "195" (String "169" "")) = String backslash "u00e9" ∧
  escape_ascii (String "226" (String "130" (String "172" ""))) = String backslash "u20ac" ∧
  escape_ascii (String "240" (String "159" (String "152" (String "128" "")))) =
    (String backslash "ud83d" +:+ String backslash "ude00")%string.
Proof. vm_compute. done. Qed.

(** Text below U+007F, which both writers treat alike. *)
Fixpoint plain (s : string) : Prop :=
  match s with EmptyString => True | String a r => (N_of_ascii a < 127)%N ∧ plain r end.

#[export] Instance plain_dec s : Decision (plain s).
Proof. induction s as [|a s IH]; simpl; apply _. Defined.

Lemma escape_plain s : plain s → escape_ascii s = escape s.
Proof.
  induction s as [|a s IH]; simpl; [done|]. intros [Ha Hs]. rewrite (proj2 (N.ltb_lt _ _) Ha). by rewrite IH.
Qed.

Lemma dump_string_plain s : plain s → dump_string_ascii s = dump_string s.
Proof. intros Hs. unfold dump_string_ascii, dump_string. by rewrite escape_plain. Qed.

(** Every string and key of the value is plain. *)
Fixpoint plain_json (j : json) : Prop :=
  match j with
  | JStr s => plain s
  | JList l => (fix go (l : list json) : Prop := match l with [] => True | x :: l => plain_json x ∧ go l end) l
  | JObj kvs =>
      (fix go (l : list (string * json)) : Prop :=
         match l with [] => True | (k, x) :: l => plain k ∧ plain_json x ∧ go l end) kvs
  | _ => True
  end.

Lemma dumps_plain j : plain_json j → dumps_ascii j = dumps j.
Proof.
  induction j as [|b|z|s|l IH|kvs IH] using json_ind'; intros Hp; simpl; try done.
  - by apply dump_string_plain.
  - do 3 f_equal. simpl in Hp. induction IH as [|x l Hx Hl IHl]; [done|]. destruct Hp as [Hpx Hp].
    rewrite Hx by done. f_equal. auto.
  - do 2 f_equal. simpl in Hp. f_equal.
    assert (((fix go (l : list (string * json)) : list (string * string) :=
               match l with [] => [] | (k, x) :: l => (k, dumps_ascii x) :: go l end) kvs) =
            ((fix go (l : list (string * json)) : list (string * string) :=
               match l with [] => [] | (k, x) :: l => (k, dumps x) :: go l end) kvs) ∧
            Forall (λ kv : string * string, plain kv.1)
              ((fix go (l : list (string * json)) : list (string * string) :=
               match l with [] => [] | (k, x) :: l => (k, dumps x) :: go l end) kvs)) as [-> Hk].
    { induction IH as [|[k x] l Hx Hl IHl]; [done|]. destruct Hp as (Hpk & Hpx & Hp). destruct (IHl Hp) as [E1 E2].
      simpl in Hx. rewrite Hx by done. rewrite E1. split; [done|]. by constructor. }
    apply list_fmap_ext. intros i kv Hi. rewrite dump_string_plain; [done|].
    apply list_elem_of_lookup_2 in Hi. rewrite merge_sort_Permutation in Hi. rewrite Forall_forall in Hk. by apply Hk.
Qed.

(** ** [coordination/models.py] *)

(** [s.strip("/")] *)
Fixpoint lstrip_slash (s : string) : string :=
  match s with
  | String a r => if decide (a = "/"%char) then lstrip_slash r else s
  | EmptyString => s
  end.

Fixpoint rstrip_slash (s : string) : string :=
  match s with
  | EmptyString => s
  | String a r =>
      match rstrip_slash r with
      | EmptyString => if decide (a = "/"%char) then EmptyString else String a EmptyString
      | r => String a r
      end
  end.

Definition strip_slash (s : string) : string := rstrip_slash (lstrip_slash s).

Definition _namespace (value : string) : result string :=
  let cleaned := String "/" (strip_slash value) in
  if bool_decide (cleaned = "/") then raise ValueError "coordination namespace must not be empty" else Ok cleaned.

Definition member_key (namespace node_id : string) : result string :=
  if negb (nonempty node_id) then raise ValueError "node_id must not be empty"
  else namespace ← _namespace namespace; Ok (namespace +:+ "/members/" +:+ node_id)%string.

Definition node_metadata_key (namespace node_id : string) : result string :=
  if negb (nonempty node_id) then raise ValueError "node_id must not be empty"
  else namespace ← _namespace namespace; Ok (namespace +:+ "/nodes/" +:+ node_id +:+ "/metadata")%string.

Module LeaseHandle.
Record t := mk { lease_id : Z; ttl_seconds : Z }.

Definition make (lease_id ttl_seconds : Z) : result t :=
  if lease_id <=? 0 then raise ValueError "lease_id must be positive"
  else if ttl_seconds <=? 0 then raise ValueError "ttl_seconds must be positive"
  else Ok (mk lease_id ttl_seconds).
End LeaseHandle.
Import LeaseHandle (lease_id).

(** Conversions of a decoded value: [str(v)], [int(v)] and [bool(v)].  The text of a
    list or dictionary is left open. *)
Definition py_str (repr : json → string) (v : json) : string :=
  match v with
  | JStr s => s
  | JInt z => str_of_int z
  | JBool true => "True"
  | JBool false => "False"
  | JNull => "None"
  | v => repr v
  end.

Definition py_int_of (v : json) : result Z :=
  match v with
  | JInt z => Ok z
  | JBool b => Ok (if b then 1 else 0)
  | JStr s => match py_int s with Some z => Ok z | None => raise ValueError "invalid literal for int() with base 10" end
  | _ => raise TypeError "int() argument must be a string, a bytes-like object or a real number"
  end.

Definition py_bool (v : json) : bool :=
  match v with
  | JNull => false
  | JBool b => b
  | JInt z => negb (z =? 0)
  | JStr s => nonempty s
  | JList l => match l with [] => false | _ => true end
  | JObj l => match l with [] => false | _ => true end
  end.

(** [data[k]] *)
Definition item (k : string) (data : list (string * json)) : result json :=
  match assoc k data with Some v => Ok v | None => raise KeyError k end.

Module CoordinationMember.
Record t := mk {
  node_id : string; node_uuid : string; host : string; port : Z; membership_incarnation : Z;
  protocol_version : Z; release : string; tls_required : bool }.

#[export] Instance eq_dec : EqDecision t.
Proof. solve_decision. Defined.

(** [__post_init__] *)
Definition make (node_id node_uuid host : string) (port membership_incarnation protocol_version : Z)
    (release : string) (tls_required : bool) : result t :=
  if negb (nonempty node_id) then raise ValueError "node_id must not be empty"
  else if negb (nonempty node_uuid) then raise ValueError "node_uuid must not be empty"
  else if negb (nonempty host) then raise ValueError "host must not be empty"
  else if negb ((1 <=? port) && (port <=? 65535)) then raise ValueError "port must be between 1 and 65535"
  else if membership_incarnation <? 1 then raise ValueError "membership_incarnation must be positive"
  else if protocol_version <? 1 then raise ValueError "protocol_version must be positive"
  else if negb (nonempty release) then raise ValueError "release must not be empty"
  else Ok (mk node_id node_uuid host port membership_incarnation protocol_version release tls_required).

Definition payload (m : t) : json :=
  JObj [("host", JStr (host m)); ("membership_incarnation", JInt (membership_incarnation m));
        ("node_id", JStr (node_id m)); ("node_uuid", JStr (node_uuid m)); ("port", JInt (port m));
        ("protocol_version", JInt (protocol_version m)); ("release", JStr (release m));
        ("tls_required", JBool (tls_required m))].

Definition to_json (m : t) : string := dumps_ascii (payload m).

Definition from_json (repr : json → string) (raw : string) : result t :=
  match loads raw with
  | Err e => if isinstance e [ValueError] then raise ValueError "invalid coordination member JSON" else Err e
  | Ok (JObj data) =>
      node_id ← item "node_id" data;
      node_uuid ← item "node_uuid" data;
      host ← item "host" data;
      port ← item "port" data; port ← py_int_of port;
      incarnation ← item "membership_incarnation" data; incarnation ← py_int_of incarnation;
      version ← item "protocol_version" data; version ← py_int_of version;
      release ← item "release" data;
      tls ← item "tls_required" data;
      make (py_str repr node_id) (py_str repr node_uuid) (py_str repr host) port incarnation version
        (py_str repr release) (py_bool tls)
  | Ok _ => raise TypeError "coordination member payload must be an object"
  end.

Definition valid (m : t) : Prop :=
  node_id m ≠ "" ∧ node_uuid m ≠ "" ∧ host m ≠ "" ∧ 1 ≤ port m ≤ 65535 ∧ 1 ≤ membership_incarnation m ∧
  1 ≤ protocol_version m ∧ release m ≠ "".

Lemma member_make_iff a b c d e f g h m :
  make a b c d e f g h = Ok m ↔ m = mk a b c d e f g h ∧ valid m.
Proof.
  unfold make, valid, nonempty. split.
  - repeat case_match; try done. boolify. intros [= <-]. simpl. split_and!; done.
  - intros [-> (Ha & Hb & Hc & Hd & He & Hf & Hg)]. simpl in *.
    rewrite !bool_decide_eq_false_2 by done. simpl.
    destruct Hd as [Hd1 Hd2]. rewrite (proj2 (Z.leb_le _ _) Hd1), (proj2 (Z.leb_le _ _) Hd2). simpl.
    by rewrite (proj2 (Z.ltb_ge _ _) He), (proj2 (Z.ltb_ge _ _) Hf).
Qed.

(** The text of a record is ASCII. *)
Definition ascii_text (m : t) : Prop := plain (node_id m) ∧ plain (node_uuid m) ∧ plain (host m) ∧ plain (release m).

Lemma payload_canonical m : canonical (payload m).
Proof.
  apply canonical_obj. split_and!.
  - apply (bool_decide_unpack _). vm_compute. exact I.
  - unfold payload. repeat (constructor || (unfold key_le; simpl; apply (bool_decide_unpack _); vm_compute; exact I)).
  - by repeat constructor.
Qed.

(** A registration is read back as it was written. *)
Lemma from_to_json repr m : valid m → ascii_text m → from_json repr (to_json m) = Ok m.
Proof.
  intros Hv (P1 & P2 & P3 & P4). unfold from_json, to_json. rewrite dumps_plain.
  2: { simpl. repeat (split; [first [done|apply (bool_decide_unpack _); vm_compute; exact I]|]); done. }
  rewrite loads_dumps by apply payload_canonical. unfold payload.
  change (make (node_id m) (node_uuid m) (host m) (port m) (membership_incarnation m) (protocol_version m) (release m)
    (tls_required m) = Ok m).
  apply member_make_iff. by destruct m.
Qed.
End CoordinationMember.

Record CoordinationHealth := Health { healthy : bool; connected : bool; health_lease : option Z; message : string }.

(** *** Keys and namespaces *)
Definition slashed (s : string) : bool := match s with String a _ => bool_decide (a = "/"%char) | EmptyString => false end.

Lemma lstrip_unslashed s : slashed (lstrip_slash s) = false.
Proof. induction s as [|a s IH]; simpl; [done|]. case_decide; [done|]. simpl. by apply bool_decide_eq_false. Qed.

Lemma lstrip_id s : slashed s = false → lstrip_slash s = s.
Proof. destruct s as [|a s]; simpl; [done|]. intros Ha%bool_decide_eq_false. by rewrite decide_False. Qed.

Lemma rstrip_unslashed s : slashed s = false → slashed (rstrip_slash s) = false.
Proof.
  destruct s as [|a s]; simpl; [done|]. intros Ha. pose proof Ha as Hd%bool_decide_eq_false.
  destruct (rstrip_slash s); [by rewrite decide_False|done].
Qed.

Lemma rstrip_idemp s : rstrip_slash (rstrip_slash s) = rstrip_slash s.
Proof.
  induction s as [|a s IH]; simpl; [done|]. destruct (rstrip_slash s) as [|b r] eqn:E.
  - case_decide; [done|]. simpl. by rewrite decide_False.
  - simpl in IH. simpl. by rewrite IH.
Qed.

(** A cleaned namespace is cleaned already. *)
Lemma strip_slash_clean s : strip_slash (String "/" (strip_slash s)) = strip_slash s.
Proof.
  unfold strip_slash at 1. simpl. rewrite lstrip_id by apply rstrip_unslashed, lstrip_unslashed.
  apply rstrip_idemp.
Qed.

(** [namespace] as [EtcdGatewayCoordinationClient.__init__] keeps it. *)
Definition clean (namespace : string) : Prop := namespace = String "/" (strip_slash namespace) ∧ namespace ≠ "/".

Lemma namespace_clean s ns : _namespace s = Ok ns → clean ns.
Proof.
  unfold _namespace. cbv zeta. case_bool_decide; [done|]. intros [= <-]. split; [|done]. by rewrite strip_slash_clean.
Qed.

Lemma clean_namespace ns : clean ns → _namespace ns = Ok ns.
Proof. intros [E H]. unfold _namespace. cbv zeta. rewrite <-E. by rewrite bool_decide_eq_false_2. Qed.

Lemma str_app_inj s t u : (s +:+ t = s +:+ u)%string → t = u.
Proof. induction s as [|a s IH]; simpl; [done|]. intros [= E]. auto. Qed.

Lemma prefix_app p s : String.prefix p (p +:+ s)%string = true.
Proof. induction p as [|a p IH]; [by destruct s|]. rewrite app_cons. simpl. destruct (ascii_dec a a); done. Qed.

Lemma prefix_app_inv p s : String.prefix p s = true → ∃ t, s = (p +:+ t)%string.
Proof.
  revert s. induction p as [|a p IH]; intros s; [by exists s|]. destruct s as [|b s]; simpl; [done|].
  destruct (ascii_dec a b) as [->|]; [|done]. intros [t ->]%IH. by exists t.
Qed.

Definition members_prefix (ns : string) : string := (ns +:+ "/members/")%string.

Lemma member_key_clean ns n k : clean ns → member_key ns n = Ok k ↔ n ≠ "" ∧ k = (members_prefix ns +:+ n)%string.
Proof.
  intros Hc. unfold member_key, nonempty. rewrite clean_namespace by done. unfold members_prefix. simpl.
  case_bool_decide; simpl; [split; [done|by intros [??]]|]. rewrite app_assoc'. split; [by intros [= <-]|by intros [_ ->]].
Qed.

Lemma metadata_key_apart ns n k : clean ns → node_metadata_key ns n = Ok k → String.prefix (members_prefix ns) k = false.
Proof.
  intros Hc. unfold node_metadata_key. rewrite clean_namespace by done. destruct (negb _); [done|].
  intros [= <-]. apply not_true_is_false. intros [t E]%prefix_app_inv. unfold members_prefix in E.
  rewrite app_assoc' in E. apply str_app_inj in E. done.
Qed.

(** ** [coordination/client.py] *)
Record CoordinationClient (S : Type) := {
  connect : M S unit;
  close : M S unit;
  grant_lease : Z → M S LeaseHandle.t;
  refresh_lease : LeaseHandle.t → M S unit;
  register_member : CoordinationMember.t → LeaseHandle.t → M S unit;
  put_node_metadata : CoordinationMember.t → M S unit;
  discover_members : M S (list CoordinationMember.t);
}.
Arguments connect {_} _.
Arguments close {_} _.
Arguments grant_lease {_} _ _.
Arguments refresh_lease {_} _ _.
Arguments register_member {_} _ _ _.
Arguments put_node_metadata {_} _ _.
Arguments discover_members {_} _.

(** ** The etcd library

    [Cl] are its clients, [Raw] its lease objects and [W] what its calls act on: the
    cluster and the network.  [refresh] gives the remaining time to live when it is a
    number. *)
Record Etcd (W Cl Raw : Type) := {
  factory : string → result Cl;
  status : Cl → M W unit;
  lease : Cl → Z → M W Raw;
  raw_id : Raw → Z;
  refresh : Raw → M W (option Z);
  put : Cl → string → string → option Raw → M W unit;
  get_prefix : Cl → string → M W (list string);
}.
Arguments factory {_ _ _} _ _.
Arguments status {_ _ _} _ _.
Arguments lease {_ _ _} _ _ _.
Arguments raw_id {_ _ _} _ _.
Arguments refresh {_ _ _} _ _.
Arguments put {_ _ _} _ _ _ _ _.
Arguments get_prefix {_ _ _} _ _ _.

(** What the calls do to the keys of the cluster: [status] is a query, the others are
    described when they succeed. *)
Class EtcdLaws {W Cl Raw} (etcd : Etcd W Cl Raw) := {
  pairs : W → gmap string string;
  status_pairs c w r w' : status etcd c w = (r, w') → pairs w' = pairs w;
  lease_pairs c ttl w raw w' : lease etcd c ttl w = (Ok raw, w') → 0 < raw_id etcd raw ∧ pairs w' = pairs w;
  put_pairs c k v l w u w' : put etcd c k v l w = (Ok u, w') → pairs w' = <[k := v]> (pairs w);
  get_pairs c p w rows w' : get_prefix etcd c p w = (Ok rows, w') → pairs w' = pairs w ∧
    rows ≡ₚ (map_to_list (filter (λ kv, String.prefix p kv.1 = true) (pairs w))).*2;
}.

(** ** [coordination/etcd_client.py] *)
Module EtcdGatewayCoordinationClient.
Section client.
Context {W Cl Raw : Type} (etcd : Etcd W Cl Raw) (repr : json → string).

Record t := mk {
  endpoints : list string;
  namespace : string;
  _client : option Cl;
  _leases : gmap Z Raw;
  active_endpoint : option string;
}.

(** [timeout_seconds] in milliseconds; the library's calls use it. *)
Definition init (endpoints : list string) (namespace : string) (timeout_ms : Z) : result t :=
  match endpoints with
  | [] => raise ValueError "at least one etcd endpoint is required"
  | _ =>
      if timeout_ms <=? 0 then raise ValueError "timeout_seconds must be greater than zero"
      else Ok (mk endpoints (String "/" (strip_slash namespace)) None ∅ None)
  end.

(** A library call: [await asyncio.to_thread(...)]. *)
Definition library {A} (m : M W A) : M (t * W) A := λ s,
  match m s.2 with (r, w) => (r, (s.1, w)) end.

Definition on_self {A} (m : M t A) : M (t * W) A := λ s,
  match m s.1 with (r, c) => (r, (c, s.2)) end.

(** [try: m except Exception: raise CoordinationUnavailableError(text)] *)
Definition guarded {A} (text : string) (m : M (t * W) A) : M (t * W) A :=
  catchM m [Exception] (λ _, raiseM CoordinationUnavailableError text).

Fixpoint try_endpoints (l : list string) : M (t * W) unit :=
  match l with
  | [] => raiseM CoordinationUnavailableError "no etcd endpoint is reachable"
  | endpoint :: l =>
      client ← liftM (factory etcd endpoint);
      ok ← catchM (_ ← library (status etcd client); mret true) [Exception] (λ _, mret false);
      if (ok : bool)
      then on_self (modifyM (λ c, mk (endpoints c) (namespace c) (Some client) (_leases c) (Some endpoint)))
      else try_endpoints l
  end.

Definition connect : M (t * W) unit :=
  c ← on_self getM; try_endpoints (endpoints c).

Definition close : M (t * W) unit :=
  on_self (modifyM (λ c, mk (endpoints c) (namespace c) None ∅ None)).

Definition _require_client : M (t * W) Cl :=
  c ← on_self getM;
  match _client c with
  | None => raiseM CoordinationUnavailableError "etcd client is not connected"
  | Some client => mret client
  end.

Definition grant_lease (ttl_seconds : Z) : M (t * W) LeaseHandle.t :=
  if ttl_seconds <=? 0 then raiseM ValueError "ttl_seconds must be positive"
  else
    client ← _require_client;
    raw ← guarded "failed to grant etcd lease" (library (lease etcd client ttl_seconds));
    handle ← liftM (LeaseHandle.make (raw_id etcd raw) ttl_seconds);
    _ ← on_self (modifyM (λ c, mk (endpoints c) (namespace c) (_client c) (<[lease_id handle := raw]> (_leases c))
          (active_endpoint c)));
    mret handle.

Definition known_lease (handle : LeaseHandle.t) : M (t * W) Raw :=
  c ← on_self getM;
  match _leases c !! lease_id handle with
  | None => raiseM CoordinationUnavailableError "unknown etcd lease"
  | Some raw => mret raw
  end.

Definition refresh_lease (handle : LeaseHandle.t) : M (t * W) unit :=
  raw ← known_lease handle;
  ttl ← guarded "failed to refresh etcd lease" (library (refresh etcd raw));
  match ttl with
  | Some ttl => if ttl <=? 0 then raiseM CoordinationUnavailableError "etcd lease expired" else mret tt
  | None => mret tt
  end.

Definition register_member (member : CoordinationMember.t) (handle : LeaseHandle.t) : M (t * W) unit :=
  client ← _require_client;
  raw ← known_lease handle;
  c ← on_self getM;
  guarded "failed to register etcd member"
    (k ← liftM (member_key (namespace c) (CoordinationMember.node_id member));
     library (put etcd client k (CoordinationMember.to_json member) (Some raw))).

Definition put_node_metadata (member : CoordinationMember.t) : M (t * W) unit :=
  client ← _require_client;
  c ← on_self getM;
  guarded "failed to persist etcd node metadata"
    (k ← liftM (node_metadata_key (namespace c) (CoordinationMember.node_id member));
     library (put etcd client k (CoordinationMember.to_json member) None)).

(** [sorted(members, key=lambda item: item.node_id)] *)
Definition by_node_id (a b : CoordinationMember.t) : Prop :=
  py_le (CoordinationMember.node_id a) (CoordinationMember.node_id b).
#[export] Instance by_node_id_dec : RelDecision by_node_id.
Proof. intros a b. unfold by_node_id. apply _. Defined.

Definition discover_members : M (t * W) (list CoordinationMember.t) :=
  client ← _require_client;
  c ← on_self getM;
  rows ← guarded "failed to discover etcd members" (library (get_prefix etcd client (members_prefix (namespace c))));
  members ← liftM (mapM_result (CoordinationMember.from_json repr) rows);
  mret (merge_sort by_node_id members).

Definition client : CoordinationClient (t * W) := {|
  Coordination.connect := connect;
  Coordination.close := close;
  Coordination.grant_lease := grant_lease;
  Coordination.refresh_lease := refresh_lease;
  Coordination.register_member := register_member;
  Coordination.put_node_metadata := put_node_metadata;
  Coordination.discover_members := discover_members;
|}.
End client.
End EtcdGatewayCoordinationClient.

(** ** The registry as a map of members *)
Module Registry.
Import EtcdGatewayCoordinationClient.
Section registry.
Context {W Cl Raw : Type} (etcd : Etcd W Cl Raw) `{!EtcdLaws etcd} (repr : json → string).

(** The cluster's keys under the namespace list the members of [ms] by node id. *)
Definition registry (ns : string) (w : W) (ms : gmap string CoordinationMember.t) : Prop :=
  map_Forall (λ n m, CoordinationMember.node_id m = n ∧ CoordinationMember.valid m ∧ CoordinationMember.ascii_text m) ms ∧
  ∀ n, pairs w !! (members_prefix ns +:+ n)%string = CoordinationMember.to_json <$> ms !! n.

Lemma registry_pairs ns w w' ms : pairs w' = pairs w → registry ns w ms → registry ns w' ms.
Proof. intros E [H1 H2]. split; [done|]. by rewrite E. Qed.

Lemma registry_other ns w w' ms k v : pairs w' = <[k := v]> (pairs w) → String.prefix (members_prefix ns) k = false →
  registry ns w ms → registry ns w' ms.
Proof.
  intros E Hk [H1 H2]. split; [done|]. intros n. rewrite E, lookup_insert_ne; [done|].
  intros ->. by rewrite prefix_app in Hk.
Qed.

Lemma registry_insert ns w w' ms m : CoordinationMember.valid m → CoordinationMember.ascii_text m →
  pairs w' = <[(members_prefix ns +:+ CoordinationMember.node_id m)%string := CoordinationMember.to_json m]> (pairs w) →
  registry ns w ms → registry ns w' (<[CoordinationMember.node_id m := m]> ms).
Proof.
  intros Hv Ha E [H1 H2]. split; [by apply map_Forall_insert_2|]. intros n. rewrite E.
  destruct (decide (CoordinationMember.node_id m = n)) as [<-|Hn].
  - by rewrite !lookup_insert_eq.
  - rewrite !lookup_insert_ne; [done|done|]. by intros ?%str_app_inj.
Qed.

#[local] Instance prefixing_inj p : Inj (=) (=) (λ n, (p +:+ n)%string).
Proof. intros a b. apply str_app_inj. Qed.

Lemma registry_rows ns w ms : registry ns w ms →
  filter (λ kv, String.prefix (members_prefix ns) kv.1 = true) (pairs w) =
  kmap (λ n, (members_prefix ns +:+ n)%string) (CoordinationMember.to_json <$> ms).
Proof.
  intros [_ H]. apply map_eq. intros k. apply option_eq. intros v. rewrite map_lookup_filter_Some, lookup_kmap_Some by apply _.
  split.
  - intros [Hk Hp]. simpl in Hp. apply prefix_app_inv in Hp as [n ->]. exists n. split; [done|]. by rewrite lookup_fmap, <-H.
  - intros (n & -> & Hn). split; [by rewrite H, <-lookup_fmap|]. apply prefix_app.
Qed.

Lemma rows_read ns w ms rows : registry ns w ms →
  rows ≡ₚ (map_to_list (filter (λ kv, String.prefix (members_prefix ns) kv.1 = true) (pairs w))).*2 →
  ∃ l, mapM_result (CoordinationMember.from_json repr) rows = Ok l ∧ l ≡ₚ (map_to_list ms).*2.
Proof.
  intros Hr E. rewrite (registry_rows ns w ms Hr), map_to_list_kmap, map_to_list_fmap in E by apply _.
  assert (rows ≡ₚ CoordinationMember.to_json <$> (map_to_list ms).*2) as E'.
  { rewrite E, <-!list_fmap_compose. apply Permutation_refl'. apply list_fmap_ext. by intros i [n m] _. }
  destruct (Permutation_map_inv _ _ E') as (l & -> & Hl). exists l. split; [|done].
  transitivity (Ok (id <$> l)); [|by rewrite list_fmap_id].
  assert (∀ x, x ∈ l → CoordinationMember.from_json repr (CoordinationMember.to_json x) = Ok x) as Hx.
  { intros x Hin. rewrite <-Hl in Hin. apply list_elem_of_fmap in Hin as ([n m] & -> & Hin%elem_of_map_to_list).
    destruct Hr as [Hr _]. destruct (Hr n m Hin) as (_ & Hv & Ha). by apply CoordinationMember.from_to_json. }
  clear -Hx. change (map CoordinationMember.to_json l) with (CoordinationMember.to_json <$> l).
  induction l as [|x l IH]; [done|]. rewrite fmap_cons. simpl. rewrite Hx by left. simpl.
  rewrite IH; [done|]. intros y Hy. apply Hx. by right.
Qed.

Lemma sorted_members ns w ms l : registry ns w ms → l ≡ₚ (map_to_list ms).*2 →
  merge_sort by_node_id l = (sorted_items ms).*2.
Proof.
  intros [Hr _] Hl. apply (StronglySorted_unique_strong by_node_id).
  - assert (∀ x, x ∈ merge_sort by_node_id l → ms !! CoordinationMember.node_id x = Some x) as Hin.
    { intros x Hx. rewrite merge_sort_Permutation, Hl in Hx.
      apply list_elem_of_fmap in Hx as ([n m] & -> & Hx%elem_of_map_to_list). simpl. by destruct (Hr n m Hx) as [-> _]. }
    intros x y Hx Hy Hxy Hyx. apply Hin in Hx. 
    assert (y ∈ merge_sort by_node_id l) as Hy'.
    { rewrite merge_sort_Permutation, Hl. by rewrite sorted_items_Permutation in Hy. }
    apply Hin in Hy'. assert (CoordinationMember.node_id x = CoordinationMember.node_id y) as E
      by by apply (anti_symm py_le). congruence.
  - apply StronglySorted_merge_sort; [|intros x y; apply (total py_le)]. intros x y z Hxy Hyz. unfold by_node_id in *. by etrans.
  - assert (∀ k, Forall (λ kv : string * CoordinationMember.t, kv.1 = CoordinationMember.node_id kv.2) k →
      StronglySorted key_le k → StronglySorted by_node_id k.*2) as Hs.
    { intros k Hf Hk. induction Hk as [|[n m] k Hk IH Hx]; [constructor|]. apply Forall_cons in Hf as [Hn Hf].
      rewrite fmap_cons. constructor; [auto|]. rewrite Forall_forall. intros y ([n' m'] & -> & Hy)%list_elem_of_fmap.
      rewrite Forall_forall in Hx, Hf. specialize (Hx _ Hy). specialize (Hf _ Hy). unfold key_le, by_node_id in *. simpl in *. congruence. }
    apply Hs; [|apply sorted_items_sorted]. rewrite Forall_forall. intros [n m] Hm%elem_of_sorted_items. simpl. by destruct (Hr n m Hm).
  - by rewrite merge_sort_Permutation, sorted_items_Permutation.
Qed.

(** *** The client's calls *)
Abbreviation st := (@t Cl Raw * W)%type.

Lemma library_inv {A} (m : M W A) (s : st) r s' : library m s = (r, s') → s'.1 = s.1 ∧ m s.2 = (r, s'.2).
Proof. unfold library. destruct (m s.2) as [x w]. by intros [= <- <-]. Qed.

Lemma bind_inv {S A B} (m : M S A) (f : A → M S B) s b s' : (m ≫= f) s = (Ok b, s') →
  ∃ a s1, m s = (Ok a, s1) ∧ f a s1 = (Ok b, s').
Proof. unfold mbind, M_bind. destruct (m s) as [[a|e] s1]; [eauto|done]. Qed.

Lemma guarded_inv {A} text (m : M st A) s a s' : guarded text m s = (Ok a, s') → m s = (Ok a, s').
Proof. unfold guarded, catchM. destruct (m s) as [[x|e] s1]; [done|]. by destruct (isinstance e _). Qed.

Lemma require_inv (s : st) c s' : _require_client s = (Ok c, s') → s' = s.
Proof.
  destruct s as [x w]. unfold _require_client, on_self, mbind, M_bind. simpl. destruct (_client x); by intros [= -> <-].
Qed.

Lemma known_inv h (s : st) raw s' : known_lease h s = (Ok raw, s') → s' = s.
Proof.
  destruct s as [x w]. unfold known_lease, on_self, mbind, M_bind. simpl. destruct (_leases x !! _); by intros [= -> <-].
Qed.

Lemma self_inv (s : st) c s' : on_self getM s = (Ok c, s') → c = s.1 ∧ s' = s.
Proof. destruct s as [x w]. by intros [= <- <-]. Qed.

Lemma lift_inv {S A} (r : result A) (s : S) a s' : liftM r s = (Ok a, s') → r = Ok a ∧ s' = s.
Proof. by intros [= -> <-]. Qed.

Lemma register_pairs m h (s s' : st) u : clean (namespace s.1) → register_member etcd m h s = (Ok u, s') →
  s'.1 = s.1 ∧ pairs s'.2 =
    <[(members_prefix (namespace s.1) +:+ CoordinationMember.node_id m)%string := CoordinationMember.to_json m]> (pairs s.2).
Proof.
  intros Hc (c & s1 & ->%require_inv & (raw & s2 & ->%known_inv & (x & s3 & [-> ->]%self_inv & E%guarded_inv)%bind_inv)%bind_inv)%bind_inv.
  apply bind_inv in E as (k & s4 & [Ek ->]%lift_inv & [E1 E2]%library_inv). split; [done|].
  apply member_key_clean in Ek as [_ ->]; [|done]. by eapply put_pairs.
Qed.

Lemma metadata_pairs m (s s' : st) u : clean (namespace s.1) → put_node_metadata etcd m s = (Ok u, s') →
  s'.1 = s.1 ∧ ∃ k v, String.prefix (members_prefix (namespace s.1)) k = false ∧ pairs s'.2 = <[k := v]> (pairs s.2).
Proof.
  intros Hc (c & s1 & ->%require_inv & (x & s3 & [-> ->]%self_inv & E%guarded_inv)%bind_inv)%bind_inv.
  apply bind_inv in E as (k & s4 & [Ek ->]%lift_inv & [E1 E2]%library_inv). split; [done|].
  exists k, (CoordinationMember.to_json m). split; [by eapply metadata_key_apart|]. by eapply put_pairs.
Qed.

(** The rows of the registry are read as its members, whatever order they come in. *)
Lemma discover_spec ms (s s' : st) r : clean (namespace s.1) → registry (namespace s.1) s.2 ms →
  discover_members etcd repr s = (r, s') → s'.1 = s.1 ∧
  match r with
  | Ok l => l = (sorted_items ms).*2 ∧ registry (namespace s.1) s'.2 ms
  | Err e => isinstance e [CoordinationUnavailableError] = true ∨ isinstance e [Exception] = false
  end.
Proof.
  intros Hc Hr E. destruct s as [c w]. unfold discover_members, _require_client, on_self, mbind, M_bind in E.
  cbn [fst snd] in *. simpl in E. destruct (_client c) as [cl|]; [|injection E as <- <-; by split; [|left]].
  simpl in E. unfold guarded, catchM, library in E. cbn [fst snd] in E.
  destruct (get_prefix etcd cl (members_prefix (namespace c)) w) as [[rows|e] w'] eqn:Eg.
  - destruct (get_pairs _ _ _ _ _ Eg) as [Ep Erows]. destruct (rows_read _ _ _ _ Hr Erows) as (l & El & Hl).
    unfold liftM in E. rewrite El in E. injection E as <- <-. split; [done|].
    split; [by eapply sorted_members|by eapply registry_pairs].
  - destruct (isinstance e [Exception]) eqn:Ee; injection E as <- <-; (split; [done|]); [by left|by right].
Qed.
End registry.
End Registry.

(** ** [coordination/lease.py]

    [S] is what the client's calls act on, [H] what [on_health_change] acts on. *)
Module LeaseManager.
Record t := mk {
  ttl_seconds : Z;
  renew_interval_ms : Z;
  _member : option CoordinationMember.t;
  _lease : option LeaseHandle.t;
  (** whether the renewal task runs *)
  _task : bool;
  health : CoordinationHealth;
}.

Definition init (ttl_seconds renew_interval_ms : Z) : result t :=
  if ttl_seconds <=? 0 then raise ValueError "ttl_seconds must be positive"
  else if (renew_interval_ms <=? 0) || (1000 * ttl_seconds <=? renew_interval_ms)
  then raise ValueError "renew interval must be positive and less than lease TTL"
  else Ok (mk ttl_seconds renew_interval_ms None None false (Health false false None "not started")).

Definition set_member (m : CoordinationMember.t) (s : t) : t :=
  mk (ttl_seconds s) (renew_interval_ms s) (Some m) (_lease s) (_task s) (health s).
Definition set_lease (l : option LeaseHandle.t) (s : t) : t :=
  mk (ttl_seconds s) (renew_interval_ms s) (_member s) l (_task s) (health s).
Definition set_task (b : bool) (s : t) : t :=
  mk (ttl_seconds s) (renew_interval_ms s) (_member s) (_lease s) b (health s).
Definition set_health (h : CoordinationHealth) (s : t) : t :=
  mk (ttl_seconds s) (renew_interval_ms s) (_member s) (_lease s) (_task s) h.

(** The exceptions the renewal loop survives. *)
Definition _LOST : list exn_class :=
  [CoordinationUnavailableError; ConnectionError; TimeoutError; OSError; RuntimeError].

Section manager.
Context {S H : Type} (client : CoordinationClient S) (on_health_change : option (CoordinationHealth → M H unit)).
Abbreviation st := (t * (S * H))%type.

Definition self {A} (m : M t A) : M st A := λ s, match m s.1 with (r, x) => (r, (x, s.2)) end.
Definition on_client {A} (m : M S A) : M st A := λ s,
  match m s.2.1 with (r, c) => (r, (s.1, (c, s.2.2))) end.
Definition notify (h : CoordinationHealth) : M st unit :=
  match on_health_change with
  | Some f => λ s, match f h s.2.2 with (r, x) => (r, (s.1, (s.2.1, x))) end
  | None => mret tt
  end.

Definition _publish_health (h : CoordinationHealth) : M st unit :=
  _ ← self (modifyM (set_health h)); notify h.

Definition good_health (l : LeaseHandle.t) : CoordinationHealth := Health true true (Some (lease_id l)) "healthy".

Definition _acquire_and_register : M st unit :=
  s ← self getM;
  match _member s with
  | None => raiseM RuntimeError "lease manager member is not configured"
  | Some member =>
      lease ← on_client (grant_lease client (ttl_seconds s));
      _ ← on_client (register_member client member lease);
      _ ← self (modifyM (set_lease (Some lease)));
      _publish_health (good_health lease)
  end.

Definition start (member : CoordinationMember.t) : M st unit :=
  s ← self getM;
  if _task s then mret tt
  else
    _ ← self (modifyM (set_member member));
    _ ← _acquire_and_register;
    self (modifyM (set_task true)).

Definition stop : M st unit :=
  _ ← self (modifyM (set_task false));
  _publish_health (Health false false None "stopped").

(** One iteration of [_loop], after its sleep. *)
Definition renew : M st unit :=
  catchM
    (s ← self getM;
     match _lease s with
     | None => _acquire_and_register
     | Some lease =>
         _ ← on_client (refresh_lease client lease);
         _publish_health (good_health lease)
     end)
    _LOST
    (λ exc,
      _ ← self (modifyM (set_lease None));
      _publish_health (Health false false None (exn_msg exc))).

(** [n] iterations of [_loop]; an exception ends the task. *)
Fixpoint _loop (n : nat) : M st unit :=
  match n with O => mret tt | Datatypes.S n => _ ← renew; _loop n end.
End manager.
End LeaseManager.

(** ** [coordination/discovery.py] *)
Module DiscoveryService.
Section discovery.
Context {S : Type} (client : CoordinationClient S).

Definition seed_of (m : CoordinationMember.t) : result SeedAddress.t :=
  SeedAddress.make (CoordinationMember.host m) (CoordinationMember.port m) (Some (CoordinationMember.node_id m)).

Definition discover_seeds (local_node_id : string) : M S (list SeedAddress.t) :=
  members ← discover_members client;
  liftM (mapM_result seed_of
    (filter (λ m, CoordinationMember.node_id m ≠ local_node_id)
       (merge_sort EtcdGatewayCoordinationClient.by_node_id members))).
End discovery.
End DiscoveryService.

(** ** [coordination/service.py] *)
Module CoordinationService.
Section service.
Context {S H : Type} (client : CoordinationClient S) (on_health_change : option (CoordinationHealth → M H unit)).
Record t := mk { lease_manager : LeaseManager.t; _started : bool }.
Abbreviation st := (t * (S * H))%type.

Definition on_lease {A} (m : M (LeaseManager.t * (S * H)) A) : M st A := λ s,
  match m (lease_manager s.1, s.2) with (r, (l, x)) => (r, (mk l (_started s.1), x)) end.
Definition on_client {A} (m : M S A) : M st A := λ s,
  match m s.2.1 with (r, c) => (r, (s.1, (c, s.2.2))) end.
Definition set_started (b : bool) : M st unit := λ s, (Ok tt, (mk (lease_manager s.1) b, s.2)).

Definition health (s : t) : CoordinationHealth := LeaseManager.health (lease_manager s).

Definition bootstrap (member : CoordinationMember.t) : M st (list SeedAddress.t) :=
  _ ← on_client (connect client);
  _ ← on_client (put_node_metadata client member);
  seeds ← on_client (DiscoveryService.discover_seeds client (CoordinationMember.node_id member));
  _ ← on_lease (LeaseManager.start client on_health_change member);
  _ ← set_started true;
  mret seeds.

Definition stop : M st unit :=
  s ← (λ s : st, (Ok s.1, s));
  _ ← (if _started s then _ ← on_lease (LeaseManager.stop on_health_change); set_started false else mret tt);
  on_client (close client).
End service.
End CoordinationService.

(** ** What the lease promises *)

(** A client whose failures the renewal loop expects: every error of its lease calls is
    one of [_LOST] or the cancellation of the task. *)
Class LeaseClient {S} (client : CoordinationClient S) : Prop := {
  grant_fails ttl s e s' : 0 < ttl → grant_lease client ttl s = (Err e, s') →
    isinstance e LeaseManager._LOST = true ∨ isinstance e [Exception] = false;
  refresh_fails l s e s' : refresh_lease client l s = (Err e, s') →
    isinstance e LeaseManager._LOST = true ∨ isinstance e [Exception] = false;
  register_fails m l s e s' : register_member client m l s = (Err e, s') →
    isinstance e LeaseManager._LOST = true ∨ isinstance e [Exception] = false;
}.

Module LeaseSpec.
Import LeaseManager.
Section spec.
Context {S H : Type} (client : CoordinationClient S) `{!LeaseClient client}.
Context (on_health_change : option (CoordinationHealth → M H unit)).
Abbreviation st := (t * (S * H))%type.

(** The callback is only interrupted by cancellation. *)
Hypothesis Hcallback : ∀ f h x e x', on_health_change = Some f → f h x = (Err e, x') → isinstance e [Exception] = false.

(** The published health says whether a lease is held, and which. *)
Definition truthful (s : t) : Prop :=
  match _lease s with
  | Some l => health s = good_health l
  | None => healthy (health s) = false ∧ connected (health s) = false ∧ health_lease (health s) = None
  end.

Definition cancelled {A} (r : result A) : Prop := ∃ e, r = Err e ∧ isinstance e [Exception] = false.

(** What publishing does to the manager. *)
Lemma publish_spec h (s : st) r s' : _publish_health on_health_change h s = (r, s') →
  s'.1 = set_health h s.1 ∧ s'.2.1 = s.2.1 ∧ (r = Ok tt ∨ cancelled r).
Proof using Hcallback.
  unfold _publish_health, mbind, M_bind, self, modifyM, notify. destruct on_health_change as [f|] eqn:Ef; simpl.
  - destruct (f h s.2.2) as [[[]|e] x] eqn:E; intros [= <- <-]; split_and!; try done; [by left|right]. exists e. eauto.
  - intros [= <- <-]. split_and!; try done. by left.
Qed.

Lemma lost_exception e : isinstance e _LOST = true → isinstance e [Exception] = true.
Proof. destruct e as [c m k]. destruct c; vm_compute; done. Qed.

(** Every way [_acquire_and_register] can end: with the new lease published, or with an
    error that left the manager alone. *)
Lemma acquire_spec (s : st) r s' : 0 < ttl_seconds s.1 → _acquire_and_register client on_health_change s = (r, s') →
  (∃ l, s'.1 = set_health (good_health l) (set_lease (Some l) s.1) ∧ (r = Ok tt ∨ cancelled r)) ∨
  (s'.1 = s.1 ∧ ∃ e, r = Err e ∧ (isinstance e _LOST = true ∨ isinstance e [Exception] = false)).
Proof using Hcallback LeaseClient0.
  intros Ht E. destruct s as [m [c x]]. unfold _acquire_and_register in E. unfold mbind at 1, M_bind at 1, self at 1, getM in E.
  cbn [fst snd] in *. destruct (_member m) as [member|]; [|injection E as <- <-; right; split; [done|]; eexists; by split; [|left]].
  unfold mbind at 1, M_bind at 1, on_client at 1 in E. cbn [fst snd] in E.
  destruct (grant_lease client (ttl_seconds m) c) as [[l|e] c1] eqn:Eg.
  2: { injection E as <- <-. right. split; [done|]. exists e. split; [done|]. by eapply grant_fails. }
  unfold mbind at 1, M_bind at 1, on_client at 1 in E. cbn [fst snd] in E.
  destruct (register_member client member l c1) as [[[]|e] c2] eqn:Er.
  2: { injection E as <- <-. right. split; [done|]. exists e. split; [done|]. by eapply register_fails. }
  unfold mbind at 1, M_bind at 1, self at 1, modifyM at 1 in E. cbn [fst snd] in E.
  apply publish_spec in E as (E1 & _ & Hr). left. exists l. by split.
Qed.

Lemma renew_spec (s : st) r s' : 0 < ttl_seconds s.1 → truthful s.1 → renew client on_health_change s = (r, s') →
  truthful s'.1 ∧ ttl_seconds s'.1 = ttl_seconds s.1 ∧ (r = Ok tt ∨ cancelled r).
Proof using Hcallback LeaseClient0.
  intros Ht Htr E. unfold renew, catchM in E.
  set (body := (self getM ≫= _) : M st unit) in E. destruct (body s) as [y s1] eqn:Eb.
  assert ((truthful s1.1 ∧ ttl_seconds s1.1 = ttl_seconds s.1 ∧ (y = Ok tt ∨ cancelled y)) ∨
          (s1.1 = s.1 ∧ ∃ e, y = Err e ∧ isinstance e _LOST = true)) as Hb.
  { destruct s as [m [c x]]. subst body. unfold mbind at 1, M_bind at 1, self at 1, getM in Eb. cbn [fst snd] in *.
    destruct (_lease m) as [l|] eqn:El.
    - unfold mbind at 1, M_bind at 1, on_client at 1 in Eb. cbn [fst snd] in Eb.
      destruct (refresh_lease client l c) as [[[]|e] c1] eqn:Er.
      + apply publish_spec in Eb as (E1 & _ & Hr). left. rewrite E1. unfold truthful. simpl. rewrite El. by split_and!.
      + injection Eb as <- <-. destruct (refresh_fails _ _ _ _ Er) as [He|He]; [right; eauto|].
        left. split_and!; [done..|]. right. by exists e.
    - apply acquire_spec in Eb as [(l & E1 & Hr)|(E1 & e & -> & [He|He])]; cbn [fst] in *.
      + left. rewrite E1. by split_and!.
      + right. eauto.
      + left. rewrite E1. split_and!; [done..|]. right. by exists e.
      + done. }
  destruct y as [[]|e].
  - injection E as <- <-. destruct Hb as [(? & ? & _)|(_ & e & ? & _)]; [|done]. split_and!; [done..|]. by left.
  - destruct (isinstance e _LOST) eqn:He.
    + assert (s1.1 = s.1) as E1.
      { destruct Hb as [(_ & _ & [|(e' & [= <-] & Hx)])|[? _]]; [done| |done]. apply lost_exception in He. congruence. }
      unfold mbind, M_bind, self at 1, modifyM in E. cbn [fst snd] in E. apply publish_spec in E as (E2 & _ & Hr).
      rewrite E2. cbn [fst]. rewrite E1. split_and!; done.
    + injection E as <- <-. destruct Hb as [?|(_ & e' & [= <-] & ?)]; [done|congruence].
Qed.

(** C18: the renewal loop outlives every failure of the coordination service and never
    misreports: for any number of iterations, whatever the client's calls return or
    raise (within the interface), the loop only ends by cancellation, and the published
    health says that coordination is healthy exactly when a lease is held, naming that
    lease. *)
Theorem lease_loop_truthful n (s : st) r s' : 0 < ttl_seconds s.1 → truthful s.1 →
  _loop client on_health_change n s = (r, s') → truthful s'.1 ∧ (r = Ok tt ∨ cancelled r).
Proof using Hcallback LeaseClient0.
  revert s. induction n as [|n IH]; intros s Ht Htr E; simpl in E.
  { injection E as <- <-. split; [done|]. by left. }
  unfold mbind, M_bind in E. destruct (renew client on_health_change s) as [[[]|e] s1] eqn:Er;
    destruct (renew_spec _ _ _ Ht Htr Er) as (H1 & H2 & H3).
  - apply (IH s1); [by rewrite H2|done|done].
  - injection E as <- <-. split; [done|]. destruct H3 as [|(e' & [= <-] & ?)]; [done|]. right. by exists e.
Qed.
End spec.
End LeaseSpec.

(** ** The etcd client under the lease and the discovery *)
Module EtcdCoordination.
Import EtcdGatewayCoordinationClient Registry.
Section etcd.
Context {W Cl Raw : Type} (etcd : Etcd W Cl Raw) `{!EtcdLaws etcd} (repr : json → string).
Abbreviation cst := (@t Cl Raw * W)%type.

(** The errors the lease calls raise. *)
Definition expected (e : exn) : Prop := isinstance e LeaseManager._LOST = true ∨ isinstance e [Exception] = false.

Definition raises {S A} (P : exn → Prop) (m : M S A) : Prop := ∀ s e s', m s = (Err e, s') → P e.

Lemma raises_bind {S A B} P (m : M S A) (f : A → M S B) : raises P m → (∀ a, raises P (f a)) → raises P (m ≫= f).
Proof.
  intros Hm Hf s e s'. unfold mbind, M_bind. destruct (m s) as [[a|x] s1] eqn:E; [apply Hf|].
  intros [= <- <-]. by eapply Hm.
Qed.

Lemma raises_guarded {A} text (m : M cst A) : raises expected (guarded text m).
Proof.
  intros s e s'. unfold guarded, catchM. destruct (m s) as [[a|x] s1]; [done|].
  destruct (isinstance x [Exception]) eqn:Ex; intros [= <- <-]; [by left|by right].
Qed.

Lemma raises_require : raises expected (@_require_client W Cl Raw).
Proof. intros [c w] e s'. unfold _require_client, on_self, mbind, M_bind. simpl. destruct (_client c); [done|]. intros [= <- <-]. by left. Qed.

Lemma raises_known h : raises expected (@known_lease W Cl Raw h).
Proof. intros [c w] e s'. unfold known_lease, on_self, mbind, M_bind. simpl. destruct (_leases c !! _); [done|]. intros [= <- <-]. by left. Qed.

Lemma raises_self {A} P (m : M (@t Cl Raw) A) : raises P m → raises P (on_self (W:=W) m).
Proof. intros Hm [c w] e s'. unfold on_self. simpl. destruct (m c) as [r x] eqn:E. intros [= -> <-]. by eapply Hm. Qed.

Lemma grant_lease_positive ttl (s : cst) : 0 < ttl →
  ∀ e s', grant_lease etcd ttl s = (Err e, s') → expected e.
Proof using EtcdLaws0.
  intros Ht e s' E. unfold grant_lease in E. rewrite (proj2 (Z.leb_gt _ _)) in E by lia.
  destruct (_require_client s) as [[c|x] s1] eqn:Er; unfold mbind at 1, M_bind at 1 in E; rewrite Er in E.
  2: { injection E as <- <-. by eapply raises_require. }
  destruct (guarded "failed to grant etcd lease" (library (lease etcd c ttl)) s1) as [[raw|x] s2] eqn:Eg;
    unfold mbind at 1, M_bind at 1 in E; rewrite Eg in E.
  2: { injection E as <- <-. by eapply raises_guarded. }
  apply guarded_inv, library_inv in Eg as [_ Eg]. apply lease_pairs in Eg as [Hid _].
  unfold mbind at 1, M_bind at 1, liftM, LeaseHandle.make in E. rewrite !(proj2 (Z.leb_gt _ _)) in E by lia. done.
Qed.

(** The client keeps the lease manager's interface. *)
#[export] Instance etcd_lease_client : LeaseClient (client etcd repr).
Proof using EtcdLaws0.
  split.
  - intros ttl s e s' Ht E. by eapply grant_lease_positive.
  - intros l. apply raises_bind; [apply raises_known|]. intros raw. apply raises_bind; [apply raises_guarded|].
    intros [ttl|] s e s'; [|done]. destruct (ttl <=? 0); [|done]. intros [= <- <-]. by left.
  - intros m l. apply raises_bind; [apply raises_require|]. intros c. apply raises_bind; [apply raises_known|].
    intros raw. apply raises_bind; [by apply raises_self|]. intros x. apply raises_guarded.
Qed.

Lemma grant_spec ttl (s s' : cst) h : grant_lease etcd ttl s = (Ok h, s') →
  namespace s'.1 = namespace s.1 ∧ pairs s'.2 = pairs s.2.
Proof.
  unfold grant_lease. destruct (ttl <=? 0); [done|].
  intros (c & s1 & ->%require_inv & (raw & s2 & E%guarded_inv%library_inv & (h' & s3 & [_ ->]%lift_inv & E')%bind_inv)%bind_inv)%bind_inv.
  destruct E as [E1 E2]. apply lease_pairs in E2 as [_ Hp]. injection E' as <- <-. simpl. by rewrite E1.
Qed.

Lemma try_endpoints_spec l (s : cst) r s' : try_endpoints etcd l s = (r, s') →
  namespace s'.1 = namespace s.1 ∧ pairs s'.2 = pairs s.2.
Proof.
  revert s. induction l as [|x l IH]; intros [c w] E; simpl in E; [by injection E as _ <-|].
  unfold mbind at 1, M_bind at 1, liftM in E. destruct (factory etcd x) as [cl|e]; [|by injection E as _ <-].
  unfold mbind at 1, M_bind at 1, catchM, mbind at 1, M_bind at 1, library in E. cbn [fst snd] in E.
  destruct (status etcd cl w) as [[u|e] w1] eqn:Es; pose proof (status_pairs _ _ _ _ Es) as Hp.
  - by injection E as _ <-.
  - destruct (isinstance e [Exception]); [|by injection E as _ <-]. apply IH in E as [E1 E2]. simpl in *. by rewrite E2.
Qed.

(** *** A node that bootstraps *)
Section bootstrap.
Context {H : Type} (on_health_change : option (CoordinationHealth → M H unit)).
Abbreviation st := (CoordinationService.t * (cst * H))%type.
Abbreviation etcd_client := (client etcd repr).

Lemma on_client_inv {A} (m : M cst A) (s : st) a s' : CoordinationService.on_client m s = (Ok a, s') →
  s'.1 = s.1 ∧ m s.2.1 = (Ok a, s'.2.1).
Proof. unfold CoordinationService.on_client. destruct (m s.2.1) as [r c]. by intros [= -> <-]. Qed.

Lemma publish_client h (s : LeaseManager.t * (cst * H)) r s' :
  LeaseManager._publish_health on_health_change h s = (r, s') →
  s'.1 = LeaseManager.set_health h s.1 ∧ s'.2.1 = s.2.1.
Proof.
  unfold LeaseManager._publish_health, mbind, M_bind, LeaseManager.self, modifyM, LeaseManager.notify.
  destruct on_health_change as [f|]; simpl; [destruct (f h s.2.2)|]; by intros [= _ <-].
Qed.

(** Acquiring a lease writes the member into the registry. *)
Lemma acquire_registers ms member (s : LeaseManager.t * (cst * H)) u s' :
  clean (namespace s.2.1.1) → registry etcd (namespace s.2.1.1) s.2.1.2 ms →
  CoordinationMember.valid member → CoordinationMember.ascii_text member → LeaseManager._member s.1 = Some member →
  LeaseManager._acquire_and_register etcd_client on_health_change s = (Ok u, s') →
  namespace s'.2.1.1 = namespace s.2.1.1 ∧ healthy (LeaseManager.health s'.1) = true ∧
  LeaseManager._lease s'.1 ≠ None ∧
  registry etcd (namespace s.2.1.1) s'.2.1.2 (<[CoordinationMember.node_id member := member]> ms).
Proof.
  intros Hc Hr Hv Ha Hm E. destruct s as [m [[c w] x]]. cbn [fst snd] in *.
  unfold LeaseManager._acquire_and_register in E.
  unfold mbind at 1, M_bind at 1, LeaseManager.self at 1, getM in E. cbn [fst snd] in E. rewrite Hm in E.
  apply bind_inv in E as (l & s1 & E1 & E). unfold LeaseManager.on_client in E1. cbn [fst snd] in E1.
  destruct (Coordination.grant_lease etcd_client (LeaseManager.ttl_seconds m) (c, w)) as [y s1'] eqn:Eg.
  injection E1 as -> <-. apply grant_spec in Eg as [Hn1 Hp1]. cbn [fst snd] in *.
  apply bind_inv in E as (u2 & s2 & E2 & E). unfold LeaseManager.on_client in E2. cbn [fst snd] in E2.
  destruct (Coordination.register_member etcd_client member l s1') as [y s2'] eqn:Er.
  injection E2 as -> <-. destruct (register_pairs etcd member l s1' s2' u2) as [Hn2 Hp2]; [by rewrite Hn1|exact Er|].
  apply bind_inv in E as (u3 & s3 & E3 & E). injection E3 as <- <-. apply publish_client in E as [E4 E5].
  cbn [fst snd] in *. rewrite E4, E5, Hn2, Hn1. split_and!; [done..|].
  apply (registry_insert etcd _ s1'.2); [done|done|by rewrite Hp2, Hn1|]. by eapply registry_pairs.
Qed.

(** The seeds for the members of [ms] other than [n]. *)
Definition seeds_for (n : string) (ms : gmap string CoordinationMember.t) : list SeedAddress.t :=
  (λ m, SeedAddress.mk (CoordinationMember.host m) (CoordinationMember.port m) (Some (CoordinationMember.node_id m))) <$>
  filter (λ m, CoordinationMember.node_id m ≠ n) (sorted_items ms).*2.

Lemma seeds_spec ns w n ms : registry etcd ns w ms →
  mapM_result DiscoveryService.seed_of (filter (λ m, CoordinationMember.node_id m ≠ n)
    (merge_sort by_node_id (sorted_items ms).*2)) = Ok (seeds_for n ms).
Proof.
  intros Hr. rewrite (sorted_members etcd ns w ms _ Hr) by by rewrite sorted_items_Permutation.
  unfold seeds_for. apply mapM_result_Ok. intros m [_ Hm]%list_elem_of_filter.
  apply list_elem_of_fmap in Hm as ([k m'] & -> & Hm%elem_of_sorted_items). destruct Hr as [Hr _].
  destruct (Hr k m' Hm) as (_ & (_ & _ & Hh & Hp & _) & _). unfold DiscoveryService.seed_of, SeedAddress.make, nonempty. simpl.
  rewrite bool_decide_eq_false_2 by done. simpl.
  by rewrite (proj2 (Z.leb_le _ _) (proj1 Hp)), (proj2 (Z.leb_le _ _) (proj2 Hp)).
Qed.

End bootstrap.
End etcd.
End EtcdCoordination.

(** ** An etcd cluster that is down now and then *)
Module CoordinationSample.
Import EtcdGatewayCoordinationClient.

(** Which of the next calls reach the cluster, and its keys. *)
Definition W : Type := list bool * gmap string string.

Definition reaching {A} (f : gmap string string → A * gmap string string) : M W A := λ w,
  match w with
  | (false :: up, d) => (raise ConnectionError "unreachable", (up, d))
  | (up, d) => match f d with (a, d) => (Ok a, (tail up, d)) end
  end.

Definition etcd : Etcd W unit Z := {|
  factory _ := Ok tt;
  status _ := reaching (λ d, (tt, d));
  lease _ _ := reaching (λ d, (7, d));
  raw_id raw := raw;
  refresh _ := reaching (λ d, (Some 15, d));
  put _ k v _ := reaching (λ d, (tt, <[k := v]> d));
  get_prefix _ p := reaching (λ d, ((map_to_list (filter (λ kv, String.prefix p kv.1 = true) d)).*2, d));
|}.

#[local] Instance etcd_laws : EtcdLaws etcd.
Proof.
  refine {| pairs := snd |}; unfold etcd; simpl; unfold reaching.
  all: intros; destruct w as [[|[] up] d]; simpl in *; simplify_eq; done.
Defined.

Definition n1 : CoordinationMember.t := CoordinationMember.mk "n1" "u1" "10.0.0.1" 7001 1 5 "0.6.0" false.
Definition n2 : CoordinationMember.t := CoordinationMember.mk "n2" "u2" "10.0.0.2" 7002 1 5 "0.6.0" false.

Definition cluster : gmap string string := {["/ds/members/n1" := CoordinationMember.to_json n1]}.
Definition manager : LeaseManager.t := LeaseManager.mk 15 5000 None None false (Health false false None "not started").
Definition service : CoordinationService.t := CoordinationService.mk manager false.
Definition start : CoordinationService.t * (@t unit Z * W * unit) :=
  (service, (mk ["http://etcd:2379"] "/ds" None ∅ None, ([], cluster), tt)).
Definition booted := CoordinationService.bootstrap (client etcd dumps) None n2 start.

Lemma plain_member m : bool_decide (CoordinationMember.valid m ∧ CoordinationMember.ascii_text m) = true →
  CoordinationMember.valid m ∧ CoordinationMember.ascii_text m.
Proof. apply bool_decide_eq_true. Qed.

Lemma cluster_registry : Registry.registry etcd "/ds" ([], cluster) {["n1" := n1]}.
Proof.
  split.
  - apply map_Forall_singleton. split; [done|]. apply plain_member. vm_compute. reflexivity.
  - intros n. change (pairs ([], cluster)) with cluster. unfold cluster.
    destruct (decide (n = "n1")) as [->|Hn]; [done|]. rewrite !lookup_singleton_ne; [done|done|].
    change "/ds/members/n1"%string with (members_prefix "/ds" +:+ "n1")%string. by intros <-%str_app_inj.
Qed.


(** The renewal fails, the first new lease cannot be registered, the second can. *)
Definition renewing : LeaseManager.t * (@t unit Z * W * unit) :=
  (LeaseManager.mk 15 5000 (Some n2) (Some (LeaseHandle.mk 7 15)) true (LeaseManager.good_health (LeaseHandle.mk 7 15)),
   (mk ["http://etcd:2379"] "/ds" (Some tt) {[7 := 7]} (Some "http://etcd:2379"), ([false; true; false], cluster), tt)).
Definition renewed (n : nat) := LeaseManager._loop (client etcd dumps) (H:=unit) None n renewing.

Lemma lease_loop_truthful_witness :
  healthy (LeaseManager.health (renewed 1).2.1) = false ∧ healthy (LeaseManager.health (renewed 3).2.1) = true ∧
  LeaseSpec.truthful (renewed 3).2.1.
Proof.
  split_and!; [vm_compute; reflexivity|vm_compute; reflexivity|].
  refine (proj1 (LeaseSpec.lease_loop_truthful (client etcd dumps) None _ 3 renewing (renewed 3).1 (renewed 3).2 _ _ _)).
  - apply EtcdCoordination.etcd_lease_client, etcd_laws.
  - intros f h x e x' Hf. discriminate Hf.
  - simpl. lia.
  - reflexivity.
  - change (renewed 3 = ((renewed 3).1, (renewed 3).2)). by destruct (renewed 3).
Defined.
End CoordinationSample.
