(* ===== verification/Compute.v ===== *)
(** * Task execution: [distsys/compute/]

    The built-in tasks, their registration and classification, the worker pool and the
    executor behind the node.  The process pool and SHA-256 are parameters: what the
    pool does to a submission ([fate]) is an input, the digest a function.  Numbers of
    the tasks are integers; the floating-point arithmetic of [aggregate] is an argument
    of that task.  Times are in milliseconds. *)

From Stdlib Require Import QArith.
From S2P Require Import Prelude Json Resilience Proto Protocol Cluster CrdtCodec Node.

Local Open Scope Z_scope.

(** ** [compute/tasks.py] *)
Module Tasks.
Definition _MAX_HASH_ROUNDS : Z := 1000000.
Definition _MAX_NUMERIC_VALUES : Z := 100000.

Definition echo_task (payload : json) : result json := Ok payload.

Definition _require_mapping (payload : json) : result (list (string * json)) :=
  match payload with JObj data => Ok data | _ => raise TaskValidationError "payload must be a JSON object" end.

(** The integers of a list without anything else in it; a [bool] is not a number. *)
Definition numbers (values : list json) : option (list Z) :=
  mapM (λ v, match v with JInt z => Some z | _ => None end) values.

Definition _require_numeric_values (payload : json) (allow_empty : bool) : result (list Z) :=
  data ← _require_mapping payload;
  match py_get "values" data with
  | JList values =>
      if negb allow_empty && bool_decide (values = [])
      then raise TaskValidationError "values must be a non-empty list of numbers"
      else if _MAX_NUMERIC_VALUES <? Z.of_nat (length values)
      then raise TaskValidationError ("values cannot exceed " +:+ str_of_int _MAX_NUMERIC_VALUES +:+ " items")
      else
        match numbers values with
        | None => raise TaskValidationError "values must be a list of numbers"
        | Some values => Ok values
        end
  | _ => raise TaskValidationError "values must be a list of numbers"
  end.

(** [digest.hex()] *)
Fixpoint hex (s : string) : string :=
  match s with
  | EmptyString => EmptyString
  | String a s =>
      String (hex_digit (Ascii.N_of_ascii a / 16)) (String (hex_digit (Ascii.N_of_ascii a mod 16)) (hex s))
  end.

Section tasks.
(** [hashlib.sha256(data).digest()], and what [aggregate] computes from its numbers. *)
Variables (sha256 : string → string) (float_stats : list Z → list (string * json)).

Definition hash_task (payload : json) : result json :=
  data ← _require_mapping payload;
  match py_get "data" data with
  | JStr raw =>
      match default (JInt 50000) (assoc "rounds" data) with
      | JInt rounds =>
          if (1 <=? rounds) && (rounds <=? _MAX_HASH_ROUNDS)
          then Ok (JObj [("algorithm", JStr "sha256"); ("digest", JStr (hex (Nat.iter (Z.to_nat rounds) sha256 raw)));
                         ("rounds", JInt rounds)])
          else raise TaskValidationError ("rounds must be an integer between 1 and " +:+ str_of_int _MAX_HASH_ROUNDS)
      | _ => raise TaskValidationError ("rounds must be an integer between 1 and " +:+ str_of_int _MAX_HASH_ROUNDS)
      end
  | _ => raise TaskValidationError "data must be a string"
  end.

Definition sort_task (payload : json) : result json :=
  values ← _require_numeric_values payload true;
  Ok (JObj [("values", JList (JInt <$> merge_sort Z.le values)); ("count", JInt (Z.of_nat (length values)))]).

(** The object has the number of values and what is computed of them: [sum], [min],
    [max] and [mean]. *)
Definition aggregate_task (payload : json) : result json :=
  values ← _require_numeric_values payload false;
  Ok (JObj (("count", JInt (Z.of_nat (length values))) :: float_stats values)).

Definition make_whoami_task (node_id : string) : result (json → result json) :=
  if negb (nonempty node_id) then raise ValueError "node_id is required"
  else Ok (λ payload, _ ← _require_mapping payload; Ok (JObj [("node_id", JStr node_id)])).
End tasks.

(** Validation is complete: a list of numbers within the limit is accepted, anything
    else is refused with [TaskValidationError]. *)
Lemma numeric_values_spec payload allow_empty :
  match _require_numeric_values payload allow_empty with
  | Ok values => ∃ data, payload = JObj data ∧ py_get "values" data = JList (JInt <$> values) ∧
      Z.of_nat (length values) ≤ _MAX_NUMERIC_VALUES ∧ (allow_empty = false → values ≠ [])
  | Err e => exn_cls e = TaskValidationError ∧ exn_code e = 0 ∧
      ¬ ∃ data values, payload = JObj data ∧ py_get "values" data = JList (JInt <$> values) ∧
          Z.of_nat (length values) ≤ _MAX_NUMERIC_VALUES ∧ (allow_empty = false → values ≠ [])
  end.
Proof.
  assert (∀ zs, numbers (JInt <$> zs) = Some zs) as Hback.
  { intros zs. unfold numbers. induction zs as [|z zs IH]; [done|]. rewrite fmap_cons. simpl. by rewrite IH. }
  assert (∀ l zs, numbers l = Some zs → l = JInt <$> zs) as Hnum.
  { intros l zs Hm%mapM_Some. induction Hm as [|v z l zs Hv Hm IH]; [done|]. destruct v; try done. injection Hv as ->.
    by rewrite fmap_cons, <-IH. }
  unfold _require_numeric_values, _require_mapping.
  destruct payload as [| | | | |data]; simpl; try (split_and!; [done..|]; by intros (? & ? & ? & _)).
  destruct (py_get "values" data) as [| | | |l|] eqn:Eg;
    try (split_and!; [done..|]; intros (d & zs & [= <-] & Ed & _); congruence).
  destruct (negb allow_empty && bool_decide (l = [])) eqn:Ee.
  { boolify. subst. split_and!; [done..|]. intros (d & zs & [= <-] & Ed & _ & Hne). rewrite Eg in Ed.
    injection Ed as Ed. destruct zs; [|done]. by apply Hne. }
  destruct (_MAX_NUMERIC_VALUES <? Z.of_nat (length l)) eqn:El; boolify.
  { split_and!; [done..|]. intros (d & zs & [= <-] & Ed & Hle & _). rewrite Eg in Ed. injection Ed as ->.
    rewrite length_fmap in El. lia. }
  destruct (numbers l) as [zs|] eqn:En.
  - apply Hnum in En as ->. exists data. rewrite length_fmap in El. split_and!; [done..|].
    intros ->. apply andb_false_iff in Ee as [|Ee]; [done|]. apply bool_decide_eq_false in Ee. intros ->. by apply Ee.
  - split_and!; [done..|]. intros (d & zs & [= <-] & Ed & _). rewrite Eg in Ed. injection Ed as ->. by rewrite Hback in En.
Qed.

(** The task [sort] returns the given numbers in ascending order, with their count, and
    refuses everything that is not a list of at most 100,000 numbers. *)
Lemma sort_task_spec payload :
  match sort_task payload with
  | Ok r => ∃ data values sorted, payload = JObj data ∧ py_get "values" data = JList (JInt <$> values) ∧
      r = JObj [("values", JList (JInt <$> sorted)); ("count", JInt (Z.of_nat (length values)))] ∧
      sorted ≡ₚ values ∧ StronglySorted Z.le sorted
  | Err e => exn_cls e = TaskValidationError
  end.
Proof.
  unfold sort_task. pose proof (numeric_values_spec payload true) as H.
  destruct (_require_numeric_values payload true) as [values|e]; simpl; [|by destruct H].
  destruct H as (data & -> & Ed & _). exists data, values, (merge_sort Z.le values). split_and!; [done..| |].
  - apply merge_sort_Permutation.
  - apply StronglySorted_merge_sort; [apply _|]. intros x y. lia.
Qed.
End Tasks.

(** ** [compute/classification.py] *)
Inductive ExecutionClass := ASYNC | CPU.

Module TaskClassifier.
Definition t : Type := gmap string ExecutionClass.

Definition register (task_name : string) (c : ExecutionClass) (self : t) : result t :=
  if negb (nonempty task_name) then raise ValueError "task name cannot be empty" else Ok (<[task_name := c]> self).

Definition classify (task_name : string) (self : t) : ExecutionClass := default ASYNC (self !! task_name).

Definition default_classifier : result t :=
  c ← register "echo" ASYNC ∅;
  c ← register "cluster.whoami" ASYNC c;
  c ← register "hash" CPU c;
  c ← register "sort" CPU c;
  register "aggregate" CPU c.
End TaskClassifier.

(** ** [compute/router.py]: a handler returns its result or raises. *)
Definition handler : Type := json → result json.

Module TaskRouter.
Definition t : Type := gmap string handler.

Definition register (name : string) (h : handler) (self : t) : result t :=
  if negb (nonempty name) then raise ValueError "task name cannot be empty"
  else match self !! name with
       | Some _ => raise ValueError ("task already registered: " +:+ name)
       | None => Ok (<[name := h]> self)
       end.

Definition resolve (name : string) (self : t) : result handler :=
  match self !! name with Some h => Ok h | None => raise UnknownTaskError name end.

Definition dispatch (name : string) (payload : json) (self : t) : result json :=
  h ← resolve name self; h payload.
End TaskRouter.

(** [DistributedNode._default_router] *)
Definition _default_router (sha256 : string → string) (float_stats : list Z → list (string * json)) (node_id : string)
    : result TaskRouter.t :=
  r ← TaskRouter.register "echo" Tasks.echo_task ∅;
  r ← TaskRouter.register "hash" (Tasks.hash_task sha256) r;
  r ← TaskRouter.register "sort" Tasks.sort_task r;
  r ← TaskRouter.register "aggregate" (Tasks.aggregate_task float_stats) r;
  whoami ← Tasks.make_whoami_task node_id;
  TaskRouter.register "cluster.whoami" whoami r.

(** ** [compute/worker_pool.py] *)
Module _PendingLimiter.
Record t := mk { capacity : Z; _in_flight : Z }.

Definition try_acquire : M t bool :=
  self ← getM;
  if capacity self <=? _in_flight self then mret false
  else _ ← putM (mk (capacity self) (_in_flight self + 1)); mret true.

Definition release (self : t) : t :=
  if _in_flight self <=? 0 then self else mk (capacity self) (_in_flight self - 1).
End _PendingLimiter.

(** What the process pool does to a submission: [submit] raises [BrokenProcessPool] or
    something else, or the call is done after some time, by returning or raising what
    the function does or because the pool broke. *)
Inductive fate := Broken | Refused (c : exn_class) (msg : string) | Finishes (after : nat) | Breaks (after : nat).

Module WorkerPool.
Record t := mk {
  max_workers : Z;
  max_pending : Z;
  _executor : bool;
  _closed : bool;
  _pending : _PendingLimiter.t;
}.

Definition init (max_workers max_pending : Z) : result t :=
  if max_workers <? 1 then raise ValueError "max_workers must be at least 1"
  else if max_pending <? 1 then raise ValueError "max_pending must be at least 1"
  else Ok (mk max_workers max_pending false false (_PendingLimiter.mk max_pending 0)).

Definition started (self : t) : bool := _executor self && negb (_closed self).
Definition pending_count (self : t) : Z := _PendingLimiter._in_flight (_pending self).

Definition set_executor (b : bool) (self : t) : t := mk (max_workers self) (max_pending self) b (_closed self) (_pending self).
Definition set_pending (p : _PendingLimiter.t) (self : t) : t :=
  mk (max_workers self) (max_pending self) (_executor self) (_closed self) p.

Definition start : M t unit :=
  self ← getM;
  if _closed self then raiseM WorkerPoolClosedError "worker pool is closed"
  else if _executor self then mret tt else putM (set_executor true self).

(** [self._pending.release()], which the done callback of a submission calls too. *)
Definition release (self : t) : t := set_pending (_PendingLimiter.release (_pending self)) self.

Definition acquire : M t bool := λ self,
  match _PendingLimiter.try_acquire (_pending self) with (r, p) => (r, set_pending p self) end.

(** [execute] up to its [await]: what is then awaited. *)
Definition execute (fn : handler) (arg : json) (f : fate) : M t (Deadline.awaitable json) :=
  self ← getM;
  if _closed self then raiseM WorkerPoolClosedError "worker pool is closed"
  else
    _ ← (if _executor self then mret tt else start);
    acquired ← acquire;
    if negb acquired then raiseM WorkerPoolSaturatedError "worker pool pending capacity is full"
    else
      match f with
      | Broken => _ ← modifyM release; raiseM WorkerPoolBrokenError "worker pool is broken"
      | Refused c msg =>
          if isinstance (Exn c msg 0) [Exception] then _ ← modifyM release; raiseM c msg else raiseM c msg
      | Finishes after => mret (Deadline.Awaitable (Z.of_nat after) (fn arg))
      | Breaks after => mret (Deadline.Awaitable (Z.of_nat after) (raise WorkerPoolBrokenError "worker pool is broken"))
      end.

(** [close] up to [executor.shutdown]. *)
Definition close (self : t) : t :=
  if _closed self then self else mk (max_workers self) (max_pending self) false true (_pending self).
End WorkerPool.

(** ** The executor and its pool over time

    [due] are the times at which the submissions that are not done yet will be done;
    the done callback of each runs then, whether or not somebody still waits for it.
    [fates] says what happens to the next submissions; once it is used up they finish
    at once. *)
Record world := World { now : Z; pool : WorkerPool.t; due : list Z; fates : list fate }.

Definition release_all (n : nat) (p : WorkerPool.t) : WorkerPool.t := Nat.iter n WorkerPool.release p.

(** The clock reads [t], and the callbacks due by then have run. *)
Definition advance (t : Z) (w : world) : world :=
  World t (release_all (length (filter (λ d, d ≤ t) (due w))) (pool w)) (filter (λ d, ¬ d ≤ t) (due w)) (fates w).

Module TaskExecutor.
Section executor.
Context (router : TaskRouter.t) (classifier : TaskClassifier.t).

(** [await deadline.run(a)] *)
Definition run_within (deadline : Deadline.t) (a : Deadline.awaitable json) : M world json := λ w,
  let '(r, finished) := Deadline.run deadline (now w) a in (r, advance finished w).

(** The pool's part of a CPU task. *)
Definition submit (h : handler) (payload : json) (w : world) : Deadline.awaitable json * world :=
  let f := default (Finishes 0) (head (fates w)) in
  match WorkerPool.execute h payload f (pool w) with
  | (Ok a, p) => (a, World (now w) p (due w ++ [now w + Deadline.takes a]) (tail (fates w)))
  | (Err e, p) => (Deadline.Awaitable 0 (Err e), World (now w) p (due w) (tail (fates w)))
  end.

(** [await deadline.run(self.worker_pool.execute(h, payload))]: an expired deadline closes
    the coroutine before it starts. *)
Definition run_cpu (h : handler) (payload : json) (deadline : Deadline.t) : M world json := λ w,
  if Deadline.remaining deadline (now w) <=? 0
  then (raise DeadlineExceeded "request deadline exceeded", w)
  else let '(a, w) := submit h payload w in run_within deadline a w.

Definition execute (task_name : string) (payload : json) (deadline : Deadline.t) : M world json :=
  match TaskClassifier.classify task_name classifier with
  | CPU => h ← liftM (TaskRouter.resolve task_name router); run_cpu h payload deadline
  | ASYNC => run_within deadline (Deadline.Awaitable 0 (TaskRouter.dispatch task_name payload router))
  end.

Definition start : M world unit := λ w,
  match WorkerPool.start (pool w) with (r, p) => (r, World (now w) p (due w) (fates w)) end.

(** [close] waits until every submission is done. *)
Definition close (w : world) : world :=
  let w' := World (now w) (WorkerPool.close (pool w)) (due w) (fates w) in
  if WorkerPool._closed (pool w) || negb (WorkerPool._executor (pool w)) then w'
  else advance (foldr Z.max (now w) (due w)) w'.
End executor.
End TaskExecutor.

(** ** The pool's slots *)
Module PoolSlots.
Import WorkerPool.

(** A slot is taken exactly by every submission that is not done. *)
Definition inv (mp : Z) (w : world) : Prop :=
  pending_count (pool w) = Z.of_nat (length (due w)) ∧ Z.of_nat (length (due w)) ≤ mp ∧
  _PendingLimiter.capacity (_pending (pool w)) = mp.

Lemma release_all_spec n p : (Z.of_nat n ≤ pending_count p) →
  release_all n p = set_pending (_PendingLimiter.mk (_PendingLimiter.capacity (_pending p)) (pending_count p - Z.of_nat n)) p.
Proof.
  unfold pending_count. intros Hn. induction n as [|n IH].
  - destruct p as [mw mp ex cl [cap k]]. simpl. unfold set_pending. simpl. do 2 f_equal. lia.
  - change (release_all (Datatypes.S n) p) with (release (release_all n p)). rewrite IH by lia.
    unfold release, set_pending, _PendingLimiter.release. simpl. rewrite (proj2 (Z.leb_gt _ _)) by lia. simpl. do 2 f_equal. lia.
Qed.

Lemma world_advance_inv mp t w : inv mp w → inv mp (advance t w).
Proof.
  intros (Hp & Hle & Hc). unfold inv, advance. simpl.
  assert (length (filter (λ d, d ≤ t)%Z (due w)) + length (filter (λ d, ¬ d ≤ t)%Z (due w)) = length (due w))%nat as Hl.
  { rewrite <-length_app. apply Permutation_length, filter_app_complement. }
  rewrite release_all_spec by (unfold pending_count in *; lia). unfold pending_count in *. simpl. rewrite Hp.
  split_and!; [lia|lia|done].
Qed.

(** [submit] raises nothing but [Exception]s. *)
Definition fate_ok (f : fate) : Prop := match f with Refused c msg => isinstance (Exn c msg 0) [Exception] = true | _ => True end.

(** Accepted, a submission takes one slot; refused, none. *)
Lemma execute_slots mp h x f w r p : inv mp w → fate_ok f → WorkerPool.execute h x f (pool w) = (r, p) →
  _PendingLimiter.capacity (_pending p) = mp ∧
  pending_count p = Z.of_nat (length (due w)) + (if is_ok r then 1 else 0) ∧ pending_count p ≤ mp.
Proof.
  intros (Hp & Hle & Hc). destruct w as [t [mw mp' ex cl [cap k]] l fs].
  unfold pending_count, WorkerPool.execute, start, acquire, _PendingLimiter.try_acquire, mbind, M_bind, getM, putM, modifyM,
    raiseM, failM, fate_ok in *. simpl in *. subst k cap. intros Hf.
  destruct cl; [intros [= <- <-]; simpl; split_and!; (done || lia)|].
  destruct ex; simpl; (destruct (mp <=? _) eqn:E; boolify; simpl; [intros [= <- <-]; simpl; split_and!; (done || lia)|]);
    (destruct f as [|c msg|n|n]; simpl; [|rewrite Hf; simpl|..]); intros [= <- <-];
    unfold release, _PendingLimiter.release; simpl; rewrite ?(proj2 (Z.leb_gt _ _)) by lia; simpl; split_and!; (done || lia).
Qed.

Definition good (mp : Z) (w : world) : Prop := inv mp w ∧ Forall fate_ok (fates w).

Lemma advance_good mp t w : good mp w → good mp (advance t w).
Proof. intros [Hi Hf]. split; [by apply world_advance_inv|done]. Qed.

Lemma submit_good mp h x w a w' : good mp w → TaskExecutor.submit h x w = (a, w') → good mp w'.
Proof.
  intros [Hi Hf] E. unfold TaskExecutor.submit in E. set (f := default _ _) in E.
  assert (fate_ok f) as Hok by (unfold f; destruct Hf; done).
  assert (Forall fate_ok (tail (fates w))) as Ht by by destruct Hf.
  destruct (WorkerPool.execute h x f (pool w)) as [r p] eqn:Ee.
  destruct (execute_slots mp _ _ _ _ _ _ Hi Hok Ee) as (Hc & Hn & Hle).
  destruct r as [y|e]; injection E as <- <-; (split; [|done]); unfold inv; cbn [pool due is_ok] in *; rewrite ?length_app; cbn [length];
    split_and!; (done || lia).
Qed.

(** What happens to the executor: requests with any deadline, time passing, its start
    and its end. *)
Inductive step : world → world → Prop :=
  | step_execute router classifier name payload deadline r w w' :
      TaskExecutor.execute router classifier name payload deadline w = (r, w') → step w w'
  | step_time t w : now w ≤ t → step w (advance t w)
  | step_start r w w' : TaskExecutor.start w = (r, w') → step w w'
  | step_close w : step w (TaskExecutor.close w).

Lemma step_good mp w w' : good mp w → step w w' → good mp w'.
Proof.
  intros Hg Hs. revert Hg. destruct Hs as [router classifier name payload deadline r v v' E|t v Ht|r v v' E|v]; intros Hg.
  - unfold TaskExecutor.execute in E. destruct (TaskClassifier.classify _ _).
    + unfold TaskExecutor.run_within in E. destruct (Deadline.run _ _ _) as [x t]. injection E as _ <-. by apply advance_good.
    + unfold mbind, M_bind, liftM in E. destruct (TaskRouter.resolve _ _) as [h|e]; [|by injection E as _ <-].
      unfold TaskExecutor.run_cpu in E. destruct (_ <=? 0); [by injection E as _ <-|].
      destruct (TaskExecutor.submit h payload v) as [a w1] eqn:Es. apply (submit_good mp) in Es; [|done].
      unfold TaskExecutor.run_within in E. destruct (Deadline.run _ _ _) as [x t]. injection E as _ <-. by apply advance_good.
  - by apply advance_good.
  - unfold TaskExecutor.start, WorkerPool.start, mbind, M_bind, getM, putM in E.
    destruct Hg as [(Hp & Hle & Hc) Hf]. destruct (_closed (pool v)); [by injection E as _ <-|].
    destruct (_executor (pool v)); by injection E as _ <-.
  - unfold TaskExecutor.close. assert (good mp (World (now v) (close (pool v)) (due v) (fates v))) as Hg'.
    { destruct Hg as [(Hp & Hle & Hc) Hf]. unfold close. by destruct (_closed (pool v)). }
    destruct (_ || _); [done|]. by apply advance_good.
Qed.

(** C17: slots of the worker pool never leak.  However requests with any tasks, payloads
    and deadlines, the passage of time, start and close are interleaved, and whatever
    the process pool does to each submission, the number of slots taken is the number
    of submissions not done yet and at most [max_pending], also when the requests that
    made them timed out long ago; an open pool accepts a task exactly when a slot is
    free, and once the submissions are done every slot is free again. *)
Theorem worker_slots_never_leak mw mp p t0 fs w : init mw mp = Ok p → Forall fate_ok fs →
  reachable step (World t0 p [] fs) w →
  pending_count (pool w) = Z.of_nat (length (due w)) ∧ Z.of_nat (length (due w)) ≤ mp ∧
  (∀ h x n, _closed (pool w) = false →
     is_ok (WorkerPool.execute h x (Finishes n) (pool w)).1 = (Z.of_nat (length (due w)) <? mp)) ∧
  (∀ t, Forall (λ d, d ≤ t) (due w) → pending_count (pool (advance t w)) = 0).
Proof.
  intros Hinit Hfs Hr. assert (good mp w) as [(Hp & Hle & Hc) _].
  { revert w Hr. apply reachable_invariant; [|intros; by eapply step_good]. split; [|done].
    unfold init in Hinit. destruct (mw <? 1); [done|]. destruct (mp <? 1) eqn:E; [done|]. boolify. injection Hinit as <-.
    unfold inv, pending_count. simpl. split_and!; (done || lia). }
  split_and!; [done..| |].
  - intros h x n Hcl. destruct w as [t [mw' mp' ex cl [cap k]] l fs']. unfold pending_count in *. simpl in *. subst.
    unfold WorkerPool.execute, start, acquire, _PendingLimiter.try_acquire, mbind, M_bind, getM, putM. simpl.
    destruct ex; simpl; (destruct (mp <=? _) eqn:E, (_ <? mp) eqn:E'; boolify; (done || lia)).
  - intros t Ht. unfold advance. simpl.
    assert (filter (λ d, d ≤ t) (due w) = due w) as -> by by apply list_filter_all.
    rewrite release_all_spec by lia. unfold pending_count. simpl. unfold pending_count in Hp. lia.
Qed.
End PoolSlots.

(** ** A node with an executor *)
Module ComputeNode.
Record server := Server {
  bp : BackpressureController.t; limiter : TokenBucketRateLimiter.t; executor : world }.

Section node.
Context (router : TaskRouter.t) (classifier : TaskClassifier.t) (settings : Settings).
Context `{!Wire pb.Envelope, !Wire pb.TaskRequest, !Wire pb.TaskResponse, !Wire pb.ForwardedTaskRequest,
  !Wire pb.CrdtResponse}.

Definition run_task (name : string) (payload : json) (deadline : Deadline.t) : M server json := λ s,
  match TaskExecutor.execute router classifier name payload deadline (executor s) with
  | (r, w) => (r, Server (bp s) (limiter s) w)
  end.

(** A node on its own.  All its clocks follow [now]; the performance counter stays within
    64 bits. *)
Definition parts : NodeParts server := {|
  execute := run_task;
  cluster_service := None;
  crdt_service := None;
  ready _ := true;
  stopping _ := false;
  backpressure_of := bp;
  set_backpressure c s := Server c (limiter s) (executor s);
  limiter_of := limiter;
  set_limiter c s := Server (bp s) c (executor s);
  monotonic_ms s := now (executor s);
  monotonic_s s := (now (executor s) # 1000)%Q;
  time_ms s := now (executor s);
  perf_ns s := Z.max 0 (Z.min (now (executor s) * 1000000) (2 ^ 64 - 1));
|}.

(** Handlers that return Python values and raise errors without a foreign code. *)
Definition proper_handler (h : handler) : Prop := ∀ payload, unique_keys payload → DistributedNode.proper (h payload).

Lemma run_proper deadline t (a : Deadline.awaitable json) : 0 ≤ Deadline.takes a →
  DistributedNode.proper (Deadline.outcome a) →
  t ≤ (Deadline.run deadline t a).2 ∧ DistributedNode.proper (Deadline.run deadline t a).1.
Proof.
  intros Ht Ha. unfold Deadline.run, Deadline.wait_for. destruct (_ <=? 0) eqn:E0; boolify; [simpl; by split; [lia|]|].
  destruct (Deadline.takes a <? _); [destruct (Deadline.outcome a) as [j|e]|]; simpl in *.
  - split; [lia|done].
  - destruct (isinstance e [TimeoutError]); simpl; (split; [lia|done]).
  - split; [lia|done].
Qed.

Lemma pool_execute_proper h x f p r p' : DistributedNode.proper (h x) →
  WorkerPool.execute h x f p = (r, p') →
  match r with
  | Ok a => 0 ≤ Deadline.takes a ∧ DistributedNode.proper (Deadline.outcome a)
  | Err e => enum32 (exn_code e) = true
  end.
Proof.
  intros Hh. unfold WorkerPool.execute, WorkerPool.start, WorkerPool.acquire, _PendingLimiter.try_acquire, mbind, M_bind,
    getM, putM, modifyM, raiseM, failM. destruct p as [mw mp ex cl [cap k]]. simpl.
  destruct cl; [by intros [= <- <-]|]. destruct ex; simpl; (destruct (cap <=? k); simpl; [by intros [= <- <-]|]);
    (destruct f as [|c msg|n|n]; simpl in *; [by intros [= <- <-]|by destruct (isinstance _ _); intros [= <- <-]|..];
     intros [= <- <-]; simpl; (split; [lia|done])).
Qed.

Lemma handler_proper name h payload : map_Forall (λ _, proper_handler) router → unique_keys payload →
  TaskRouter.resolve name router = Ok h → DistributedNode.proper (h payload).
Proof.
  intros Hr Hu. unfold TaskRouter.resolve. destruct (router !! name) as [x|] eqn:E; [|done]. intros [= <-]. by apply (Hr name).
Qed.

Lemma run_within_proper deadline a w r w' : 0 ≤ Deadline.takes a → DistributedNode.proper (Deadline.outcome a) →
  TaskExecutor.run_within deadline a w = (r, w') → now w ≤ now w' ∧ DistributedNode.proper r.
Proof.
  intros Ht Ha E. unfold TaskExecutor.run_within in E. pose proof (run_proper deadline (now w) a Ht Ha) as Hp.
  destruct (Deadline.run deadline (now w) a) as [x t]. by injection E as <- <-.
Qed.

(** The executor keeps what the node asks of it: time does not go back, and values and
    errors can be sent. *)
Lemma execute_proper name payload deadline w r w' : map_Forall (λ _, proper_handler) router → unique_keys payload →
  TaskExecutor.execute router classifier name payload deadline w = (r, w') →
  now w ≤ now w' ∧ DistributedNode.proper r.
Proof.
  intros Hr Hu E. unfold TaskExecutor.execute in E. destruct (TaskClassifier.classify _ _).
  - apply run_within_proper in E; [done|simpl; lia|]. simpl. unfold TaskRouter.dispatch.
    destruct (TaskRouter.resolve name router) as [h|e] eqn:Eh; [by eapply handler_proper|].
    unfold TaskRouter.resolve in Eh. destruct (router !! name); [done|]. by injection Eh as <-.
  - unfold mbind, M_bind, liftM in E. destruct (TaskRouter.resolve name router) as [h|e] eqn:Eh.
    2: { unfold TaskRouter.resolve in Eh. destruct (router !! name); [done|]. injection Eh as <-. injection E as <- <-. by split; [lia|]. }
    pose proof (handler_proper _ _ _ Hr Hu Eh) as Hh. unfold TaskExecutor.run_cpu in E.
    destruct (_ <=? 0); [injection E as <- <-; by split; [lia|]|]. unfold TaskExecutor.submit in E.
    destruct (WorkerPool.execute h payload _ (pool w)) as [x p] eqn:Ex. apply pool_execute_proper in Ex; [|done].
    destruct x as [a|e]; [destruct Ex as [Ha1 Ha2]|]; apply run_within_proper in E; done || (simpl; lia).
Qed.

Lemma compute_parts_ok : map_Forall (λ _, proper_handler) router → DistributedNode.parts_ok parts.
Proof.
  intros Hr. split; try done.
  - intros s. simpl. lia.
  - intros name payload deadline Hu s r s' _ E. simpl in E. unfold run_task in E.
    destruct (TaskExecutor.execute router classifier name payload deadline (executor s)) as [x w] eqn:Ex.
    injection E as <- <-. apply execute_proper in Ex as [Ht Hx]; [|done..]. simpl. split_and!; [lia|done|done].
  - intros []. done.
Qed.

(** *** A request for [sort] *)
#[local] Instance JInt_inj : Inj (=) (=) JInt.
Proof. by intros ?? [= ->]. Qed.

(** The executor runs a CPU task to its end when the deadline allows it. *)
Lemma cpu_task_runs name h payload deadline w n j :
  TaskRouter.resolve name router = Ok h → TaskClassifier.classify name classifier = CPU → h payload = Ok j →
  default (Finishes 0) (head (fates w)) = Finishes n → now w + Z.of_nat n < Deadline._expires_at deadline →
  WorkerPool._closed (pool w) = false →
  WorkerPool.pending_count (pool w) < _PendingLimiter.capacity (WorkerPool._pending (pool w)) →
  ∃ w', TaskExecutor.execute router classifier name payload deadline w = (Ok j, w') ∧ now w' = now w + Z.of_nat n.
Proof.
  intros Hh Hc Hj Hf Hd Hcl Hp. unfold TaskExecutor.execute. rewrite Hc. unfold mbind, M_bind, liftM. rewrite Hh.
  unfold TaskExecutor.run_cpu, Deadline.remaining. rewrite (proj2 (Z.leb_gt _ _)) by lia.
  unfold TaskExecutor.submit. rewrite Hf.
  destruct w as [t [mw mp ex cl [cap k]] l fs]. unfold WorkerPool.pending_count in Hp. cbn in Hp, Hd, Hcl. subst cl.
  assert (∃ p, WorkerPool.execute h payload (Finishes n) (WorkerPool.mk mw mp ex false (_PendingLimiter.mk cap k)) =
               (Ok (Deadline.Awaitable (Z.of_nat n) (Ok j)), p)) as [p Ep].
  { unfold WorkerPool.execute, WorkerPool.start, WorkerPool.acquire, _PendingLimiter.try_acquire, mbind, M_bind, getM, putM.
    simpl. destruct ex; simpl; rewrite (proj2 (Z.leb_gt _ _)) by lia; simpl; rewrite Hj; eauto. }
  cbn [pool]. rewrite Ep. unfold TaskExecutor.run_within, Deadline.run, Deadline.wait_for, Deadline.remaining.
  cbn [now Deadline.takes Deadline.outcome]. rewrite (proj2 (Z.leb_gt _ _)) by lia. rewrite (proj2 (Z.ltb_lt _ _)) by lia.
  eexists. split; [done|]. done.
Qed.

(** A local task whose execution returns [j] is answered with [j]. *)
Lemma local_request_succeeds message q (s : server) lim w' j reply s' :
  Message.msg_type message = REQUEST → decode_task_request (Message.payload message) = Ok q →
  TokenBucketRateLimiter.allow (now (executor s) # 1000)%Q 1 (limiter s) = (Ok true, lim) →
  0 ≤ BackpressureController._in_flight (bp s) < BackpressureController.capacity (bp s) → 0 < request_timeout_ms settings →
  TaskExecutor.execute router classifier (task_name q) (request_payload q)
    (Deadline.mk (now (executor s) + request_timeout_ms settings)) (executor s) = (Ok j, w') →
  DistributedNode._response parts settings message true j 0 ""
    (DistributedNode.elapsed parts (perf_ns parts s) (Server (bp s) lim w')) (Server (bp s) lim w') = (Ok reply, s') →
  DistributedNode.handle_message parts settings message s = (Ok reply, s').
Proof.
  intros Hty Hdec Hlim Hbp Ht Ew Er. destruct s as [[cap k] lm w].
  cbn [executor bp limiter BackpressureController._in_flight BackpressureController.capacity] in *.
  unfold DistributedNode.handle_message. rewrite Hty. unfold mbind at 1, M_bind at 1, gets at 1.
  change (bool_decide (REQUEST ∈ _CONTROL_TYPES)) with false. change (bool_decide (REQUEST ∈ _CRDT_TYPES)) with false. cbv iota.
  unfold DistributedNode.run_request. rewrite Hdec. unfold DistributedNode.attempt, mbind at 1, M_bind at 1, gets at 1.
  unfold mbind at 1, M_bind at 1, DistributedNode.on_limiter. cbn [limiter_of parts monotonic_s executor limiter]. rewrite Hlim.
  cbn [negb set_limiter parts bp executor]. unfold mbind at 1, M_bind at 1, gets at 1. cbn [monotonic_ms parts executor].
  unfold mbind at 1, M_bind at 1, liftM at 1. unfold Deadline.after. rewrite (proj2 (Z.leb_gt _ _)) by lia.
  cbn [cluster_service parts]. unfold DistributedNode.succeed, mbind at 1, M_bind at 1.
  unfold DistributedNode._execute_local, mbind at 1, M_bind at 1, DistributedNode.on_backpressure at 1.
  cbn [backpressure_of parts bp]. unfold BackpressureController.try_acquire, mbind at 1, M_bind at 1, getM at 1.
  cbn [BackpressureController.capacity BackpressureController._in_flight]. rewrite (proj2 (Z.leb_gt _ _)) by lia.
  unfold mbind at 1, M_bind at 1, putM at 1, mret at 1, M_ret at 1. cbn [negb set_backpressure parts limiter executor].
  unfold DistributedNode.finally, catchM. cbn [execute parts]. unfold run_task at 1. cbn [executor bp limiter]. rewrite Ew.
  unfold DistributedNode.on_backpressure, BackpressureController.release, mbind at 1, M_bind at 1, getM at 1.
  cbn [backpressure_of parts bp BackpressureController._in_flight BackpressureController.capacity].
  rewrite (proj2 (Z.leb_gt _ _)) by lia. unfold putM. cbn [set_backpressure parts limiter executor].
  unfold mbind at 1, M_bind at 1, gets at 1. replace (k + 1 - 1) with k by lia. by rewrite Er.
Qed.

(** A request is carried through all the layers of a node.  A request for [sort] of a
    list of at most 100,000 integers, read from its frame's payload, passes the rate
    limiter and the backpressure controller, is run by the worker pool within the
    request timeout and answered: the reply has the request's correlation id and
    decodes to the same numbers in ascending order with their count.  The conditions
    are that the limiter has a token, a slot of the controller and one of the pool are
    free, and the pool is done in time; afterwards the controller's slot is free
    again. *)
Theorem sort_request_served message values key n (s : server) lim :
  TaskRouter.resolve "sort" router = Ok Tasks.sort_task → TaskClassifier.classify "sort" classifier = CPU →
  Message.msg_type message = REQUEST →
  decode_task_request (Message.payload message) =
    Ok (mkTaskRequestData "sort" (JObj [("values", JList (JInt <$> values))]) key) →
  Z.of_nat (length values) ≤ Tasks._MAX_NUMERIC_VALUES →
  TokenBucketRateLimiter.allow (now (executor s) # 1000)%Q 1 (limiter s) = (Ok true, lim) →
  0 ≤ BackpressureController._in_flight (bp s) < BackpressureController.capacity (bp s) →
  WorkerPool._closed (pool (executor s)) = false →
  WorkerPool.pending_count (pool (executor s)) < _PendingLimiter.capacity (WorkerPool._pending (pool (executor s))) →
  default (Finishes 0) (head (fates (executor s))) = Finishes n → Z.of_nat n < request_timeout_ms settings →
  ∃ reply s' took sorted, DistributedNode.handle_message parts settings message s = (Ok reply, s') ∧
    Message.correlation_id reply = Message.correlation_id message ∧ Message.msg_type reply = RESPONSE ∧
    decode_task_response (Message.payload reply) =
      Ok (mkTaskResponseData true
            (JObj [("values", JList (JInt <$> sorted)); ("count", JInt (Z.of_nat (length values)))]) 0 "" took) ∧
    sorted ≡ₚ values ∧ StronglySorted Z.le sorted ∧ bp s' = bp s.
Proof.
  intros Hr Hc Hty Hdec Hlen Hlim Hbp Hcl Hp Hf Ht.
  assert (Tasks.sort_task (JObj [("values", JList (JInt <$> values))]) =
    Ok (JObj [("values", JList (JInt <$> merge_sort Z.le values)); ("count", JInt (Z.of_nat (length values)))])) as Hsort.
  { unfold Tasks.sort_task. pose proof (Tasks.numeric_values_spec (JObj [("values", JList (JInt <$> values))]) true) as Hv.
    destruct (Tasks._require_numeric_values _ true) as [vs|e].
    - destruct Hv as (data & [= <-] & Ed & _). injection Ed as Ed. by apply (inj (fmap JInt)) in Ed as ->.
    - destruct Hv as (_ & _ & []). exists [("values", JList (JInt <$> values))], values. by split_and!. }
  set (j := JObj [("values", JList (JInt <$> merge_sort Z.le values)); ("count", JInt (Z.of_nat (length values)))]) in *.
  assert (unique_keys j) as Hu.
  { apply unique_obj. split; [apply (bool_decide_unpack _); vm_compute; exact I|]. repeat constructor.
    apply unique_list. apply Forall_fmap, Forall_true. done. }
  destruct (cpu_task_runs "sort" Tasks.sort_task (JObj [("values", JList (JInt <$> values))])
    (Deadline.mk (now (executor s) + request_timeout_ms settings)) (executor s) n j) as (w' & Ew & Enow);
    [done|done|done|done|simpl; lia|done|done|].
  destruct (DistributedNode.response_success parts settings message j (DistributedNode.elapsed parts (perf_ns parts s) (Server (bp s) lim w')) (Server (bp s) lim w'))
    as (reply & Er & Hcid & _ & Hmt & Hd); [done| |].
  { unfold DistributedNode.elapsed. cbn [perf_ns parts executor]. rewrite Enow.
    split; [apply Z.div_pos; lia|apply Z.div_lt_upper_bound; lia]. }
  eexists reply, _, _, (merge_sort Z.le values).
  split_and!; [eapply (local_request_succeeds message _ s lim w' j); [done|done|done|done|lia|exact Ew|exact Er]|done|done|exact Hd| | |done].
  - apply merge_sort_Permutation.
  - apply StronglySorted_merge_sort; [apply _|]. intros x y. lia.
Qed.
End node.
End ComputeNode.

(** *** The built-in tasks *)
Section builtin.
Context (sha256 : string → string) (float_stats : list Z → list (string * json)) (node_id : string).
Hypothesis float_stats_keys : ∀ n values, unique_keys (JObj (("count", JInt n) :: float_stats values)).

Lemma mapping_proper payload (f : list (string * json) → result json) :
  (∀ data, payload = JObj data → DistributedNode.proper (f data)) →
  DistributedNode.proper (Tasks._require_mapping payload ≫= f).
Proof. intros Hf. destruct payload; simpl; try done. by apply Hf. Qed.

Lemma numeric_proper payload b (f : list Z → result json) : (∀ values, DistributedNode.proper (f values)) →
  DistributedNode.proper (Tasks._require_numeric_values payload b ≫= f).
Proof.
  intros Hf. pose proof (Tasks.numeric_values_spec payload b) as H.
  destruct (Tasks._require_numeric_values payload b) as [values|e]; [apply Hf|]. simpl. destruct H as (_ & -> & _). done.
Qed.

Ltac small_object :=
  match goal with |- DistributedNode.proper (Ok ?j) => change (unique_keys j) end; apply unique_obj; split; [apply (bool_decide_unpack _); vm_compute; exact I|repeat constructor].

(** Every built-in task can be served. *)
Lemma builtin_proper router : _default_router sha256 float_stats node_id = Ok router →
  map_Forall (λ _, ComputeNode.proper_handler) router.
Proof using float_stats_keys.
  intros E. unfold _default_router, TaskRouter.register, Tasks.make_whoami_task in E. simpl in E.
  destruct (nonempty node_id); [|done]. simpl in E. injection E as <-.
  repeat apply map_Forall_insert_2; [| | | | |apply map_Forall_empty]; intros payload Hu.
  - apply mapping_proper. intros data _. small_object.
  - apply numeric_proper. intros values. apply float_stats_keys.
  - apply numeric_proper. intros values. small_object. apply unique_list, Forall_fmap, Forall_true. done.
  - apply mapping_proper. intros data _. destruct (py_get "data" data); try done.
    destruct (default _ _); try done. destruct (_ && _); [small_object|done].
  - exact Hu.
Qed.
End builtin.

(** ** A node that sorts *)
Module ComputeSample.
#[local] Instance env_wire : Wire pb.Envelope := countable_wire.
#[local] Instance task_wire : Wire pb.TaskRequest := countable_wire.
#[local] Instance resp_wire : Wire pb.TaskResponse := countable_wire.
#[local] Instance fwd_wire : Wire pb.ForwardedTaskRequest := countable_wire.
#[local] Instance crdt_wire : Wire pb.CrdtResponse := countable_wire.

Definition router : TaskRouter.t :=
  match _default_router id (λ _, []) "n1" with Ok r => r | Err _ => ∅ end.
Definition classifier : TaskClassifier.t :=
  match TaskClassifier.default_classifier with Ok c => c | Err _ => ∅ end.
Definition pool0 : WorkerPool.t := WorkerPool.mk 1 2 false false (_PendingLimiter.mk 2 0).
Definition settings : Settings := mkSettings "n1" 100000 1000 true true true true.

Definition numbers : json := JObj [("values", JList (JInt <$> [3; 1; 2]))].
Definition message : Message.t :=
  Message.mk REQUEST "client" "id1" 5 8 (SerializeToString (pb.mkTaskRequest "sort" (_json_dump numbers) "")) "" "".
Definition server0 : ComputeNode.server :=
  ComputeNode.Server (BackpressureController.mk 2 0) (TokenBucketRateLimiter.mk 10 10 10 0) (World 0 pool0 [] [Finishes 20]).

Lemma sort_request_served_witness : ∃ reply s' took sorted,
  DistributedNode.handle_message (ComputeNode.parts router classifier) settings message server0 = (Ok reply, s') ∧
  decode_task_response (Message.payload reply) =
    Ok (mkTaskResponseData true (JObj [("values", JList (JInt <$> sorted)); ("count", JInt 3)]) 0 "" took) ∧
  sorted ≡ₚ [3; 1; 2] ∧ StronglySorted Z.le sorted.
Proof.
  destruct (ComputeNode.sort_request_served router classifier settings message [3; 1; 2] "" 20 server0
    (TokenBucketRateLimiter.allow (0 # 1000)%Q 1 (TokenBucketRateLimiter.mk 10 10 10 0)).2) as (reply & s' & took & sorted & E & _ & _ & Hd & Hp & Hs & _).
  - vm_compute. reflexivity.
  - vm_compute. reflexivity.
  - reflexivity.
  - vm_compute. reflexivity.
  - vm_compute. discriminate.
  - vm_compute. reflexivity.
  - simpl. lia.
  - reflexivity.
  - vm_compute. reflexivity.
  - reflexivity.
  - simpl. lia.
  - exists reply, s', took, sorted. split_and!; [exact E|exact Hd|exact Hp|exact Hs].
Defined.

(** Two requests: the first times out at 10 while its process runs until 50, the second
    takes the other slot; at 50 both are free. *)
Definition idle : world := World 0 pool0 [] [Finishes 50; Finishes 5].
Definition busy : world := (TaskExecutor.execute router classifier "sort" numbers (Deadline.mk 10) idle).2.

Lemma worker_slots_never_leak_witness :
  due busy = [50] ∧ WorkerPool.pending_count (pool busy) = 1 ∧ WorkerPool.pending_count (pool (advance 50 busy)) = 0.
Proof.
  assert (due busy = [50]) as Hd by (vm_compute; reflexivity).
  assert (reachable PoolSlots.step idle busy) as Hr.
  { eapply reachable_step; [apply reachable_init|].
    apply (PoolSlots.step_execute router classifier "sort" numbers (Deadline.mk 10)
      (TaskExecutor.execute router classifier "sort" numbers (Deadline.mk 10) idle).1).
    unfold busy. by destruct (TaskExecutor.execute _ _ _ _ _ idle). }
  destruct (PoolSlots.worker_slots_never_leak 1 2 pool0 0 [Finishes 50; Finishes 5] busy eq_refl) as (Hn & _ & _ & Hz);
    [by repeat constructor|exact Hr|].
  rewrite Hd in Hn, Hz. split_and!; [exact Hd|exact Hn|]. apply Hz. repeat constructor. lia.
Defined.
End ComputeSample.
