(* ===== verification/ClusterClient.v ===== *)
(** * The cluster's peer client: [distsys/cluster/peer_client.py]

    One connection per exchange, the identity check under TLS, the control calls the
    cluster service makes and the forwarding of tasks under retries, deadline and
    circuit breaker.  Sockets, TLS and the clock are parameters ([Endpoints]); the
    wrapper that records metrics and traces and the chaos proxy's rewriting of endpoints
    are left out.  Times are in milliseconds. *)

From Stdlib Require Import QArith.
From S2P Require Import Prelude Json Resilience Membership Ring Proto Protocol Cluster CrdtCodec Node Rpc.

Local Open Scope Z_scope.
Import ClusterMember (node_id, host, port).

Record Endpoints (S : Type) := {
  (** [open_connection(host, port, ssl=..., server_hostname=...)] within the timeout,
      and what the connection shows of the peer *)
  open_connection : string → Z → option string → Z → M S Connection;
  (** a frame written to it, and the bytes that arrive until it is closed *)
  converse : string → Z → string → M S string;
  (** [int(time.time() * 1000)] and [str(uuid.uuid4())] *)
  stamp : S → Z * string;
  monotonic : S → Z;
  (** [random.uniform(0.0, cap)] and [asyncio.sleep] *)
  uniform : Z → S → Z;
  sleep : Z → M S unit;
}.
Arguments open_connection {_} _ _ _ _ _.
Arguments converse {_} _ _ _ _.
Arguments stamp {_} _ _.
Arguments monotonic {_} _ _.
Arguments uniform {_} _ _ _.
Arguments sleep {_} _ _.

Module ClusterPeerClient.
(** [self._breakers] *)
Abbreviation breakers := (gmap string CircuitBreaker.t).

Definition _RETRYABLE : list exn_class := [ConnectionError; TimeoutError; OSError; PeerProtocolError].

Section client.
Context {S : Type} (net : Endpoints S).
(** [ssl_context is not None] is [secure]. *)
Context (local_node_id : string) (max_frame_size : Z) (secure : bool).
Context `{!Wire pb.Envelope, !Wire pb.TaskRequest, !Wire pb.TaskResponse, !Wire pb.ForwardedTaskRequest,
  !Wire pb.JoinRequest, !Wire pb.JoinResponse, !Wire pb.Ping, !Wire pb.Ack, !Wire pb.PingRequest, !Wire pb.Gossip}.

(** The connection, verified when it is a TLS one. *)
Definition connect (host : string) (port timeout : Z) (expected_node_id : option string) : M S unit :=
  if negb secure then _ ← open_connection net host port None timeout; mret tt
  else
    match expected_node_id with
    | None => raiseM TlsPeerIdentityError "secure peer connection requires expected node id"
    | Some expected =>
        ssl_object ← open_connection net host port (Some expected) timeout;
        match ssl_object with
        | None => raiseM TlsPeerIdentityError "TLS peer did not expose an SSL object"
        | Some cert => liftM (verify_node_identity (default [] cert) expected)
        end
    end.

Definition _exchange_endpoint_raw (host : string) (port : Z) (message : Message.t) (timeout : Z)
    (expected_node_id : option string) : M S Message.t :=
  if timeout <=? 0 then raiseM TimeoutError "peer exchange timeout exhausted"
  else
    _ ← connect host port timeout expected_node_id;
    frame ← liftM (encode_frame message max_frame_size);
    stream ← converse net host port frame;
    response ← liftM (read_message max_frame_size stream).1;
    if bool_decide (Message.correlation_id response = Message.correlation_id message) then mret response
    else raiseM PeerProtocolError ("expected correlation " +:+ Message.correlation_id message +:+ ", got " +:+
           Message.correlation_id response).

(** [{"expected_node_id": name} if self.ssl_context is not None else {}] *)
Definition expecting (name : option string) : option string := if secure then name else None.

(** [Message.new_request(sender_id=self.local_node_id, msg_type=..., payload=...)] *)
Definition request (msg_type : MessageType) (correlation_id : option string) (payload : string) : M S Message.t := λ s,
  let '(now_ms, fresh_id) := stamp net s in
  (Ok (Message.new_request now_ms fresh_id local_node_id payload correlation_id 8 msg_type "" ""), s).

(** An exchange whose reply must have the given type. *)
Definition control_call {A} (host : string) (port timeout : Z) (expected_node_id : option string)
    (msg_type reply_type : MessageType) (payload : result string) (decode : string → result A) : M S A :=
  payload ← liftM payload;
  request ← request msg_type None payload;
  response ← _exchange_endpoint_raw host port request timeout (expecting expected_node_id);
  if bool_decide (Message.msg_type response = reply_type) then liftM (decode (Message.payload response))
  else raiseM PeerProtocolError ("expected " +:+ MessageType_name reply_type +:+ ", got " +:+
         MessageType_name (Message.msg_type response)).

Definition join (seed : SeedAddress.t) (local_member : ClusterMember.t) (timeout : Z) : M S (list ClusterMember.t) :=
  payload ← liftM (encode_join_request local_member);
  if secure && bool_decide (SeedAddress.node_id seed = None)
  then raiseM TlsPeerIdentityError "secure cluster join requires an identity-aware seed"
  else control_call (SeedAddress.host seed) (SeedAddress.port seed) timeout (SeedAddress.node_id seed)
         JOIN_REQUEST JOIN_RESPONSE (Ok payload) decode_join_response.

Definition ping (peer : ClusterMember.t) (gossip : list ClusterMember.t) (timeout : Z) : M S AckData :=
  control_call (host peer) (port peer) timeout (Some (node_id peer)) PING ACK (encode_ping gossip) decode_ack.

Definition ping_request (helper target : ClusterMember.t) (gossip : list ClusterMember.t) (timeout : Z) : M S AckData :=
  control_call (host helper) (port helper) timeout (Some (node_id helper)) PING_REQ ACK
    (encode_ping_request target gossip) decode_ack.

Definition gossip (peer : ClusterMember.t) (members : list ClusterMember.t) (timeout : Z) : M S AckData :=
  control_call (host peer) (port peer) timeout (Some (node_id peer)) GOSSIP ACK (encode_gossip members) decode_ack.

(** The calls the cluster service is written against, with its timeouts. *)
Definition peer_ops (probe_timeout indirect_timeout gossip_timeout join_timeout : Z) : PeerOps S := {|
  Cluster.ping p g := ping p g probe_timeout;
  Cluster.ping_request h p g := ping_request h p g indirect_timeout;
  Cluster.gossip p g := gossip p g gossip_timeout;
  Cluster.join seed m := join seed m join_timeout;
|}.

(** *** Forwarding tasks

    The state is the dictionary of breakers and what the network acts on. *)
Context (policy : Retry.RetryPolicy) (failure_threshold recovery_ms : Z).
Abbreviation st := (breakers * S)%type.

Definition outside {A} (m : M S A) : M st A := λ s, match m s.2 with (r, x) => (r, (s.1, x)) end.
Definition clock : M st Z := gets (λ s, monotonic net s.2).

Definition breaker_for (name : string) : M st CircuitBreaker.t := λ s,
  match s.1 !! name with
  | Some b => (Ok b, s)
  | None =>
      match CircuitBreaker.init failure_threshold recovery_ms 1 with
      | Ok b => (Ok b, (<[name := b]> s.1, s.2))
      | Err e => (Err e, s)
      end
  end.

(** A method of the breaker of [name], which [breaker_for] has put in the dictionary. *)
Definition on_breaker {A} (name : string) (m : M CircuitBreaker.t A) : M st A := λ s,
  match s.1 !! name with
  | Some b => match m b with (r, b) => (r, (<[name := b]> s.1, s.2)) end
  | None => (raise KeyError name, s)
  end.

(** The operation of a call that the breaker let through in [state_at_start]. *)
Definition recording {A} (name : string) (state_at_start : CircuitBreaker.CircuitState) (operation : M st A) : M st A := λ s,
  match operation s with
  | (Ok r, s) => (_ ← on_breaker name (CircuitBreaker._record_success state_at_start); mret r) s
  | (Err e, s) =>
      if isinstance e [Exception] then
        (now ← clock; _ ← on_breaker name (CircuitBreaker._record_failure state_at_start now); failM e) s
      else (Err e, s)
  end.

(** [CircuitBreaker.call], with the clock read before and after the operation. *)
Definition breaker_call {A} (name : string) (operation : M st A) : M st A :=
  now ← clock;
  state_at_start ← on_breaker name (CircuitBreaker._before_call now);
  recording name state_at_start operation.

(** [retry_async] over an operation that changes the state. *)
Fixpoint retry_loop {A} (n : nat) (attempt_index : Z) (operation : M st A) (should_retry : exn → bool)
    (deadline : Deadline.t) : M st A :=
  match n with
  | O => raiseM RuntimeError "retry loop exhausted unexpectedly"
  | Datatypes.S n =>
      now ← clock;
      if Deadline.expired deadline now then raiseM DeadlineExceeded "request deadline exceeded before retry attempt"
      else
        catchM operation [Exception] (λ exc,
          if (Retry.max_attempts policy <=? attempt_index + 1) || negb (should_retry exc) then failM exc
          else
            let cap := Retry.cap policy attempt_index in
            delay ← gets (λ s : st, if 0 <? cap then uniform net cap s.2 else 0);
            now ← clock;
            let remaining := Deadline.remaining deadline now in
            if (remaining <=? 0) || (remaining <=? delay)
            then raiseM DeadlineExceeded "request deadline exceeded during retry backoff"
            else
              _ ← (if 0 <? delay then outside (sleep net delay) else mret tt);
              retry_loop n (attempt_index + 1) operation should_retry deadline)
  end.

Definition retry_async {A} (operation : M st A) (should_retry : exn → bool) (deadline : Deadline.t) : M st A :=
  retry_loop (Z.to_nat (Retry.max_attempts policy)) 0 operation should_retry deadline.

(** One attempt of [forward_task]. *)
Definition attempt (peer : ClusterMember.t) (task_name : string) (payload : json) (routing_key origin_node_id : string)
    (deadline : Deadline.t) (correlation_id : string) : M st Message.t :=
  now ← clock;
  let remaining := Deadline.remaining deadline now in
  if remaining <=? 0 then raiseM DeadlineExceeded "request deadline exceeded before peer forward"
  else
    payload ← liftM (encode_forwarded_request task_name payload routing_key origin_node_id (Z.max 1 remaining));
    request ← outside (request FORWARDED_REQUEST (Some correlation_id) payload);
    breaker_call (node_id peer)
      (now ← clock;
       outside (_exchange_endpoint_raw (host peer) (port peer) request (Deadline.remaining deadline now)
                  (expecting (Some (node_id peer))))).

Definition retryable (e : exn) : bool := isinstance e _RETRYABLE && negb (isinstance e [CircuitOpenError]).

(** The exceptions of the retried attempts, as [forward_task] passes them on. *)
Definition transport {A} (peer : ClusterMember.t) (m : M st A) : M st A := λ s,
  match m s with
  | (Err e, s) =>
      if isinstance e [CircuitOpenError; DeadlineExceeded] then (Err e, s)
      else if isinstance e _RETRYABLE
      then (raise PeerTransportError ("peer " +:+ node_id peer +:+ " transport failed"), s)
      else (Err e, s)
  | r => r
  end.

Definition forward_task (peer : ClusterMember.t) (task_name : string) (payload : json) (routing_key origin_node_id : string)
    (deadline : Deadline.t) : M st json :=
  correlation_id ← gets (λ s : st, (stamp net s.2).2);
  _ ← breaker_for (node_id peer);
  response ← transport peer
    (retry_async (attempt peer task_name payload routing_key origin_node_id deadline correlation_id) retryable deadline);
  if bool_decide (Message.msg_type response ∈ [RESPONSE; ERROR]) then
    decoded ← liftM (decode_task_response (Message.payload response));
    if negb (Protocol.success decoded)
    then failM (Exn PeerApplicationError (Protocol.error_message decoded) (Protocol.error_code decoded))
    else mret (response_result decoded)
  else raiseM PeerProtocolError ("expected task RESPONSE/ERROR, got " +:+ MessageType_name (Message.msg_type response)).
End client.
End ClusterPeerClient.

(** ** What the client guarantees *)
Module PeerClientSpec.
Import ClusterPeerClient.
Section spec.
Context {S : Type} (net : Endpoints S) (local_node_id : string) (max_frame_size : Z) (secure : bool).
Context `{!Wire pb.Envelope, !Wire pb.TaskRequest, !Wire pb.TaskResponse, !Wire pb.ForwardedTaskRequest,
  !Wire pb.JoinRequest, !Wire pb.JoinResponse, !Wire pb.Ping, !Wire pb.Ack, !Wire pb.PingRequest, !Wire pb.Gossip}.

(** Whether the certificate of a connection names [expected]. *)
Definition identifies (ssl_object : Connection) (expected : string) : Prop :=
  match ssl_object with Some (Some names) => expected ∈ names | _ => False end.

(** C16: a secure client talks only to the node it means.  With TLS configured, when the
    connection is opened and the certificate it shows does not name the expected node
    (or shows none), the exchange ends with [TlsPeerIdentityError] and nothing is
    written to the connection; without an expected name it is not even opened. *)
Theorem tls_speaks_only_to_named_peer host port message timeout s :
  0 < timeout → secure = true →
  _exchange_endpoint_raw net max_frame_size secure host port message timeout None s =
    (raise TlsPeerIdentityError "secure peer connection requires expected node id", s) ∧
  ∀ expected ssl_object s1, open_connection net host port (Some expected) timeout s = (Ok ssl_object, s1) →
    expected ≠ "" → ¬ identifies ssl_object expected →
    ∃ text, _exchange_endpoint_raw net max_frame_size secure host port message timeout (Some expected) s =
      (raise TlsPeerIdentityError text, s1).
Proof.
  intros Ht ->. unfold _exchange_endpoint_raw. rewrite (proj2 (Z.leb_gt _ _)) by lia. unfold connect. simpl. split; [done|].
  intros expected ssl_object s1 Eo He Hn. unfold mbind, M_bind. rewrite Eo.
  destruct ssl_object as [cert|]; [|by eexists]. unfold liftM, verify_node_identity. rewrite nonempty_true by done. simpl.
  rewrite bool_decide_eq_false_2; [by eexists|]. destruct cert; [done|]. apply not_elem_of_nil.
Qed.
End spec.

(** *** The client is what the cluster service asks for *)
Section service.
Context (_hash : string → Z) (net : Endpoints ClusterService.t) (local_node_id : string) (max_frame_size : Z) (secure : bool).
Context `{!Wire pb.Envelope, !Wire pb.JoinRequest, !Wire pb.JoinResponse, !Wire pb.Ping, !Wire pb.Ack, !Wire pb.PingRequest,
  !Wire pb.Gossip}.
Import ClusterInvariant.

(** While the network is waited for, other tasks of the node keep the service's
    invariant. *)
Hypothesis open_synced : ∀ h p e t, preserves (synced _hash) (open_connection net h p e t).
Hypothesis converse_synced : ∀ h p f, preserves (synced _hash) (converse net h p f).

Lemma exchange_synced h p m t e :
  preserves (synced _hash) (_exchange_endpoint_raw net max_frame_size secure h p m t e).
Proof using open_synced converse_synced.
  unfold _exchange_endpoint_raw. destruct (t <=? 0); [by intros s|]. apply preserves_bind.
  { unfold connect. destruct (negb secure); [apply preserves_bind; [apply open_synced|by intros ? s]|].
    destruct e as [expected|]; [|by intros s]. apply preserves_bind; [apply open_synced|].
    intros [cert|]; [apply preserves_lift|by intros s]. }
  intros _. apply preserves_bind; [apply preserves_lift|]. intros f. apply preserves_bind; [apply converse_synced|].
  intros b. apply preserves_bind; [apply preserves_lift|]. intros r. destruct (bool_decide _); by intros s.
Qed.

Lemma control_synced {A} h p t e ty rty payload (decode : string → result A) :
  preserves (synced _hash) (control_call net local_node_id max_frame_size secure h p t e ty rty payload decode).
Proof using open_synced converse_synced.
  apply preserves_bind; [apply preserves_lift|]. intros d. apply preserves_bind.
  { intros s Hs. unfold request. by destruct (stamp net s). }
  intros q. apply preserves_bind; [apply exchange_synced|]. intros r. destruct (bool_decide _); [apply preserves_lift|by intros s].
Qed.

Lemma control_decodes {A} h p t e ty rty payload (decode : string → result A) s a s' :
  control_call net local_node_id max_frame_size secure h p t e ty rty payload decode s = (Ok a, s') →
  ∃ data, decode data = Ok a.
Proof.
  unfold control_call, mbind, M_bind, liftM. destruct payload as [d|]; [|done].
  destruct (request _ _ _ _ _ s) as [[q|] s1]; [|done].
  destruct (_exchange_endpoint_raw _ _ _ _ _ _ _ _ s1) as [[r|] s2]; [|done].
  destruct (bool_decide _); [|done]. intros [= E _]. eauto.
Qed.

Lemma decode_ack_valid data a : decode_ack data = Ok a → Forall ClusterMember.valid (ack_gossip a).
Proof. intros (v & _ & (g & Hg & [= <-])%bind_Ok_inv)%bind_Ok_inv. simpl. by eapply members_from_proto_valid. Qed.

(** The calls keep the contract the failure detector, the gossip loop and the control
    handlers are proved against. *)
Lemma peer_client_good a b c d : good_peers _hash (peer_ops net local_node_id max_frame_size secure a b c d).
Proof using open_synced converse_synced.
  split; simpl; intros; try apply control_synced;
    match goal with H : _ = (Ok _, _) |- _ => apply control_decodes in H as [data Hd]; by apply decode_ack_valid in Hd end.
Qed.
End service.

(** *** Forwarding through a closed breaker *)
Section forward.
Context {S : Type} (net : Endpoints S) (local_node_id : string) (max_frame_size : Z) (secure : bool).
Context (policy : Retry.RetryPolicy) (failure_threshold recovery_ms : Z).
Context `{!Wire pb.Envelope, !Wire pb.TaskRequest, !Wire pb.TaskResponse, !Wire pb.ForwardedTaskRequest}.
Abbreviation st := (breakers * S)%type.

Lemma closed_before_call now b : CircuitBreaker._state b = CircuitBreaker.CLOSED →
  CircuitBreaker._before_call now b = (Ok CircuitBreaker.CLOSED, b).
Proof. intros Hb. unfold CircuitBreaker._before_call, mbind, M_bind, getM. rewrite Hb. simpl. by rewrite Hb. Qed.

Lemma breaker_closed_call {A} name b (f : Z → M S A) (s : st) :
  s.1 !! name = Some b → CircuitBreaker._state b = CircuitBreaker.CLOSED →
  breaker_call net name (now ← clock net; outside (f now)) s =
    match f (monotonic net s.2) s.2 with
    | (Ok r, x) => (Ok r, (<[name := (CircuitBreaker._record_success CircuitBreaker.CLOSED b).2]> s.1, x))
    | (Err e, x) =>
        (Err e, (if isinstance e [Exception]
                 then <[name := (CircuitBreaker._record_failure CircuitBreaker.CLOSED (monotonic net x) b).2]> s.1
                 else s.1, x))
    end.
Proof.
  intros Hs Hb. destruct s as [d x]. cbn [fst snd] in *. unfold breaker_call, mbind at 1, M_bind at 1, clock at 1, gets at 1.
  unfold mbind at 1, M_bind at 1, on_breaker at 1. cbn [fst snd]. rewrite Hs, (closed_before_call _ _ Hb), (insert_id _ _ _ Hs).
  unfold recording, mbind at 1, M_bind at 1, clock at 1, gets at 1, outside at 1. cbn [fst snd].
  destruct (f (monotonic net x) x) as [[r|e] x']; unfold mbind, M_bind, on_breaker, clock, gets; cbn [fst snd].
  - by rewrite Hs.
  - destruct (isinstance e [Exception]); [|done]. rewrite Hs. unfold CircuitBreaker._record_failure, mbind, M_bind, modifyM, getM, putM.
    simpl. by destruct (_ <=? _).
Qed.

(** The breaker [breaker_for] makes. *)
Definition fresh_breaker : CircuitBreaker.t :=
  CircuitBreaker.mk failure_threshold recovery_ms 1 CircuitBreaker.CLOSED 0 None 0.

(** The request an attempt sends at [x]. *)
Definition forwarded_message (x : S) (cid data : string) : Message.t :=
  Message.new_request (stamp net x).1 (stamp net x).2 local_node_id data (Some cid) 8 FORWARDED_REQUEST "" "".

(** At the first contact with a peer, the first attempt decides unless it may be
    repeated. *)
Lemma first_attempt peer name payload key origin deadline (s : st) data :
  1 ≤ Retry.max_attempts policy → 1 ≤ failure_threshold → 0 < recovery_ms → s.1 !! node_id peer = None →
  0 < Deadline.remaining deadline (monotonic net s.2) →
  encode_forwarded_request name payload key origin (Deadline.remaining deadline (monotonic net s.2)) = Ok data →
  let exchange := _exchange_endpoint_raw net max_frame_size secure (host peer) (port peer)
    (forwarded_message s.2 (stamp net s.2).2 data) (Deadline.remaining deadline (monotonic net s.2))
    (expecting secure (Some (node_id peer))) s.2 in
  let forward := forward_task net local_node_id max_frame_size secure policy failure_threshold recovery_ms
    peer name payload key origin deadline s in
  (∀ m x, exchange = (Ok m, x) →
     forward = (if bool_decide (Message.msg_type m ∈ [RESPONSE; ERROR]) then
                  decoded ← liftM (decode_task_response (Message.payload m));
                  if negb (Protocol.success decoded)
                  then failM (Exn PeerApplicationError (Protocol.error_message decoded) (Protocol.error_code decoded))
                  else mret (response_result decoded)
                else raiseM PeerProtocolError ("expected task RESPONSE/ERROR, got " +:+ MessageType_name (Message.msg_type m)))
               (<[node_id peer := fresh_breaker]> s.1, x)) ∧
  (∀ e x, exchange = (Err e, x) → isinstance e [Exception] = true → isinstance e _RETRYABLE = false →
     ∃ d, forward = (Err e, (d, x))).
Proof.
  intros Hma Hft Hrt Hs Hrem Henc exchange forward. destruct s as [d x0]. cbn [fst snd] in *.
  destruct (Z.to_nat (Retry.max_attempts policy)) as [|n] eqn:En; [lia|].
  assert (CircuitBreaker.init failure_threshold recovery_ms 1 = Ok fresh_breaker) as Hi.
  { unfold CircuitBreaker.init. rewrite (proj2 (Z.ltb_ge _ _)), (proj2 (Z.leb_gt _ _)) by lia. done. }
  assert (attempt net local_node_id max_frame_size secure peer name payload key origin deadline (stamp net x0).2
            (<[node_id peer := fresh_breaker]> d, x0) =
          match exchange with
          | (Ok m, x) => (Ok m, (<[node_id peer := fresh_breaker]> d, x))
          | (Err e, x) => (Err e, (if isinstance e [Exception]
              then <[node_id peer := (CircuitBreaker._record_failure CircuitBreaker.CLOSED (monotonic net x) fresh_breaker).2]> d
              else <[node_id peer := fresh_breaker]> d, x))
          end) as Ha.
  { unfold attempt, mbind at 1, M_bind at 1, clock at 1, gets at 1. cbn [fst snd]. rewrite (proj2 (Z.leb_gt _ _)) by lia.
    rewrite Z.max_r by lia. unfold mbind at 1, M_bind at 1, liftM at 1. rewrite Henc.
    unfold mbind at 1, M_bind at 1, outside at 1, request. cbn [fst snd]. destruct (stamp net x0) as [ms fid] eqn:Est.
    rewrite (breaker_closed_call (node_id peer) fresh_breaker); [|apply lookup_insert_eq|done].
    cbn [fst snd]. unfold exchange, forwarded_message. rewrite Est. cbn [fst snd].
    match goal with |- (let (_, _) := ?a in _) = (let (_, _) := ?b in _) => change b with a; destruct a as [[m|e] x] end;
      [by rewrite insert_insert_eq|].
    destruct (isinstance e [Exception]); [by rewrite insert_insert_eq|done]. }
  assert (∀ e, isinstance e _RETRYABLE = false → retryable e = false) as Hnr by (intros e He; unfold retryable; by rewrite He).
  assert (∀ r b x, exchange = (r, x) → (r = Ok b ∨ ∃ e, r = Err e ∧ isinstance e [Exception] = true ∧ isinstance e _RETRYABLE = false) →
    retry_async net policy (attempt net local_node_id max_frame_size secure peer name payload key origin deadline (stamp net x0).2)
      retryable deadline (<[node_id peer := fresh_breaker]> d, x0) =
    attempt net local_node_id max_frame_size secure peer name payload key origin deadline (stamp net x0).2
            (<[node_id peer := fresh_breaker]> d, x0)) as Hretry.
  { intros r b x Ex Hr. unfold retry_async. rewrite En. cbn [retry_loop]. unfold mbind at 1, M_bind at 1, clock at 1, gets at 1.
    cbn [fst snd]. unfold Deadline.expired. rewrite (proj2 (Z.leb_gt _ _)) by lia. unfold catchM. rewrite Ha, Ex.
    destruct Hr as [->|(e & -> & He & Hne)]; [done|]. rewrite He, (Hnr e Hne). by rewrite orb_true_r. }
  split; intros m x Ex; [|intros He Hne; eexists];
    (unfold forward, forward_task, mbind at 1, M_bind at 1, gets at 1, mbind at 1, M_bind at 1, breaker_for; cbn [fst snd];
     rewrite Hs, Hi; unfold mbind at 1, M_bind at 1, transport).
  - by rewrite (Hretry _ m _ Ex (or_introl eq_refl)), Ha, Ex.
  - rewrite (Hretry _ (forwarded_message x0 "" "") _ Ex), Ha, Ex by eauto.
    assert (isinstance m [CircuitOpenError; DeadlineExceeded] = false) as ->; [|by rewrite Hne].
    destruct m as [c t k]. destruct c; vm_compute in Hne |- *; done.
Qed.

(** A peer that closes the connection is not failed over.  When the peer accepts the
    connection and closes it without a reply (a node that is stopping does that),
    [forward_task] raises [IncompleteReadError]: [_RETRYABLE] does not cover it, so it is
    neither retried nor turned into [PeerTransportError], and the router, which fails
    over on [PeerTransportError] and [CircuitOpenError], gives up with it although other
    candidates for the key are left. *)
Theorem closed_peer_not_failed_over peer name payload key origin deadline (s : st) data conn x1 x2 :
  1 ≤ Retry.max_attempts policy → 1 ≤ failure_threshold → 0 < recovery_ms → s.1 !! node_id peer = None →
  0 < Deadline.remaining deadline (monotonic net s.2) →
  encode_forwarded_request name payload key origin (Deadline.remaining deadline (monotonic net s.2)) = Ok data →
  is_ok (encode_frame (forwarded_message s.2 (stamp net s.2).2 data) max_frame_size) = true → secure = false →
  open_connection net (host peer) (port peer) None (Deadline.remaining deadline (monotonic net s.2)) s.2 = (Ok conn, x1) →
  (∀ frame, converse net (host peer) (port peer) frame x1 = (Ok "", x2)) →
  ∃ e s', forward_task net local_node_id max_frame_size secure policy failure_threshold recovery_ms
            peer name payload key origin deadline s = (Err e, s') ∧
    exn_cls e = IncompleteReadError ∧
    ∀ execute_local forward expired local others, node_id peer ≠ local → expired O = false → forward peer = Err e →
      ClusterRouter.route execute_local forward expired local 0 (peer :: others) [] false = (Err e, [peer]).
Proof.
  intros Hma Hft Hrt Hs Hrem Henc Hfr Hsec Hopen Htalk.
  destruct (first_attempt peer name payload key origin deadline s data Hma Hft Hrt Hs Hrem Henc) as [_ Hf].
  destruct (encode_frame _ _) as [frame|] eqn:Ef in Hfr; [|done].
  set (e := Exn IncompleteReadError "" 0). destruct (Hf e x2) as [d Hd]; [|done|done|].
  - unfold _exchange_endpoint_raw. rewrite (proj2 (Z.leb_gt _ _)) by lia. unfold connect. rewrite Hsec. simpl.
    unfold mbind, M_bind. rewrite Hopen. unfold mret, M_ret, liftM at 1. rewrite Ef, Htalk. done.
  - exists e, (d, x2). split_and!; [exact Hd|done|]. intros execute_local forward expired local others Hl He Hp. simpl.
    rewrite He, bool_decide_eq_false_2 by done. by rewrite Hp.
Qed.
End forward.
End PeerClientSpec.

(** ** Forwarding to a node that serves *)
Module ForwardRpc.
Import ClusterPeerClient PeerClientSpec.
Section rpc.
Context {L N : Type} (parts : NodeParts N) (settings : Settings) (conn peer_cert : Connection) (secure : bool).
Context (stamps : L * N → Z * string) (ticks : L * N → Z).
Context (policy : Retry.RetryPolicy) (failure_threshold recovery_ms : Z) (local_node_id : string).
Context `{!Wire pb.Envelope, !Wire pb.TaskRequest, !Wire pb.TaskResponse, !Wire pb.ForwardedTaskRequest,
  !Wire pb.CrdtResponse}.

(** A network that delivers: the frame reaches the other node's connection loop, and
    what that loop writes comes back.  [conn] is what the server sees of the client,
    [peer_cert] what the client sees of the server. *)
Definition wire : Endpoints (L * N) := {|
  open_connection _ _ _ _ := mret peer_cert;
  converse _ _ frame := λ s,
    match DistributedNode.handle_connection parts settings conn frame s.2 with
    | (out, _, n) => (Ok out, (s.1, n))
    end;
  stamp := stamps;
  monotonic := ticks;
  uniform _ _ := 0;
  sleep _ := mret tt;
|}.

(** An exchange returns the reply the other node computed. *)
Lemma exchange_replies h p expected message frame timeout l n reply rframe n' :
  0 < timeout → (secure = true → ∃ name, expected = Some name ∧ name ≠ "" ∧ identifies peer_cert name) →
  stopping parts n = false → DistributedNode._verify_authenticated_sender settings message conn = Ok tt →
  DistributedNode.framed settings message frame →
  DistributedNode.handle_message parts settings message n = (Ok reply, n') →
  DistributedNode.framed settings reply rframe → Message.correlation_id reply = Message.correlation_id message →
  _exchange_endpoint_raw wire (max_frame_size settings) secure h p message timeout expected (l, n) = (Ok reply, (l, n')).
Proof.
  intros Ht Hid Hst Hv Hf Hh (Hr1 & Hr2 & Hr3) Hc. unfold _exchange_endpoint_raw. rewrite (proj2 (Z.leb_gt _ _)) by lia.
  assert (∀ x, connect wire secure h p timeout expected x = (Ok tt, x)) as Hconn.
  { intros x. unfold connect. destruct secure; [|done]. destruct (Hid eq_refl) as (name & -> & Hn & Hi). simpl.
    unfold mbind, M_bind, mret, M_ret. destruct peer_cert as [[names|]|]; [|done|done]. unfold liftM, verify_node_identity.
    rewrite nonempty_true by done. simpl in *. by rewrite bool_decide_eq_true_2. }
  unfold mbind, M_bind. rewrite Hconn. unfold liftM at 1. rewrite (proj2 (proj2 Hf)). cbn [converse wire snd].
  rewrite (DistributedNode.one_request parts settings conn message frame n Hst Hv Hf), Hh, Hr3.
  pose proof (FrameDecoder.read_frame (max_frame_size settings) reply rframe "" Hr1 Hr2 Hr3) as Hr. rewrite app_nil_end in Hr.
  unfold liftM. rewrite Hr. cbn [fst]. by rewrite bool_decide_eq_true_2.
Qed.

(** The other node runs a forwarded task it can decode. *)
Lemma forwarded_runs message q n j n' c :
  cluster_service parts = Some c → Message.msg_type message = FORWARDED_REQUEST →
  decode_forwarded_request (Message.payload message) = Ok q → 0 < remaining_timeout_ms q →
  DistributedNode._execute_local parts (task_name (forwarded_task q)) (request_payload (forwarded_task q))
    (Deadline.mk (monotonic_ms parts n + remaining_timeout_ms q)) n = (Ok j, n') →
  unique_keys j → 0 ≤ perf_ns parts n ≤ perf_ns parts n' → perf_ns parts n' < 2 ^ 64 →
  ∃ reply took, DistributedNode.handle_message parts settings message n = (Ok reply, n') ∧
    Message.correlation_id reply = Message.correlation_id message ∧ Message.sender_id reply = Node.node_id settings ∧
    Message.msg_type reply = RESPONSE ∧
    decode_task_response (Message.payload reply) = Ok (mkTaskResponseData true j 0 "" took).
Proof.
  intros Hc Hty Hdec Hrem Hex Hu Hp1 Hp2. set (took := DistributedNode.elapsed parts (perf_ns parts n) n').
  destruct (DistributedNode.response_success parts settings message j took n') as (reply & Er & H1 & H2 & H3 & H4); [done| |].
  { unfold took, DistributedNode.elapsed. split; [apply Z.div_pos; lia|apply Z.div_lt_upper_bound; lia]. }
  exists reply, took. split_and!; [|done..].
  unfold DistributedNode.handle_message. rewrite Hty. unfold mbind at 1, M_bind at 1, gets at 1.
  change (bool_decide (FORWARDED_REQUEST ∈ _CONTROL_TYPES)) with false.
  change (bool_decide (FORWARDED_REQUEST ∈ _CRDT_TYPES)) with false. cbv iota.
  unfold DistributedNode.run_forwarded. rewrite Hc, Hdec. unfold DistributedNode.attempt. rewrite (proj2 (Z.leb_gt _ _)) by lia.
  unfold mbind at 1, M_bind at 1, gets at 1, mbind at 1, M_bind at 1, liftM at 1, Deadline.after.
  rewrite (proj2 (Z.leb_gt _ _)) by lia. unfold DistributedNode.succeed, mbind at 1, M_bind at 1. rewrite Hex.
  unfold mbind at 1, M_bind at 1, gets at 1. fold took. by rewrite Er.
Qed.

(** C15: forwarding a task is running it on the other node.  At the first contact with a
    peer, over a network that delivers, with both frames within the limit and (under
    TLS) each side's certificate naming it, [forward_task] encodes the task with the
    time that is left, passes retry and circuit breaker, frames, connects, and returns
    exactly the value that [_execute_local] computed on the peer under a deadline of
    that remaining time; the peer's state is the one that execution left, and the
    breaker for the peer is closed with no failure counted. *)
Theorem forward_is_remote_execution peer name payload key l n j n' c :
  1 ≤ Retry.max_attempts policy → 1 ≤ failure_threshold → 0 < recovery_ms →
  name ≠ "" → local_node_id ≠ "" → Node.node_id settings ≠ "" → unique_keys payload →
  ∀ deadline d, d !! ClusterMember.node_id peer = None →
  let remaining := Deadline.remaining deadline (ticks (l, n)) in 0 < remaining < 2 ^ 32 →
  (stamps (l, n)).2 ≠ "" → (secure = true → ClusterMember.node_id peer ≠ "" ∧ identifies peer_cert (ClusterMember.node_id peer)) →
  stopping parts n = false → cluster_service parts = Some c →
  (∀ m, Message.sender_id m = local_node_id → DistributedNode._verify_authenticated_sender settings m conn = Ok tt) →
  (∀ data, encode_forwarded_request name payload key local_node_id remaining = Ok data →
     let q := forwarded_message wire local_node_id (l, n) (stamps (l, n)).2 data in
     is_ok (encode_frame q (max_frame_size settings)) = true ∧
     ∀ reply, DistributedNode.handle_message parts settings q n = (Ok reply, n') →
       is_ok (encode_frame reply (max_frame_size settings)) = true) →
  DistributedNode._execute_local parts name payload (Deadline.mk (monotonic_ms parts n + remaining)) n = (Ok j, n') →
  unique_keys j → 0 ≤ perf_ns parts n ≤ perf_ns parts n' → perf_ns parts n' < 2 ^ 64 →
  forward_task wire local_node_id (max_frame_size settings) secure policy failure_threshold recovery_ms
    peer name payload key local_node_id deadline (d, (l, n)) =
  (Ok j, (<[ClusterMember.node_id peer := fresh_breaker failure_threshold recovery_ms]> d, (l, n'))).
Proof.
  intros Hma Hft Hrt Hname Hlocal Hnode Hup deadline d Hd remaining Hrem Hcid Hsec Hst Hc Hauth Hfit Hex Hu Hp1 Hp2.
  destruct (encode_forwarded_request name payload key local_node_id remaining) as [data|e] eqn:Een.
  2: { pose proof (ClusterCodecSpec.forwarded_task_roundtrip name payload key local_node_id remaining Hname Hlocal ltac:(lia) Hup) as Hb.
       by rewrite Een in Hb. }
  assert (decode_forwarded_request data = Ok (mkForwardedTaskData (mkTaskRequestData name payload key) local_node_id remaining)) as Hdec.
  { pose proof (ClusterCodecSpec.forwarded_task_roundtrip name payload key local_node_id remaining Hname Hlocal ltac:(lia) Hup) as Hb.
    by rewrite Een in Hb. }
  destruct (first_attempt wire local_node_id (max_frame_size settings) secure policy failure_threshold recovery_ms peer name
    payload key local_node_id deadline (d, (l, n)) data Hma Hft Hrt Hd ltac:(simpl; lia) Een) as [Hok _].
  set (q := forwarded_message wire local_node_id (l, n) (stamps (l, n)).2 data).
  assert (Message.correlation_id q = (stamps (l, n)).2) as Hq.
  { unfold q, forwarded_message, Message.new_request. simpl. by destruct (nonempty _). }
  destruct (forwarded_runs q _ n j n' c Hc eq_refl Hdec ltac:(simpl; lia) Hex Hu Hp1 Hp2)
    as (reply & took & Hh & R1 & R2 & R3 & R4).
  assert (∃ f, DistributedNode.framed settings q f) as [f Hf].
  { pose proof (proj1 (Hfit data eq_refl)) as Hq1. fold q in Hq1. destruct (encode_frame q _) as [f|] eqn:Ef; [|done].
    exists f. split_and!; [done|congruence|done]. }
  assert (∃ f, DistributedNode.framed settings reply f) as [rf Hrf].
  { pose proof (proj2 (Hfit data eq_refl) reply Hh) as Hr1. destruct (encode_frame reply _) as [rf|] eqn:Ef; [|done].
    exists rf. split_and!; [congruence|congruence|done]. }
  rewrite (Hok reply (l, n')).
  - rewrite bool_decide_eq_true_2 by (rewrite R3; set_solver). unfold mbind, M_bind, liftM. rewrite R4. done.
  - apply (exchange_replies _ _ _ q f _ l n reply rf n'); [simpl; lia| |done|by apply Hauth|done|done|done|done].
    intros Hs. unfold expecting. rewrite Hs. destruct (Hsec Hs) as [Hn Hi]. eauto.
Qed.
End rpc.
End ForwardRpc.

(** ** A task forwarded from [n2] to [n1] *)
Module ForwardSample.
Import ClusterPeerClient PeerClientSpec.
#[local] Instance task_wire : Wire pb.TaskRequest := table_wire [pb.mkTaskRequest "ping" "null" "k"] ltac:(simpl; lia).
#[local] Instance resp_wire : Wire pb.TaskResponse := countable_wire.
#[local] Instance fwd_wire : Wire pb.ForwardedTaskRequest :=
  table_wire [pb.mkForwarded (pb.mkTaskRequest "ping" "null" "k") "n2" 100] ltac:(simpl; lia).
#[local] Instance crdt_wire : Wire pb.CrdtResponse := countable_wire.

Definition N : Type := BackpressureController.t.
Definition parts : NodeParts N := {|
  execute name _ _ := if bool_decide (name = "ping") then mret (JStr "pong") else raiseM UnknownTaskError name;
  cluster_service := Some (λ m, mret m, λ _ _ _ _, raiseM NoRouteError "");
  crdt_service := None;
  ready _ := true;
  stopping _ := false;
  backpressure_of s := s;
  set_backpressure c _ := c;
  limiter_of _ := TokenBucketRateLimiter.mk 1 1 1 0;
  set_limiter _ s := s;
  monotonic_ms _ := 0;
  monotonic_s _ := 0%Q;
  time_ms _ := 5;
  perf_ns _ := 0;
|}.
Definition settings : Settings := mkSettings "n1" 1000 1000 true true true true.
Definition stamps (_ : unit * N) : Z * string := (5, "id1").
Definition idle : N := BackpressureController.mk 2 0.
Definition cert : Connection := Some (Some ["n2"]).
Definition peer_cert : Connection := Some (Some ["n1"]).
Definition peer : ClusterMember.t := ClusterMember.mk "n1" "h1" 7001 ALIVE 1.

(** The messages exchanged, whose envelopes get a byte each. *)
Definition data : string := SerializeToString (pb.mkForwarded (pb.mkTaskRequest "ping" "null" "k") "n2" 100).
Definition question : Message.t := Message.mk FORWARDED_REQUEST "n2" "id1" 5 8 data "" "".
Definition answer : Message.t :=
  match (DistributedNode.handle_message parts settings question idle).1 with Ok m => m | Err _ => question end.
#[local] Instance envelope_wire : Wire pb.Envelope :=
  table_wire [RpcSample.envelope question; RpcSample.envelope answer] ltac:(simpl; lia).

Lemma forward_is_remote_execution_witness :
  forward_task (ForwardRpc.wire parts settings cert peer_cert stamps (λ _, 0)) "n2" 1000 true (Retry.Policy 3 5 50) 2 100
    peer "ping" JNull "k" "n2" (Deadline.mk 100) (∅, (tt, idle)) =
  (Ok (JStr "pong"), ({["n1" := fresh_breaker 2 100]}, (tt, idle))).
Proof.
  apply (ForwardRpc.forward_is_remote_execution parts settings cert peer_cert true stamps (λ _, 0) (Retry.Policy 3 5 50) 2 100 "n2"
    peer "ping" JNull "k" tt idle (JStr "pong") idle (λ m, mret m, λ _ _ _ _, raiseM NoRouteError "")).
  - simpl. lia.
  - lia.
  - lia.
  - discriminate.
  - discriminate.
  - discriminate.
  - exact I.
  - reflexivity.
  - vm_compute. split; reflexivity.
  - discriminate.
  - intros _. split; [discriminate|]. simpl. set_solver.
  - reflexivity.
  - reflexivity.
  - intros m Hm. unfold DistributedNode._verify_authenticated_sender. simpl. rewrite Hm. reflexivity.
  - intros d Hd. assert (d = data) as -> by (vm_compute in Hd; injection Hd as <-; reflexivity). split; [vm_compute; reflexivity|].
    intros reply Hr. assert (reply = answer) as ->.
    { unfold answer. change (DistributedNode.handle_message parts settings question idle = (Ok reply, idle)) in Hr. by rewrite Hr. }
    vm_compute. reflexivity.
  - reflexivity.
  - exact I.
  - simpl. lia.
  - simpl. lia.
Defined.

(** A peer that accepts connections and closes them. *)
Definition closing : Endpoints unit := {|
  open_connection _ _ _ _ := mret peer_cert;
  converse _ _ _ := mret "";
  stamp _ := (5, "id1");
  monotonic _ := 0;
  uniform _ _ := 0;
  sleep _ := mret tt;
|}.

Lemma closed_peer_not_failed_over_witness : ∃ e s',
  forward_task closing "n2" 1000 false (Retry.Policy 3 5 50) 2 100 peer "ping" JNull "k" "n2" (Deadline.mk 100) (∅, tt) = (Err e, s') ∧
  exn_cls e = IncompleteReadError ∧
  ClusterRouter.route (Ok JNull) (λ _, Err e) (λ _, false) "n2" 0 [peer; ClusterMember.mk "n3" "h3" 7003 ALIVE 1] [] false =
    (Err e, [peer]).
Proof.
  destruct (closed_peer_not_failed_over closing "n2" 1000 false (Retry.Policy 3 5 50) 2 100 peer "ping" JNull "k" "n2"
    (Deadline.mk 100) (∅, tt) data peer_cert tt tt) as (e & s' & E & He & Hr).
  - simpl. lia.
  - lia.
  - lia.
  - reflexivity.
  - vm_compute. reflexivity.
  - vm_compute. reflexivity.
  - vm_compute. reflexivity.
  - reflexivity.
  - reflexivity.
  - reflexivity.
  - exists e, s'. split_and!; [exact E|exact He|]. apply Hr; [discriminate|reflexivity|reflexivity].
Defined.

(** [n3] answers at the address of [n1]. *)
Definition imposter : Endpoints unit := {|
  open_connection _ _ _ _ := mret (Some (Some ["n3"]));
  converse _ _ _ := mret "";
  stamp _ := (5, "id1");
  monotonic _ := 0;
  uniform _ _ := 0;
  sleep _ := mret tt;
|}.

Lemma tls_speaks_only_to_named_peer_witness : ∃ text,
  _exchange_endpoint_raw imposter 1000 true "h1" 7001 question 50 (Some "n1") tt = (raise TlsPeerIdentityError text, tt).
Proof.
  destruct (tls_speaks_only_to_named_peer imposter 1000 true "h1" 7001 question 50 tt) as [_ H]; [lia|reflexivity|].
  apply (H "n1" (Some (Some ["n3"])) tt); [reflexivity|discriminate|]. simpl. set_solver.
Defined.
End ForwardSample.
