(* ===== verification/Startup.v ===== *)
(** * Starting and stopping a node: [distsys/recovery/] and [distsys/node.py]

    The reconciliation a restored node makes with the other replicas, the coordinator of
    the recovery phases, and [DistributedNode.start] and [stop] with their clean-up.  What
    each awaited call of the services does is a parameter of [start]: it may return or
    raise anything; the theorems are about what the node then holds and reports. *)

From S2P Require Import Prelude Lattice Causal Json Crdt Storage Resilience.
From S2P Require Import Membership Ring CrdtCodec Repair AntiEntropy CrdtService Persistence Repository DurableStore Recovery.

Local Open Scope Z_scope.
Import ClusterMember (node_id, status).

(** ** [recovery/reconciliation.py] *)
Record RecoveryReconciliationResult := Reconciled {
  keys_checked : Z; authoritative_keys : Z; peers_contacted : Z; failures : Z }.

Module RecoveryReconciler.
Section reconciler.
Context {S : Type} `{CrdtStateStore S} (local_node_id : string).
(** [selector.replicas(key)], [repository.mark_authority] and
    [replication.reconcile_peer]. *)
Context (replicas : string → S → result (list ClusterMember.t)) (mark_authority : string → bool → M S unit)
  (reconcile_peer : ClusterMember.t → list string → M S ReconcileStats).

(** The first loop: each key's replica ids, and the keys this node owns, in order. *)
Fixpoint claim_keys (keys : list string) (ids_by_key : gmap string (list string)) (authoritative : list string)
    : M S (gmap string (list string) * list string) :=
  match keys with
  | [] => mret (ids_by_key, authoritative)
  | key :: keys =>
      members ← reads (replicas key);
      let ids := node_id <$> members in
      let owned := bool_decide (local_node_id ∈ ids) in
      _ ← mark_authority key owned;
      claim_keys keys (<[key := ids]> ids_by_key) (if owned then authoritative ++ [key] else authoritative)
  end.

(** The keys this node and [peer] both hold. *)
Definition relevant_keys (ids_by_key : gmap string (list string)) (authoritative : list string) (peer : ClusterMember.t)
    : list string :=
  filter (λ key, node_id peer ∈ default [] (ids_by_key !! key)) authoritative.

(** The second loop, with the peers contacted and the failures so far. *)
Fixpoint reconcile_peers (ids_by_key : gmap string (list string)) (authoritative : list string)
    (peers : list ClusterMember.t) (contacted failures : Z) : M S (Z * Z) :=
  match peers with
  | [] => mret (contacted, failures)
  | peer :: peers =>
      if bool_decide (node_id peer = local_node_id) || negb (bool_decide (status peer = ALIVE))
      then reconcile_peers ids_by_key authoritative peers contacted failures
      else
        match relevant_keys ids_by_key authoritative peer with
        | [] => reconcile_peers ids_by_key authoritative peers contacted failures
        | relevant =>
            failed ← catchM (stats ← reconcile_peer peer relevant; mret (AntiEntropy.failures stats))
              [ConnectionError; TimeoutError; OSError] (λ _, mret 1);
            reconcile_peers ids_by_key authoritative peers (contacted + 1) (failures + failed)
        end
  end.

Definition reconcile (peers : list ClusterMember.t) : M S RecoveryReconciliationResult :=
  keys ← store_keys;
  '(ids_by_key, authoritative) ← claim_keys keys ∅ [];
  '(contacted, failures) ← reconcile_peers ids_by_key authoritative peers 0 0;
  mret (Reconciled (Z.of_nat (length keys)) (Z.of_nat (length authoritative)) contacted failures).
End reconciler.
End RecoveryReconciler.

(** ** [recovery/coordinator.py]

    [restore] and [reconcile] act on [W]; the coordinator's own state is the health. *)
Module RecoveryCoordinator.
Section coordinator.
Context {W A B : Type}.
Abbreviation st := (HealthSnapshot * W)%type.

Definition set_phase (phase : RecoveryPhase) : M st unit :=
  modifyM (λ s, (HealthState.set_recovery_phase phase "" s.1, s.2)).
Definition set_ready (b : bool) : M st unit := modifyM (λ s, (HealthState.set_readiness b s.1, s.2)).
Definition awaited {C} (m : M W C) : M st C := λ s, match m s.2 with (r, w) => (r, (s.1, w)) end.

Definition prepare_persistence (restore : M W A) : M st A :=
  _ ← set_phase OPENING_REPOSITORY;
  _ ← set_phase RESTORING;
  awaited restore.

Definition mark_binding : M st unit := set_phase BINDING.
Definition mark_coordinating : M st unit := set_phase COORDINATING.
Definition mark_joining_cluster : M st unit := set_phase JOINING_CLUSTER.

(** [reconciler] is [None] until the node has made one. *)
Definition reconcile (reconciler : option (M W B)) : M st (option B) :=
  _ ← set_phase RECONCILING;
  result ← match reconciler with Some m => r ← awaited m; mret (Some r) | None => mret None end;
  _ ← set_ready true;
  _ ← set_phase READY;
  mret result.

Definition fail (exc : exn) : M st unit :=
  _ ← set_ready false;
  modifyM (λ s, (HealthState.set_recovery_phase STARTUP_FAILED (exn_msg exc) s.1, s.2)).
End coordinator.
End RecoveryCoordinator.

(** *** What reconciliation establishes *)
Module ReconcilerSpec.
Import RecoveryReconciler.
Section spec.
Context {S : Type} `{CrdtStateStore S} (local_node_id : string).
Context (replicas : string → S → result (list ClusterMember.t)) (mark_authority : string → bool → M S unit)
  (reconcile_peer : ClusterMember.t → list string → M S ReconcileStats).
(** The authority column of the repository. *)
Context (authority : S → gmap string bool).

(** The ids of the nodes that hold a key. *)
Definition ids (s : S) (k : string) : list string :=
  match replicas k s with Ok members => node_id <$> members | Err _ => [] end.

Definition owned (s : S) (k : string) : bool := bool_decide (local_node_id ∈ ids s k).

(** The other live nodes among [peers] with which [s] shares a key of [keys]. *)
Definition partner (s : S) (keys : list string) (p : ClusterMember.t) : Prop :=
  node_id p ≠ local_node_id ∧ status p = ALIVE ∧
  filter (λ k, owned s k = true ∧ node_id p ∈ ids s k) keys ≠ [].
#[local] Instance partner_dec s keys p : Decision (partner s keys p).
Proof. unfold partner. apply _. Defined.

(** Marking a key sets the column of its row, if it has one ([UPDATE ... WHERE key=?]).
    Exchanging state with a peer writes rows, marked authoritative, of keys that are placed
    on this node only.  Neither changes the placement of keys. *)
Hypothesis mark_spec : ∀ k b s u s', mark_authority k b s = (Ok u, s') →
  authority s' = alter (λ _, b) k (authority s) ∧ ∀ k', replicas k' s' = replicas k' s.
Hypothesis peer_spec : ∀ p ks s r s', reconcile_peer p ks s = (r, s') →
  (∀ k, authority s' !! k = authority s !! k ∨ owned s k = true ∧ authority s' !! k = Some true) ∧
  ∀ k', replicas k' s' = replicas k' s.

Lemma ids_same s s' k : (∀ k', replicas k' s' = replicas k' s) → ids s' k = ids s k.
Proof. intros E. unfold ids. by rewrite E. Qed.

Lemma claim_keys_spec keys m auth s m' auth' s' : NoDup keys →
  claim_keys local_node_id replicas mark_authority keys m auth s = (Ok (m', auth'), s') →
  (∀ k, m' !! k = if decide (k ∈ keys) then Some (ids s k) else m !! k) ∧
  auth' = auth ++ filter (λ k, owned s k = true) keys ∧
  (∀ k, authority s' !! k = if decide (k ∈ keys) then (λ _, owned s k) <$> authority s !! k else authority s !! k) ∧
  ∀ k, replicas k s' = replicas k s.
Proof using mark_spec.
  clear peer_spec reconcile_peer. revert m auth s. induction keys as [|k keys IH]; intros m auth s Hnd E; simpl in E.
  { injection E as <- <- <-. split_and!; intros; rewrite ?decide_False by apply not_elem_of_nil; try done. by rewrite app_nil_r. }
  apply NoDup_cons in Hnd as [Hk Hnd]. unfold mbind at 1, M_bind at 1, reads in E.
  destruct (replicas k s) as [members|e] eqn:Er; [|done]. unfold mbind at 1, M_bind at 1 in E.
  assert (bool_decide (local_node_id ∈ node_id <$> members) = owned s k) as Eo by (unfold owned, ids; by rewrite Er).
  rewrite Eo in E. destruct (mark_authority k (owned s k) s) as [[u|e] s1] eqn:Em; [|done].
  destruct (mark_spec _ _ _ _ _ Em) as [Ha Hr]. apply IH in E as (E1 & E2 & E3 & E4); [|done].
  assert (∀ x, ids s1 x = ids s x) as Hids by (intros x; by apply ids_same).
  assert (∀ x, owned s1 x = owned s x) as Hown by (intros x; unfold owned; by rewrite Hids).
  split_and!.
  - intros x. rewrite E1, Hids. destruct (decide (x = k)) as [->|Hx].
    + rewrite decide_False, decide_True by (done || left). rewrite lookup_insert_eq. unfold ids. by rewrite Er.
    + rewrite lookup_insert_ne by done. destruct (decide (x ∈ keys)); [rewrite decide_True by by right|rewrite decide_False by set_solver]; done.
  - rewrite E2, filter_cons. rewrite (list_filter_elem_iff _ (λ x, owned s x = true)) by (intros x _; by rewrite Hown).
    destruct (owned s k) eqn:Eok; [rewrite decide_True by done|rewrite decide_False by done]; [by rewrite <-app_assoc|done].
  - intros x. rewrite E3, Hown, Ha. destruct (decide (x = k)) as [->|Hx].
    + rewrite decide_False, decide_True by (done || left). by rewrite lookup_alter_eq.
    + rewrite lookup_alter_ne by done. destruct (decide (x ∈ keys)); [rewrite decide_True by by right|rewrite decide_False by set_solver]; done.
  - intros x. by rewrite E4.
Qed.

Lemma owned_same s s' k : (∀ k', replicas k' s' = replicas k' s) → owned s' k = owned s k.
Proof using. clear mark_spec peer_spec. intros E. unfold owned. by rewrite (ids_same s s'). Qed.

(** One exchange after another. *)
Lemma exchanges_compose s s1 s2 :
  (∀ k, authority s1 !! k = authority s !! k ∨ owned s k = true ∧ authority s1 !! k = Some true) ∧
  (∀ k, replicas k s1 = replicas k s) →
  (∀ k, authority s2 !! k = authority s1 !! k ∨ owned s1 k = true ∧ authority s2 !! k = Some true) →
  ∀ k, authority s2 !! k = authority s !! k ∨ owned s k = true ∧ authority s2 !! k = Some true.
Proof using.
  clear mark_spec peer_spec. intros [H1 Hr] H2 k. destruct (H2 k) as [->|[Ho ->]]; [apply H1|]. right.
  by rewrite <-(owned_same s s1).
Qed.

Lemma peers_spec m auth peers contacted failed s contacted' failed' s' :
  reconcile_peers local_node_id reconcile_peer m auth peers contacted failed s = (Ok (contacted', failed'), s') →
  contacted' = contacted + Z.of_nat (length (filter (λ p, node_id p ≠ local_node_id ∧ status p = ALIVE ∧
                                                     relevant_keys m auth p ≠ []) peers)) ∧
  (∀ k, authority s' !! k = authority s !! k ∨ owned s k = true ∧ authority s' !! k = Some true).
Proof using peer_spec.
  clear mark_spec mark_authority. revert contacted failed s. induction peers as [|p peers IH]; intros contacted failed s E; simpl in E.
  { injection E as <- <- <-. split; [simpl; lia|by left]. }
  rewrite filter_cons. destruct (bool_decide (node_id p = local_node_id)) eqn:El; simpl in E; boolify.
  { rewrite decide_False by naive_solver. by apply IH in E. }
  destruct (bool_decide (status p = ALIVE)) eqn:Ea; simpl in E; boolify.
  2: { rewrite decide_False by naive_solver. by apply IH in E. }
  destruct (relevant_keys m auth p) as [|k ks] eqn:Ek.
  { rewrite decide_False by naive_solver. by apply IH in E. }
  rewrite decide_True by naive_solver. unfold mbind at 1, M_bind at 1, catchM, mbind at 1, M_bind at 1 in E.
  destruct (reconcile_peer p (k :: ks) s) as [[stats|e] s1] eqn:Ep; pose proof (peer_spec _ _ _ _ _ Ep) as Ha.
  - apply IH in E as [-> Hr]. simpl. split; [lia|by eapply exchanges_compose].
  - destruct (isinstance e _); [|done]. apply IH in E as [-> Hr]. simpl. split; [lia|by eapply exchanges_compose].
Qed.

End spec.
End ReconcilerSpec.

(** ** [DistributedNode.start] and [stop]

    The calls [start] and [stop] make on the node's parts, constructors that may raise
    included. *)
Inductive call :=
  | executor_start | build_contexts | open_repository | restore | start_server | make_coordination
  | coordination_bootstrap | make_cluster | cluster_start | make_crdt | crdt_start_fast_path | alive_members
  | reconcile_peers | crdt_start_anti_entropy | crdt_start
  | crdt_stop | cluster_stop | coordination_stop | server_close | close_connections | repository_close | executor_close.

#[export] Instance call_eq_dec : EqDecision call.
Proof. solve_decision. Defined.

Module NodeLifecycle.
Record Settings := mkSettings {
  crdt_enabled : bool; persistence_enabled : bool; cluster_enabled : bool; etcd_enabled : bool }.

(** What the node holds: the fields that are not [None].  [log] is what an observer sees:
    each call with the readiness at that moment. *)
Record t := mk {
  health : HealthSnapshot;
  repository : bool;
  recovery_coordinator : bool;
  _server : bool;
  coordination_service : bool;
  cluster_service : bool;
  crdt_service : bool;
  _stopping : bool;
  log : list (call * bool);
}.

(** A fresh node: [__init__]. *)
Definition init : t := mk HealthState.init false false false false false false false [].

Definition is_running (s : t) : bool := _server s && negb (_stopping s).

Definition set_health (f : HealthSnapshot → HealthSnapshot) (s : t) : t :=
  mk (f (health s)) (repository s) (recovery_coordinator s) (_server s) (coordination_service s) (cluster_service s)
    (crdt_service s) (_stopping s) (log s).
Definition set_repository (b : bool) (s : t) : t :=
  mk (health s) b (recovery_coordinator s) (_server s) (coordination_service s) (cluster_service s)
    (crdt_service s) (_stopping s) (log s).
Definition set_coordinator (s : t) : t :=
  mk (health s) (repository s) true (_server s) (coordination_service s) (cluster_service s)
    (crdt_service s) (_stopping s) (log s).
Definition set_server (b : bool) (s : t) : t :=
  mk (health s) (repository s) (recovery_coordinator s) b (coordination_service s) (cluster_service s)
    (crdt_service s) (_stopping s) (log s).
Definition set_coordination (b : bool) (s : t) : t :=
  mk (health s) (repository s) (recovery_coordinator s) (_server s) b (cluster_service s)
    (crdt_service s) (_stopping s) (log s).
Definition set_cluster (b : bool) (s : t) : t :=
  mk (health s) (repository s) (recovery_coordinator s) (_server s) (coordination_service s) b
    (crdt_service s) (_stopping s) (log s).
Definition set_crdt (b : bool) (s : t) : t :=
  mk (health s) (repository s) (recovery_coordinator s) (_server s) (coordination_service s) (cluster_service s)
    b (_stopping s) (log s).
Definition set_stopping (b : bool) (s : t) : t :=
  mk (health s) (repository s) (recovery_coordinator s) (_server s) (coordination_service s) (cluster_service s)
    (crdt_service s) b (log s).
Definition observe (c : call) (s : t) : t :=
  mk (health s) (repository s) (recovery_coordinator s) (_server s) (coordination_service s) (cluster_service s)
    (crdt_service s) (_stopping s) (log s ++ [(c, readiness (health s))]).

Section lifecycle.
Context {W : Type} (run : call → M W unit) (settings : Settings).
Abbreviation st := (t * W)%type.

Definition await (c : call) : M st unit := λ s, match run c s.2 with (r, w) => (r, (observe c s.1, w)) end.
Definition update (f : t → t) : M st unit := modifyM (λ s, (f s.1, s.2)).
Definition set_phase (p : RecoveryPhase) : M st unit := update (set_health (HealthState.set_recovery_phase p "")).

(** Opening and restoring; whether something was restored. *)
Definition prepare : M st bool :=
  if crdt_enabled settings && persistence_enabled settings then
    _ ← update (set_repository true);
    _ ← await open_repository;
    _ ← update set_coordinator;
    _ ← set_phase OPENING_REPOSITORY;
    _ ← set_phase RESTORING;
    _ ← await restore;
    mret true
  else _ ← set_phase RESTORING; mret false.

Definition coordinate (restored : bool) : M st unit :=
  if etcd_enabled settings then
    if negb restored then raiseM RuntimeError "ETCD_ENABLED clustered CRDT startup requires durable node identity"
    else
      _ ← set_phase COORDINATING;
      _ ← await make_coordination;
      _ ← update (set_coordination true);
      _ ← await coordination_bootstrap;
      update (set_health (HealthState.set_coordination true "healthy"))
  else update (set_health (HealthState.set_coordination true "disabled")).

Definition become_ready : M st unit :=
  _ ← update (set_health (HealthState.set_readiness true)); set_phase READY.

Definition start_crdt (restored : bool) : M st unit :=
  _ ← await make_crdt;
  _ ← update (set_crdt true);
  if restored then
    _ ← await crdt_start_fast_path;
    _ ← await alive_members;
    _ ← set_phase RECONCILING;
    _ ← await reconcile_peers;
    _ ← become_ready;
    await crdt_start_anti_entropy
  else
    _ ← await crdt_start;
    become_ready.

Definition join_cluster (restored : bool) : M st unit :=
  _ ← coordinate restored;
  _ ← set_phase JOINING_CLUSTER;
  _ ← await make_cluster;
  _ ← update (set_cluster true);
  _ ← await cluster_start;
  _ ← update (set_health (HealthState.set_cluster true));
  if crdt_enabled settings then start_crdt restored else mret tt.

(** The body of the [try]. *)
Definition start_services : M st unit :=
  _ ← await build_contexts;
  restored ← prepare;
  _ ← set_phase BINDING;
  _ ← await start_server;
  _ ← update (set_server true);
  if cluster_enabled settings then join_cluster restored else become_ready.

(** [if self.x is not None: await self.x.stop(); self.x = None] *)
Definition release (held : t → bool) (c : call) (drop : t → t) : M st unit :=
  b ← gets (λ s : st, held s.1);
  if (b : bool) then _ ← await c; update drop else mret tt.

(** The [except] clause, up to its [raise]. *)
Definition clean_up (exc : exn) : M st unit :=
  durable ← gets (λ s : st, recovery_coordinator s.1);
  _ ← (if (durable : bool)
       then _ ← update (set_health (HealthState.set_readiness false));
            update (set_health (HealthState.set_recovery_phase STARTUP_FAILED (exn_msg exc)))
       else mret tt);
  _ ← release crdt_service crdt_stop (set_crdt false);
  _ ← release cluster_service cluster_stop (set_cluster false);
  _ ← release coordination_service coordination_stop (set_coordination false);
  _ ← release _server server_close (set_server false);
  _ ← release repository repository_close (set_repository false);
  await executor_close.

Definition start : M st unit :=
  s ← getM;
  if is_running s.1 then mret tt
  else
    _ ← update (set_stopping false);
    _ ← await executor_start;
    catchM start_services [Exception] (λ exc, _ ← clean_up exc; failM exc).

Definition stop : M st unit :=
  s ← getM;
  if _stopping s.1 then mret tt
  else
    _ ← update (set_stopping true);
    _ ← release crdt_service crdt_stop (set_crdt false);
    _ ← release cluster_service cluster_stop (set_cluster false);
    _ ← release coordination_service coordination_stop (set_coordination false);
    _ ← release _server server_close (set_server false);
    _ ← await close_connections;
    _ ← release repository repository_close (set_repository false);
    await executor_close.
End lifecycle.
End NodeLifecycle.

(** *** The life cycle of a node *)
Module LifecycleSpec.
Import NodeLifecycle.

(** The calls of a complete start, each with the readiness reported when it is made. *)
Definition startup (settings : Settings) : list (call * bool) :=
  [(executor_start, false); (build_contexts, false)] ++
  (if crdt_enabled settings && persistence_enabled settings then [(open_repository, false); (restore, false)] else []) ++
  [(start_server, false)] ++
  (if cluster_enabled settings then
     (if etcd_enabled settings then [(make_coordination, false); (coordination_bootstrap, false)] else []) ++
     [(make_cluster, false); (cluster_start, false)] ++
     (if crdt_enabled settings then
        (make_crdt, false) ::
        (if persistence_enabled settings
         then [(crdt_start_fast_path, false); (alive_members, false); (reconcile_peers, false);
               (crdt_start_anti_entropy, true)]
         else [(crdt_start, false)])
      else [])
   else []).

(** The releases a node makes of what it holds: the youngest part first. *)
Definition releases (s : t) : list call :=
  (if crdt_service s then [crdt_stop] else []) ++
  (if cluster_service s then [cluster_stop] else []) ++
  (if coordination_service s then [coordination_stop] else []) ++
  (if _server s then [server_close] else []).

Definition store_releases (s : t) : list call := if repository s then [repository_close] else [].

(** A node that holds nothing. *)
Definition idle (s : t) : Prop :=
  repository s = false ∧ _server s = false ∧ coordination_service s = false ∧ cluster_service s = false ∧
  crdt_service s = false.

#[local] Instance idle_dec s : Decision (idle s).
Proof. unfold idle. apply _. Defined.

Definition is_release (c : call) : bool :=
  match c with
  | crdt_stop | cluster_stop | coordination_stop | server_close | close_connections | repository_close | executor_close => true
  | _ => false
  end.

Section spec.
Context {W : Type} (run : call → M W unit) (settings : Settings).

(** No part raises when it is closed. *)
Definition closes : Prop := ∀ c w, is_release c = true → ∃ w', run c w = (Ok tt, w').

(** [s'] is [s] after a start: what it holds is what the settings ask for. *)
Definition started (s' : t) : Prop :=
  is_running s' = true ∧ repository s' = crdt_enabled settings && persistence_enabled settings ∧
  coordination_service s' = cluster_enabled settings && etcd_enabled settings ∧
  cluster_service s' = cluster_enabled settings ∧ crdt_service s' = cluster_enabled settings && crdt_enabled settings.

Lemma release_spec held c drop s w : closes → is_release c = true →
  ∃ w', release run held c drop (s, w) = (Ok tt, (if held s then drop (observe c s) else s, w')).
Proof using.
  intros H Hc. unfold release, gets, mbind, M_bind. cbn. destruct (held s); [|by eexists].
  unfold await. cbn. destruct (H c w Hc) as [w' ->]. by eexists.
Qed.

Lemma await_release c s w : closes → is_release c = true → ∃ w', await run c (s, w) = (Ok tt, (observe c s, w')).
Proof using. intros H Hc. unfold await. cbn. destruct (H c w Hc) as [w' ->]. by eexists. Qed.

(** Run the releases that come next in the goal. *)
Ltac releasing H :=
  try (unfold mbind at 1, M_bind at 1);
  match goal with
  | |- context [release run ?held ?c ?drop (?s, ?w)] =>
      let w' := fresh "w" in let E := fresh "E" in
      destruct (release_spec held c drop s w H eq_refl) as [w' E]; rewrite E; clear E; cbn iota beta
  | |- context [await run ?c (?s, ?w)] =>
      let w' := fresh "w" in let E := fresh "E" in
      destruct (await_release c s w H eq_refl) as [w' E]; rewrite E; clear E; cbn iota beta
  end.

(** The health a failed start reports. *)
Definition failed (exc : exn) (s : t) : HealthSnapshot :=
  if recovery_coordinator s
  then HealthState.set_recovery_phase STARTUP_FAILED (exn_msg exc) (HealthState.set_readiness false (health s))
  else health s.

Lemma clean_up_spec exc s w : closes → ∃ s' w', clean_up run exc (s, w) = (Ok tt, (s', w')) ∧
  idle s' ∧ health s' = failed exc s ∧ recovery_coordinator s' = recovery_coordinator s ∧
  log s' = log s ++ ((λ c, (c, readiness (failed exc s))) <$> releases s ++ store_releases s ++ [executor_close]).
Proof using.
  intros H. unfold clean_up. unfold mbind at 1, M_bind at 1, gets. cbn [fst].
  set (s0 := set_health (λ _, failed exc s) s).
  assert ((if recovery_coordinator s
       then _ ← update (set_health (HealthState.set_readiness false));
            update (set_health (HealthState.set_recovery_phase STARTUP_FAILED (exn_msg exc)))
       else mret tt) (s, w) = (Ok tt, (s0, w))) as E.
  { unfold s0, set_health, failed. destruct s as [h rep coord srv co cl cr st lg]. cbn.
    destruct coord; done. }
  unfold mbind at 1, M_bind at 1. rewrite E. clear E. cbn iota beta.
  do 6 releasing H.
  do 2 eexists. split; [done|]. subst s0. destruct s as [h rep coord srv co cl cr st lg].
  destruct rep, srv, co, cl, cr; cbn; rewrite <-?app_assoc; done.
Qed.

(** A node that may be started: it holds nothing and does not report itself ready. *)
Definition startable (s : t) : Prop := idle s ∧ readiness (health s) = false.

(** Whether the settings lead to the code that reports the node ready. *)
Definition reports_ready : bool := negb (cluster_enabled settings) || crdt_enabled settings.

Definition services_post (s : t) (r : result unit) (s' : t) : Prop :=
  match r with
  | Ok _ => started s' ∧ log s' = log s ++ tail (startup settings) ∧
            (if reports_ready
             then readiness (health s') = true ∧ recovery_phase (health s') = READY
             else readiness (health s') = false ∧ recovery_phase (health s') = JOINING_CLUSTER)
  | Err _ => prefix (log s') (log s ++ tail (startup settings)) ∧ prefix (log s) (log s') ∧
             (recovery_coordinator s' = true ∨ readiness (health s') = false)
  end.

(** Await the next call: either outcome. *)
Ltac awaiting :=
  match goal with
  | |- context [run ?c ?w] => destruct (run c w) as [[[]|?] ?]; cbn
  end.

Ltac prefixed :=
  rewrite <-?app_assoc; cbn [app];
  first [done | by apply prefix_app_r | apply prefix_app; repeat apply prefix_cons; apply prefix_nil | by apply prefix_app_r | by eexists].

Lemma services_spec s w r s' w' : startable s → _stopping s = false →
  start_services run settings (s, w) = (r, (s', w')) → services_post s r s'.
Proof using.
  intros H Hs E. change (services_post s (r, (s', w')).1 (r, (s', w')).2.1). rewrite <-E. clear E.
  destruct s as [h rep coord srv co cl cr st lg], H as [(? & ? & ? & ? & ?) Hr], h as [live ready coo clu ph msg err]. cbn in *. subst.
  unfold services_post, reports_ready, started. destruct settings as [[] [] [] []]; cbn.
  all: cbv beta iota delta [start_services prepare coordinate become_ready start_crdt join_cluster set_phase await update
         modifyM mbind M_bind mret M_ret]; cbn.
  all: repeat awaiting.
  all: split_and!; eauto; try prefixed.
Qed.

(** The settings with which [start] can succeed: etcd registration needs a durable identity. *)
Definition startable_settings : bool :=
  implb (cluster_enabled settings && etcd_enabled settings) (crdt_enabled settings && persistence_enabled settings).

Lemma services_total s w : (∀ c w, ∃ w', run c w = (Ok tt, w')) → startable_settings = true →
  is_ok (start_services run settings (s, w)).1 = true.
Proof using.
  intros Hrun Hset. unfold startable_settings in Hset. destruct settings as [[] [] [] []]; cbn in Hset; try done.
  all: cbv beta iota delta [start_services prepare coordinate become_ready start_crdt join_cluster set_phase await update
         modifyM mbind M_bind mret M_ret]; cbn.
  all: repeat match goal with |- context [run ?c ?w] => destruct (Hrun c w) as [? ->]; cbn end; done.
Qed.

(** What the caller of [start] sees. *)
Definition start_post (s : t) (r : result unit) (s' : t) : Prop :=
  match r with
  | Ok _ => started s' ∧ log s' = log s ++ startup settings ∧
            (if reports_ready
             then readiness (health s') = true ∧ recovery_phase (health s') = READY
             else readiness (health s') = false ∧ recovery_phase (health s') = JOINING_CLUSTER)
  | Err e => isinstance e [Exception] = true → closes →
             idle s' ∧ readiness (health s') = false ∧
             ∃ made released, prefix made (startup settings) ∧ log s' = log s ++ made ++ released ∧
               Forall (λ x, is_release x.1 = true ∧ x.2 = false) released
  end.

Lemma releases_release s c : c ∈ releases s ++ store_releases s ++ [executor_close] → is_release c = true.
Proof using.
  clear run settings. unfold releases, store_releases. destruct (crdt_service s), (cluster_service s), (coordination_service s), (_server s), (repository s);
    cbn; rewrite ?elem_of_cons, elem_of_nil; naive_solver.
Qed.

Lemma start_spec s w r s' w' : startable s → start run settings (s, w) = (r, (s', w')) → start_post s r s'.
Proof using.
  intros Hs. unfold start, getM, mbind, M_bind. cbn [fst]. assert (is_running s = false) as ->.
  { unfold is_running. by destruct Hs as [(_ & -> & _) _]. }
  unfold update, modifyM, await. cbn [fst snd]. set (s1 := observe executor_start (set_stopping false s)).
  assert (startable s1 ∧ _stopping s1 = false ∧ log s1 = log s ++ [(executor_start, false)]) as (Hs1 & Hst & Hl).
  { destruct Hs as [Hi Hr]. split_and!; [by split|done|]. unfold s1. cbn. by rewrite Hr. }
  destruct (run executor_start w) as [[u|e] w1].
  2: { intros [= <- <- <-]. cbn. intros _ _. destruct Hs1 as [Hi Hr]. split_and!; [done..|].
       exists [(executor_start, false)], []. rewrite app_nil_r. by repeat (constructor || eexists). }
  unfold catchM. destruct (start_services run settings (s1, w1)) as [r1 [s2 w2]] eqn:E.
  apply services_spec in E; [|done..]. destruct r1 as [[]|e].
  - intros [= <- <- <-]. destruct E as (? & Hlog & ?). cbn. split_and!; try done.
    rewrite Hlog, Hl, <-app_assoc. done.
  - destruct E as ([l1 H1] & [l2 H2] & Hor). destruct (isinstance e [Exception]) eqn:Ee.
    2: { intros [= <- <- <-]. cbn. by rewrite Ee. }
    intros E. cbn. assert (closes → r = Err e ∧ idle s' ∧ readiness (health s') = false ∧
      log s' = log s2 ++ ((λ c, (c, false)) <$> releases s2 ++ store_releases s2 ++ [executor_close])) as Hc.
    { intros Hc. destruct (clean_up_spec e s2 w2 Hc) as (s3 & w3 & E3 & Hi & Hh & _ & Hlog). unfold mbind, M_bind in E. rewrite E3 in E.
      injection E as <- <- <-. assert (readiness (failed e s2) = false) as Hf.
      { unfold failed. destruct (recovery_coordinator s2) eqn:Er; [done|]. by destruct Hor. }
      rewrite Hf in Hlog. by rewrite Hh. }
    assert (∃ e', r = Err e') as [e' ->].
    { destruct (clean_up run e (s2, w2)) as [[u'|e'] s3]; [unfold failM in E|]; injection E as <- _; by eexists. }
    intros _ Hclose. destruct (Hc Hclose) as (_ & Hi & Hr & Hlog). split_and!; [done..|].
    exists ((executor_start, false) :: l2), ((λ c, (c, false)) <$> releases s2 ++ store_releases s2 ++ [executor_close]). split_and!.
    + exists l1. rewrite H2, <-app_assoc in H1. apply app_inv_head in H1. change (startup settings) with ((executor_start, false) :: tail (startup settings)).
      by rewrite H1.
    + by rewrite Hlog, H2, Hl, <-!app_assoc.
    + apply Forall_fmap, Forall_forall. intros c Hin. split; [by eapply releases_release|done].
Qed.

Lemma start_total s w : startable s → (∀ c w, ∃ w', run c w = (Ok tt, w')) → startable_settings = true →
  is_ok (start run settings (s, w)).1 = true.
Proof using.
  intros Hs Hrun Hset. unfold start, getM, mbind, M_bind. cbn [fst]. assert (is_running s = false) as ->.
  { unfold is_running. by destruct Hs as [(_ & -> & _) _]. }
  unfold update, modifyM, await. cbn [fst snd]. destruct (Hrun executor_start w) as [w1 ->].
  pose proof (services_total (observe executor_start (set_stopping false s)) w1 Hrun Hset) as H.
  unfold catchM. destruct (start_services _ _ _) as [[u|e] x]; done.
Qed.


(** A clustered node without CRDTs never reports itself ready, though its start succeeds. *)
Lemma clustered_node_without_crdt_never_ready s w r s' w' : startable s →
  cluster_enabled settings = true → crdt_enabled settings = false →
  start run settings (s, w) = (Ok r, (s', w')) → is_running s' = true ∧ readiness (health s') = false.
Proof using.
  intros Hs Hc Hd E. apply start_spec in E as ([Hrun _] & _ & Hr); [|done]. unfold reports_ready in Hr.
  rewrite Hc, Hd in Hr. by destruct Hr.
Qed.

(** What a stopped node has done: the releases of what it held, the youngest part first, the
    repository after the last connection that could use it, the executor last. *)
Lemma stop_spec s w : closes → _stopping s = false →
  ∃ s' w', stop run (s, w) = (Ok tt, (s', w')) ∧ idle s' ∧ _stopping s' = true ∧
    (log s').*1 = (log s).*1 ++ releases s ++ [close_connections] ++ store_releases s ++ [executor_close].
Proof using.
  clear settings. intros H Hs. unfold stop. unfold mbind at 1, M_bind at 1, getM. cbn [fst]. rewrite Hs.
  unfold mbind at 1, M_bind at 1, update at 1, modifyM at 1. cbn [fst snd]. do 7 releasing H. do 2 eexists. split; [done|].
  destruct s as [h rep coord srv co cl cr st lg].
  destruct rep, srv, co, cl, cr; cbn; rewrite ?fmap_app, <-?app_assoc; cbn; done.
Qed.
End spec.
End LifecycleSpec.

(** ** The laws hold of the SQLite repository *)
Module SqliteAuthority.
Import SQLiteStateRepository.

Definition authority (s : DurableCrdtStore.t) : gmap string bool :=
  last_authoritative <$> crdt_entries (database (DurableCrdtStore.repository s)).

Lemma sqlite_mark_spec k b (s : DurableCrdtStore.t) u s' :
  DurableCrdtStore.on_repository (mark_authority k b) s = (Ok u, s') → authority s' = alter (λ _, b) k (authority s).
Proof.
  unfold DurableCrdtStore.on_repository, mark_authority, mbind, M_bind, _ensure_open. destruct s as [m [x o d fs] c]. simpl.
  destruct o; [|done]. unfold run. cbn [executor _opened database fates]. destruct (PersistenceExecutor._acquire _ _ _ x) as [[a|e] x']; [|done].
  destruct (disk_does _); [|done|].
  - unfold transaction. destruct (column _) as [now|] eqn:Ec; simpl; [|done]. intros [= _ <-]. unfold authority. simpl.
    apply map_eq. intros j. rewrite lookup_fmap. destruct (decide (j = k)) as [->|Hj].
    + rewrite !lookup_alter_eq, lookup_fmap. by destruct (crdt_entries d !! k).
    + by rewrite !lookup_alter_ne, lookup_fmap by done.
  - unfold transaction. destruct (column _) as [now|]; done.
Qed.
End SqliteAuthority.

Module StartupSample.
Import SQLiteStateRepository SqliteAuthority RecoverySample.
Abbreviation durable := (DurableCrdtStore.t (R := SQLiteStateRepository.t)).
#[local] Existing Instance DurableCrdtStore.durable_store.

(** A restarted node [n1] that holds ["k"], with a second replica it cannot reach. *)
Definition s0 : durable :=
  DurableCrdtStore.mk {["k" := entry1]} (disk [] (database (DurableCrdtStore.repository written.2)))
    (CausalClock.init actor1).
Definition placed (k : string) (s : durable) : result (list ClusterMember.t) :=
  Ok [RingSample.member "n1" ALIVE; RingSample.member "n2" ALIVE].
Definition unreachable (p : ClusterMember.t) (ks : list string) : M durable ReconcileStats :=
  raiseM ConnectionError "refused".
Definition mark (k : string) (b : bool) : M durable unit := DurableCrdtStore.on_repository (mark_authority k b).
Definition peers : list ClusterMember.t := [RingSample.member "n2" ALIVE; RingSample.member "n3" ALIVE].


(** A node with every service, whose restart in the middle of a partition fails and
    then succeeds. *)
Definition all : NodeLifecycle.Settings := NodeLifecycle.mkSettings true true true true.
Definition partitioned (c : call) : M bool unit := λ up,
  if bool_decide (c = cluster_start) && negb up then (raise ConnectionError "no seed", up) else (Ok tt, up).

End StartupSample.
