(* ===== verification/Client.v ===== *)
(** * The clients: [distsys/client.py] and [distsys/crdt_client.py]

    [DistributedClient] sends tasks over one connection per request or over a connection
    it keeps, [CrdtClient] sends CRDT operations and accumulates the session's causal
    token.  A connection is the bytes that have arrived and those that will, with their
    arrival times; what opening, writing and closing do is a parameter ([Transport]).
    Times are in milliseconds. *)

From Stdlib Require Import Ascii QArith.
From S2P Require Import Prelude Lattice Causal Json Crdt Storage Resilience.
From S2P Require Import Membership Ring Proto Protocol Cluster CrdtCodec Outbox Repair AntiEntropy CrdtService PeerClient Node Rpc.

Local Open Scope Z_scope.

(** ** Connections *)
Inductive event := Bytes (data : string) | Eof.

(** A stream reader: what has arrived, and what will and when. *)
Record reader := Reader { buffer : string; coming : list (Z * event) }.

Definition fresh_reader : reader := Reader "" [].

Record Transport (N : Type) := {
  (** [asyncio.wait_for(asyncio.open_connection(...), timeout)] *)
  open_connection : M N unit;
  (** [writer.write(frame); await asyncio.wait_for(writer.drain(), timeout)]: what the
      server will send in return, with the delays *)
  deliver : string → M N (list (Z * event));
  (** [writer.is_closing()] *)
  is_closing : N → bool;
  (** [writer.close(); await writer.wait_closed()] *)
  hang_up : M N unit;
  (** [int(time.time() * 1000)] and [str(uuid.uuid4())] *)
  stamp : N → Z * string;
}.
Arguments open_connection {_} _.
Arguments deliver {_} _ _.
Arguments is_closing {_} _ _.
Arguments hang_up {_} _.
Arguments stamp {_} _ _.

Section streams.
Context {N : Type} (net : Transport N) (max_frame_size timeout : Z).
Context `{!Wire pb.Envelope}.
Abbreviation world := (Z * N)%type.

Definition environment {A} (m : M N A) : M world A := λ w, match m w.2 with (r, n) => (r, (w.1, n)) end.

(** [read_message] was cancelled while it waited: a header that had arrived is gone. *)
Definition interrupted (buffer : string) : string :=
  if decide (HEADER_SIZE ≤ String.length buffer)%nat then str_drop HEADER_SIZE buffer else buffer.

(** [asyncio.wait_for(read_message(reader), ...)] until [deadline]. *)
Fixpoint read_until (deadline now : Z) (buffer : string) (coming : list (Z * event)) : result Message.t * (Z * reader) :=
  match read_message max_frame_size buffer with
  | (Ok m, rest) => (Ok m, (now, Reader rest coming))
  | (Err e, rest) =>
      if isinstance e [IncompleteReadError] then
        match coming with
        | (at_, ev) :: later =>
            if at_ <=? deadline then
              match ev with
              | Bytes data => read_until deadline (Z.max now at_) (buffer +:+ data) later
              | Eof => (Err e, (Z.max now at_, Reader "" coming))
              end
            else (raise TimeoutError "", (Z.max now deadline, Reader (interrupted buffer) coming))
        | [] => (raise TimeoutError "", (Z.max now deadline, Reader (interrupted buffer) coming))
        end
      else (Err e, (now, Reader rest coming))
  end.

Definition receive : M (reader * world) Message.t := λ s,
  match read_until (s.2.1 + timeout) s.2.1 (buffer s.1) (coming s.1) with
  | (r, (now, rd)) => (r, (rd, (now, s.2.2)))
  end.

Definition arriving (now : Z) (events : list (Z * event)) : list (Z * event) := (λ x, (now + x.1, x.2)) <$> events.

Definition send (frame : string) : M (reader * world) unit := λ s,
  match deliver net frame s.2.2 with
  | (Ok events, n) => (Ok tt, (Reader (buffer s.1) (coming s.1 ++ arriving s.2.1 events), (s.2.1, n)))
  | (Err e, n) => (Err e, (s.1, (s.2.1, n)))
  end.

(** [Message.new_request(sender_id=..., payload=..., msg_type=...)] *)
Definition request_message (client_id : string) (msg_type : MessageType) (payload : string) (n : N) : Message.t :=
  Message.new_request (stamp net n).1 (stamp net n).2 client_id payload None 8 msg_type "" "".

(** [finally: writer.close(); try: await writer.wait_closed() except ConnectionError: pass] *)
Definition closing {A} (m : M (reader * world) A) : M world A := λ w,
  match m (fresh_reader, w) with
  | (r, (_, w)) =>
      match environment (catchM (hang_up net) [ConnectionError] (λ _, mret tt)) w with
      | (Ok _, w) => (r, w)
      | (Err e, w) => (Err e, w)
      end
  end.
End streams.

(** ** [client.py] *)
Module DistributedClient.
Section client.
Context {N : Type} (net : Transport N) (client_id : string) (max_frame_size timeout : Z).
Context `{!Wire pb.Envelope, !Wire pb.TaskRequest, !Wire pb.TaskResponse}.
Abbreviation world := (Z * N)%type.

(** [_reader] and [_writer] are set and reset together. *)
Abbreviation st := (option reader * world)%type.

Definition connected (s : st) : bool := match s.1 with Some _ => negb (is_closing net s.2.2) | None => false end.

Definition connect : M st unit := λ s,
  if connected s then (Ok tt, s)
  else match environment (open_connection net) s.2 with
       | (Ok _, w) => (Ok tt, (Some fresh_reader, w))
       | (Err e, w) => (Err e, (s.1, w))
       end.

Definition close : M st unit := λ s,
  match s.1 with
  | None => (Ok tt, s)
  | Some _ =>
      match environment (catchM (hang_up net) [ConnectionError] (λ _, mret tt)) s.2 with
      | (r, w) => (r, (None, w))
      end
  end.

Definition decode_reply (request response : Message.t) : result json :=
  if bool_decide (Message.correlation_id response = Message.correlation_id request) then
    decoded ← decode_task_response (Message.payload response);
    if success decoded then Ok (response_result decoded)
    else Err (Exn RemoteTaskError (error_message decoded) (error_code decoded))
  else raise CorrelationMismatch ("expected " +:+ Message.correlation_id request +:+ ", got " +:+
                                  Message.correlation_id response).

Definition _round_trip (task_name : string) (payload : json) (routing_key : string) : M (reader * world) json :=
  request_payload ← liftM (encode_task_request task_name payload routing_key);
  request ← gets (λ s : reader * world, request_message net client_id REQUEST request_payload s.2.2);
  frame ← liftM (encode_frame request max_frame_size);
  _ ← send net frame;
  response ← receive max_frame_size timeout;
  liftM (decode_reply request response).

Definition request (task_name : string) (payload : json) (routing_key : string) : M world json :=
  _ ← environment (open_connection net);
  closing net (_round_trip task_name payload routing_key).

Definition request_connected (task_name : string) (payload : json) (routing_key : string) : M st json := λ s,
  match s.1 with
  | Some rd =>
      if is_closing net s.2.2 then (raise ConnectionError "client is not connected; call connect() first", s)
      else match _round_trip task_name payload routing_key (rd, s.2) with
           | (r, (rd, w)) => (r, (Some rd, w))
           end
  | None => (raise ConnectionError "client is not connected; call connect() first", s)
  end.
End client.
End DistributedClient.

(** ** [crdt_client.py] *)
Module CrdtClient.
Import CrdtCodec.

Record CrdtResult := mkCrdtResult {
  result_key : string; result_type : CrdtType; result_value : json; result_token : CausalToken.t;
  result_served_by : string; result_repaired : bool }.

Section client.
Context {N : Type} (net : Transport N) (client_id : string) (max_frame_size timeout : Z).
Context `{!Wire pb.Envelope, !Wire pb.CrdtMutationRequest, !Wire pb.CrdtReadRequest, !Wire pb.CrdtResponse}.
Context `{!Wire pb.CrdtReplicate, !Wire pb.CrdtFetch, !Wire pb.CrdtDigest, !Wire pb.CrdtDigestResponse}.
Abbreviation world := (Z * N)%type.

(** The session token is the client's only mutable field. *)
Abbreviation st := (CausalToken.t * world)%type.

Definition _token (explicit : option CausalToken.t) (s : st) : CausalToken.t :=
  match explicit with None => s.1 | Some t => CausalToken.merge s.1 t end.

Definition outside {A} (m : M world A) : M st A := λ s, match m s.2 with (r, w) => (r, (s.1, w)) end.

(** The connection of one exchange. *)
Definition exchange_message (request : Message.t) : M world Message.t :=
  _ ← environment (open_connection net);
  closing net (
    frame ← liftM (encode_frame request max_frame_size);
    _ ← send net frame;
    receive max_frame_size timeout).

Definition absorb (t : CausalToken.t) : M st unit := modifyM (λ s, (CausalToken.merge s.1 t, s.2)).

Definition _exchange (msg_type : MessageType) (payload : string) : M st CrdtResponseData :=
  request ← gets (λ s : st, request_message net client_id msg_type payload s.2.2);
  response ← outside (exchange_message request);
  if negb (bool_decide (Message.correlation_id response = Message.correlation_id request))
  then raiseM CrdtCorrelationMismatch ("expected " +:+ Message.correlation_id request +:+ ", got " +:+
                                       Message.correlation_id response)
  else if negb (bool_decide (Message.msg_type response = CRDT_RESPONSE))
  then raiseM ConnectionError ("expected CRDT_RESPONSE, got " +:+ MessageType_name (Message.msg_type response))
  else
    decoded ← liftM (decode_crdt_response (Message.payload response));
    if negb (success decoded) then failM (Exn RemoteCrdtError (error_message decoded) (error_code decoded))
    else _ ← absorb (resp_token decoded); mret decoded.

Definition _result (key : string) (response : CrdtResponseData) : M st CrdtResult := λ s,
  match resp_type response with
  | None => (raise ConnectionError "successful CRDT response did not include a CRDT type", s)
  | Some ty => (Ok (mkCrdtResult key ty (resp_value response) s.1 (served_by response) (repair_performed response)), s)
  end.

Definition _mutate (key : string) (crdt_type : CrdtType) (operation : string) (value : json) (amount : Z)
    (causal_token : option CausalToken.t) : M st CrdtResult :=
  token ← gets (_token causal_token);
  payload ← liftM (encode_mutation_request (mkMutationData key crdt_type operation value amount token false "" 0));
  response ← _exchange CRDT_MUTATE_REQUEST payload;
  _result key response.

Definition increment (key : string) (amount : Z) (causal_token : option CausalToken.t) (crdt_type : CrdtType)
    : M st CrdtResult :=
  if bool_decide (crdt_type ∈ [GCOUNTER; PNCOUNTER])
  then _mutate key crdt_type "increment" JNull amount causal_token
  else raiseM ValueError "increment supports GCounter or PNCounter".

Definition decrement (key : string) (amount : Z) (causal_token : option CausalToken.t) : M st CrdtResult :=
  _mutate key PNCOUNTER "decrement" JNull amount causal_token.

Definition add (key element : string) (causal_token : option CausalToken.t) : M st CrdtResult :=
  _mutate key ORSET "add" (JStr element) 0 causal_token.

Definition remove (key element : string) (causal_token : option CausalToken.t) : M st CrdtResult :=
  _mutate key ORSET "remove" (JStr element) 0 causal_token.

Definition write_register (key : string) (value : json) (causal_token : option CausalToken.t) : M st CrdtResult :=
  _mutate key MVREGISTER "write" value 0 causal_token.

Definition read (key : string) (causal_token : option CausalToken.t) : M st CrdtResult :=
  token ← gets (_token causal_token);
  payload ← liftM (encode_read_request (mkReadData key token false "" 0));
  response ← _exchange CRDT_READ_REQUEST payload;
  _result key response.
End client.
End CrdtClient.

(** *** Task sessions against a node *)
Module ClientSession.
Import DistributedClient.
Section session.
Context {N : Type} (parts : NodeParts N) (settings : Settings) (conn : Connection).
Context (client_id : string) (timeout : Z) (stamps : N → Z * string) (delay : N → Z).
Context `{!Wire pb.Envelope, !Wire pb.TaskRequest, !Wire pb.TaskResponse, !Wire pb.ForwardedTaskRequest,
  !Wire pb.CrdtResponse}.

(** A network that works: a frame reaches the node's connection loop, and what the loop
    writes arrives after a delay; a loop that raises closes the connection. *)
Definition node_transport : Transport N := {|
  open_connection := mret tt;
  deliver frame := λ n,
    match DistributedNode.handle_connection parts settings conn frame n with
    | (out, Ok _, n') => (Ok [(delay n, Bytes out)], n')
    | (out, Err _, n') => (Ok [(delay n, Bytes out); (delay n, Eof)], n')
    end;
  is_closing _ := false;
  hang_up := mret tt;
  stamp := stamps;
|}.

Record task := Task { task_name : string; task_payload : json; task_key : string }.

(** What a reply means to the caller. *)
Definition meaning (reply : Message.t) : result json :=
  decoded ← decode_task_response (Message.payload reply);
  if success decoded then Ok (response_result decoded)
  else Err (Exn RemoteTaskError (error_message decoded) (error_code decoded)).

(** The node is asked for [q] in state [n] and replies, which leaves it in a state [n1] as
    [P] says; [rf] is the frame of its reply. *)
Record turn (P : N → N → Prop) (q : task) (n : N) (reply : Message.t) (rf : string) (n1 : N) : Prop := {
  turn_state : P n n1;
  turn_asked : ∃ data frame, encode_task_request (task_name q) (task_payload q) (task_key q) = Ok data ∧
    DistributedNode.framed settings (request_message node_transport client_id REQUEST data n) frame ∧
    DistributedNode._verify_authenticated_sender settings (request_message node_transport client_id REQUEST data n) conn = Ok tt ∧
    DistributedNode.handle_message parts settings (request_message node_transport client_id REQUEST data n) n = (Ok reply, n1);
  turn_up : stopping parts n = false;
  turn_named : Rpc.named reply;
  turn_correlated : Message.correlation_id reply = (stamps n).2;
  turn_framed : encode_frame reply (max_frame_size settings) = Ok rf;
}.

(** The tasks one after the other, each handled by the node. *)
Inductive conversation (P : N → N → Prop) : list task → N → list (result json) → N → Prop :=
  | conversation_over n : conversation P [] n [] n
  | conversation_turn q qs n reply rf n1 rs n2 :
      turn P q n reply rf n1 → conversation P qs n1 rs n2 →
      conversation P (q :: qs) n (meaning reply :: rs) n2.

Abbreviation world := (Z * N)%type.
Abbreviation ask q := (request_connected node_transport client_id (max_frame_size settings) timeout
  (task_name q) (task_payload q) (task_key q)).
Abbreviation ask_once q := (request node_transport client_id (max_frame_size settings) timeout
  (task_name q) (task_payload q) (task_key q)).

(** [m] for each task. *)
Fixpoint each {S A B} (m : A → M S B) (l : list A) (s : S) : list (result B) * S :=
  match l with
  | [] => ([], s)
  | a :: l => let '(r, s1) := m a s in let '(rs, s2) := each m l s1 in (r :: rs, s2)
  end.

Lemma read_until_frame m f deadline now at_ later : Rpc.named m → encode_frame m (max_frame_size settings) = Ok f →
  at_ ≤ deadline →
  read_until (max_frame_size settings) deadline now "" ((at_, Bytes f) :: later) = (Ok m, (Z.max now at_, Reader "" later)).
Proof.
  intros [H1 H2] Hf Hd. cbn [read_until]. rewrite Rpc.read_empty. unfold raise at 1. cbn iota.
  change (isinstance (Exn IncompleteReadError "" 0) [IncompleteReadError]) with true. cbn iota.
  rewrite (proj2 (Z.leb_le _ _)) by done.
  pose proof (FrameDecoder.read_frame (max_frame_size settings) m f "" H1 H2 Hf) as Hr. rewrite app_nil_end in Hr.
  change ("" +:+ f)%string with f. destruct later; cbn [read_until]; by rewrite Hr.
Qed.
Abbreviation round_trip q := (_round_trip node_transport client_id (max_frame_size settings) timeout
  (task_name q) (task_payload q) (task_key q)).

(** The bytes of a reply that was framed are what the node writes. *)
Lemma deliver_turn P q n reply rf n1 data frame : turn P q n reply rf n1 →
  DistributedNode.framed settings (request_message node_transport client_id REQUEST data n) frame →
  DistributedNode._verify_authenticated_sender settings (request_message node_transport client_id REQUEST data n) conn = Ok tt →
  DistributedNode.handle_message parts settings (request_message node_transport client_id REQUEST data n) n = (Ok reply, n1) →
  deliver node_transport frame n = (Ok [(delay n, Bytes rf)], n1).
Proof.
  intros Ht Hf Hv Hh. cbn [deliver node_transport].
  rewrite (DistributedNode.one_request parts settings conn _ frame n (turn_up _ _ _ _ _ _ Ht) Hv Hf).
  by rewrite Hh, (turn_framed _ _ _ _ _ _ Ht).
Qed.

Lemma round_trip_turn P q n reply rf n1 now rd : turn P q n reply rf n1 → ∃ request,
  Message.correlation_id request = (stamps n).2 ∧
  round_trip q (rd, (now, n)) =
    match receive (max_frame_size settings) timeout (Reader (buffer rd) (coming rd ++ [(now + delay n, Bytes rf)]), (now, n1)) with
    | (Ok response, s') => (decode_reply request response, s')
    | (Err e, s') => (Err e, s')
    end.
Proof.
  intros Ht. destruct (turn_asked _ _ _ _ _ _ Ht) as (data & frame & Ed & Hf & Hv & Hh).
  exists (request_message node_transport client_id REQUEST data n). split; [done|].
  unfold _round_trip, mbind, M_bind, liftM, gets. rewrite Ed. cbn [fst snd].
  rewrite (proj2 (proj2 Hf)). unfold send. cbn [fst snd]. by rewrite (deliver_turn P q n reply rf n1 data frame Ht Hf Hv Hh).
Qed.

Lemma decode_reply_own request reply : Message.correlation_id reply = Message.correlation_id request →
  decode_reply request reply = meaning reply.
Proof. intros E. unfold decode_reply. by rewrite bool_decide_eq_true_2. Qed.

(** A reply that arrives in time, on a connection with nothing outstanding. *)
Lemma prompt_turn P q n reply rf n1 now : turn P q n reply rf n1 → 0 ≤ delay n ≤ timeout →
  round_trip q (fresh_reader, (now, n)) = (meaning reply, (fresh_reader, (now + delay n, n1))).
Proof.
  intros Ht Hd. destruct (round_trip_turn P q n reply rf n1 now fresh_reader Ht) as (request & Hc & ->).
  unfold receive. cbn [fst snd buffer coming fresh_reader app].
  rewrite (read_until_frame reply rf) by (apply Ht || lia). rewrite decode_reply_own by (rewrite Hc; apply Ht).
  by rewrite Z.max_r by lia.
Qed.

(** A reply that arrives too late stays outstanding. *)
Lemma late_turn P q n reply rf n1 now : turn P q n reply rf n1 → 0 ≤ timeout < delay n →
  round_trip q (fresh_reader, (now, n)) =
    (raise TimeoutError "", (Reader "" [(now + delay n, Bytes rf)], (now + timeout, n1))).
Proof.
  intros Ht Hd. destruct (round_trip_turn P q n reply rf n1 now fresh_reader Ht) as (request & Hc & ->).
  unfold receive. cbn [fst snd buffer coming fresh_reader app read_until]. rewrite Rpc.read_empty. unfold raise at 1. cbn iota.
  change (isinstance (Exn IncompleteReadError "" 0) [IncompleteReadError]) with true. cbn iota.
  rewrite (proj2 (Z.leb_gt _ _)) by lia. by rewrite Z.max_r by lia.
Qed.

(** With a reply outstanding, the next task gets that one, and leaves its own. *)
Lemma behind_turn P q n reply rf n1 now old f at_ : turn P q n reply rf n1 →
  Rpc.named old → encode_frame old (max_frame_size settings) = Ok f → at_ ≤ now + timeout →
  Message.correlation_id old ≠ (stamps n).2 →
  ∃ text, round_trip q (Reader "" [(at_, Bytes f)], (now, n)) =
    (raise CorrelationMismatch text, (Reader "" [(now + delay n, Bytes rf)], (Z.max now at_, n1))).
Proof.
  intros Ht Hn Hf Hat Hc. destruct (round_trip_turn P q n reply rf n1 now (Reader "" [(at_, Bytes f)]) Ht) as (request & Hr & ->).
  unfold receive. cbn [fst snd buffer coming app]. rewrite (read_until_frame old f) by done.
  unfold decode_reply. rewrite bool_decide_eq_false_2 by congruence. by eexists.
Qed.

Lemma ask_connected q rd w : ask q (Some rd, w) = let '(r, (rd', w')) := round_trip q (rd, w) in (r, (Some rd', w')).
Proof. unfold request_connected. cbn [fst snd is_closing node_transport]. by destruct (round_trip q (rd, w)) as [r [rd' w']]. Qed.

Lemma ask_once_round_trip q w : ask_once q w = let '(r, (_, w')) := round_trip q (fresh_reader, w) in (r, w').
Proof.
  unfold request, closing, mbind, M_bind, environment. cbn [open_connection node_transport hang_up catchM mret M_ret]. destruct w as [now n].
  cbn [fst snd]. by destruct (round_trip q (fresh_reader, (now, n))) as [r [rd' [now' n']]].
Qed.

(** Replies come in time. *)
Definition prompt (n n1 : N) : Prop := 0 ≤ delay n ≤ timeout.

(** A session is a sequence of calls of the node.  As long as the node replies in time
    to every task, the results a client gets over the connection it keeps, and those it
    gets over one connection per request, are the meanings of the node's replies to those
    tasks, in order, and the kept connection has nothing outstanding at the end. *)
Theorem session_is_sequence_of_calls qs n rs n' now : conversation prompt qs n rs n' → ∃ now',
  each (λ q, ask q) qs (Some fresh_reader, (now, n)) = (rs, (Some fresh_reader, (now', n'))) ∧
  each (λ q, ask_once q) qs (now, n) = (rs, (now', n')).
Proof.
  intros H. revert now. induction H as [n|q qs n reply rf n1 rs n2 Ht Hc IH]; intros now; [by eexists|].
  destruct (IH (now + delay n)) as (now' & E1 & E2). exists now'.
  pose proof (prompt_turn _ _ _ _ _ _ now Ht (turn_state _ _ _ _ _ _ Ht)) as E.
  cbn [each]. rewrite ask_connected, ask_once_round_trip, E. by rewrite E1, E2.
Qed.

(** Two requests in a row have different correlation ids. *)
Definition fresh_ids (n n1 : N) : Prop := (stamps n1).2 ≠ (stamps n).2.
Definition prompt_fresh (n n1 : N) : Prop := prompt n n1 ∧ fresh_ids n n1.
Definition late_fresh (n n1 : N) : Prop := timeout < delay n ≤ 2 * timeout ∧ fresh_ids n n1.

Definition mismatch {A} (r : result A) : Prop := ∃ text, r = raise CorrelationMismatch text.

Lemma behind_session qs n rs n' now old f at_ : 0 ≤ timeout → conversation prompt_fresh qs n rs n' →
  Rpc.named old → encode_frame old (max_frame_size settings) = Ok f → at_ ≤ now + timeout →
  Message.correlation_id old ≠ (stamps n).2 →
  Forall mismatch (each (λ q, ask q) qs (Some (Reader "" [(at_, Bytes f)]), (now, n))).1.
Proof.
  intros Htime H. revert now old f at_. induction H as [n|q qs n reply rf n1 rs n2 Ht Hc IH];
    intros now old f at_ Hn Hf Hat Hid; [constructor|].
  destruct (behind_turn _ _ _ _ _ _ now old f at_ Ht Hn Hf Hat Hid) as [text E].
  cbn [each]. rewrite ask_connected, E.
  destruct (turn_state _ _ _ _ _ _ Ht) as [[_ Hd] Hfresh].
  specialize (IH (Z.max now at_) reply rf (now + delay n) (turn_named _ _ _ _ _ _ Ht) (turn_framed _ _ _ _ _ _ Ht)).
  destruct (each _ _ _) as [rs' s'] eqn:Ee. constructor; [by eexists|]. apply IH; [lia|].
  rewrite (turn_correlated _ _ _ _ _ _ Ht). by apply not_eq_sym.
Qed.

(** One late reply ruins a kept connection.  When the reply to the first task comes
    after the timeout, [request_connected] raises [TimeoutError] and leaves the
    connection open; the reply that arrives later is taken for the reply to the next
    task, and so on: every later task of the session fails with [CorrelationMismatch],
    although the node handled each of them and replied in time. *)
Theorem late_reply_ruins_session q qs n reply rf n1 rs n' now : 0 ≤ timeout →
  turn late_fresh q n reply rf n1 → conversation prompt_fresh qs n1 rs n' →
  ∃ rs', (each (λ q, ask q) (q :: qs) (Some fresh_reader, (now, n))).1 = raise TimeoutError "" :: rs' ∧
    length rs' = length qs ∧ Forall mismatch rs'.
Proof.
  intros Htime Ht Hc. cbn [each]. destruct (turn_state _ _ _ _ _ _ Ht) as [[Hlate Hsoon] Hfresh].
  rewrite ask_connected, (late_turn _ _ _ _ _ _ now Ht) by lia.
  pose proof (behind_session qs n1 rs n' (now + timeout) reply rf (now + delay n) Htime Hc (turn_named _ _ _ _ _ _ Ht)
    (turn_framed _ _ _ _ _ _ Ht)) as Hb.
  destruct (each _ _ _) as [rs' s'] eqn:Ee. exists rs'. split; [done|]. split; [|apply Hb; [lia|]].
  - change rs' with (rs', s').1. rewrite <-Ee. generalize (Some (Reader "" [(now + delay n, Bytes rf)]), (now + timeout, n1)).
    clear. induction qs as [|q qs IH]; intros s; [done|]. cbn [each]. destruct (ask q s) as [r s1].
    specialize (IH s1). destruct (each _ _ s1) as [rs s2]. simpl in *. lia.
  - rewrite (turn_correlated _ _ _ _ _ _ Ht). by apply not_eq_sym.
Qed.
End session.
End ClientSession.

(** *** CRDT sessions against a node *)
Module CrdtSession.
Import CrdtCodec.

Lemma mapM_result_back {A B} (f : B → result A) (g : A → B) l l' :
  (∀ x y, f (g x) = Ok y → y = x) → mapM_result f (g <$> l) = Ok l' → l' = l.
Proof.
  intros Hf. revert l'. induction l as [|x l IH]; intros l' E; [by injection E as <-|].
  rewrite fmap_cons in E. simpl in E. apply bind_Ok_inv in E as (y & ->%Hf & E).
  apply bind_Ok_inv in E as (ys & ->%IH & [= <-]). done.
Qed.

(** A well-formed vector that is decoded at all is decoded to itself. *)
Lemma version_decoded v v' : VersionVector.wf v → version_from_proto (version_to_proto v) = Ok v' → v' = v.
Proof.
  intros Hw E. unfold version_from_proto, version_to_proto, counters_from_proto, counters_to_proto in E. cbn [pb.vv_entries] in E.
  apply bind_Ok_inv in E as (d & Ed & E). apply bind_Ok_inv in Ed as (l & El & [= <-]).
  apply mapM_result_back in El as ->.
  2: { intros [a c] y E'. apply bind_Ok_inv in E' as (b & Eb & [= <-]). cbn [fst snd] in Eb |- *.
       unfold actor_from_proto, CausalActor.make, actor_to_proto in Eb. cbn [pb.ca_node_id pb.ca_incarnation] in Eb.
       repeat case_match; try done. injection Eb as <-. by destruct a. }
  unfold VersionVector.init in E. case_match; [done|]. injection E as <-.
  destruct (CrdtCodecSpec.counters_normalized _ Hw) as [En _]. unfold VersionVector.build, VersionVector.items.
  rewrite En. by destruct v.
Qed.

Lemma version_decoded_wf p v : version_from_proto p = Ok v → VersionVector.wf v.
Proof.
  unfold version_from_proto. intros (d & _ & E)%bind_Ok_inv. unfold VersionVector.init in E.
  destruct (existsb _ _) eqn:Ex; [done|]. injection E as <-. apply normalized_wf. intros k n Hk.
  destruct (decide (0 ≤ n)); [done|]. exfalso. apply not_true_iff_false in Ex. apply Ex, existsb_exists.
  exists (k, n). split; [by apply list_elem_of_In, elem_of_map_to_list|]. simpl. lia.
Qed.

Section codec.
Context `{!Wire pb.CrdtMutationRequest, !Wire pb.CrdtReadRequest, !Wire pb.CrdtResponse,
          !Wire pb.CrdtReplicate, !Wire pb.CrdtFetch, !Wire pb.CrdtDigest, !Wire pb.CrdtDigestResponse}.

(** What a response says of its outcome and its token reaches the other side. *)
Lemma response_decoded r data d : encode_crdt_response r = Ok data → decode_crdt_response data = Ok d →
  success d = success r ∧ (success r = true → VersionVector.wf (CausalToken.version (resp_token r)) → resp_token d = resp_token r).
Proof.
  intros Ee Ed. unfold encode_crdt_response in Ee. destruct (success r).
  - apply bind_Ok_inv in Ee as (st & _ & Es). unfold decode_crdt_response in Ed.
    rewrite (proj1 (parse_of_serialize _ _ _ Es)) in Ed.
    cbn [pb.rs_success pb.rs_type pb.rs_value_json pb.rs_token pb.rs_state pb.rs_peer_frontier andb mbind result_bind] in Ed.
    apply bind_Ok_inv in Ed as (ty & _ & Ed). apply bind_Ok_inv in Ed as (v & _ & Ed). apply bind_Ok_inv in Ed as (t & Et & Ed).
    apply bind_Ok_inv in Ed as (e & _ & Ed). apply bind_Ok_inv in Ed as (f & _ & [= <-]). split; [done|]. intros _ Hw.
    unfold token_from_proto, token_to_proto in Et. apply bind_Ok_inv in Et as (ver & Ev & [= <-]). cbn [pb.token_version] in Ev.
    apply version_decoded in Ev as ->; [|done]. cbn [resp_token]. by destruct (resp_token r).
  - unfold decode_crdt_response in Ed. rewrite (proj1 (parse_of_serialize _ _ _ Ee)) in Ed. by injection Ed as <-.
Qed.

Lemma decoded_token_wf data d : decode_crdt_response data = Ok d → success d = true →
  VersionVector.wf (CausalToken.version (resp_token d)).
Proof.
  unfold decode_crdt_response. intros (msg & _ & E)%bind_Ok_inv. apply bind_Ok_inv in E as (ty & _ & E).
  apply bind_Ok_inv in E as (v & _ & E). apply bind_Ok_inv in E as (t & Et & E). apply bind_Ok_inv in E as (e & _ & E).
  apply bind_Ok_inv in E as (f & _ & [= <-]). cbn [success resp_token]. intros Hs. rewrite Hs in Et.
  unfold token_from_proto in Et. apply bind_Ok_inv in Et as (ver & Ev & [= <-]). by eapply version_decoded_wf.
Qed.
End codec.

Section session.
Context {N St : Type} `{ClockedStore St} (parts : NodeParts N) (settings : Settings) (conn : Connection).
Context (client_id : string) (timeout : Z) (stamps : N → Z * string) (delay : N → Z).
Context (svc_of : N → CrdtService.t St) (put_svc : CrdtService.t St → N → N).
Context (_hash : string → Z) (peers : CrdtService.CrdtPeerClient (CrdtService.t St)).
Context (request_timeout batch : Z) (clock_ms wall_ms : N → Z).
Context `{!Wire pb.Envelope, !Wire pb.TaskRequest, !Wire pb.TaskResponse, !Wire pb.ForwardedTaskRequest,
  !Wire pb.CrdtMutationRequest, !Wire pb.CrdtReadRequest, !Wire pb.CrdtResponse,
  !Wire pb.CrdtReplicate, !Wire pb.CrdtFetch, !Wire pb.CrdtDigest, !Wire pb.CrdtDigestResponse}.

(** The node runs the CRDT service. *)
Hypothesis (Hserves : crdt_service parts =
  Some (Rpc.serve_crdt settings svc_of put_svc _hash peers request_timeout batch clock_ms wall_ms)).
Hypothesis (Hput : ∀ x n, svc_of (put_svc x n) = x).
Hypothesis (Hpeers : CrdtService.good_peers peers).
Hypothesis (Hnode : node_id settings ≠ "") (Hclient : client_id ≠ "") (Hids : ∀ n, (stamps n).2 ≠ "").

Abbreviation covered t d := (VersionVector.le (CausalToken.version t) (CausalToken.version (resp_token d))).

(** The bytes ask for an operation under token [t]. *)
Definition asks (ty : MessageType) (payload : string) (t : CausalToken.t) : Prop :=
  match ty with
  | CRDT_MUTATE_REQUEST => ∃ q, decode_mutation_request payload = Ok q ∧ mut_token q = t
  | CRDT_READ_REQUEST => ∃ q, decode_read_request payload = Ok q ∧ read_token q = t
  | _ => False
  end.

(** A reply that, if it reports success, returns a token that covers [t]. *)
Definition covering (t : CausalToken.t) (reply : Message.t) : Prop := ∀ d,
  decode_crdt_response (Message.payload reply) = Ok d → success d = true → covered t d.

Lemma wire_covering n message t resp (x : CrdtService.t St) reply x' : CrdtService.answers t resp →
  CrdtService._wire_response (node_id settings) (wall_ms n) message resp x = (Ok reply, x') → x' = x ∧ covering t reply.
Proof using.
  intros Ha E. unfold CrdtService._wire_response, mbind, M_bind, liftM in E.
  destruct (encode_crdt_response resp) as [data|] eqn:Ee; [|done]. injection E as <- <-. split; [done|].
  intros d Ed Hs. cbn [Message.payload CrdtService.response_message Message.new_response] in Ed.
  destruct (response_decoded resp data d Ee Ed) as [Hsd Htok]. rewrite Hs in Hsd. symmetry in Hsd.
  destruct (Ha Hsd) as [Hw Hle]. by rewrite (Htok Hsd Hw).
Qed.

Lemma wire_state n message resp (x : CrdtService.t St) r x' :
  CrdtService._wire_response (node_id settings) (wall_ms n) message resp x = (r, x') → x' = x.
Proof using.
  unfold CrdtService._wire_response, mbind, M_bind, liftM. destruct (encode_crdt_response resp); by intros [= _ <-].
Qed.

Lemma dispatch_covering n message t x r x' : CrdtService.svc_wf x → VersionVector.wf (CausalToken.version t) →
  asks (Message.msg_type message) (Message.payload message) t →
  CrdtService.dispatch _hash peers (node_id settings) request_timeout batch (clock_ms n) (wall_ms n) message x = (r, x') →
  CrdtService.svc_wf x' ∧ ∀ reply, r = Ok reply → covering t reply.
Proof using Hpeers.
  intros Hx Ht Hasks E. unfold asks in Hasks. unfold CrdtService.dispatch in E.
  destruct (Message.msg_type message); try done.
  - destruct Hasks as (q & Eq & <-). unfold mbind, M_bind, liftM in E. rewrite Eq in E.
    destruct (CrdtService.request_deadline _ _ _ _) as [dl|]; [|injection E as <- <-; by split].
    destruct (CrdtService.mutate _ _ _ q dl x) as [[resp|e] x1] eqn:Em;
      destruct (CrdtService.mutate_hoare _ _ _ Hpeers q dl Ht x _ _ Hx I Em) as [Hx1 Ha]; [|injection E as <- <-; by split].
    rewrite (wire_state _ _ _ _ _ _ E). split; [done|]. intros reply ->. by apply (wire_covering n message _ resp x1 reply x').
  - destruct Hasks as (q & Eq & <-). unfold mbind, M_bind, liftM in E. rewrite Eq in E.
    destruct (CrdtService.request_deadline _ _ _ _) as [dl|]; [|injection E as <- <-; by split].
    destruct (CrdtService.read _ _ _ q dl x) as [[resp|e] x1] eqn:Em;
      destruct (CrdtService.read_hoare _ _ _ Hpeers q dl Ht x _ _ Hx I Em) as [Hx1 Ha]; [|injection E as <- <-; by split].
    rewrite (wire_state _ _ _ _ _ _ E). split; [done|]. intros reply ->. by apply (wire_covering n message _ resp x1 reply x').
Qed.

(** A reply that reports an error covers every token. *)
Lemma refusal_covering t reply d : decode_crdt_response (Message.payload reply) = Ok d → success d = false → covering t reply.
Proof using. intros Ed Hs d' Ed'. rewrite Ed in Ed'. injection Ed' as <-. by rewrite Hs. Qed.

Lemma serve_covering message t n r n' : CrdtService.svc_wf (svc_of n) → VersionVector.wf (CausalToken.version t) →
  asks (Message.msg_type message) (Message.payload message) t →
  Rpc.serve_crdt settings svc_of put_svc _hash peers request_timeout batch clock_ms wall_ms message n = (r, n') →
  CrdtService.svc_wf (svc_of n') ∧ ∀ reply, r = Ok reply → covering t reply.
Proof using Hpeers Hput.
  intros Hx Ht Hasks E. unfold Rpc.serve_crdt in E.
  destruct (CrdtService.handle_message _ _ _ _ _ _ _ message _) as [y x'] eqn:Eh. injection E as -> <-. rewrite Hput.
  unfold CrdtService.handle_message, CrdtService.answering in Eh.
  destruct (CrdtService.dispatch _ _ _ _ _ _ _ message _) as [y x1] eqn:Ed.
  destruct (dispatch_covering n message t _ _ _ Hx Ht Hasks Ed) as [Hx1 Hc]. destruct y as [reply|e].
  { injection Eh as <- <-. by split. }
  destruct (CrdtService.message_failure e) as [[code text]|] eqn:Ef; [|injection Eh as <- <-; by split].
  destruct (CrdtService.wire_error (node_id settings) (wall_ms n) message code text x1) as (reply & Er & _ & Hd).
  { by apply CrdtService.message_failure_code in Ef. }
  rewrite Er in Eh. injection Eh as <- <-. split; [done|]. intros reply' [= <-]. by eapply refusal_covering.
Qed.

(** What the node answers to a CRDT operation. *)
Lemma node_covering message t n r n' : CrdtService.svc_wf (svc_of n) → VersionVector.wf (CausalToken.version t) →
  asks (Message.msg_type message) (Message.payload message) t → Message.correlation_id message ≠ "" →
  DistributedNode.handle_message parts settings message n = (r, n') →
  CrdtService.svc_wf (svc_of n') ∧ ∀ reply, r = Ok reply → covering t reply ∧ Rpc.named reply.
Proof using Hpeers Hput Hserves Hnode.
  intros Hx Ht Hasks Hcid E.
  assert (DistributedNode.handle_message parts settings message n = DistributedNode._handle_crdt parts settings message n) as Eh.
  { unfold asks in Hasks. unfold DistributedNode.handle_message. destruct (Message.msg_type message); done. }
  rewrite Eh in E. unfold DistributedNode._handle_crdt, mbind, M_bind, gets in E. rewrite Hserves in E. destruct (_ && _).
  - unfold DistributedNode.crdt_refusal in E. apply pair_equal_spec in E as [E <-]. split; [done|]. intros reply ->.
    apply bind_Ok_inv in E as (data & Ed & [= <-]). split; [|by split].
    intros d Hd Hs. destruct (response_decoded _ data d Ed Hd) as [Hsd _]. cbn [success] in Hsd. congruence.
  - pose proof (serve_covering message t n r n' Hx Ht Hasks E) as [Hn' Hc]. split; [done|]. intros reply ->.
    split; [by apply Hc|]. eapply Rpc.serve_named; [exact Hnode|exact Hcid|exact E].
Qed.

Abbreviation net := (ClientSession.node_transport parts settings conn stamps delay).
Abbreviation world := (Z * N)%type.

(** The node accepts the client's connections. *)
Hypothesis (Hup : ∀ n, stopping parts n = false).
Hypothesis (Hauth : ∀ m, Message.sender_id m = client_id →
  DistributedNode._verify_authenticated_sender settings m conn = Ok tt).

Lemma silent_read deadline now at_ : is_ok (read_until (max_frame_size settings) deadline now "" [(at_, Bytes ""); (at_, Eof)]).1 = false.
Proof using.
  cbn [read_until]. change ("" +:+ "")%string with "". rewrite !Rpc.read_empty. unfold raise. cbn iota.
  change (isinstance (Exn IncompleteReadError "" 0) [IncompleteReadError]) with true. cbn iota.
  by destruct (at_ <=? deadline).
Qed.

(** An exchange that yields a reply yields the node's reply. *)
Lemma exchange_reply message (w : world) r w' :
  Message.sender_id message = client_id → Message.correlation_id message ≠ "" →
  (∀ reply n', DistributedNode.handle_message parts settings message w.2 = (Ok reply, n') → Rpc.named reply) →
  CrdtClient.exchange_message net (max_frame_size settings) timeout message w = (r, w') →
  (is_ok r = false ∧ w'.2 = w.2) ∨
  ∃ y, DistributedNode.handle_message parts settings message w.2 = (y, w'.2) ∧ ∀ reply, r = Ok reply → y = Ok reply.
Proof using Hup Hauth Hclient.
  intros Hsender Hcid Hnamed E. destruct w as [now n]. unfold CrdtClient.exchange_message in E.
  unfold mbind at 1, M_bind at 1, environment in E. cbn [open_connection ClientSession.node_transport mret M_ret fst snd] in E.
  unfold closing, mbind, M_bind, liftM, environment in E. cbn [fst snd hang_up ClientSession.node_transport] in E.
  destruct (encode_frame message (max_frame_size settings)) as [frame|e] eqn:Ef; [|left; by injection E as <- <-].
  right. unfold send, receive in E. cbn [fst snd deliver ClientSession.node_transport buffer coming fresh_reader app] in E.
  rewrite (DistributedNode.one_request parts settings conn message frame n (Hup n)) in E;
    [|by apply Hauth|split_and!; [by rewrite Hsender|done|done]].
  destruct (DistributedNode.handle_message parts settings message n) as [[reply|e] n'] eqn:Eh.
  - destruct (encode_frame reply (max_frame_size settings)) as [rf|e] eqn:Er.
    + exists (Ok reply). cbn [arriving fmap list_fmap fst snd buffer coming] in E. destruct (decide (now + delay n ≤ now + timeout)) as [Hd|Hd].
      * rewrite (ClientSession.read_until_frame settings reply rf) in E by (by eapply Hnamed || done). injection E as <- <-.
        split; [done|]. by intros reply' [= <-].
      * cbn [read_until] in E. rewrite Rpc.read_empty in E. unfold raise in E. cbn iota in E.
        change (isinstance (Exn IncompleteReadError "" 0) [IncompleteReadError]) with true in E. cbn iota in E.
        rewrite (proj2 (Z.leb_gt _ _)) in E by lia. by injection E as <- <-.
    + exists (Ok reply). cbn [arriving fmap list_fmap fst snd buffer coming] in E. pose proof (silent_read (now + timeout) now (now + delay n)) as Hs.
      destruct (read_until _ _ _ _ _) as [[m|e'] [now' rd]]; [done|]. by injection E as <- <-.
  - exists (Err e). cbn [arriving fmap list_fmap fst snd buffer coming] in E. pose proof (silent_read (now + timeout) now (now + delay n)) as Hs.
    destruct (read_until _ _ _ _ _) as [[m|e'] [now' rd]]; [done|]. by injection E as <- <-.
Qed.

(** The operations of a client. *)
Inductive client_op := Mutation (key : string) (ty : CrdtType) (name : string) (value : json) (amount : Z) | Read (key : string).

Definition perform (op : client_op) (explicit : option CausalToken.t) : M (CausalToken.t * world) CrdtClient.CrdtResult :=
  match op with
  | Mutation key ty name value amount =>
      CrdtClient._mutate net client_id (max_frame_size settings) timeout key ty name value amount explicit
  | Read key => CrdtClient.read net client_id (max_frame_size settings) timeout key explicit
  end.

(** The request fits the protocol: mutations as the client's methods build them. *)
Definition sendable (op : client_op) (t : CausalToken.t) : Prop :=
  match op with
  | Mutation key ty name value amount => CrdtCodecSpec.mutation_ok (mkMutationData key ty name value amount t false "" 0)
  | Read key => key ≠ "" ∧ CrdtCodecSpec.vector_valid (CausalToken.version t)
  end.

Definition op_type (op : client_op) : MessageType := match op with Mutation _ _ _ _ _ => CRDT_MUTATE_REQUEST | Read _ => CRDT_READ_REQUEST end.
Definition op_key (op : client_op) : string := match op with Mutation key _ _ _ _ => key | Read key => key end.
Definition op_data (op : client_op) (t : CausalToken.t) : result string :=
  match op with
  | Mutation key ty name value amount => encode_mutation_request (mkMutationData key ty name value amount t false "" 0)
  | Read key => encode_read_request (mkReadData key t false "" 0)
  end.

Lemma perform_exchange op explicit (s : CausalToken.t * world) : perform op explicit s =
  (payload ← liftM (op_data op (CrdtClient._token explicit s));
   response ← CrdtClient._exchange net client_id (max_frame_size settings) timeout (op_type op) payload;
   CrdtClient._result (op_key op) response) s.
Proof using. by destruct op. Qed.

Lemma op_data_asks op t data : sendable op t → op_data op t = Ok data → asks (op_type op) data t.
Proof using.
  destruct op as [key ty name value amount|key]; cbn [sendable op_data op_type asks]; intros Hs E.
  - eexists. split; [exact (CrdtCodecSpec.mutation_back _ _ Hs E)|done].
  - destruct Hs as [Hk Ht]. eexists. split; [exact (CrdtCodecSpec.read_back (mkReadData _ _ _ _ _) _ Hk Ht E)|done].
Qed.

Lemma sendable_wf op t : sendable op t → VersionVector.wf (CausalToken.version t).
Proof using. destruct op; [intros (_ & [? _] & _)|intros (_ & ? & _)]; done. Qed.

Section operation.
Context (op : client_op) (explicit : option CausalToken.t) (tok : CausalToken.t) (now : Z) (n : N).

(** The token the request carries, and the request. *)
Definition sent : CausalToken.t := match explicit with None => tok | Some t => CausalToken.merge tok t end.
Definition question (data : string) : Message.t := request_message net client_id (op_type op) data n.

Lemma tok_sent : VersionVector.le (CausalToken.version tok) (CausalToken.version sent).
Proof using.
  unfold sent. destruct explicit; [|done]. unfold CausalToken.merge. cbn [CausalToken.version]. apply VersionVector.le_merge_l.
Qed.

Lemma token_absorbed d : VersionVector.wf (CausalToken.version tok) → VersionVector.wf (CausalToken.version (resp_token d)) →
  covered sent d → CausalToken.merge tok (resp_token d) = resp_token d.
Proof using.
  intros Htok Hdw Hcov. destruct (resp_token d) as [v]. unfold CausalToken.merge. f_equal. cbn [CausalToken.version] in *.
  apply VersionVector.le_antisym; [by apply VersionVector.vv_merge_wf|done| |apply VersionVector.le_merge_r].
  apply VersionVector.le_merge_iff. split; [|done]. etrans; [apply tok_sent|done].
Qed.

(** What the exchange of a request leaves, and the reply it may yield. *)
Lemma exchange_covering data y w : CrdtService.svc_wf (svc_of n) → sendable op sent → op_data op sent = Ok data →
  CrdtClient.exchange_message net (max_frame_size settings) timeout (question data) (now, n) = (y, w) →
  CrdtService.svc_wf (svc_of w.2) ∧ ∀ reply, y = Ok reply → covering sent reply ∧
    DistributedNode.handle_message parts settings (question data) n = (Ok reply, w.2).
Proof using Hserves Hput Hpeers Hnode Hclient Hids Hup Hauth.
  intros Hx Hsend Ed Ex. pose proof (op_data_asks op sent data Hsend Ed) as Hasks.
  pose proof (sendable_wf op sent Hsend) as Hw. assert (Message.correlation_id (question data) ≠ "") as Hcid by apply Hids.
  pose proof (λ r n', node_covering (question data) sent n r n' Hx Hw Hasks Hcid) as Hnode_covers.
  apply exchange_reply in Ex; [|done|done|].
  2: { intros reply n1 Eh. by apply (Hnode_covers _ _ Eh). }
  destruct Ex as [[Hf Hsame]|(z & Ez & Hz)]; [rewrite Hsame; split; [done|]; by intros reply ->|]. cbn [snd] in Ez.
  destruct (Hnode_covers _ _ Ez) as [Hn Hc]. split; [done|].
  intros reply Hr. specialize (Hz reply Hr) as ->. split; [by apply Hc|done].
Qed.

(** C20: a client's session covers its own past.  Over the wire to a node that runs the
    CRDT service, whatever an operation does the client's token never shrinks and the
    node stays well formed; and an operation that returns hands back the value and the
    token of the node's own reply, a token that covers everything the client had seen
    before, what it passed explicitly included, and that is exactly the client's token
    from then on.  So the session goes on from all it has seen, whichever nodes it talks
    to. *)
Theorem client_session_covers_its_past r tok' now' n' :
  CrdtService.svc_wf (svc_of n) → VersionVector.wf (CausalToken.version tok) → sendable op sent →
  perform op explicit (tok, (now, n)) = (r, (tok', (now', n'))) →
  CrdtService.svc_wf (svc_of n') ∧ VersionVector.le (CausalToken.version tok) (CausalToken.version tok') ∧
  ∀ res, r = Ok res →
    CrdtClient.result_token res = tok' ∧ VersionVector.le (CausalToken.version sent) (CausalToken.version tok') ∧
    ∃ data reply d, op_data op sent = Ok data ∧
      DistributedNode.handle_message parts settings (question data) n = (Ok reply, n') ∧
      decode_crdt_response (Message.payload reply) = Ok d ∧ success d = true ∧
      CrdtClient.result_value res = resp_value d ∧ resp_token d = tok'.
Proof using Hserves Hput Hpeers Hnode Hclient Hids Hup Hauth.
  intros Hx Htok Hsend E. rewrite perform_exchange in E. change (CrdtClient._token explicit (tok, (now, n))) with sent in E.
  unfold mbind at 1, M_bind at 1, liftM in E. destruct (op_data op sent) as [data|e] eqn:Ed.
  2: { injection E as <- <- <- <-. by split_and!. }
  unfold CrdtClient._exchange, mbind, M_bind, gets, CrdtClient.outside in E. cbn [fst snd] in E. fold (question data) in E.
  destruct (CrdtClient.exchange_message _ _ _ (question data) (now, n)) as [y [now1 n1]] eqn:Ex.
  destruct (exchange_covering data y (now1, n1) Hx Hsend Ed Ex) as [Hw Hy]. cbn [snd] in Hw, Hy.
  destruct y as [reply|e]; [|injection E as <- <- <- <-; by split_and!].
  destruct (Hy reply eq_refl) as [Hc Hh]. destruct (negb _); [injection E as <- <- <- <-; by split_and!|].
  destruct (negb _); [injection E as <- <- <- <-; by split_and!|]. unfold liftM in E.
  destruct (decode_crdt_response (Message.payload reply)) as [d|e] eqn:Edec; [|injection E as <- <- <- <-; by split_and!].
  destruct (success d) eqn:Es; cbn [negb] in E; [|injection E as <- <- <- <-; by split_and!].
  unfold CrdtClient.absorb, modifyM, mret, M_ret in E. cbn [fst snd] in E. pose proof (Hc d Edec Es) as Hcov.
  rewrite (token_absorbed d Htok (decoded_token_wf _ _ Edec Es) Hcov) in E.
  unfold CrdtClient._result in E. cbn [fst snd] in E.
  assert (VersionVector.le (CausalToken.version tok) (CausalToken.version (resp_token d))) as Hle by (etrans; [apply tok_sent|done]).
  destruct (resp_type d) as [ty|]; injection E as <- <- <- <-; (split_and!; [done..|]); [|done].
  intros res [= <-]. split_and!; [done..|]. by exists data, reply, d.
Qed.
End operation.
End session.
End CrdtSession.

(** ** Concrete sessions *)
Module ClientSample.
Import DistributedClient ClientSession.
#[local] Instance task_wire : Wire pb.TaskRequest := table_wire [pb.mkTaskRequest "count" "null" ""] ltac:(simpl; lia).
#[local] Instance resp_wire : Wire pb.TaskResponse :=
  table_wire [pb.mkTaskResponse true "7" (pb.mkError 0 "") 0] ltac:(simpl; lia).
#[local] Instance fwd_wire : Wire pb.ForwardedTaskRequest := countable_wire.
#[local] Instance crdt_wire : Wire pb.CrdtResponse := countable_wire.

(** A node that counts the tasks it has run. *)
Definition N : Type := BackpressureController.t * nat.
Definition at_ (n : nat) : N := (BackpressureController.mk 2 0, n).
Definition parts : NodeParts N := {|
  execute _ _ _ := λ n, (Ok (JInt 7), (n.1, Datatypes.S n.2));
  cluster_service := None;
  crdt_service := None;
  ready _ := true;
  stopping _ := false;
  backpressure_of n := n.1;
  set_backpressure c n := (c, n.2);
  limiter_of _ := TokenBucketRateLimiter.mk 1 1 1 0;
  set_limiter _ n := n;
  monotonic_ms _ := 0;
  monotonic_s _ := 0%Q;
  time_ms _ := 5;
  perf_ns _ := 0;
|}.
Definition settings : Settings := mkSettings "n1" 1000 1000 false false false false.
Definition stamps (n : N) : Z * string := (5, match n.2 with O => "a" | 1%nat => "b" | _ => "c" end).
Definition q : task := Task "count" JNull "".

Definition asked (n : nat) : Message.t :=
  Message.mk REQUEST "client" (stamps (at_ n)).2 5 8 (SerializeToString (pb.mkTaskRequest "count" "null" "")) "" "".
Definition replied (n : nat) : Message.t :=
  Message.mk RESPONSE "n1" (stamps (at_ n)).2 5 8 (SerializeToString (pb.mkTaskResponse true "7" (pb.mkError 0 "") 0)) "" "".
#[local] Instance envelope_wire : Wire pb.Envelope :=
  table_wire [RpcSample.envelope (asked 0); RpcSample.envelope (replied 0); RpcSample.envelope (asked 1);
              RpcSample.envelope (replied 1)] ltac:(simpl; lia).
Definition frame_of (m : Message.t) : string := match encode_frame m 1000 with Ok f => f | Err _ => "" end.

Lemma turns (P : N → N → Prop) delay n : (n < 2)%nat → P (at_ n) (at_ (Datatypes.S n)) →
  turn parts settings None "client" stamps delay P q (at_ n) (replied n) (frame_of (replied n)) (at_ (Datatypes.S n)).
Proof.
  intros Hn HP. split; [done| |done|split; destruct n as [|[|n]]; (done || lia)|done|].
  - exists (SerializeToString (pb.mkTaskRequest "count" "null" "")), (frame_of (asked n)).
    destruct n as [|[|n]]; [..|lia]; (split_and!; [vm_compute; reflexivity| |reflexivity|vm_compute; reflexivity]);
      (split_and!; [discriminate|discriminate|vm_compute; reflexivity]).
  - destruct n as [|[|n]]; [..|lia]; vm_compute; reflexivity.
Qed.

Lemma session_is_sequence_of_calls_witness : ∃ now',
  each (λ q, request_connected (node_transport parts settings None stamps (λ _, 5)) "client" 1000 20
               (task_name q) (task_payload q) (task_key q)) [q; q] (Some fresh_reader, (0, at_ 0)) =
    ([Ok (JInt 7); Ok (JInt 7)], (Some fresh_reader, (now', at_ 2))).
Proof.
  destruct (session_is_sequence_of_calls parts settings None "client" 20 stamps (λ _, 5) [q; q] (at_ 0)
    [meaning (replied 0); meaning (replied 1)] (at_ 2) 0) as (now' & E & _).
  - repeat (eapply conversation_turn; [apply (turns _ _ _); [lia|unfold prompt; lia]|]). constructor.
  - exists now'. exact E.
Defined.

(** The first reply takes 30 ms, more than the 20 ms the client waits. *)
Definition slow (n : N) : Z := match n.2 with O => 30 | _ => 5 end.

Lemma late_reply_ruins_session_witness : ∃ rs',
  (each (λ q, request_connected (node_transport parts settings None stamps slow) "client" 1000 20
               (task_name q) (task_payload q) (task_key q)) [q; q] (Some fresh_reader, (0, at_ 0))).1 =
    raise TimeoutError "" :: rs' ∧ length rs' = 1%nat ∧ Forall mismatch rs'.
Proof.
  apply (late_reply_ruins_session parts settings None "client" 20 stamps slow q [q] (at_ 0) (replied 0) (frame_of (replied 0)) (at_ 1)
    [meaning (replied 1)] (at_ 2) 0); [lia|apply (turns _ _ _); [lia|]|].
  - split; [change (slow (at_ 0)) with 30; lia|discriminate].
  - eapply conversation_turn; [apply (turns _ _ _); [lia|]|constructor]. split; [unfold prompt; change (slow (at_ 1)) with 5; lia|discriminate].
Defined.
End ClientSample.

Module CrdtClientSample.
Import CrdtSession CrdtCodec.
#[local] Instance task_wire : Wire pb.TaskRequest := countable_wire.
#[local] Instance task_resp_wire : Wire pb.TaskResponse := countable_wire.
#[local] Instance fwd_wire : Wire pb.ForwardedTaskRequest := countable_wire.
#[local] Instance mut_wire : Wire pb.CrdtMutationRequest := countable_wire.
#[local] Instance read_wire : Wire pb.CrdtReadRequest := countable_wire.
#[local] Instance resp_wire : Wire pb.CrdtResponse := countable_wire.
#[local] Instance rep_wire : Wire pb.CrdtReplicate := countable_wire.
#[local] Instance fetch_wire : Wire pb.CrdtFetch := countable_wire.
#[local] Instance digest_wire : Wire pb.CrdtDigest := countable_wire.
#[local] Instance digest_resp_wire : Wire pb.CrdtDigestResponse := countable_wire.

Definition node : Type := CrdtService.t MemoryNode.t.
Definition settings : Settings := mkSettings "n1" 1000 1000 true true false false.
Definition stamps (_ : node) : Z * string := (5, "id1").

Definition serve : Message.t → M node Message.t :=
  Rpc.serve_crdt settings id (λ x _, x) RingSample.toy_hash CrdtServiceSample.dead_client 1000 10 (λ _, 0) (λ _, 5).

Definition parts : NodeParts node := {|
  execute _ _ _ := raiseM UnknownTaskError "";
  cluster_service := None;
  crdt_service := Some serve;
  ready _ := true;
  stopping _ := false;
  backpressure_of _ := BackpressureController.mk 1 0;
  set_backpressure _ n := n;
  limiter_of _ := TokenBucketRateLimiter.mk 1 1 1 0;
  set_limiter _ n := n;
  monotonic_ms _ := 0;
  monotonic_s _ := 0%Q;
  time_ms _ := 5;
  perf_ns _ := 0;
|}.

(** A client that has seen three updates of [n2] adds an element to a set. *)
Definition tok : CausalToken.t := CausalToken.mk CrdtServiceSample.seen.
Definition add_y : client_op := Mutation "k" ORSET "add" (JStr "y") 0.
Definition asked : Message.t :=
  Message.mk CRDT_MUTATE_REQUEST "client" "id1" 5 8 (match op_data add_y tok with Ok d => d | Err _ => "" end) "" "".
Definition replied : Message.t :=
  match (serve asked CrdtServiceSample.node2).1 with Ok m => m | Err _ => asked end.
#[local] Instance envelope_wire : Wire pb.Envelope :=
  table_wire [RpcSample.envelope asked; RpcSample.envelope replied] ltac:(simpl; lia).

Definition added := perform parts settings None "client" 20 stamps (λ _, 5) add_y None (tok, (0, CrdtServiceSample.node2)).

Lemma client_session_covers_its_past_witness : ∃ res s',
  added = (Ok res, s') ∧ CrdtClient.result_value res = JList [JStr "y"] ∧
  VersionVector.le CrdtServiceSample.seen (CausalToken.version (CrdtClient.result_token res)).
Proof.
  destruct added as [r [tok' [now' n']]] eqn:E.
  assert (match r with Ok res => bool_decide (CrdtClient.result_value res = JList [JStr "y"]) | Err _ => false end = true) as Hr.
  { change r with (r, (tok', (now', n'))).1. rewrite <-E. vm_compute. reflexivity. }
  destruct r as [res|e]; [|discriminate]. apply bool_decide_eq_true in Hr. exists res, (tok', (now', n')). split_and!; [done..|].
  destruct (client_session_covers_its_past parts settings None "client" 20 stamps (λ _, 5) id (λ x _, x) RingSample.toy_hash
    CrdtServiceSample.dead_client 1000 10 (λ _, 0) (λ _, 5) eq_refl (λ x n, eq_refl) CrdtServiceSample.dead_client_good
    ltac:(done) ltac:(done) ltac:(done) ltac:(done) ltac:(done) add_y None tok 0 CrdtServiceSample.node2 (Ok res) tok' now' n')
    as (_ & _ & H); [| | |exact E|].
  - split; [exact CrdtStore.store_wf_init|exact CrdtServiceSample.seen_wf].
  - exact CrdtServiceSample.seen_wf.
  - split_and!; [done|apply (bool_decide_unpack _); vm_compute; exact I|]. right. left. split_and!; [by left|by eexists|done].
  - destruct (H res eq_refl) as (-> & Hle & _). exact Hle.
Defined.
End CrdtClientSample.
