(* ===== verification/Observability.v ===== *)
(** * Observability: [distsys/observability/] and [distsys/observed_node.py]

    The metrics with their fixed label vocabulary, the HTTP endpoint for metrics and
    health, and the wrapper that measures a node.  A registry of the Prometheus library
    is the value of each labelled series (of a histogram, the number of observations);
    tracing spans, which change nothing the node does, and durations are left out.  Label
    text is ASCII. *)

From Stdlib Require Import Ascii.
From S2P Require Import Prelude Lattice Causal Json Crdt Storage Resilience.
From S2P Require Import Membership Ring Proto Protocol Cluster CrdtCodec Outbox Repair AntiEntropy CrdtService Persistence Repository.
From S2P Require Import DurableStore Recovery PeerClient Node Coordination Startup.

Local Open Scope Z_scope.

(** ** [observability/metrics.py] *)

(** [str.lower] on ASCII *)
Fixpoint lower (s : string) : string :=
  match s with
  | EmptyString => EmptyString
  | String a s =>
      let n := N_of_ascii a in
      String (if (65 <=? n)%N && (n <=? 90)%N then ascii_of_N (n + 32) else a) (lower s)
  end.

Definition _ALLOWED : list (string * list string) :=
  [("message_type", ["task"; "cluster"; "crdt"; "other"]);
   ("status", ["success"; "error"; "timeout"; "overloaded"; "rate_limited"; "no_route"; "unavailable"; "other"]);
   ("component", ["compute"; "replication"; "persistence"; "coordination"; "other"]);
   ("operation", ["request"; "forward"; "ping"; "gossip"; "replicate"; "fetch"; "digest"; "read"; "write"; "lease";
                  "recover"; "other"]);
   ("result", ["success"; "failure"; "skipped"; "other"]);
   ("phase", ["starting"; "restoring"; "reconciling"; "ready"; "degraded"; "failed"; "other"]);
   ("member_status", ["alive"; "suspect"; "dead"; "other"])].

Definition _PHASE_ALIASES : list (string * string) :=
  [("opening_repository", "restoring"); ("binding", "starting"); ("coordinating", "starting");
   ("joining_cluster", "starting"); ("startup_failed", "failed")].

(** [d.get(k)] of a literal dictionary *)
Fixpoint assoc {A} (k : string) (l : list (string * A)) : option A :=
  match l with [] => None | (k', v) :: l => if decide (k = k') then Some v else assoc k l end.

Definition normalize (kind value : string) : result string :=
  let text := lower (strip value) in
  let text := if bool_decide (kind = "phase") then default text (assoc text _PHASE_ALIASES) else text in
  match assoc kind _ALLOWED with
  | None => raise KeyError ("unknown metric label kind: " +:+ kind)
  | Some allowed => Ok (if bool_decide (text ∈ allowed) then text else "other")
  end.

(** [RecoveryPhase.value] *)
Definition RecoveryPhase_value (p : RecoveryPhase) : string :=
  match p with
  | STARTING => "starting" | OPENING_REPOSITORY => "opening_repository" | RESTORING => "restoring" | BINDING => "binding"
  | COORDINATING => "coordinating" | JOINING_CLUSTER => "joining_cluster" | RECONCILING => "reconciling"
  | READY => "ready" | STARTUP_FAILED => "startup_failed"
  end.

Module Metrics.
(** A series: the metric's name and its labels after [node_id]. *)
Definition series : Type := string * list string.
Record t := mk { node_id : string; enabled : bool; registry : gmap series Z }.

Definition value (self : t) (k : series) : Z := default 0 (registry self !! k).
Definition put (k : series) (v : Z) : M t unit := modifyM (λ s, mk (node_id s) (enabled s) (<[k := v]> (registry s))).
Definition inc (name : string) (labels : list string) : M t unit :=
  v ← gets (λ s, value s (name, labels)); put (name, labels) (v + 1).
Definition dec (name : string) (labels : list string) : M t unit :=
  v ← gets (λ s, value s (name, labels)); put (name, labels) (v - 1).
Definition set (name : string) (labels : list string) (v : Z) : M t unit := put (name, labels) v.
(** Observing adds to the histogram's count. *)
Definition observe := inc.

Fixpoint for_each {A} (l : list A) (f : A → M t unit) : M t unit :=
  match l with [] => mret tt | x :: l => _ ← f x; for_each l f end.

Definition phases : list string := default [] (assoc "phase" _ALLOWED).

Definition init_series : M t unit :=
  _ ← for_each ["alive"; "suspect"; "dead"; "other"] (λ status, set "distsys_members" [status] 0);
  for_each phases (λ phase, set "distsys_recovery_phase" [phase] 0).

Definition init (node_id : string) (enabled : bool) : t :=
  if enabled then (init_series (mk node_id true ∅)).2 else mk node_id false ∅.

Definition when_enabled (m : M t unit) : M t unit := b ← gets enabled; if (b : bool) then m else mret tt.

Definition request_started (message_type : string) : M t unit := when_enabled (inc "distsys_requests_inflight" []).

Definition request_finished (message_type status : string) : M t unit :=
  when_enabled (
    mt ← liftM (normalize "message_type" message_type);
    st ← liftM (normalize "status" status);
    _ ← dec "distsys_requests_inflight" [];
    _ ← inc "distsys_requests_total" [mt; st];
    observe "distsys_request_duration_seconds" [mt]).

Definition rate_limited : M t unit := when_enabled (inc "distsys_rate_limited_total" []).

Definition overloaded (component : string) : M t unit :=
  when_enabled (c ← liftM (normalize "component" component); inc "distsys_overloaded_total" [c]).

Definition set_members (alive suspect dead : Z) : M t unit :=
  when_enabled (
    for_each [("alive", alive); ("suspect", suspect); ("dead", dead)]
      (λ sv, set "distsys_members" [sv.1] (Z.max 0 sv.2))).

Definition gossip_failure : M t unit := when_enabled (inc "distsys_gossip_failures_total" []).

Definition peer_rpc (operation status : string) : M t unit :=
  when_enabled (
    op ← liftM (normalize "operation" operation);
    st ← liftM (normalize "status" status);
    _ ← inc "distsys_peer_rpc_total" [op; st];
    observe "distsys_peer_rpc_duration_seconds" [op]).

Definition set_replication_queue_depth (depth : Z) : M t unit :=
  when_enabled (set "distsys_replication_queue_depth" [] (Z.max 0 depth)).

Definition replication (status : string) : M t unit :=
  when_enabled (st ← liftM (normalize "status" status); inc "distsys_replication_total" [st]).

Definition anti_entropy_repair (result : string) : M t unit :=
  when_enabled (r ← liftM (normalize "result" result); inc "distsys_anti_entropy_repairs_total" [r]).

Definition causal_repair (result : string) : M t unit :=
  when_enabled (r ← liftM (normalize "result" result); inc "distsys_causal_repairs_total" [r]).

Definition persistence (operation : string) (failed : bool) : M t unit :=
  when_enabled (
    op ← liftM (normalize "operation" operation);
    _ ← observe "distsys_persistence_duration_seconds" [op];
    if failed then inc "distsys_persistence_failures_total" [op] else mret tt).

Definition set_recovery_phase (phase : string) : M t unit :=
  when_enabled (
    current ← liftM (normalize "phase" phase);
    for_each phases (λ candidate,
      set "distsys_recovery_phase" [candidate] (if bool_decide (candidate = current) then 1 else 0))).

Definition observe_recovery (result : string) : M t unit :=
  when_enabled (r ← liftM (normalize "result" result); observe "distsys_recovery_duration_seconds" [r]).

Definition set_coordination (healthy : bool) : M t unit :=
  when_enabled (set "distsys_coordination_healthy" [] (if healthy then 1 else 0)).

Definition coordination_failure (operation : string) : M t unit :=
  when_enabled (op ← liftM (normalize "operation" operation); inc "distsys_coordination_failures_total" [op]).

(** [with metrics.track_request(...) as timer: body]: the body may set the status; what
    it raises makes it ["error"]. *)
Definition tracked {S A} (finish : string → M t unit) (body : M S (A * string)) : M (t * S) A := λ s,
  match body s.2 with
  | (r, s') =>
      let status := match r with Ok (_, status) => status | Err _ => "error" end in
      match finish status s.1 with
      | (Ok _, m) => (match r with Ok (a, _) => Ok a | Err e => Err e end, (m, s'))
      | (Err e, m) => (Err e, (m, s'))
      end
  end.

Definition track_request {S A} (message_type : string) (body : M S (A * string)) : M (t * S) A := λ s,
  match request_started message_type s.1 with
  | (Ok _, m) => tracked (request_finished message_type) body (m, s.2)
  | (Err e, m) => (Err e, (m, s.2))
  end.

Definition observe_peer_rpc {S A} (operation : string) (body : M S (A * string)) : M (t * S) A :=
  tracked (peer_rpc operation) body.
End Metrics.

(** *** The number of series is bounded *)
Module MetricsSpec.
Import Metrics.

(** The metrics and the kinds of their labels, as [__init__] declares them. *)
Definition families : list (string * list string) :=
  [("distsys_requests_total", ["message_type"; "status"]); ("distsys_request_duration_seconds", ["message_type"]);
   ("distsys_requests_inflight", []); ("distsys_rate_limited_total", []); ("distsys_overloaded_total", ["component"]);
   ("distsys_members", ["member_status"]); ("distsys_gossip_failures_total", []);
   ("distsys_peer_rpc_total", ["operation"; "status"]); ("distsys_peer_rpc_duration_seconds", ["operation"]);
   ("distsys_replication_queue_depth", []); ("distsys_replication_total", ["status"]);
   ("distsys_anti_entropy_repairs_total", ["result"]); ("distsys_causal_repairs_total", ["result"]);
   ("distsys_persistence_duration_seconds", ["operation"]); ("distsys_persistence_failures_total", ["operation"]);
   ("distsys_recovery_phase", ["phase"]); ("distsys_recovery_duration_seconds", ["result"]);
   ("distsys_coordination_healthy", []); ("distsys_coordination_failures_total", ["operation"])].

Definition allowed (kind : string) : list string := default [] (assoc kind _ALLOWED).

Fixpoint combinations (kinds : list string) : list (list string) :=
  match kinds with
  | [] => [[]]
  | kind :: kinds => l ← allowed kind; cons l <$> combinations kinds
  end.

Definition vocabulary : list series := f ← families; (f.1,.) <$> combinations f.2.

(** The calls the program makes on its metrics. *)
Inductive report :=
  | RequestStarted (message_type : string) | RequestFinished (message_type status : string) | RateLimited
  | Overloaded (component : string) | SetMembers (alive suspect dead : Z) | GossipFailure
  | PeerRpc (operation status : string) | QueueDepth (depth : Z) | Replication (status : string)
  | AntiEntropyRepair (result : string) | CausalRepair (result : string) | PersistenceDone (operation : string) (failed : bool)
  | RecoveryPhaseIs (phase : string) | RecoveryDone (result : string) | CoordinationIs (healthy : bool)
  | CoordinationFailure (operation : string).

Definition record (r : report) : M t unit :=
  match r with
  | RequestStarted mt => request_started mt | RequestFinished mt st => request_finished mt st | RateLimited => rate_limited
  | Overloaded c => overloaded c | SetMembers a b c => set_members a b c | GossipFailure => gossip_failure
  | PeerRpc op st => peer_rpc op st | QueueDepth d => set_replication_queue_depth d | Replication st => replication st
  | AntiEntropyRepair x => anti_entropy_repair x | CausalRepair x => causal_repair x | PersistenceDone op f => persistence op f
  | RecoveryPhaseIs p => set_recovery_phase p | RecoveryDone x => observe_recovery x | CoordinationIs b => set_coordination b
  | CoordinationFailure op => coordination_failure op
  end.

Definition bounded (m : t) : Prop := ∀ k, is_Some (registry m !! k) → k ∈ vocabulary.

(** [m] returns and stays within the vocabulary. *)
Definition keeps (m : M t unit) : Prop := ∀ s, bounded s → ∃ s', m s = (Ok tt, s') ∧ bounded s'.

Lemma elem_combinations kinds labels : Forall2 (λ l kind, l ∈ allowed kind) labels kinds → labels ∈ combinations kinds.
Proof.
  induction 1 as [|l kind labels kinds Hl _ IH]; simpl; [by apply list_elem_of_singleton|].
  apply list_elem_of_bind. exists l. split; [|done]. by apply list_elem_of_fmap_2.
Qed.

Lemma assoc_elem {A} k (l : list (string * A)) v : assoc k l = Some v → (k, v) ∈ l.
Proof.
  induction l as [|[k' v'] l IH]; simpl; [done|]. case_decide; [intros [= ->]; subst; left|right; by apply IH].
Qed.

Lemma elem_vocabulary name labels kinds : assoc name families = Some kinds → Forall2 (λ l kind, l ∈ allowed kind) labels kinds →
  (name, labels) ∈ vocabulary.
Proof.
  intros Hf%assoc_elem Hl. apply list_elem_of_bind. exists (name, kinds). split; [|done]. simpl.
  apply list_elem_of_fmap. exists labels. split; [done|]. by apply elem_combinations.
Qed.

Lemma keeps_ret : keeps (mret tt).
Proof. intros s Hs. by exists s. Qed.

Lemma keeps_put k v : k ∈ vocabulary → keeps (put k v).
Proof.
  intros Hk s Hs. eexists. split; [done|]. intros k' [x Hx]. simpl in Hx. apply lookup_insert_Some in Hx as [[<- _]|[_ Hx]]; [done|].
  by apply Hs.
Qed.

Lemma keeps_inc name labels : (name, labels) ∈ vocabulary → keeps (inc name labels).
Proof. intros Hk s Hs. by apply keeps_put. Qed.

Lemma keeps_dec name labels : (name, labels) ∈ vocabulary → keeps (dec name labels).
Proof. intros Hk s Hs. by apply keeps_put. Qed.

Lemma stays_bind m f : keeps m → keeps (f tt) → keeps (m ≫= f).
Proof. intros Hm Hf s Hs. destruct (Hm s Hs) as (s1 & E & Hs1). unfold mbind, M_bind. rewrite E. by apply Hf. Qed.

Lemma keeps_each {A} (l : list A) f : (∀ x, x ∈ l → keeps (f x)) → keeps (for_each l f).
Proof.
  induction l as [|x l IH]; intros H; [apply keeps_ret|]. simpl. apply stays_bind; [apply H; left|].
  apply IH. intros y Hy. apply H. by right.
Qed.

Lemma keeps_enabled m : keeps m → keeps (when_enabled m).
Proof. intros Hm s Hs. unfold when_enabled, mbind, M_bind, gets. destruct (enabled s); [by apply Hm|by exists s]. Qed.

(** Every kind has ["other"], so a label is always one of the kind's words. *)
Lemma normalize_allowed kind value : "other" ∈ allowed kind → ∃ l, normalize kind value = Ok l ∧ l ∈ allowed kind.
Proof.
  intros Ho. unfold normalize, allowed in *. destruct (assoc kind _ALLOWED) as [ws|]; simpl in *; [|by apply not_elem_of_nil in Ho].
  eexists. split; [done|]. by case_bool_decide.
Qed.

Lemma keeps_label kind value f : "other" ∈ allowed kind → (∀ l, l ∈ allowed kind → keeps (f l)) →
  keeps (liftM (normalize kind value) ≫= f).
Proof.
  intros Ho Hf s Hs. destruct (normalize_allowed kind value Ho) as (l & E & Hl). unfold mbind, M_bind, liftM. rewrite E. by apply Hf.
Qed.

Ltac in_list := apply (bool_decide_unpack _); vm_compute; exact I.

(** A series of one of the declared metrics. *)
Ltac declared := eapply elem_vocabulary; [reflexivity|]; repeat (constructor; [assumption || in_list|]); constructor.

Lemma record_keeps r : keeps (record r).
Proof.
  destruct r; simpl; apply keeps_enabled;
    repeat first [apply keeps_label; [in_list|intros ? ?] | apply keeps_inc; declared | apply keeps_dec; declared
                 | apply keeps_each | apply stays_bind].
  - intros [st v] Hin. apply keeps_put. eapply elem_vocabulary; [reflexivity|]. constructor; [|constructor].
    apply list_elem_of_In in Hin as [[= <- <-]|[[= <- <-]|[[= <- <-]|[]]]]; in_list.
  - apply keeps_put. declared.
  - destruct failed; [apply keeps_inc; declared|apply keeps_ret].
  - intros c Hc. apply keeps_put. declared.
  - apply keeps_put. declared.
Qed.

Lemma init_bounded n e : bounded (init n e).
Proof.
  unfold init. destruct e; [|by intros k [x Hx]; simpl in Hx; rewrite lookup_empty in Hx].
  assert (keeps init_series) as H.
  { unfold init_series. apply stays_bind; apply keeps_each; intros x Hx; apply keeps_put; declared. }
  destruct (H (mk n true ∅)) as (s' & E & Hs'); [by intros k [x Hx]; simpl in Hx; rewrite lookup_empty in Hx|]. by rewrite E.
Qed.

Fixpoint record_all (l : list report) : M t unit :=
  match l with [] => mret tt | r :: l => _ ← record r; record_all l end.

Lemma record_all_keeps l : keeps (record_all l).
Proof. induction l as [|r l IH]; [apply keeps_ret|]. simpl. apply stays_bind; [apply record_keeps|done]. Qed.

Lemma bounded_size m : bounded m → (size (registry m) ≤ 221)%nat.
Proof.
  intros Hm. rewrite <-size_dom. trans (size (list_to_set vocabulary : gset series)).
  - apply subseteq_size. intros k Hk. apply elem_of_list_to_set, Hm. by apply elem_of_dom.
  - rewrite size_list_to_set by in_list. vm_compute. lia.
Qed.

(** However many reports the program makes, with whatever text as labels, each of
    them returns, and the registry never holds a series outside the fixed vocabulary:
    at most 221 series. *)
Theorem metrics_cardinality_bounded node_id enabled reports :
  ∃ m, record_all reports (init node_id enabled) = (Ok tt, m) ∧ bounded m ∧ (size (registry m) ≤ 221)%nat.
Proof.
  destruct (record_all_keeps reports _ (init_bounded node_id enabled)) as (m & E & Hm). exists m. eauto using bounded_size.
Qed.

(** *** The phase gauge is one-hot *)
Lemma value_put k v m k' : value ((put k v m).2) k' = if decide (k' = k) then v else value m k'.
Proof. unfold value, put, modifyM. simpl. case_decide; subst; [by rewrite lookup_insert_eq|by rewrite lookup_insert_ne]. Qed.

Lemma value_put_each {A} (f : A → list string) (g : A → Z) name l m k : NoDup (f <$> l) →
  let m' := (for_each l (λ x, set name (f x) (g x)) m).2 in
  (∀ x, x ∈ l → k = (name, f x) → value m' k = g x) ∧ ((∀ x, x ∈ l → k ≠ (name, f x)) → value m' k = value m k).
Proof.
  revert m. induction l as [|x l IH]; intros m Hnd; [split; [by intros x ?%not_elem_of_nil|done]|].
  apply NoDup_cons in Hnd as [Hx Hnd]. destruct (IH (put (name, f x) (g x) m).2 Hnd) as [H1 H2].
  change (for_each (x :: l) _ m) with (for_each l (λ x, set name (f x) (g x)) (put (name, f x) (g x) m).2).
  rewrite value_put in H2. split.
  - intros y [->|Hy]%elem_of_cons ->; [|by apply H1]. rewrite H2; [by rewrite decide_True|].
    intros y Hy [= E]. apply Hx. rewrite E. by apply list_elem_of_fmap_2.
  - intros Hk. rewrite H2 by (intros y Hy; apply Hk; by right). rewrite decide_False; [done|]. apply Hk. by left.
Qed.

Lemma enabled_phase_gauge m phase current : enabled m = true → normalize "phase" phase = Ok current →
  ∀ p, p ∈ phases → value (set_recovery_phase phase m).2 ("distsys_recovery_phase", [p]) = if decide (p = current) then 1 else 0.
Proof.
  intros He En p Hp. unfold set_recovery_phase, when_enabled, mbind, M_bind, gets. rewrite He. unfold liftM. rewrite En.
  destruct (value_put_each (λ p, [p]) (λ c, if bool_decide (c = current) then 1 else 0) "distsys_recovery_phase" phases m
              ("distsys_recovery_phase", [p])) as [H _]; [in_list|].
  rewrite (H p Hp eq_refl). by case_bool_decide; case_decide.
Qed.
End MetricsSpec.
