(* ===== verification/Observed.v ===== *)
(** * The measured node: [observability/health.py] and [observed_node.py]

    The HTTP endpoint that serves metrics and health, and the subclass of the node that
    measures it.  Tracing spans, which change nothing the node does, and durations are
    left out.  The exposition format of the Prometheus library and the sockets are
    parameters. *)

From Stdlib Require Import Ascii.
From S2P Require Import Prelude Causal Json Resilience Membership Proto Protocol Cluster CrdtCodec.
From S2P Require Import Recovery Node Coordination Startup Observability.

Local Open Scope Z_scope.

(** ** [observability/health.py] *)
Definition CR : ascii := "013".
Definition LF : ascii := "010".
Definition CRLF : string := String CR (String LF "").
Definition BLANK_LINE : string := (CRLF +:+ CRLF)%string.

(** The text before and after the first [sep], when it occurs. *)
Fixpoint cut (sep s : string) : option (string * string) :=
  if String.prefix sep s then Some ("", str_drop (String.length sep) s)
  else match s with
       | EmptyString => None
       | String a r => match cut sep r with Some (x, y) => Some (String a x, y) | None => None end
       end.

(** [s.split(sep, 1)[0]] *)
Definition before (sep s : string) : string := match cut sep s with Some (x, _) => x | None => s end.

Definition ascii_text (s : string) : bool := bool_decide (Forall (λ a, (N_of_ascii a < 128)%N) (String.list_ascii_of_string s)).

(** [s.endswith(suffix)] *)
Definition endswith (suffix s : string) : bool :=
  bool_decide (str_drop (String.length s - String.length suffix) s = suffix).

Definition _MAX_HEADER_BYTES : nat := 16 * 1024.

(** The default limit of an asyncio stream. *)
Definition stream_limit : nat := 64 * 1024.

(** [asyncio.wait_for(reader.readuntil(b"\r\n\r\n"), timeout=2.0)], where [stream] is what
    arrives within the two seconds and [eof] whether the peer closed within them. *)
Definition readuntil (stream : string) (eof : bool) : result string :=
  match cut BLANK_LINE stream with
  | Some (head, _) =>
      if decide (String.length head ≤ stream_limit)%nat then Ok (head +:+ BLANK_LINE)%string
      else raise LimitOverrunError "Separator is found, but chunk is longer than limit"
  | None =>
      if decide (stream_limit + String.length BLANK_LINE ≤ String.length stream)%nat
      then raise LimitOverrunError "Separator is not found, and chunk exceed the limit"
      else if eof then raise IncompleteReadError "" else raise TimeoutError ""
  end.

(** [method, raw_path, _version = first.decode("ascii").split(" ", 2)] *)
Definition request_line (first : string) : result (string * string) :=
  if negb (ascii_text first) then raise UnicodeDecodeError "ordinal not in range(128)"
  else
    match cut " " first with
    | Some (method, rest) =>
        match cut " " rest with
        | Some (raw_path, _version) => Ok (method, raw_path)
        | None => raise ValueError "not enough values to unpack (expected 3, got 2)"
        end
    | None => raise ValueError "not enough values to unpack (expected 3, got 1)"
    end.

Module ObservabilityServer.
(** What has been written to the connection, and whether it was closed. *)
Record writer := Writer { sent : string; closed : bool }.

Definition reason (status : Z) : string :=
  if status =? 200 then "OK" else if status =? 400 then "Bad Request" else if status =? 404 then "Not Found"
  else if status =? 405 then "Method Not Allowed" else if status =? 431 then "Request Header Fields Too Large"
  else if status =? 503 then "Service Unavailable" else "Error".

Section server.
(** [generate_latest], [CONTENT_TYPE_LATEST], and what awaiting [writer.drain()] and
    [writer.wait_closed()] gives. *)
Context (generate_latest : Metrics.t → string) (CONTENT_TYPE_LATEST : string) (drain wait_closed : result unit).
Context (node_id : string) (metrics : Metrics.t) (snapshot : HealthSnapshot).

Definition _send (status : Z) (content_type body : string) : M writer unit :=
  _ ← modifyM (λ w, Writer
        (sent w +:+ "HTTP/1.1 " +:+ str_of_int status +:+ " " +:+ reason status +:+ CRLF +:+
         "Content-Type: " +:+ content_type +:+ CRLF +:+
         "Content-Length: " +:+ str_of_int (Z.of_nat (String.length body)) +:+ CRLF +:+
         "Connection: close" +:+ CRLF +:+
         "Cache-Control: no-store" +:+ CRLF +:+ CRLF +:+ body)%string (closed w));
  liftM drain.

Definition JSON : string := "application/json".

Definition error_body (code : string) : string := dumps_in_order (JObj [("error", JStr code)]).

Definition render : string := if Metrics.enabled metrics then generate_latest metrics else "".

Definition snapshot_json : json :=
  JObj [("node_id", JStr node_id); ("liveness", JBool (liveness snapshot)); ("readiness", JBool (readiness snapshot));
        ("coordination", JBool (coordination snapshot)); ("cluster", JBool (cluster snapshot));
        ("recovery_phase", JStr (RecoveryPhase_value (recovery_phase snapshot)))].

(** The answer to a [GET]. *)
Definition get (raw_path : string) : M writer unit :=
  let path := before "?" raw_path in
  if bool_decide (path = "/metrics") then _send 200 CONTENT_TYPE_LATEST render
  else if negb (bool_decide (path ∈ ["/health/live"; "/health/ready"])) then _send 404 JSON (error_body "not_found")
  else
    let healthy := if endswith "live" path then liveness snapshot else readiness snapshot in
    _send (if healthy then 200 else 503) JSON (dumps_ascii snapshot_json).

(** The body of the [try]. *)
Definition answer (stream : string) (eof : bool) : M writer unit :=
  request ← liftM (readuntil stream eof);
  if decide (_MAX_HEADER_BYTES < String.length request)%nat then _send 431 JSON (error_body "headers_too_large")
  else
    match request_line (before CRLF request) with
    | Err e =>
        if isinstance e [UnicodeDecodeError; ValueError] then _send 400 JSON (error_body "bad_request") else failM e
    | Ok (method, raw_path) =>
        if negb (bool_decide (method = "GET")) then _send 405 JSON (error_body "method_not_allowed")
        else get raw_path
    end.

Definition close : M writer unit := modifyM (λ w, Writer (sent w) true).

Definition _handle (stream : string) (eof : bool) : M writer unit := λ w,
  match catchM (answer stream eof) [TimeoutError; IncompleteReadError; LimitOverrunError]
          (λ _, catchM (_send 400 JSON (error_body "bad_request")) [ConnectionError; RuntimeError] (λ _, mret tt)) w with
  | (r, w) =>
      match (_ ← close; catchM (liftM wait_closed) [ConnectionError] (λ _, mret tt)) w with
      | (Ok _, w) => (r, w)
      | (Err e, w) => (Err e, w)
      end
  end.
End server.
End ObservabilityServer.

(** *** What a client of the endpoint reads *)
Module EndpointSpec.
Import ObservabilityServer.

Fixpoint no_cr (s : string) : bool :=
  match s with EmptyString => true | String a r => bool_decide (a ≠ CR) && no_cr r end.

(** A reader of HTTP responses: the lines of the head and the body. *)
Fixpoint head_lines (fuel : nat) (s : string) : option (list string * string) :=
  match fuel with
  | O => None
  | S fuel =>
      match cut CRLF s with
      | None => None
      | Some (line, rest) =>
          if bool_decide (line = "") then Some ([], rest)
          else match head_lines fuel rest with Some (lines, body) => Some (line :: lines, body) | None => None end
      end
  end.
Definition http_read (s : string) : option (list string * string) := head_lines (String.length s) s.

Lemma no_cr_app s t : no_cr (s +:+ t)%string = no_cr s && no_cr t.
Proof. induction s as [|a s IH]; simpl; [done|]. change (String.append s t) with (s +:+ t)%string. rewrite IH. by rewrite andb_assoc. Qed.

Lemma no_cr_uint d : no_cr (DecimalString.NilEmpty.string_of_uint d) = true.
Proof. by induction d. Qed.

Lemma no_cr_digits d : no_cr (DecimalString.NilZero.string_of_uint d) = true.
Proof. pose proof (no_cr_uint d) as H. by destruct d. Qed.

Lemma no_cr_str_of_int z : no_cr (str_of_int z) = true.
Proof. unfold str_of_int. destruct z; [done|..]; simpl; apply no_cr_digits. Qed.

Lemma cut_line x y : no_cr x = true → cut CRLF (x +:+ CRLF +:+ y)%string = Some (x, y).
Proof.
  induction x as [|a x IH]; intros Hx.
  - unfold CRLF. simpl. destruct y; reflexivity.
  - apply andb_prop in Hx as [Ha%bool_decide_eq_true Hx]. specialize (IH Hx).
    change ((String a x +:+ CRLF +:+ y)%string) with (String a (x +:+ CRLF +:+ y)%string).
    assert (String.prefix CRLF (String a (x +:+ CRLF +:+ y)%string) = false) as E.
    { unfold CRLF at 1. cbn [String.prefix]. destruct (ascii_dec CR a) as [E|]; [by destruct Ha|done]. }
    cbn [cut]. rewrite E, IH. done.
Qed.

(** The text of a response. *)
Definition join_lines (lines : list string) (body : string) : string :=
  foldr (λ line rest, line +:+ CRLF +:+ rest)%string (CRLF +:+ body)%string lines.

Lemma http_read_lines lines body : Forall (λ l, no_cr l = true ∧ l ≠ "") lines →
  http_read (join_lines lines body) = Some (lines, body).
Proof.
  intros H. unfold http_read.
  assert (∀ fuel, (length lines < fuel)%nat → head_lines fuel (join_lines lines body) = Some (lines, body)) as Hread.
  { induction H as [|l lines [H1 H2] _ IH]; intros [|fuel] Hf; try (simpl in Hf; lia); cbn [head_lines].
    - change (join_lines [] body) with ("" +:+ CRLF +:+ body)%string. by rewrite cut_line.
    - change (join_lines (l :: lines) body) with (l +:+ CRLF +:+ join_lines lines body)%string.
      rewrite cut_line, bool_decide_eq_false_2 by done. rewrite IH; [done|]. simpl in Hf. lia. }
  apply Hread. clear. induction lines as [|l lines IH]; [simpl; lia|].
  change (join_lines (l :: lines) body) with (l +:+ CRLF +:+ join_lines lines body)%string.
  rewrite !length_str_app. change (String.length CRLF) with 2%nat. simpl. lia.
Qed.

Section endpoint.
Context (generate_latest : Metrics.t → string) (CONTENT_TYPE_LATEST : string) (wait_closed : result unit).
Context (node_id : string) (metrics : Metrics.t) (snapshot : HealthSnapshot).
Hypothesis content_type_line : no_cr CONTENT_TYPE_LATEST = true.
Hypothesis closes : wait_closed = Ok tt ∨ ∃ e, wait_closed = Err e ∧ isinstance e [ConnectionError] = true.

Abbreviation _send := (ObservabilityServer._send (Ok tt)).
Abbreviation _handle := (ObservabilityServer._handle generate_latest CONTENT_TYPE_LATEST (Ok tt) wait_closed node_id metrics snapshot).
Abbreviation answer := (ObservabilityServer.answer generate_latest CONTENT_TYPE_LATEST (Ok tt) node_id metrics snapshot).

(** One response with this status and body was written, and nothing else. *)
Definition response (text : string) (status : Z) (body : string) : Prop :=
  ∃ content_type, http_read text =
    Some (["HTTP/1.1 " +:+ str_of_int status +:+ " " +:+ reason status; "Content-Type: " +:+ content_type;
           "Content-Length: " +:+ str_of_int (Z.of_nat (String.length body)); "Connection: close"; "Cache-Control: no-store"]%string,
          body).

Lemma send_response status content_type body : no_cr content_type = true →
  ∃ text, _send status content_type body (Writer "" false) = (Ok tt, Writer text false) ∧ response text status body.
Proof.
  intros Hc. eexists. split; [reflexivity|]. exists content_type.
  rewrite <-http_read_lines with (body := body).
  - f_equal. unfold join_lines. cbn [foldr sent]. by rewrite !app_assoc'.
  - repeat constructor; rewrite ?no_cr_app, ?no_cr_str_of_int, ?Hc; try done. unfold reason. by repeat case_match.
Qed.
(** The request is a [GET] of this target. *)
Definition requests (stream : string) (eof : bool) (raw_path : string) : Prop :=
  ∃ request, readuntil stream eof = Ok request ∧ (String.length request ≤ _MAX_HEADER_BYTES)%nat ∧
    request_line (before CRLF request) = Ok ("GET", raw_path).

(** What each path answers. *)
Definition fits (raw_path : string) (status : Z) (body : string) : Prop :=
  let health (ok : bool) := status = (if ok then 200 else 503) ∧ body = dumps_ascii (snapshot_json node_id snapshot) in
  (before "?" raw_path = "/metrics" → status = 200 ∧ body = render generate_latest metrics) ∧
  (before "?" raw_path = "/health/live" → health (liveness snapshot)) ∧
  (before "?" raw_path = "/health/ready" → health (readiness snapshot)) ∧
  (before "?" raw_path ∉ ["/metrics"; "/health/live"; "/health/ready"] → status = 404).

Definition answered (m : M writer unit) (P : Z → string → Prop) : Prop :=
  ∃ text status body, m (Writer "" false) = (Ok tt, Writer text false) ∧ response text status body ∧ P status body.

Lemma send_answered status content_type body (P : Z → string → Prop) : no_cr content_type = true → P status body →
  answered (_send status content_type body) P.
Proof. intros Hc HP. destruct (send_response status content_type body Hc) as (text & E & Hr). exists text, status, body. auto. Qed.

Lemma get_answered raw_path :
  answered (get generate_latest CONTENT_TYPE_LATEST (Ok tt) node_id metrics snapshot raw_path) (fits raw_path).
Proof.
  unfold get, fits. set (path := before "?" raw_path). destruct (decide (path = "/metrics")) as [E|Hm].
  { rewrite bool_decide_eq_true_2 by done. apply send_answered; [done|]. rewrite E. split_and!; try done. intros H. destruct H. left. }
  rewrite bool_decide_eq_false_2 by done. case_bool_decide as Hin; cbn [negb].
  - apply send_answered; [done|]. apply elem_of_cons in Hin as [->|Hin]; [|apply elem_of_cons in Hin as [->|[]%not_elem_of_nil]];
      split_and!; try done; intros H; destruct H; set_solver.
  - apply send_answered; [done|]. split_and!; try done; intros E; destruct Hin; rewrite E; set_solver.
Qed.

Lemma answer_answered stream eof :
  (∃ request, readuntil stream eof = Ok request) →
  answered (answer stream eof) (λ status body,
    ((∃ raw_path, requests stream eof raw_path ∧ fits raw_path status body) ∨
     (¬ (∃ raw_path, requests stream eof raw_path) ∧ status ∈ [400; 405; 431]))).
Proof.
  intros [request E]. unfold answer, mbind, M_bind, liftM. rewrite E.
  destruct (decide _) as [Hlong|Hshort].
  { apply send_answered; [done|]. right. split; [|set_solver]. intros (raw & request' & E' & Hle & _). rewrite E in E'. injection E' as <-. lia. }
  destruct (request_line (before CRLF request)) as [[method raw_path]|e] eqn:El.
  - case_bool_decide as Hm; cbn [negb].
    + subst. destruct (get_answered raw_path) as (text & status & body & Eg & Hr & Hf). exists text, status, body.
      split_and!; [done..|]. left. exists raw_path. split; [|done]. exists request. split_and!; [done|lia|done].
    + apply send_answered; [done|]. right. split; [|set_solver]. intros (raw & request' & E' & _ & El').
      rewrite E in E'. injection E' as <-. rewrite El in El'. by injection El'.
  - assert (isinstance e [UnicodeDecodeError; ValueError] = true) as ->.
    { unfold request_line, raise in El. repeat case_match; by simplify_eq. }
    apply send_answered; [done|]. right. split; [|set_solver]. intros (raw & request' & E' & _ & El').
    rewrite E in E'. injection E' as <-. by rewrite El in El'.
Qed.

(** What [readuntil] raises is caught. *)
Lemma readuntil_errors stream eof e : readuntil stream eof = Err e →
  isinstance e [TimeoutError; IncompleteReadError; LimitOverrunError] = true.
Proof. unfold readuntil, raise. repeat case_match; intros; by simplify_eq. Qed.

Lemma close_quietly w : (_ ← close; catchM (liftM wait_closed) [ConnectionError] (λ _, mret tt)) w = (Ok tt, Writer (sent w) true).
Proof.
  unfold mbind, M_bind, close, modifyM, catchM, liftM. destruct closes as [->|(e & -> & He)]; [done|]. by rewrite He.
Qed.

(** C24: whatever a client sends, within the two seconds or not, it reads exactly one
    well-formed HTTP response whose [Content-Length] is the length of its body, and the
    connection is closed.  A [GET] of a health path is answered 200 exactly when the
    node's snapshot says it is healthy, and 503 otherwise, with the snapshot as body;
    what is not a [GET] with a short head is answered 400, 405 or 431. *)
Theorem probes_answered_truthfully stream eof : ∃ text status body,
  _handle stream eof (Writer "" false) = (Ok tt, Writer text true) ∧ response text status body ∧
  ((∃ raw_path, requests stream eof raw_path ∧ fits raw_path status body) ∨
   (¬ (∃ raw_path, requests stream eof raw_path) ∧ status ∈ [400; 405; 431])).
Proof.
  unfold _handle. destruct (readuntil stream eof) as [request|e] eqn:Er.
  - destruct (answer_answered stream eof) as (text & status & body & E & Hr & Hf); [eauto|].
    exists text, status, body. unfold catchM at 1. rewrite E, close_quietly. auto.
  - destruct (send_response 400 JSON (error_body "bad_request")) as (text & E & Hr); [done|].
    exists text, 400, (error_body "bad_request"). split; [|split; [done|]].
    + unfold catchM at 1, answer, mbind at 1, M_bind at 1, liftM at 1. rewrite Er.
      rewrite (readuntil_errors _ _ _ Er). unfold catchM at 1. rewrite E, close_quietly. done.
    + right. split; [|set_solver]. intros (raw & request & E' & _). by rewrite Er in E'.
Qed.

Lemma snapshot_body_decodes : plain node_id →
  loads (dumps_ascii (snapshot_json node_id snapshot)) = Ok (canon (snapshot_json node_id snapshot)).
Proof.
  intros Hp. rewrite dumps_plain.
  - apply loads_dumps_canon. unfold snapshot_json. simpl. split; [|done].
    apply (bool_decide_unpack _). by vm_compute.
  - unfold snapshot_json. simpl. destruct (recovery_phase snapshot); repeat split; try done; by apply (bool_decide_unpack _).
Qed.
End endpoint.
End EndpointSpec.

(** ** [observed_node.py] *)
Definition _ERROR_STATUS : list (Z * string) :=
  [(pb.TIMEOUT, "timeout"); (pb.OVERLOADED, "overloaded"); (pb.RATE_LIMITED, "rate_limited"); (pb.NO_ROUTE, "no_route");
   (pb.PEER_UNAVAILABLE, "unavailable"); (pb.CAUSAL_UNAVAILABLE, "unavailable");
   (15, "unavailable"); (pb.PERSISTENCE_UNAVAILABLE, "unavailable")].

(** [_ERROR_STATUS.get(code, "error")] *)
Fixpoint status_name (code : Z) (table : list (Z * string)) : string :=
  match table with [] => "error" | (c, name) :: table => if code =? c then name else status_name code table end.

Module ObservedDistributedNode.
Section observed.
Context {S : Type} (parts : NodeParts S) (settings : Node.Settings).
Context `{!Wire pb.Envelope, !Wire pb.TaskRequest, !Wire pb.TaskResponse, !Wire pb.ForwardedTaskRequest, !Wire pb.CrdtResponse}.

Definition _category (message : Message.t) : string :=
  if bool_decide (Message.msg_type message ∈ _CONTROL_TYPES) then "cluster"
  else if bool_decide (Message.msg_type message ∈ _CRDT_TYPES) then "crdt" else "task".

Definition _task_status (response : Message.t) : string :=
  match decode_task_response (Message.payload response) with
  | Err _ => "error"
  | Ok decoded => if success decoded then "success" else status_name (error_code decoded) _ERROR_STATUS
  end.

Definition _crdt_status (response : Message.t) : string :=
  if negb (bool_decide (Message.msg_type response = CRDT_RESPONSE)) then "success"
  else
    match CrdtCodec.decode_crdt_response (Message.payload response) with
    | Err _ => "error"
    | Ok decoded =>
        if CrdtCodec.success decoded then "success" else status_name (CrdtCodec.error_code decoded) _ERROR_STATUS
    end.

Definition status_of (category : string) (outcome : result Message.t) : string :=
  match outcome with
  | Err _ => "error"
  | Ok response =>
      if bool_decide (category = "task") then _task_status response
      else if bool_decide (category = "crdt") then _crdt_status response
      else "success"
  end.

(** The [finally] clause. *)
Definition finish (category status : string) : M Metrics.t unit :=
  _ ← Metrics.request_finished category status;
  if bool_decide (status = "rate_limited") then Metrics.rate_limited
  else if bool_decide (status = "overloaded") then Metrics.overloaded "compute"
  else mret tt.

Definition handle_message (message : Message.t) : M (Metrics.t * S) Message.t := λ s,
  let category := _category message in
  match Metrics.request_started category s.1 with
  | (Err e, m) => (Err e, (m, s.2))
  | (Ok _, m) =>
      match DistributedNode.handle_message parts settings message s.2 with
      | (outcome, base) =>
          match finish category (status_of category outcome) m with
          | (Ok _, m) => (outcome, (m, base))
          | (Err e, m) => (Err e, (m, base))
          end
      end
  end.
End observed.
End ObservedDistributedNode.

(** *** Measuring changes nothing *)
Module ObservedSpec.
Import Metrics MetricsSpec ObservedDistributedNode.

Definition statuses : list string := allowed "status".

Lemma status_name_known code : status_name code _ERROR_STATUS ∈ statuses.
Proof. unfold _ERROR_STATUS. cbn [status_name]. repeat case_match; in_list. Qed.

Lemma normalize_status st : st ∈ statuses → normalize "status" st = Ok st.
Proof.
  intros H. assert (Forall (λ st, normalize "status" st = Ok st) statuses) as Hall.
  { repeat constructor; by vm_compute. }
  rewrite Forall_forall in Hall. by apply Hall.
Qed.

Definition at_series (name : string) (labels : list string) (v : Z) (k : series) : Z :=
  if decide (k = (name, labels)) then v else 0.

(** What one request adds to each series. *)
Definition counted (category status : string) (k : series) : Z :=
  at_series "distsys_requests_total" [category; status] 1 k +
  at_series "distsys_request_duration_seconds" [category] 1 k +
  at_series "distsys_rate_limited_total" [] (if decide (status = "rate_limited") then 1 else 0) k +
  at_series "distsys_overloaded_total" ["compute"] (if decide (status = "overloaded") then 1 else 0) k.

Section observed.
Context {S : Type} (parts : NodeParts S) (settings : Node.Settings).
Context `{!Wire pb.Envelope, !Wire pb.TaskRequest, !Wire pb.TaskResponse, !Wire pb.ForwardedTaskRequest, !Wire pb.CrdtResponse}.

Lemma status_of_known category outcome : status_of category outcome ∈ statuses.
Proof.
  unfold status_of, _task_status, _crdt_status. repeat case_match; try in_list; apply status_name_known.
Qed.

Lemma category_known message : ∃ c, _category message = c ∧ normalize "message_type" c = Ok c ∧ c ∈ ["cluster"; "crdt"; "task"].
Proof. unfold _category. repeat case_bool_decide; eexists; (split; [reflexivity|split; [by vm_compute|in_list]]). Qed.
End observed.

(** With metrics on, [m] returns and changes each series by [d]. *)
Definition adds (m : M t unit) (d : series → Z) : Prop :=
  ∀ s, enabled s = true → ∃ s', m s = (Ok tt, s') ∧ enabled s' = true ∧ ∀ k, value s' k = value s k + d k.

Lemma adds_ret : adds (mret tt) (λ _, 0).
Proof. intros s Hs. exists s. split_and!; [done..|]. intros k. lia. Qed.

Lemma adds_inc name labels : adds (inc name labels) (at_series name labels 1).
Proof.
  intros s Hs. eexists. split; [reflexivity|]. split; [done|]. intros k. unfold at_series.
  etrans; [apply (value_put (name, labels))|]. case_decide; subst; lia.
Qed.

Lemma adds_dec name labels : adds (dec name labels) (at_series name labels (-1)).
Proof.
  intros s Hs. eexists. split; [reflexivity|]. split; [done|]. intros k. unfold at_series.
  etrans; [apply (value_put (name, labels))|]. case_decide; subst; lia.
Qed.

Lemma adds_bind m f d d' : adds m d → adds (f tt) d' → adds (m ≫= f) (λ k, d k + d' k).
Proof.
  intros Hm Hf s Hs. destruct (Hm s Hs) as (s1 & E1 & H1 & V1). destruct (Hf s1 H1) as (s2 & E2 & H2 & V2).
  exists s2. unfold mbind, M_bind. rewrite E1. split_and!; [done..|]. intros k. rewrite V2, V1. lia.
Qed.

Lemma adds_enabled m d : adds m d → adds (when_enabled m) d.
Proof. intros Hm s Hs. unfold when_enabled, mbind, M_bind, gets. rewrite Hs. by apply Hm. Qed.

Lemma adds_label kind value l f d : normalize kind value = Ok l → adds (f l) d → adds (liftM (normalize kind value) ≫= f) d.
Proof. intros E Hf s Hs. unfold mbind, M_bind, liftM. rewrite E. by apply Hf. Qed.

Lemma request_started_adds c : adds (request_started c) (at_series "distsys_requests_inflight" [] 1).
Proof. apply adds_enabled, adds_inc. Qed.

Lemma request_finished_adds c st : normalize "message_type" c = Ok c → normalize "status" st = Ok st →
  adds (request_finished c st) (λ k, at_series "distsys_requests_inflight" [] (-1) k +
    (at_series "distsys_requests_total" [c; st] 1 k + at_series "distsys_request_duration_seconds" [c] 1 k)).
Proof.
  intros Hc Hst. apply adds_enabled. eapply adds_label; [done|]. eapply adds_label; [done|].
  apply adds_bind; [apply adds_dec|]. apply adds_bind; apply adds_inc.
Qed.

Lemma finish_adds c st : normalize "message_type" c = Ok c → normalize "status" st = Ok st →
  adds (finish c st) (λ k, at_series "distsys_requests_inflight" [] (-1) k + counted c st k).
Proof.
  intros Hc Hst.
  assert (adds ((λ _ : unit, if bool_decide (st = "rate_limited") then rate_limited
                else if bool_decide (st = "overloaded") then overloaded "compute" else mret tt) tt)
            (λ k, at_series "distsys_rate_limited_total" [] (if decide (st = "rate_limited") then 1 else 0) k +
                  at_series "distsys_overloaded_total" ["compute"] (if decide (st = "overloaded") then 1 else 0) k)) as H.
  { intros s Hs. cbn beta. case_bool_decide as H1; [|case_bool_decide as H2].
    - subst. destruct (adds_enabled _ _ (adds_inc "distsys_rate_limited_total" []) s Hs) as (s' & E & He & Hv).
      exists s'. split_and!; [done..|]. intros k. rewrite Hv. unfold at_series. repeat case_decide; simplify_eq; lia.
    - subst. destruct (adds_enabled _ _ (adds_label "component" "compute" "compute" (λ c, inc "distsys_overloaded_total" [c]) _
                         eq_refl (adds_inc _ _)) s Hs) as (s' & E & He & Hv).
      exists s'. split_and!; [done..|]. intros k. rewrite Hv. unfold at_series. repeat case_decide; simplify_eq; lia.
    - exists s. split_and!; [done..|]. intros k. unfold at_series. repeat case_decide; simplify_eq; lia. }
  intros s Hs. pose proof (request_finished_adds c st Hc Hst) as Hr. pose proof (adds_bind _ _ _ _ Hr H) as Hb.
  destruct (Hb s Hs) as (s' & E & He & Hv). exists s'. split; [exact E|]. split; [done|]. intros k. rewrite Hv. unfold counted. lia.
Qed.

(** With metrics off nothing is recorded. *)
Lemma finish_off c st m : enabled m = false → finish c st m = (Ok tt, m).
Proof.
  intros H. unfold finish, request_finished, rate_limited, overloaded, when_enabled, mbind, M_bind, gets. rewrite H.
  unfold mret, M_ret. repeat case_bool_decide; cbn iota beta; rewrite ?H; done.
Qed.

(** C22: the measured node answers every message exactly as the plain node does, with
    the same effect on the node, errors included, whether metrics are on or off; with
    metrics on, the request is counted once, under its category and the status its
    response shows, and the number of requests in flight is what it was before. *)
Theorem observed_node_is_transparent {S : Type} (parts : NodeParts S) (settings : Node.Settings)
    `{!Wire pb.Envelope, !Wire pb.TaskRequest, !Wire pb.TaskResponse, !Wire pb.ForwardedTaskRequest, !Wire pb.CrdtResponse}
    (message : Message.t) (m : t) (s : S) :
  let (outcome, s') := DistributedNode.handle_message parts settings message s in
  let category := _category message in
  ∃ m', handle_message parts settings message (m, s) = (outcome, (m', s')) ∧
    (if enabled m then ∀ k, value m' k = value m k + counted category (status_of category outcome) k else m' = m).
Proof.
  destruct (DistributedNode.handle_message parts settings message s) as [outcome s'] eqn:E. cbn zeta.
  destruct (category_known message) as (c & Ec & Hc & _). unfold handle_message. cbn [fst snd]. rewrite Ec, E.
  set (st := status_of c outcome). destruct (enabled m) eqn:He.
  - destruct (request_started_adds c m He) as (m1 & E1 & He1 & V1).
    destruct (finish_adds c st Hc (normalize_status _ (status_of_known c outcome)) m1 He1) as (m2 & E2 & He2 & V2).
    rewrite E1. fold st in E2. rewrite E2. exists m2. split; [done|]. intros k. rewrite V2, V1. unfold at_series. case_decide; lia.
  - unfold request_started, when_enabled, mbind, M_bind, gets. rewrite He. unfold mret, M_ret.
    rewrite finish_off by done. by exists m.
Qed.
End ObservedSpec.

(** *** Starting and stopping *)
Module ObservedLifecycle.
(** [observability_server._server] and [_observability_task], when they are not [None];
    whether the services report to the node's metrics. *)
Record runtime := Runtime { serving : bool; polling : bool; wired : bool }.

(** [on_coordination_health] of [DistributedNode.start]: what a change of the lease's
    health does to the node and to its metrics, when it has them. *)
Definition on_coordination_health (health : CoordinationHealth) : M (HealthSnapshot * option Metrics.t) unit := λ s,
  let snapshot := HealthState.set_coordination (healthy health) (message health) s.1 in
  match s.2 with
  | None => (Ok tt, (snapshot, None))
  | Some metrics =>
      match (_ ← Metrics.set_coordination (healthy health);
             if healthy health then mret tt else Metrics.coordination_failure "lease") metrics with
      | (r, metrics) => (r, (snapshot, Some metrics))
      end
  end.

Section lifecycle.
(** The rest of the world, and the calls of the plain node into it; what the endpoint's
    sockets do when it starts and stops; [tracing.shutdown]; the membership table and the
    outbox as a refresh finds them. *)
Context {W : Type} (run : call → M W unit) (settings : NodeLifecycle.Settings) (observability_enabled : bool).
Context (bind unbind shutdown : M W unit) (members : W → list ClusterMember.t) (pending_count : W → Z).
Abbreviation st := (Metrics.t * runtime * (NodeLifecycle.t * W))%type.

Definition on_metrics (m : M Metrics.t unit) : M st unit := λ s,
  match m s.1.1 with (r, x) => (r, (x, s.1.2, s.2)) end.
Definition on_runtime (f : runtime → runtime) : M st unit := modifyM (λ s, (s.1.1, f s.1.2, s.2)).
Definition on_base {A} (m : M (NodeLifecycle.t * W) A) : M st A := λ s,
  match m s.2 with (r, b) => (r, (s.1.1, s.1.2, b)) end.
Definition on_world {A} (m : M W A) : M st A := on_base (λ b, match m b.2 with (r, w) => (r, (b.1, w)) end).

(** [ObservabilityServer.start] and [stop] *)
Definition server_start : M st unit :=
  s ← getM;
  if serving s.1.2 then mret tt
  else _ ← on_world bind; on_runtime (λ r, Runtime true (polling r) (wired r)).

Definition server_stop : M st unit :=
  s ← getM;
  if serving s.1.2 then _ ← on_runtime (λ r, Runtime false (polling r) (wired r)); on_world unbind
  else mret tt.

Definition _wire_existing_services : M st unit := on_runtime (λ r, Runtime (serving r) (polling r) true).

Definition count (status : MemberStatus) (l : list ClusterMember.t) : Z :=
  Z.of_nat (length (filter (λ m, ClusterMember.status m = status) l)).

Definition _refresh_runtime_metrics : M st unit :=
  s ← getM;
  let base := s.2.1 in
  let snapshot := NodeLifecycle.health base in
  _ ← on_metrics (Metrics.set_recovery_phase (RecoveryPhase_value (recovery_phase snapshot)));
  _ ← on_metrics (Metrics.set_coordination (coordination snapshot));
  _ ← (if NodeLifecycle.cluster_service base then
         let l := members s.2.2 in
         on_metrics (Metrics.set_members (count ALIVE l) (count SUSPECT l) (count DEAD l))
       else mret tt);
  if NodeLifecycle.crdt_service base then on_metrics (Metrics.set_replication_queue_depth (pending_count s.2.2))
  else mret tt.

Definition _stop_observability_runtime : M st unit :=
  _ ← on_runtime (λ r, Runtime (serving r) false (wired r));
  _ ← (if observability_enabled then server_stop else mret tt);
  on_world shutdown.

(** [try: await super().start() except Exception: ...; raise else: ...] *)
Definition measured_start : M st unit :=
  outcome ← (λ s, match on_base (NodeLifecycle.start run settings) s with (r, s) => (Ok r, s) end);
  match outcome with
  | Ok _ => on_metrics (Metrics.observe_recovery "success")
  | Err e =>
      _ ← (if isinstance e [Exception] then on_metrics (Metrics.observe_recovery "failure") else mret tt);
      failM e
  end.

Definition start : M st unit :=
  s ← getM;
  if NodeLifecycle.is_running s.2.1 then mret tt
  else
    _ ← (if observability_enabled
         then _ ← server_start; on_runtime (λ r, Runtime (serving r) true (wired r))
         else mret tt);
    catchM (_ ← measured_start; _ ← _wire_existing_services; _refresh_runtime_metrics) [BaseException]
      (λ exc, _ ← _stop_observability_runtime; failM exc).

Definition stop : M st unit := λ s,
  match on_base (NodeLifecycle.stop run) s with
  | (r, s) => match _stop_observability_runtime s with (Ok _, s) => (r, s) | (Err e, s) => (Err e, s) end
  end.

(** One round of [_poll_runtime_metrics], before its sleep. *)
Definition poll : M st unit := catchM _refresh_runtime_metrics [Exception] (λ _, mret tt).
End lifecycle.
End ObservedLifecycle.

Module ObservedLifecycleSpec.
Import MetricsSpec ObservedLifecycle.

Lemma isinstance_base e : isinstance e [BaseException] = true.
Proof. destruct e as [c ? ?]. by destruct c. Qed.

(** [m] leaves the phase gauge alone. *)
Definition leaves_phase (m : M Metrics.t unit) : Prop :=
  ∀ s p, Metrics.value (m s).2 ("distsys_recovery_phase", [p]) = Metrics.value s ("distsys_recovery_phase", [p]).

Lemma leaves_put k v : k.1 ≠ "distsys_recovery_phase" → leaves_phase (Metrics.put k v).
Proof. intros Hk s p. rewrite value_put. rewrite decide_False; [done|]. by intros <-. Qed.

Lemma leaves_enabled m : leaves_phase m → leaves_phase (Metrics.when_enabled m).
Proof. intros Hm s p. unfold Metrics.when_enabled, mbind, M_bind, gets. destruct (Metrics.enabled s); [apply Hm|done]. Qed.

Lemma leaves_members a b c : leaves_phase (Metrics.set_members a b c).
Proof.
  apply leaves_enabled. intros s p.
  apply (value_put_each (λ sv : string * Z, [sv.1]) (λ sv, Z.max 0 sv.2) "distsys_members" [("alive", a); ("suspect", b); ("dead", c)]);
    [apply (bool_decide_unpack _); by vm_compute|done].
Qed.

(** The gauge shows [phase], and no other. *)
Definition shows_phase (m : Metrics.t) (phase : RecoveryPhase) : Prop :=
  Metrics.enabled m = true → ∃ current, normalize "phase" (RecoveryPhase_value phase) = Ok current ∧ current ≠ "other" ∧
    ∀ p, p ∈ Metrics.phases → Metrics.value m ("distsys_recovery_phase", [p]) = if decide (p = current) then 1 else 0.

Lemma phase_named phase : ∃ current, normalize "phase" (RecoveryPhase_value phase) = Ok current ∧ current ≠ "other".
Proof. destruct phase; eexists; (split; [by vm_compute|done]). Qed.

(** [m] returns within the vocabulary and keeps what the gauge shows and the switch. *)
Definition quiet (m : M Metrics.t unit) : Prop :=
  keeps m ∧ leaves_phase m ∧ ∀ s, Metrics.enabled (m s).2 = Metrics.enabled s.

Lemma quiet_record r : (∀ s, Metrics.enabled (record r s).2 = Metrics.enabled s) → leaves_phase (record r) → quiet (record r).
Proof. intros He Hl. split_and!; [apply record_keeps|done..]. Qed.

Lemma quiet_coordination b : quiet (Metrics.set_coordination b).
Proof.
  apply (quiet_record (CoordinationIs b)); [|by apply leaves_enabled, leaves_put].
  intros s. unfold record, Metrics.set_coordination, Metrics.when_enabled, mbind, M_bind, gets.
  by destruct (Metrics.enabled s) eqn:E.
Qed.

Lemma quiet_depth d : quiet (Metrics.set_replication_queue_depth d).
Proof.
  apply (quiet_record (QueueDepth d)); [|by apply leaves_enabled, leaves_put].
  intros s. unfold record, Metrics.set_replication_queue_depth, Metrics.when_enabled, mbind, M_bind, gets.
  by destruct (Metrics.enabled s) eqn:E.
Qed.

Lemma quiet_members a b c : quiet (Metrics.set_members a b c).
Proof.
  apply (quiet_record (SetMembers a b c)); [|apply leaves_members].
  intros s. unfold record, Metrics.set_members, Metrics.when_enabled, mbind, M_bind at 1, gets.
  by destruct (Metrics.enabled s) eqn:E.
Qed.

Lemma quiet_run m x phase : quiet m → bounded x → shows_phase x phase →
  ∃ x', m x = (Ok tt, x') ∧ bounded x' ∧ Metrics.enabled x' = Metrics.enabled x ∧ shows_phase x' phase.
Proof.
  intros (Hk & Hl & He) Hx Hp. destruct (Hk x Hx) as (x' & E & Hx'). exists x'. specialize (Hl x). specialize (He x).
  rewrite E in Hl, He. simpl in Hl, He. split_and!; [done..|]. intros Hon. rewrite He in Hon.
  destruct (Hp Hon) as (current & ? & ? & Hv). exists current. split_and!; [done..|]. intros p Hp'. rewrite Hl. by apply Hv.
Qed.

Lemma phase_run x phase : bounded x → ∃ x', Metrics.set_recovery_phase (RecoveryPhase_value phase) x = (Ok tt, x') ∧
  bounded x' ∧ Metrics.enabled x' = Metrics.enabled x ∧ shows_phase x' phase.
Proof.
  intros Hx. destruct (record_keeps (RecoveryPhaseIs (RecoveryPhase_value phase)) x Hx) as (x' & E & Hx').
  destruct (phase_named phase) as (current & En & Ho).
  assert (Metrics.enabled x' = Metrics.enabled x) as He.
  { unfold record, Metrics.set_recovery_phase, Metrics.when_enabled, mbind at 1, M_bind at 1, gets in E.
    destruct (Metrics.enabled x) eqn:Ex; [|by injection E as <-].
    unfold mbind at 1, M_bind at 1, liftM in E. rewrite En in E. by injection E as <-. }
  exists x'. split_and!; [done..|]. intros Hon. exists current. split_and!; [done..|]. intros p Hp.
  rewrite He in Hon. pose proof (enabled_phase_gauge x _ current Hon En p Hp) as Hv.
  change (record _) with (Metrics.set_recovery_phase (RecoveryPhase_value phase)) in E. by rewrite E in Hv.
Qed.

(** The snapshot and the gauge tell the health the lease manager reported. *)
Lemma coordination_health_reported health snapshot m : Metrics.enabled m = true →
  ∃ m', on_coordination_health health (snapshot, Some m) =
    (Ok tt, (HealthState.set_coordination (healthy health) (message health) snapshot, Some m')) ∧
    Metrics.value m' ("distsys_coordination_healthy", []) = (if healthy health then 1 else 0).
Proof.
  intros He. unfold on_coordination_health, mbind, M_bind, Metrics.set_coordination, Metrics.coordination_failure,
    Metrics.when_enabled, gets. cbn [fst snd]. unfold mbind, M_bind. rewrite He.
  destruct (healthy health).
  - eexists. split; [reflexivity|]. by etrans; [apply (value_put ("distsys_coordination_healthy", []))|].
  - unfold Metrics.set, Metrics.put, modifyM. cbn [Metrics.enabled]. rewrite He. unfold liftM.
    destruct (normalize_allowed "operation" "lease") as (op & E & _); [apply (bool_decide_unpack _); by vm_compute|]. rewrite E.
    eexists. split; [reflexivity|]. etrans; [apply (value_put ("distsys_coordination_failures_total", [op]))|].
    rewrite decide_False by done. by etrans; [apply (value_put ("distsys_coordination_healthy", []))|].
Qed.

Section spec.
Context {W : Type} (run : call → M W unit) (settings : NodeLifecycle.Settings) (observability_enabled : bool).
Context (bind unbind shutdown : M W unit) (members : W → list ClusterMember.t) (pending_count : W → Z).
(** Closing the endpoint and the exporter does not raise. *)
Hypothesis unbind_returns : ∀ w, ∃ w', unbind w = (Ok tt, w').
Hypothesis shutdown_returns : ∀ w, ∃ w', shutdown w = (Ok tt, w').

Abbreviation start := (ObservedLifecycle.start run settings observability_enabled bind unbind shutdown members pending_count).
Abbreviation refresh := (_refresh_runtime_metrics members pending_count).
Abbreviation stop_runtime := (_stop_observability_runtime observability_enabled unbind shutdown).

Lemma refresh_shows x r b : bounded x → ∃ x', refresh (x, r, b) = (Ok tt, (x', r, b)) ∧
  bounded x' ∧ Metrics.enabled x' = Metrics.enabled x ∧ shows_phase x' (recovery_phase (NodeLifecycle.health b.1)).
Proof.
  intros Hx. unfold _refresh_runtime_metrics, mbind, M_bind, getM. cbn [fst snd].
  destruct (phase_run x (recovery_phase (NodeLifecycle.health b.1)) Hx) as (x1 & E1 & Hx1 & He1 & Hp1).
  unfold on_metrics at 1. cbn [fst snd]. rewrite E1.
  destruct (quiet_run _ x1 _ (quiet_coordination (coordination (NodeLifecycle.health b.1))) Hx1 Hp1) as (x2 & E2 & Hx2 & He2 & Hp2).
  unfold on_metrics at 1. cbn [fst snd]. rewrite E2.
  assert (∃ x3, (if NodeLifecycle.cluster_service b.1
                 then on_metrics (Metrics.set_members (count ALIVE (members b.2)) (count SUSPECT (members b.2)) (count DEAD (members b.2)))
                 else mret tt) (x2, r, b) = (Ok tt, (x3, r, b)) ∧ bounded x3 ∧ Metrics.enabled x3 = Metrics.enabled x ∧
                shows_phase x3 (recovery_phase (NodeLifecycle.health b.1))) as (x3 & E3 & Hx3 & He3 & Hp3).
  { destruct (NodeLifecycle.cluster_service b.1); [|exists x2; split_and!; [done..|congruence|done]].
    destruct (quiet_run _ x2 _ (quiet_members (count ALIVE (members b.2)) (count SUSPECT (members b.2)) (count DEAD (members b.2)))
                Hx2 Hp2) as (x3 & E3 & ? & ? & ?).
    exists x3. unfold on_metrics. cbn [fst snd]. rewrite E3. split_and!; [done..|congruence|done]. }
  rewrite E3. destruct (NodeLifecycle.crdt_service b.1); [|exists x3; auto].
  destruct (quiet_run _ x3 _ (quiet_depth (pending_count b.2)) Hx3 Hp3) as (x4 & E4 & ? & ? & ?).
  exists x4. unfold on_metrics. cbn [fst snd]. rewrite E4. split_and!; [done..|congruence|done].
Qed.

Lemma stop_runtime_clean x r b w : (serving r = true → observability_enabled = true) →
  ∃ w', stop_runtime (x, r, (b, w)) = (Ok tt, (x, Runtime false false (wired r), (b, w'))).
Proof.
  intros Hr. unfold _stop_observability_runtime, server_stop, mbind, M_bind, on_runtime, modifyM, getM, on_world, on_base.
  cbn [fst snd serving polling wired]. destruct observability_enabled.
  - destruct (serving r); cbn [fst snd serving polling wired].
    + destruct (unbind_returns w) as [w1 E1]. rewrite E1. cbn [fst snd]. destruct (shutdown_returns w1) as [w2 E2]. rewrite E2. eauto.
    + destruct (shutdown_returns w) as [w2 E2]. unfold mret, M_ret. cbn [fst snd]. rewrite E2. eauto.
  - destruct (serving r); [by specialize (Hr eq_refl)|]. destruct (shutdown_returns w) as [w2 E2].
    unfold mret, M_ret. cbn [fst snd]. rewrite E2. eauto.
Qed.

Abbreviation up := (Runtime observability_enabled observability_enabled false).

Lemma measured x r b : bounded x →
  ∃ x', measured_start run settings (x, r, b) =
    match NodeLifecycle.start run settings b with
    | (Ok _, b') => (Ok tt, (x', r, b')) | (Err e, b') => (Err e, (x', r, b'))
    end ∧ bounded x'.
Proof.
  intros Hx. unfold measured_start, mbind, M_bind at 1, on_base. cbn [fst snd].
  destruct (NodeLifecycle.start run settings b) as [[[]|e] b'].
  - destruct (record_keeps (RecoveryDone "success") x Hx) as (x' & E & Hx'). exists x'.
    unfold on_metrics. cbn [fst snd]. change (Metrics.observe_recovery "success") with (record (RecoveryDone "success")). by rewrite E.
  - destruct (isinstance e [Exception]); [|by exists x].
    destruct (record_keeps (RecoveryDone "failure") x Hx) as (x' & E & Hx'). exists x'.
    unfold M_bind, on_metrics. cbn [fst snd].
    change (Metrics.observe_recovery "failure") with (record (RecoveryDone "failure")). by rewrite E.
Qed.

Lemma server_start_off x b w : let off := Runtime false false false in
  server_start bind (x, off, (b, w)) =
  match bind w with
  | (Ok _, w1) => (Ok tt, (x, Runtime true false false, (b, w1))) | (Err e, w1) => (Err e, (x, off, (b, w1)))
  end.
Proof.
  cbn zeta. unfold server_start, mbind, M_bind, getM, on_world, on_base. cbn [fst snd serving].
  by destruct (bind w) as [[[]|e] w1].
Qed.

(** Starting the measured node is starting the plain node, with the endpoint up
    before it.  When the start succeeds, the endpoint serves, the poller runs, the
    services are wired and the phase gauge is one-hot at the phase the node reports;
    when anything raises, the same exception leaves and neither endpoint nor poller is
    left running.  The metrics stay within their vocabulary. *)
Theorem observed_start_all_or_nothing x b w : bounded x → NodeLifecycle.is_running b = false →
  let off := Runtime false false false in
  match (if observability_enabled then bind w else (Ok tt, w)) with
  | (Err e, w1) => start (x, off, (b, w)) = (Err e, (x, off, (b, w1)))
  | (Ok _, w1) =>
      match NodeLifecycle.start run settings (b, w1) with
      | (Ok _, base) => ∃ x', start (x, off, (b, w)) =
          (Ok tt, (x', Runtime observability_enabled observability_enabled true, base)) ∧
          bounded x' ∧ shows_phase x' (recovery_phase (NodeLifecycle.health base.1))
      | (Err e, (b', _)) => ∃ x' w', start (x, off, (b, w)) = (Err e, (x', off, (b', w'))) ∧ bounded x'
      end
  end.
Proof.
  intros Hx Hb off.
  assert (∀ w1, (if observability_enabled then bind w else (Ok tt, w)) = (Ok tt, w1) →
    start (x, off, (b, w)) =
    catchM (_ ← measured_start run settings; _ ← _wire_existing_services; refresh) [BaseException]
      (λ exc, _ ← stop_runtime; failM exc) (x, up, (b, w1))) as Hgo.
  { intros w1 E. unfold start, mbind at 1, M_bind at 1, getM. cbn [fst snd]. rewrite Hb. destruct observability_enabled.
    - pose proof (server_start_off x b w) as Hs. rewrite E in Hs.
      rewrite (M_bind_Ok _ _ _ tt (x, Runtime true true false, (b, w1))); [done|].
      by rewrite (M_bind_Ok _ _ _ tt (x, Runtime true false false, (b, w1)) Hs).
    - by injection E as <-. }
  destruct (if observability_enabled then bind w else (Ok tt, w)) as [[[]|e] w1] eqn:Ebind.
  - rewrite (Hgo w1 eq_refl). clear Hgo. destruct (measured x up (b, w1) Hx) as (x1 & E1 & Hx1).
    unfold catchM. destruct (NodeLifecycle.start run settings (b, w1)) as [[[]|e] [b' w']].
    + rewrite (M_bind_Ok _ _ _ _ _ E1). unfold mbind at 1, M_bind at 1, _wire_existing_services, on_runtime, modifyM. cbn [fst snd serving polling wired].
      destruct (refresh_shows x1 (Runtime observability_enabled observability_enabled true) (b', w') Hx1) as (x2 & E2 & Hx2 & _ & Hp).
      rewrite E2. eauto.
    + rewrite (M_bind_Err _ _ _ _ _ E1), isinstance_base. unfold mbind, M_bind.
      destruct (stop_runtime_clean x1 up b' w') as [w2 E2]; [done|]. rewrite E2. eauto.
  - clear Hgo. unfold start, mbind at 1, M_bind at 1, getM. cbn [fst snd]. rewrite Hb. destruct observability_enabled; [|done].
    pose proof (server_start_off x b w) as Hs. rewrite Ebind in Hs. apply M_bind_Err. by apply M_bind_Err.
Qed.

(** Stopping ends the endpoint and the poller whatever the plain node's stop does. *)
Lemma observed_stop_clean x r b w : (serving r = true → observability_enabled = true) →
  ∃ w', ObservedLifecycle.stop run observability_enabled unbind shutdown (x, r, (b, w)) =
    ((NodeLifecycle.stop run (b, w)).1, (x, Runtime false false (wired r), ((NodeLifecycle.stop run (b, w)).2.1, w'))).
Proof.
  intros Hr. unfold ObservedLifecycle.stop, on_base. cbn [fst snd]. destruct (NodeLifecycle.stop run (b, w)) as [out [b' w1]].
  destruct (stop_runtime_clean x r b' w1 Hr) as [w2 E2]. rewrite E2. eauto.
Qed.
End spec.
End ObservedLifecycleSpec.

(** ** A measured node that stands alone *)
Module ObservedSample.
Import ObservabilityServer EndpointSpec ObservedLifecycle ObservedLifecycleSpec.

Definition latest (m : Metrics.t) : string := "distsys_members 0".
Definition content_type : string := "text/plain; version=0.0.4; charset=utf-8".
Definition metrics : Metrics.t := Metrics.init "node-1" true.
Definition ready : HealthSnapshot := HealthState.set_recovery_phase READY "" (HealthState.set_readiness true HealthState.init).
Definition probe : string := ("GET /health/ready?verbose HTTP/1.1" +:+ CRLF +:+ "Host: node-1" +:+ BLANK_LINE)%string.

Example probe_answered :
  let text := sent (_handle latest content_type (Ok tt) (Ok tt) "node-1" metrics ready probe false (Writer "" false)).2 in
  String.prefix "HTTP/1.1 200 OK" text = true ∧
  option_map snd (http_read text) = Some (dumps_ascii (snapshot_json "node-1" ready)).
Proof. split; by vm_compute. Qed.

Lemma probes_answered_truthfully_witness : ∃ text status body,
  _handle latest content_type (Ok tt) (Ok tt) "node-1" metrics ready probe false (Writer "" false) = (Ok tt, Writer text true) ∧
  response text status body ∧
  ((∃ raw_path, requests probe false raw_path ∧ fits latest "node-1" metrics ready raw_path status body) ∨
   (¬ (∃ raw_path, requests probe false raw_path) ∧ status ∈ [400; 405; 431])).
Proof. apply probes_answered_truthfully; [reflexivity|left; reflexivity]. Defined.

Definition alone : NodeLifecycle.Settings := NodeLifecycle.mkSettings false false false false.
Definition calls (c : call) : M unit unit := mret tt.
Definition idle : M unit unit := mret tt.

Lemma observed_start_all_or_nothing_witness : ∃ x,
  ObservedLifecycle.start calls alone true idle idle idle (λ _, []) (λ _, 0)
    (metrics, Runtime false false false, (NodeLifecycle.init, tt)) =
  (Ok tt, (x, Runtime true true true, (NodeLifecycle.start calls alone (NodeLifecycle.init, tt)).2)) ∧
  MetricsSpec.bounded x ∧ shows_phase x READY.
Proof.
  exact (observed_start_all_or_nothing calls alone true idle idle idle (λ _, []) (λ _, 0)
    (λ w, ex_intro _ w eq_refl) (λ w, ex_intro _ w eq_refl) metrics NodeLifecycle.init tt
    (MetricsSpec.init_bounded "node-1" true) eq_refl).
Defined.
End ObservedSample.
