(* ===== verification/Config.v ===== *)
(** * Settings: [distsys/utils/config.py]

    The settings of a node, their validation and the environment they are read from, and
    the constructors of the components that take them.  A Python float is a rational
    number, an infinity or NaN: parsing rounds only what is too large or too small for a
    double.  Text is ASCII, and an integer literal has at most 4300 digits. *)

From Stdlib Require Import Ascii QArith Qabs.
From S2P Require Import Prelude Causal Json Resilience Membership Ring Proto Protocol Cluster Outbox AntiEntropy.
From S2P Require Import Repository Recovery PeerClient Coordination Compute Startup Observability.

Local Open Scope Z_scope.

(** ** Floats *)
Inductive float := Fin (q : Q) | PosInf | NegInf | NaN.

(** [a <= b] and [a < b]: false when one of them is NaN. *)
Definition fle (a b : float) : bool :=
  match a, b with
  | NaN, _ | _, NaN => false
  | Fin p, Fin q => Qle_bool p q
  | NegInf, _ | _, PosInf => true
  | _, _ => false
  end.
Definition flt (a b : float) : bool :=
  match a, b with NaN, _ | _, NaN => false | _, _ => negb (fle b a) end.

(** Infinity above the largest double, zero below half of the smallest one. *)
Definition round (q : Q) : float :=
  let limit := inject_Z (2 ^ 1024 - 2 ^ 970) in
  if Qle_bool limit q then PosInf
  else if Qle_bool q (- limit) then NegInf
  else if Qle_bool (Qabs q * inject_Z (2 ^ 1075)) 1 then Fin 0
  else Fin (Qred q).

(** The number of digits. *)
Fixpoint digits (s : string) : Z :=
  match s with EmptyString => 0 | String a r => (if digit_of a is Some _ then 1 else 0) + digits r end.

Definition scale (q : Q) (e : Z) : Q :=
  if 0 <=? e then Qmult q (inject_Z (10 ^ e)) else Qdiv q (inject_Z (10 ^ (- e))).

Definition signed (s : string) : bool * string :=
  match s with
  | String a r => if decide (a = "-"%char) then (true, r) else if decide (a = "+"%char) then (false, r) else (false, s)
  | EmptyString => (false, s)
  end.

(** Digits, a point among them or not, without a sign. *)
Definition mantissa (s : string) : option Q :=
  match split_first "." s with
  | None => z ← parse_digits s 0 false; Some (inject_Z z)
  | Some (whole, fraction) =>
      if negb (nonempty whole) && negb (nonempty fraction) then None
      else
        i ← (if nonempty whole then parse_digits whole 0 false else Some 0);
        f ← (if nonempty fraction then parse_digits fraction 0 false else Some 0);
        Some (Qplus (inject_Z i) (scale (inject_Z f) (- digits fraction)))
  end.

(** [float(s)] *)
Definition py_float (s : string) : option float :=
  let (negative, body) := signed (lower (strip s)) in
  let sign (q : Q) : Q := if negative then Qopp q else q in
  if bool_decide (body ∈ ["inf"; "infinity"]) then Some (if negative then NegInf else PosInf)
  else if bool_decide (body = "nan") then Some NaN
  else
    match split_first "e" body with
    | None => m ← mantissa body; Some (round (sign m))
    | Some (m, e) =>
        m ← mantissa m;
        let (down, e) := signed e in
        e ← parse_digits e 0 false;
        Some (round (sign (scale m (if down then - e else e))))
    end.

Example floats :
  py_float " 0.05 " = Some (Fin (1 # 20)) ∧ py_float "1_0.5E-1" = Some (Fin (21 # 20)) ∧ py_float "-Infinity" = Some NegInf ∧
  py_float "nan" = Some NaN ∧ py_float "1e400" = Some PosInf ∧ py_float "1e-400" = Some (Fin 0) ∧ py_float "." = None ∧
  py_float "1_.5" = None ∧ py_float "5" = Some (Fin 5).
Proof. vm_compute. done. Qed.

(** ** The environment *)

(** [os.getenv(name, default)] *)
Definition getenv (env : gmap string string) (name default_ : string) : string := default default_ (env !! name).

Definition env_int (env : gmap string string) (name default_ : string) : result Z :=
  let raw := getenv env name default_ in
  match py_int raw with
  | Some z => Ok z
  | None => raise ValueError ("invalid literal for int() with base 10: '" +:+ raw +:+ "'")
  end.

Definition env_float (env : gmap string string) (name default_ : string) : result float :=
  let raw := getenv env name default_ in
  match py_float raw with
  | Some f => Ok f
  | None => raise ValueError ("could not convert string to float: '" +:+ raw +:+ "'")
  end.

Definition _env_bool (env : gmap string string) (name : string) (default_ : bool) : result bool :=
  match env !! name with
  | None => Ok default_
  | Some raw =>
      let value := lower (strip raw) in
      if bool_decide (value ∈ ["1"; "true"; "yes"; "on"]) then Ok true
      else if bool_decide (value ∈ ["0"; "false"; "no"; "off"]) then Ok false
      else raise ValueError (name +:+ " must be a boolean value")
  end.

(** [raw.split(",")] *)
Fixpoint split_commas (s cur : string) : list string :=
  match s with
  | EmptyString => [cur]
  | String a r => if decide (a = ","%char) then cur :: split_commas r "" else split_commas r (cur +:+ String a "")
  end.

(** The items that are not blank, without the blanks around them. *)
Definition items (raw : string) : list string := filter (λ x, nonempty x = true) (strip <$> split_commas raw "").

Definition _env_seeds (env : gmap string string) : result (list SeedAddress.t) :=
  let raw := strip (getenv env "CLUSTER_SEEDS" "") in
  if negb (nonempty raw) then Ok [] else mapM_result SeedAddress.parse (items raw).

Definition _env_endpoints (env : gmap string string) (name default_ : string) : list string :=
  items (strip (getenv env name default_)).

(** ** [Settings] *)
Module Settings.
Record t := mk {
  node_id : string; host : string; advertise_host : string; port : Z; max_frame_size : Z;
  request_timeout_seconds : float; log_level : string; cpu_workers : Z; cpu_queue_capacity : Z;
  rate_limit_rps : float; rate_limit_burst : Z; retry_max_attempts : Z; retry_base_delay_seconds : float;
  retry_max_delay_seconds : float; circuit_breaker_failure_threshold : Z; circuit_breaker_recovery_seconds : float;
  cluster_enabled : bool; cluster_seeds : list SeedAddress.t; cluster_virtual_nodes : Z;
  cluster_probe_interval_seconds : float; cluster_ping_timeout_seconds : float;
  cluster_indirect_timeout_seconds : float; cluster_indirect_probe_count : Z;
  cluster_suspicion_timeout_seconds : float; cluster_dead_retention_seconds : float;
  cluster_gossip_interval_seconds : float; crdt_enabled : bool; crdt_replication_factor : Z;
  crdt_replication_queue_capacity : Z; crdt_replication_workers : Z; crdt_replication_retry_max_attempts : Z;
  crdt_replication_retry_base_delay_seconds : float; crdt_replication_retry_max_delay_seconds : float;
  crdt_anti_entropy_interval_seconds : float; crdt_anti_entropy_batch_size : Z; persistence_enabled : bool;
  persistence_db_path : string; persistence_queue_capacity : Z; persistence_busy_timeout_seconds : float;
  persistence_sqlite_synchronous : string; etcd_enabled : bool; etcd_endpoints : list string;
  etcd_namespace : string; etcd_lease_ttl_seconds : Z; etcd_renew_interval_seconds : float; tls_enabled : bool;
  mtls_required : bool; tls_ca_file : string; tls_cert_file : string; tls_key_file : string;
  tls_min_version : string; observability_enabled : bool; observability_host : string; observability_port : Z;
  metrics_enabled : bool; tracing_enabled : bool; otel_exporter_otlp_endpoint : string; otel_service_name : string;
  otel_trace_sample_ratio : float; otel_export_timeout_seconds : float }.

(** The defaults of the fields. *)
Definition defaults : t :=
  mk "node-0" "127.0.0.1" "" 8000 DEFAULT_MAX_FRAME_SIZE (Fin (5 # 1)) "INFO" 2 200 (Fin (500 # 1)) 100 3
    (Fin (1 # 20)) (Fin (1 # 1)) 5 (Fin (10 # 1)) false [] 64 (Fin (1 # 1)) (Fin (1 # 4)) (Fin (1 # 2)) 2
    (Fin (3 # 1)) (Fin (30 # 1)) (Fin (1 # 1)) false 3 500 2 3 (Fin (1 # 20)) (Fin (1 # 1)) (Fin (2 # 1)) 100
    true "./data/node.db" 100 (Fin (5 # 1)) "NORMAL" true ["http://127.0.0.1:2379"] "/distsys/v1" 15
    (Fin (5 # 1)) false false "" "" "" "TLSv1.3" false "127.0.0.1" 9100 true false "http://127.0.0.1:4318"
    "distsys-node" (Fin (1 # 10)) (Fin (2 # 1)).

(** The checks of [__post_init__] in order: when a value is refused, and why. *)
Definition checks (s : t) : list (bool * string) :=
  [(cpu_workers s <? 1, "cpu_workers must be at least 1");
   (cpu_queue_capacity s <? 1, "cpu_queue_capacity must be at least 1");
   (fle (rate_limit_rps s) (Fin 0), "rate_limit_rps must be greater than zero");
   (rate_limit_burst s <? 1, "rate_limit_burst must be at least 1");
   (fle (request_timeout_seconds s) (Fin 0), "request_timeout_seconds must be greater than zero");
   (cluster_virtual_nodes s <? 1, "cluster virtual nodes must be at least 1");
   (fle (cluster_probe_interval_seconds s) (Fin 0), "cluster probe interval must be greater than zero");
   (fle (cluster_ping_timeout_seconds s) (Fin 0), "cluster ping timeout must be greater than zero");
   (fle (cluster_indirect_timeout_seconds s) (Fin 0), "cluster indirect timeout must be greater than zero");
   (cluster_indirect_probe_count s <? 0, "cluster indirect probe count cannot be negative");
   (fle (cluster_suspicion_timeout_seconds s) (Fin 0), "cluster suspicion timeout must be greater than zero");
   (fle (cluster_dead_retention_seconds s) (cluster_suspicion_timeout_seconds s),
    "cluster dead retention must exceed suspicion timeout");
   (fle (cluster_gossip_interval_seconds s) (Fin 0), "cluster gossip interval must be greater than zero");
   (crdt_enabled s && negb (cluster_enabled s), "CRDT_ENABLED requires CLUSTER_ENABLED");
   (crdt_replication_factor s <? 1, "crdt replication factor must be at least 1");
   (crdt_replication_queue_capacity s <? 1, "crdt replication queue capacity must be at least 1");
   (crdt_replication_workers s <? 1, "crdt replication workers must be at least 1");
   (crdt_replication_retry_max_attempts s <? 1, "crdt replication retry attempts must be at least 1");
   (flt (crdt_replication_retry_base_delay_seconds s) (Fin 0),
    "crdt replication retry base delay cannot be negative");
   (flt (crdt_replication_retry_max_delay_seconds s) (Fin 0), "crdt replication retry max delay cannot be negative");
   (flt (crdt_replication_retry_max_delay_seconds s) (crdt_replication_retry_base_delay_seconds s),
    "crdt replication retry max delay cannot be less than base delay");
   (fle (crdt_anti_entropy_interval_seconds s) (Fin 0), "crdt anti entropy interval must be greater than zero");
   (crdt_anti_entropy_batch_size s <? 1, "crdt anti entropy batch size must be at least 1");
   (persistence_queue_capacity s <? 1, "persistence queue capacity must be at least 1");
   (fle (persistence_busy_timeout_seconds s) (Fin 0), "persistence busy timeout must be greater than zero");
   (negb (bool_decide (SQLiteStateRepository.upper (persistence_sqlite_synchronous s) ∈ ["OFF"; "NORMAL"; "FULL"; "EXTRA"])),
    "unsupported SQLite synchronous mode");
   (etcd_enabled s && bool_decide (etcd_endpoints s = []), "etcd endpoints must not be empty when etcd is enabled");
   (negb (nonempty (strip_slash (etcd_namespace s))), "etcd namespace must not be empty");
   (etcd_lease_ttl_seconds s <=? 0, "etcd lease TTL must be positive");
   (fle (etcd_renew_interval_seconds s) (Fin 0), "etcd renew interval must be positive");
   (fle (Fin (inject_Z (etcd_lease_ttl_seconds s))) (etcd_renew_interval_seconds s),
    "etcd renew interval must be less than lease TTL");
   (mtls_required s && negb (tls_enabled s), "MTLS_REQUIRED requires TLS_ENABLED");
   (negb (bool_decide (tls_min_version s = "TLSv1.3")), "Phase 5 secure profile requires TLSv1.3");
   (tls_enabled s && negb (nonempty (tls_ca_file s) && nonempty (tls_cert_file s) && nonempty (tls_key_file s)),
    "TLS_ENABLED requires CA, certificate, and private-key files");
   (negb ((1 <=? observability_port s) && (observability_port s <=? 65535)),
    "observability_port must be in 1..65535");
   (negb (fle (Fin 0) (otel_trace_sample_ratio s) && fle (otel_trace_sample_ratio s) (Fin 1)),
    "otel_trace_sample_ratio must be in [0.0, 1.0]");
   (fle (otel_export_timeout_seconds s) (Fin 0), "otel_export_timeout_seconds must be greater than zero");
   (negb (nonempty (strip (otel_service_name s))), "otel_service_name must not be empty")].

Fixpoint first_refusal (l : list (bool * string)) : result unit :=
  match l with [] => Ok tt | (bad, why) :: l => if (bad : bool) then raise ValueError why else first_refusal l end.

Definition __post_init__ (s : t) : result unit := first_refusal (checks s).

(** [Settings(...)] *)
Definition make (s : t) : result t := _ ← __post_init__ s; Ok s.

Definition from_env (env : gmap string string) : result t :=
  let node_id := getenv env "NODE_ID" "node-0" in
  let host := getenv env "NODE_HOST" "127.0.0.1" in
  let advertise_host := getenv env "NODE_ADVERTISE_HOST" "" in
  port ← env_int env "NODE_PORT" "8000";
  max_frame_size ← env_int env "MAX_FRAME_SIZE" (str_of_int DEFAULT_MAX_FRAME_SIZE);
  request_timeout_seconds ← env_float env "REQUEST_TIMEOUT_SECONDS" "5.0";
  let log_level := SQLiteStateRepository.upper (getenv env "LOG_LEVEL" "INFO") in
  cpu_workers ← env_int env "CPU_WORKERS" "2";
  cpu_queue_capacity ← env_int env "CPU_QUEUE_CAPACITY" "200";
  rate_limit_rps ← env_float env "RATE_LIMIT_RPS" "500.0";
  rate_limit_burst ← env_int env "RATE_LIMIT_BURST" "100";
  retry_max_attempts ← env_int env "RETRY_MAX_ATTEMPTS" "3";
  retry_base_delay_seconds ← env_float env "RETRY_BASE_DELAY_SECONDS" "0.05";
  retry_max_delay_seconds ← env_float env "RETRY_MAX_DELAY_SECONDS" "1.0";
  circuit_breaker_failure_threshold ← env_int env "CIRCUIT_BREAKER_FAILURE_THRESHOLD" "5";
  circuit_breaker_recovery_seconds ← env_float env "CIRCUIT_BREAKER_RECOVERY_SECONDS" "10.0";
  cluster_enabled ← _env_bool env "CLUSTER_ENABLED" false;
  cluster_seeds ← _env_seeds env;
  cluster_virtual_nodes ← env_int env "CLUSTER_VIRTUAL_NODES" "64";
  cluster_probe_interval_seconds ← env_float env "CLUSTER_PROBE_INTERVAL_SECONDS" "1.0";
  cluster_ping_timeout_seconds ← env_float env "CLUSTER_PING_TIMEOUT_SECONDS" "0.25";
  cluster_indirect_timeout_seconds ← env_float env "CLUSTER_INDIRECT_TIMEOUT_SECONDS" "0.50";
  cluster_indirect_probe_count ← env_int env "CLUSTER_INDIRECT_PROBE_COUNT" "2";
  cluster_suspicion_timeout_seconds ← env_float env "CLUSTER_SUSPICION_TIMEOUT_SECONDS" "3.0";
  cluster_dead_retention_seconds ← env_float env "CLUSTER_DEAD_RETENTION_SECONDS" "30.0";
  cluster_gossip_interval_seconds ← env_float env "CLUSTER_GOSSIP_INTERVAL_SECONDS" "1.0";
  crdt_enabled ← _env_bool env "CRDT_ENABLED" false;
  crdt_replication_factor ← env_int env "CRDT_REPLICATION_FACTOR" "3";
  crdt_replication_queue_capacity ← env_int env "CRDT_REPLICATION_QUEUE_CAPACITY" "500";
  crdt_replication_workers ← env_int env "CRDT_REPLICATION_WORKERS" "2";
  crdt_replication_retry_max_attempts ← env_int env "CRDT_REPLICATION_RETRY_MAX_ATTEMPTS" "3";
  crdt_replication_retry_base_delay_seconds ← env_float env "CRDT_REPLICATION_RETRY_BASE_DELAY_SECONDS" "0.05";
  crdt_replication_retry_max_delay_seconds ← env_float env "CRDT_REPLICATION_RETRY_MAX_DELAY_SECONDS" "1.0";
  crdt_anti_entropy_interval_seconds ← env_float env "CRDT_ANTI_ENTROPY_INTERVAL_SECONDS" "2.0";
  crdt_anti_entropy_batch_size ← env_int env "CRDT_ANTI_ENTROPY_BATCH_SIZE" "100";
  persistence_enabled ← _env_bool env "PERSISTENCE_ENABLED" true;
  let persistence_db_path := getenv env "PERSISTENCE_DB_PATH" "./data/node.db" in
  persistence_queue_capacity ← env_int env "PERSISTENCE_QUEUE_CAPACITY" "100";
  persistence_busy_timeout_seconds ← env_float env "PERSISTENCE_BUSY_TIMEOUT_SECONDS" "5.0";
  let persistence_sqlite_synchronous := SQLiteStateRepository.upper (getenv env "PERSISTENCE_SQLITE_SYNCHRONOUS" "NORMAL") in
  etcd_enabled ← _env_bool env "ETCD_ENABLED" true;
  let etcd_endpoints := _env_endpoints env "ETCD_ENDPOINTS" "http://127.0.0.1:2379" in
  let etcd_namespace := getenv env "ETCD_NAMESPACE" "/distsys/v1" in
  etcd_lease_ttl_seconds ← env_int env "ETCD_LEASE_TTL_SECONDS" "15";
  etcd_renew_interval_seconds ← env_float env "ETCD_RENEW_INTERVAL_SECONDS" "5";
  tls_enabled ← _env_bool env "TLS_ENABLED" false;
  mtls_required ← _env_bool env "MTLS_REQUIRED" false;
  let tls_ca_file := getenv env "TLS_CA_FILE" "" in
  let tls_cert_file := getenv env "TLS_CERT_FILE" "" in
  let tls_key_file := getenv env "TLS_KEY_FILE" "" in
  let tls_min_version := getenv env "TLS_MIN_VERSION" "TLSv1.3" in
  observability_enabled ← _env_bool env "OBSERVABILITY_ENABLED" false;
  let observability_host := getenv env "OBSERVABILITY_HOST" "127.0.0.1" in
  observability_port ← env_int env "OBSERVABILITY_PORT" "9100";
  metrics_enabled ← _env_bool env "METRICS_ENABLED" true;
  tracing_enabled ← _env_bool env "TRACING_ENABLED" false;
  let otel_exporter_otlp_endpoint := getenv env "OTEL_EXPORTER_OTLP_ENDPOINT" "http://127.0.0.1:4318" in
  let otel_service_name := getenv env "OTEL_SERVICE_NAME" "distsys-node" in
  otel_trace_sample_ratio ← env_float env "OTEL_TRACE_SAMPLE_RATIO" "0.10";
  otel_export_timeout_seconds ← env_float env "OTEL_EXPORT_TIMEOUT_SECONDS" "2.0";
  make (mk node_id host advertise_host port max_frame_size request_timeout_seconds log_level cpu_workers
    cpu_queue_capacity rate_limit_rps rate_limit_burst retry_max_attempts retry_base_delay_seconds
    retry_max_delay_seconds circuit_breaker_failure_threshold circuit_breaker_recovery_seconds cluster_enabled
    cluster_seeds cluster_virtual_nodes cluster_probe_interval_seconds cluster_ping_timeout_seconds
    cluster_indirect_timeout_seconds cluster_indirect_probe_count cluster_suspicion_timeout_seconds
    cluster_dead_retention_seconds cluster_gossip_interval_seconds crdt_enabled crdt_replication_factor
    crdt_replication_queue_capacity crdt_replication_workers crdt_replication_retry_max_attempts
    crdt_replication_retry_base_delay_seconds crdt_replication_retry_max_delay_seconds
    crdt_anti_entropy_interval_seconds crdt_anti_entropy_batch_size persistence_enabled persistence_db_path
    persistence_queue_capacity persistence_busy_timeout_seconds persistence_sqlite_synchronous etcd_enabled
    etcd_endpoints etcd_namespace etcd_lease_ttl_seconds etcd_renew_interval_seconds tls_enabled mtls_required
    tls_ca_file tls_cert_file tls_key_file tls_min_version observability_enabled observability_host
    observability_port metrics_enabled tracing_enabled otel_exporter_otlp_endpoint otel_service_name
    otel_trace_sample_ratio otel_export_timeout_seconds).
End Settings.

(** ** The components the settings configure

    What [DistributedNode.__init__] and [start] construct from the settings, with the
    constructors' own checks.  Durations are the milliseconds [d] of the settings. *)
Definition millis (f : float) : option Z :=
  match f with
  | Fin q => let m := Qred (q * 1000) in if bool_decide (Qden m = 1%positive) then Some (Qnum m) else None
  | _ => None
  end.

Module Build.
Import Settings.

Record durations := Durations {
  request_timeout : Z; retry_base : Z; retry_max : Z; breaker_recovery : Z; suspicion : Z; retention : Z;
  crdt_retry_base : Z; crdt_retry_max : Z; anti_entropy : Z; busy : Z; renew : Z }.

(** The durations are whole numbers of milliseconds. *)
Definition timed (s : t) (d : durations) : Prop :=
  millis (request_timeout_seconds s) = Some (request_timeout d) ∧
  millis (retry_base_delay_seconds s) = Some (retry_base d) ∧ millis (retry_max_delay_seconds s) = Some (retry_max d) ∧
  millis (circuit_breaker_recovery_seconds s) = Some (breaker_recovery d) ∧
  millis (cluster_suspicion_timeout_seconds s) = Some (suspicion d) ∧
  millis (cluster_dead_retention_seconds s) = Some (retention d) ∧
  millis (crdt_replication_retry_base_delay_seconds s) = Some (crdt_retry_base d) ∧
  millis (crdt_replication_retry_max_delay_seconds s) = Some (crdt_retry_max d) ∧
  millis (crdt_anti_entropy_interval_seconds s) = Some (anti_entropy d) ∧
  millis (persistence_busy_timeout_seconds s) = Some (busy d) ∧ millis (etcd_renew_interval_seconds s) = Some (renew d).

(** [DistributedNode.__init__], with the default router. *)
Definition node_init (s : t) (rate now : Q) :=
  _ ← Tasks.make_whoami_task (node_id s);
  pool ← WorkerPool.init (cpu_workers s) (cpu_queue_capacity s);
  backpressure ← BackpressureController.init (cpu_queue_capacity s);
  limiter ← TokenBucketRateLimiter.init rate (rate_limit_burst s) now;
  Ok (pool, backpressure, limiter).

(** The durable repository. *)
Definition open_repository (s : t) (d : durations) (disk : SQLiteStateRepository.db) (fates : list SQLiteStateRepository.fate) :=
  executor ← PersistenceExecutor.init (persistence_queue_capacity s);
  SQLiteStateRepository.init executor disk fates (busy d) (persistence_sqlite_synchronous s).

Definition advertised (s : t) : string := if nonempty (advertise_host s) then advertise_host s else host s.

Definition etcd_client {Cl Raw : Type} (s : t) (d : durations) : result (EtcdGatewayCoordinationClient.t (Cl:=Cl) (Raw:=Raw)) :=
  EtcdGatewayCoordinationClient.init (etcd_endpoints s) (etcd_namespace s) (Z.min 3000 (request_timeout d)).

(** The lease manager and the node's coordination record. *)
Definition make_coordination (s : t) (d : durations) (node_uuid : string) (bound_port incarnation : Z) (version : string) :=
  lease ← LeaseManager.init (etcd_lease_ttl_seconds s) (renew d);
  member ← CoordinationMember.make (node_id s) node_uuid (advertised s) bound_port incarnation 5 version (tls_enabled s);
  Ok (lease, member).

(** The peer client's retry policy and [ClusterService.__init__]. *)
Definition make_cluster (s : t) (d : durations) (bound_port incarnation : Z) :=
  policy ← Retry.make_policy (retry_max_attempts s) (retry_base d) (retry_max d);
  service ← ClusterService.init (node_id s) (advertised s) bound_port incarnation (suspicion d) (retention d)
    (cluster_virtual_nodes s) (cluster_seeds s);
  Ok (policy, service).

(** [CrdtService.__init__] and [ReplicationService.__init__]: the cluster service's ring,
    the actor, and the actor of the clock. *)
Definition make_crdt (s : t) (d : durations) (cluster_ring : option ConsistentHashRing.t) (actor clock_actor : CausalActor.t) :=
  _ ← (if negb (cluster_enabled s) then raise ValueError "CRDT service requires cluster mode" else Ok tt);
  ring ← (match cluster_ring with None => raise ValueError "cluster_service is required" | Some ring => Ok ring end);
  _ ← (if negb (bool_decide (clock_actor = actor)) then raise ValueError "clock actor must match CRDT service actor" else Ok tt);
  policy ← Retry.make_policy (crdt_replication_retry_max_attempts s) (crdt_retry_base d) (crdt_retry_max d);
  selector ← ReplicaSelector.init ring (crdt_replication_factor s);
  outbox ← ReplicationOutbox.init (crdt_replication_queue_capacity s);
  _ ← Replicator.init_check (crdt_replication_workers s);
  _ ← AntiEntropyService.init_check (crdt_anti_entropy_batch_size s) (anti_entropy d);
  Ok (policy, selector, outbox).

(** What [start] reads of the settings. *)
Definition lifecycle (s : t) : NodeLifecycle.Settings :=
  NodeLifecycle.mkSettings (crdt_enabled s) (persistence_enabled s) (cluster_enabled s) (etcd_enabled s).
End Build.

Module ConfigSpec.
Import Settings Build.

(** No check refuses. *)
Fixpoint all_pass (l : list (bool * string)) : Prop :=
  match l with [] => True | (bad, _) :: l => bad = false ∧ all_pass l end.

Lemma first_refusal_spec l : first_refusal l = Ok tt ↔ all_pass l.
Proof. induction l as [|[[] why] l IH]; simpl; [done|naive_solver|]. by rewrite IH; naive_solver. Qed.

(** What was accepted passed every check. *)
Lemma make_checked s s' : make s = Ok s' → s' = s ∧ all_pass (checks s).
Proof.
  unfold make, __post_init__. intros H. destruct (first_refusal (checks s)) as [[]|e] eqn:E; [|done].
  injection H as <-. split; [done|]. by apply first_refusal_spec.
Qed.

(** [f] seconds are [n] milliseconds. *)
Definition in_ms (f : float) (n : Z) : Prop := ∃ q, f = Fin q ∧ (q * 1000 == inject_Z n)%Q.

Lemma millis_in_ms f n : millis f = Some n → in_ms f n.
Proof.
  destruct f as [q| | |]; simpl; [|done..]. case_bool_decide as E; [|done]. intros [= <-]. exists q. split; [done|].
  rewrite <-(Qred_correct (q * 1000)) at 1. destruct (Qred (q * 1000)) as [a b]. simpl in *. by subst.
Qed.

Lemma int_in_ms z : in_ms (Fin (inject_Z z)) (1000 * z).
Proof. exists (inject_Z z). split; [done|]. rewrite inject_Z_mult. change (inject_Z 1000) with 1000%Q. ring. Qed.

Lemma fle_ms f g m n : in_ms f m → in_ms g n → fle f g = (m <=? n).
Proof.
  intros (p & -> & Hp) (q & -> & Hq). simpl. apply eq_true_iff_eq.
  rewrite Qle_bool_iff, Z.leb_le, Zle_Qle, <-Hp, <-Hq. symmetry. by apply Qmult_le_r.
Qed.

Lemma flt_ms f g m n : in_ms f m → in_ms g n → flt f g = (m <? n).
Proof.
  intros Hf Hg. assert (flt f g = negb (fle g f)) as ->; [|by rewrite (fle_ms g f n m), Z.ltb_antisym].
  destruct Hf as (p & -> & _), Hg as (q & -> & _). done.
Qed.

Lemma zero_in_ms : in_ms (Fin 0) 0.
Proof. exact (int_in_ms 0). Qed.

(** Some of the checks, as facts of the accepted settings. *)
Section accepted.
Context (s : t) (d : durations) (rate : Q).
Hypothesis accepted : make s = Ok s.
Hypothesis whole : timed s d.
Hypothesis finite : rate_limit_rps s = Fin rate.

(** Every check, as a hypothesis. *)
Ltac passed_checks :=
  destruct (make_checked _ _ accepted) as [_ Hchecks]; cbn [checks all_pass] in Hchecks;
  repeat match type of Hchecks with _ ∧ _ => destruct Hchecks as [? Hchecks] end.

(** A constructor whose checks are among them. *)
Ltac by_checks := repeat match goal with H : ?b = false |- context [?b] => rewrite H end; try done.

Lemma accepted_durations :
  0 < request_timeout d ∧ 0 < suspicion d < retention d ∧ 0 ≤ crdt_retry_base d ≤ crdt_retry_max d ∧ 0 < anti_entropy d ∧
  0 < busy d ∧ 0 < renew d < 1000 * etcd_lease_ttl_seconds s.
Proof using accepted whole.
  clear finite. passed_checks. destruct whole as (W1 & _ & _ & _ & W2 & W3 & W4 & W5 & W6 & W7 & W8).
  apply millis_in_ms in W1, W2, W3, W4, W5, W6, W7, W8. pose proof zero_in_ms. pose proof (int_in_ms (etcd_lease_ttl_seconds s)).
  repeat match goal with
  | H : fle ?f ?g = false, Hf : in_ms ?f _, Hg : in_ms ?g _ |- _ => rewrite (fle_ms f g _ _ Hf Hg) in H
  | H : flt ?f ?g = false, Hf : in_ms ?f _, Hg : in_ms ?g _ |- _ => rewrite (flt_ms f g _ _ Hf Hg) in H
  end. lia.
Qed.

Lemma node_part_accepted now : nonempty (node_id s) = true → is_ok (node_init s rate now) = true.
Proof using accepted finite.
  clear whole. intros Hn. passed_checks.
  unfold node_init, Tasks.make_whoami_task, WorkerPool.init, BackpressureController.init, TokenBucketRateLimiter.init.
  rewrite Hn. cbn [negb]. rewrite finite in *. cbn [fle] in *. by_checks.
Qed.

Lemma repository_accepted disk fates : is_ok (open_repository s d disk fates) = true.
Proof using accepted whole.
  destruct accepted_durations as (_ & _ & _ & _ & Hb & _). clear finite. passed_checks.
  unfold open_repository, PersistenceExecutor.init, SQLiteStateRepository.init, SQLiteStateRepository.synchronous_modes. by_checks.
  unfold mbind, result_bind. rewrite (proj2 (Z.leb_gt _ _)) by lia. by_checks.
Qed.

Lemma etcd_client_accepted {Cl Raw} : etcd_enabled s = true → is_ok (etcd_client (Cl:=Cl) (Raw:=Raw) s d) = true.
Proof using accepted whole.
  intros He. destruct accepted_durations as (Hr & _). clear finite. passed_checks.
  unfold etcd_client, EtcdGatewayCoordinationClient.init. rewrite He in *. destruct (etcd_endpoints s); [done|].
  by rewrite (proj2 (Z.leb_gt _ _)) by lia.
Qed.

Lemma coordination_accepted node_uuid bound_port incarnation version :
  nonempty (node_id s) = true → nonempty (advertised s) = true → nonempty node_uuid = true → 1 ≤ bound_port ≤ 65535 →
  1 ≤ incarnation → nonempty version = true →
  is_ok (make_coordination s d node_uuid bound_port incarnation version) = true.
Proof using accepted whole.
  intros Hn Ha Hu Hp Hi Hv. destruct accepted_durations as (Hr & _ & _ & _ & _ & Ht). clear finite. passed_checks.
  unfold make_coordination, LeaseManager.init, CoordinationMember.make, mbind, result_bind. by_checks. rewrite !(proj2 (Z.leb_gt _ _)) by lia. cbn [orb].
  rewrite Hn, Hu, Ha, Hv, !(proj2 (Z.leb_le _ _)), (proj2 (Z.ltb_ge _ _)) by lia. done.
Qed.

(** The retry settings of the peer client are the ones [Settings] does not check. *)
Lemma cluster_accepted bound_port incarnation :
  nonempty (node_id s) = true → nonempty (advertised s) = true → 1 ≤ bound_port ≤ 65535 → 1 ≤ incarnation →
  1 ≤ retry_max_attempts s → 0 ≤ retry_base d ≤ retry_max d →
  is_ok (make_cluster s d bound_port incarnation) = true.
Proof using accepted whole.
  intros Hn Ha Hp Hi Hr1 Hr2. destruct accepted_durations as (_ & Hs & _). clear finite. passed_checks.
  unfold make_cluster, Retry.make_policy, ClusterService.init, ClusterMember.make, MembershipTable.init, ConsistentHashRing.init.
  rewrite !(proj2 (Z.ltb_ge _ _)) by lia. unfold mbind, result_bind.
  rewrite Hn, Ha, !(proj2 (Z.leb_le _ _)) by lia. cbn [negb andb].
  rewrite ?(proj2 (Z.ltb_ge incarnation _)), !(proj2 (Z.leb_gt _ _)) by lia. by_checks.
Qed.

Lemma crdt_accepted ring actor : crdt_enabled s = true → is_ok (make_crdt s d (Some ring) actor actor) = true.
Proof using accepted whole.
  intros He. destruct accepted_durations as (_ & _ & Hr & Ha & _). clear finite. passed_checks.
  unfold make_crdt, Retry.make_policy, ReplicaSelector.init, ReplicationOutbox.init, Replicator.init_check,
    AntiEntropyService.init_check.
  rewrite He in *. cbn [andb] in *. by_checks. unfold mbind, result_bind. rewrite bool_decide_eq_true_2 by done. cbn [negb]. by_checks.
  rewrite !(proj2 (Z.ltb_ge _ _)) by lia. by_checks. rewrite !(proj2 (Z.leb_gt _ _)) by lia. by_checks.
Qed.

(** What the settings leave to the operator: a name, a host, and sensible retries. *)
Definition named : Prop := nonempty (node_id s) = true ∧ nonempty (advertised s) = true.
Definition sensible_retries : Prop := 1 ≤ retry_max_attempts s ∧ 0 ≤ retry_base d ≤ retry_max d.

End accepted.

(** The two tables of defaults agree: an empty environment gives the defaults of the
    dataclass, and they are accepted. *)
Theorem empty_environment_gives_defaults : from_env ∅ = Ok defaults.
Proof. vm_compute. reflexivity. Qed.

(** *** Settings that are accepted and cannot start *)

(** [m] never returns a value. *)
Definition fails {S A} (m : M S A) : Prop := ∀ s, is_ok (m s).1 = false.

Lemma fails_raise {S A} c text : fails (raiseM c text : M S A).
Proof. done. Qed.

Lemma fails_after {S A B} (m : M S A) (f : A → M S B) : (∀ a, fails (f a)) → fails (m ≫= f).
Proof. intros Hf s. unfold mbind, M_bind. destruct (m s) as [[a|e] s']; [apply Hf|done]. Qed.

Lemma fails_first {S A B} (m : M S A) (f : A → M S B) : fails m → fails (m ≫= f).
Proof. intros Hm s. specialize (Hm s). unfold mbind, M_bind. by destruct (m s) as [[a|e] s']. Qed.

Lemma fails_catch {S A} (m : M S A) cs h : fails m → (∀ e, fails (h e)) → fails (catchM m cs h).
Proof.
  intros Hm Hh s. specialize (Hm s). unfold catchM. destruct (m s) as [[a|e] s']; [done|].
  destruct (isinstance e cs); [apply Hh|done].
Qed.

Section unstartable.
Context {W : Type} (run : call → M W unit).

(** With etcd and without durable CRDT state, [start] always raises. *)
Lemma etcd_without_identity_never_starts (l : NodeLifecycle.Settings) b w :
  NodeLifecycle.is_running b = false → NodeLifecycle.cluster_enabled l = true → NodeLifecycle.etcd_enabled l = true →
  NodeLifecycle.crdt_enabled l && NodeLifecycle.persistence_enabled l = false →
  is_ok (NodeLifecycle.start run l (b, w)).1 = false.
Proof.
  intros Hb Hc He Hd. assert (fails (NodeLifecycle.join_cluster run l false)) as Hj.
  { unfold NodeLifecycle.join_cluster, NodeLifecycle.coordinate. rewrite He. apply fails_first, fails_raise. }
  assert (fails (NodeLifecycle.start_services run l)) as Hs.
  { unfold NodeLifecycle.start_services, NodeLifecycle.prepare. rewrite Hc, Hd. apply fails_after. intros _ s.
    rewrite (M_bind_Ok _ _ s false (NodeLifecycle.set_phase RESTORING s).2) by done. revert s.
    enough (fails (_ ← NodeLifecycle.set_phase BINDING; _ ← NodeLifecycle.await run start_server;
                   _ ← NodeLifecycle.update (NodeLifecycle.set_server true); NodeLifecycle.join_cluster run l false)) as H by (intros s; apply H).
    do 3 (apply fails_after; intros _). done. }
  unfold NodeLifecycle.start, mbind at 1, M_bind at 1, getM. cbn [fst]. rewrite Hb.
  do 2 (apply fails_after; intros _). apply fails_catch; [done|]. intros e. by apply fails_after.
Qed.
End unstartable.

(** Reading the switches of the environment. *)
Lemma from_env_switches env s : from_env env = Ok s →
  _env_bool env "CLUSTER_ENABLED" false = Ok (cluster_enabled s) ∧ _env_bool env "CRDT_ENABLED" false = Ok (crdt_enabled s) ∧
  _env_bool env "ETCD_ENABLED" true = Ok (etcd_enabled s).
Proof.
  intros H. unfold from_env in H. cbv zeta in H.
  repeat match type of H with (?e ≫= _) = Ok _ => destruct e eqn:?; [unfold mbind at 1, result_bind at 1 in H; cbn iota beta in H|done] end.
  apply make_checked in H as [-> _]. done.
Qed.

(** The environment of a plain cluster (a node with [CLUSTER_ENABLED] set to true
    and neither [CRDT_ENABLED] nor [ETCD_ENABLED] set) is accepted, yet the node never
    starts, whatever its parts do: etcd is on by default, and it wants the durable
    identity that only CRDT mode restores. *)
Theorem plain_cluster_never_starts {W} (run : call → M W unit) env s b w :
  from_env env = Ok s → env !! "CLUSTER_ENABLED" = Some "true" → env !! "CRDT_ENABLED" = None → env !! "ETCD_ENABLED" = None →
  NodeLifecycle.is_running b = false → is_ok (NodeLifecycle.start run (lifecycle s) (b, w)).1 = false.
Proof.
  intros (H1 & H2 & H3)%from_env_switches E1 E2 E3 Hb. unfold _env_bool in H1, H2, H3. rewrite E1 in H1. rewrite E2 in H2.
  rewrite E3 in H3. injection H1 as H1. injection H2 as H2. injection H3 as H3.
  apply etcd_without_identity_never_starts; [done|..]; unfold lifecycle; cbn [NodeLifecycle.cluster_enabled NodeLifecycle.etcd_enabled
    NodeLifecycle.crdt_enabled NodeLifecycle.persistence_enabled]; rewrite <-?H2; done.
Qed.

(** The environment of [scripts/run_phase3_cluster.sh]. *)
Definition phase3_environment : gmap string string := list_to_map
  [("NODE_ID", "node-0"); ("NODE_HOST", "127.0.0.1"); ("NODE_PORT", "18000"); ("CPU_WORKERS", "1");
   ("CPU_QUEUE_CAPACITY", "100"); ("RATE_LIMIT_RPS", "500"); ("RATE_LIMIT_BURST", "100"); ("REQUEST_TIMEOUT_SECONDS", "5");
   ("CLUSTER_ENABLED", "true"); ("CLUSTER_SEEDS", ""); ("CLUSTER_VIRTUAL_NODES", "64");
   ("CLUSTER_PROBE_INTERVAL_SECONDS", "1.0"); ("CLUSTER_PING_TIMEOUT_SECONDS", "0.25");
   ("CLUSTER_INDIRECT_TIMEOUT_SECONDS", "0.50"); ("CLUSTER_INDIRECT_PROBE_COUNT", "2");
   ("CLUSTER_SUSPICION_TIMEOUT_SECONDS", "3.0"); ("CLUSTER_DEAD_RETENTION_SECONDS", "30.0");
   ("CLUSTER_GOSSIP_INTERVAL_SECONDS", "1.0"); ("LOG_LEVEL", "INFO")].

Definition phase3_settings : t := match from_env phase3_environment with Ok s => s | Err _ => defaults end.

Lemma plain_cluster_never_starts_witness :
  from_env phase3_environment = Ok phase3_settings ∧
  is_ok (NodeLifecycle.start (W:=unit) (λ _, mret tt) (lifecycle phase3_settings) (NodeLifecycle.init, tt)).1 = false.
Proof.
  assert (from_env phase3_environment = Ok phase3_settings) as E by (vm_compute; reflexivity).
  split; [exact E|]. apply (plain_cluster_never_starts _ phase3_environment phase3_settings); [exact E|reflexivity..].
Defined.

(** Retries and floats that [Settings] lets through. *)
Definition odd_settings (name value : string) : option t :=
  match from_env {[name := value]} with Ok s => Some s | Err _ => None end.

Lemma settings_accept_odd_values :
  (∃ s, odd_settings "RETRY_MAX_ATTEMPTS" "0" = Some s ∧
     ∀ d bound_port incarnation, is_ok (make_cluster s d bound_port incarnation) = false) ∧
  (∃ s, odd_settings "CIRCUIT_BREAKER_FAILURE_THRESHOLD" "0" = Some s ∧
     ∀ recovery, is_ok (CircuitBreaker.init (circuit_breaker_failure_threshold s) recovery 1) = false) ∧
  (∃ s, odd_settings "RATE_LIMIT_RPS" "nan" = Some s ∧ rate_limit_rps s = NaN) ∧
  (∃ s, odd_settings "NODE_ID" "" = Some s ∧ ∀ rate now, is_ok (node_init s rate now) = false).
Proof. split_and!; eexists; (split; [by vm_compute|done]). Qed.

Definition default_durations : durations := Durations 5000 50 1000 10000 3000 30000 50 1000 2000 5000 5000.

End ConfigSpec.
