(* ===== verification/Chaos.v ===== *)
(** * Chaos tools: [distsys/chaos/]

    The gates every chaos scenario passes, the stack of compensations, the client of the
    fault-injecting proxy, the rewriting of peer endpoints, and the controller that runs
    a scenario.  The HTTP client, the subprocess, the probe and the clock are parameters;
    any of them may raise at any await, which is how the scenario's time limit or a
    cancellation reaches the code.  Error texts leave out the values they quote. *)

From Stdlib Require Import Ascii QArith Qround Lqa.
From S2P Require Import Prelude Json Resilience Membership Recovery Config.

Local Open Scope Z_scope.

(** ** [chaos/safety.py] *)
Definition require_chaos_opt_in (env : gmap string string) : result unit :=
  if bool_decide (env !! "RUN_CHAOS_TESTS" = Some "1") then Ok tt
  else raise PermissionError "chaos is disabled; set RUN_CHAOS_TESTS=1 explicitly".

Definition validate_duration (seconds maximum_seconds : float) : result unit :=
  if fle seconds (Fin 0) || flt maximum_seconds seconds then raise ValueError "duration must be > 0 and <= maximum"
  else Ok tt.

Record ManagedProcess := Process { pid : Z; start_token : string; cmdline_contains : string; restart_argv : list string }.

Module ManagedManifest.
Record t := mk {
  runtime_dir : string; pids : list (string * ManagedProcess); proxies : gset string; services : gset string }.

Definition has_proxy (name : string) (self : t) : bool := bool_decide (name ∈ proxies self).
Definition has_service (name : string) (self : t) : bool := bool_decide (name ∈ services self).
End ManagedManifest.

(** [needle in s] *)
Fixpoint contains (needle s : string) : bool :=
  String.prefix needle s || match s with EmptyString => false | String _ r => contains needle r end.

(** What [/proc] says of a process; reading it raises when the process is gone. *)
Definition validate_pid (_proc_start_token _proc_cmdline : Z → result string) (p : Z) (manifest : ManagedManifest.t) : result string :=
  match filter (λ ni, pid ni.2 = p) (ManagedManifest.pids manifest) with
  | [] => raise ValueError "PID is not managed by the Phase 6 manifest"
  | (name, expected) :: _ =>
      match (a ← _proc_start_token p; b ← _proc_cmdline p; Ok (a, b)) with
      | Err e => if isinstance e [OSError] then raise ValueError "managed PID is no longer alive" else Err e
      | Ok (actual_start, actual_cmdline) =>
          if nonempty (start_token expected) && negb (bool_decide (actual_start = start_token expected))
          then raise ValueError "PID was reused; start token mismatch"
          else if nonempty (cmdline_contains expected) && negb (contains (cmdline_contains expected) actual_cmdline)
          then raise ValueError "PID command identity mismatch"
          else Ok name
      end
  end.

(** The compensations, as the calls they make. *)
Module CleanupStack.
Section stack.
Context {A W : Type} (call : A → M W unit).
Record t := mk { _actions : list A; _ran : bool }.

Definition init : t := mk [] false.

Definition push (action : A) : M t unit := λ self,
  if _ran self then (raise RuntimeError "cleanup stack has already run", self)
  else (Ok tt, mk (_actions self ++ [action]) (_ran self)).

(** The loop, from the last action to the first: the errors, and the world after it. *)
Fixpoint pop_all (latest_first : list A) (w : W) : list exn * W :=
  match latest_first with
  | [] => ([], w)
  | action :: rest =>
      match call action w with
      | (Ok _, w) => pop_all rest w
      | (Err e, w) => let (errors, w) := pop_all rest w in (e :: errors, w)
      end
  end.

Definition run (self : t) (w : W) : list exn * (t * W) :=
  if _ran self then ([], (self, w))
  else let (errors, w) := pop_all (rev (_actions self)) w in (errors, (mk [] true, w)).
End stack.
Arguments t : clear implicits.
Arguments mk {A} _ _.
Arguments init {A}.
End CleanupStack.

(** ** [chaos/routing.py] *)

(** One entry [node=host:port]. *)
Definition proxy_entry (item : string) : result (string * (string * Z)) :=
  let bad := raise ValueError "PHASE6_PEER_PROXY_MAP must use node=host:port entries" in
  match split_first "=" item with
  | None => bad
  | Some (node_id, endpoint) =>
      match split_last ":" endpoint with
      | None => bad
      | Some (host, port_text) =>
          match py_int port_text with
          | None => bad
          | Some port =>
              if negb (nonempty node_id) || negb (nonempty host) || negb ((1 <=? port) && (port <=? 65535))
              then raise ValueError "PHASE6_PEER_PROXY_MAP contains an invalid endpoint"
              else Ok (node_id, (host, port))
          end
      end
  end.

Definition _mapping (env : gmap string string) : result (gmap string (string * Z)) :=
  let raw := strip (getenv env "PHASE6_PEER_PROXY_MAP" "") in
  if negb (nonempty raw) then Ok ∅
  else entries ← mapM_result proxy_entry (split_commas raw "");
       Ok (foldl (λ m e, <[e.1 := e.2]> m) ∅ entries).

Definition peer_routing_enabled (env : gmap string string) : bool :=
  bool_decide (env !! "RUN_CHAOS_TESTS" = Some "1") && nonempty (strip (getenv env "PHASE6_PEER_PROXY_MAP" "")).

Definition resolve_peer_endpoint (env : gmap string string) (node_id : option string) (host : string) (port : Z)
    : result (string * Z) :=
  match node_id with
  | Some name =>
      if negb (bool_decide (env !! "RUN_CHAOS_TESTS" = Some "1")) || negb (nonempty name) then Ok (host, port)
      else m ← _mapping env; Ok (default (host, port) (m !! name))
  | None => Ok (host, port)
  end.

(** ** [chaos/model.py] *)
Record ProbeState := Probe {
  ready_nodes : list string; coordination_healthy_nodes : list string; target_reachable : bool;
  peer_latency_seconds : option Q; data_plane_ok : bool }.

Record ScenarioResult := Result {
  scenario : string; expected_effect : string; observations : list (string * ProbeState); failure : option exn;
  cleanup_errors : list exn; recovery_seconds : Q; cleanup_ok : bool; passed : bool }.

(** ** What a scenario does to the outside: HTTP requests to the proxy, with their JSON
    bodies, and scoped docker compose commands. *)
Inductive body :=
  | NoBody
  | NewProxy (name listen upstream : string)
  | Enabled (enabled : bool)
  | Latency (name : string) (latency_ms jitter_ms : Z).
Inductive effect := Http (method path : string) (json : body) | Exec (args : list string).

#[export] Instance body_eq_dec : EqDecision body.
Proof. solve_decision. Defined.
#[export] Instance effect_eq_dec : EqDecision effect.
Proof. solve_decision. Defined.

Record Outside (W : Type) := {
  (** the status code and the content of the response *)
  http : string → string → body → M W (Z * string);
  (** the exit code of [docker compose ... args] *)
  exec : list string → M W Z;
  probe : M W ProbeState;
  sleep : Q → M W unit;
  (** [time.monotonic] and [time.perf_counter] *)
  monotonic : W → Q;
}.
Arguments http {_} _ _ _ _.
Arguments exec {_} _ _.
Arguments probe {_} _.
Arguments sleep {_} _ _.
Arguments monotonic {_} _ _.

Section outside.
Context {W : Type} (out : Outside W).
(** The world with the effects that were asked of it so far. *)
Abbreviation st := (list effect * W)%type.

Definition ask {A} (e : effect) (m : M W A) : M st A := λ s,
  match m s.2 with (r, w) => (r, (s.1 ++ [e], w)) end.
Definition quietly {A} (m : M W A) : M st A := λ s, match m s.2 with (r, w) => (r, (s.1, w)) end.
End outside.

(** ** [chaos/toxiproxy.py] *)
Module ToxiproxyClient.
Section client.
Context {W : Type} (out : Outside W).
Abbreviation st := (list effect * W)%type.

Definition _request (method path : string) (json : body) : M st (option Json.json) :=
  '(status, content) ← ask (Http method path json) (http out method path json);
  if negb ((200 <=? status) && (status <? 300)) then failM (Exn HTTPStatusError "" status)
  else if nonempty content then data ← liftM (loads content); mret (Some data)
  else mret None.

(** [try: ... except httpx.HTTPStatusError as exc: if status != 404: raise] *)
Definition tolerate_missing (m : M st (option Json.json)) : M st unit :=
  catchM (_ ← m; mret tt) [HTTPStatusError] (λ exc, if exn_code exc =? 404 then mret tt else failM exc).

Definition create_proxy (name listen upstream : string) : M st unit :=
  _ ← _request "POST" "/proxies" (NewProxy name listen upstream); mret tt.

Definition delete_proxy (name : string) : M st unit := tolerate_missing (_request "DELETE" ("/proxies/" +:+ name) NoBody).

Definition set_enabled (name : string) (enabled : bool) : M st unit :=
  _ ← _request "POST" ("/proxies/" +:+ name) (Enabled enabled); mret tt.

Definition add_latency (name toxic_name : string) (latency_ms jitter_ms : Z) : M st unit :=
  _ ← _request "POST" ("/proxies/" +:+ name +:+ "/toxics") (Latency toxic_name latency_ms jitter_ms); mret tt.

Definition remove_toxic (name toxic_name : string) : M st unit :=
  tolerate_missing (_request "DELETE" ("/proxies/" +:+ name +:+ "/toxics/" +:+ toxic_name) NoBody).
End client.
End ToxiproxyClient.

(** ** [chaos/controller.py] *)
Definition SCENARIOS : list string := ["node-kill"; "network-delay"; "partition"; "etcd-outage"].
Definition NODE_SERVICES : list string := ["node-0"; "node-1"; "node-2"].

(** The calls a scenario makes and pushes. *)
Inductive command :=
  | AddLatency (proxy toxic : string) (latency_ms jitter_ms : Z)
  | RemoveToxic (proxy toxic : string)
  | SetEnabled (proxy : string) (enabled : bool)
  | Compose (action service : string)
  | ComposeNode (action target : string).

Module ChaosController.
Section controller.
Context {W : Type} (out : Outside W) (manifest : ManagedManifest.t).
Abbreviation st := (list effect * W)%type.

Definition _compose (args : list string) : M st unit :=
  code ← ask (Exec args) (exec out args);
  if code =? 0 then mret tt else raiseM RuntimeError "scoped docker compose command failed".

Definition managed_node (target : string) : bool :=
  bool_decide (target ∈ NODE_SERVICES) && ManagedManifest.has_service target manifest.

Definition _compose_node (action target : string) : M st unit :=
  if negb (bool_decide (action ∈ ["kill"; "start"])) then raiseM ValueError "unsupported node lifecycle action"
  else if negb (managed_node target) then raiseM ValueError "not a managed Phase 6 node service"
  else _compose [action; target].

Definition perform (c : command) : M st unit :=
  match c with
  | AddLatency proxy toxic latency jitter => ToxiproxyClient.add_latency out proxy toxic latency jitter
  | RemoveToxic proxy toxic => ToxiproxyClient.remove_toxic out proxy toxic
  | SetEnabled proxy enabled => ToxiproxyClient.set_enabled out proxy enabled
  | Compose action service => _compose [action; service]
  | ComposeNode action target => _compose_node action target
  end.

Definition Qltb (a b : Q) : bool := negb (Qle_bool b a).

(** The polling loop until [deadline].  Each round sleeps a quarter of a second, so four
    rounds for every second of the timeout, and one more, are enough. *)
Fixpoint poll (fuel : nat) (predicate : ProbeState → bool) (deadline : Q) (description : string) : M st ProbeState :=
  now ← gets (λ s : st, monotonic out s.2);
  if negb (Qltb now deadline) then raiseM AssertionError ("timed out waiting for " +:+ description)
  else
    match fuel with
    | O => raiseM AssertionError ("timed out waiting for " +:+ description)
    | S fuel =>
        last ← quietly (probe out);
        if (predicate last : bool) then mret last
        else _ ← quietly (sleep out (1 # 4)); poll fuel predicate deadline description
    end.

Definition rounds (timeout_seconds : Q) : nat := S (Z.to_nat (Qceiling (timeout_seconds * 4))).

Definition _await_state (predicate : ProbeState → bool) (timeout_seconds : Q) (description : string) : M st ProbeState :=
  now ← gets (λ s : st, monotonic out s.2);
  poll (rounds timeout_seconds) predicate (now + timeout_seconds)%Q description.

(** What a scenario consists of: its expected effect, whether its target is managed and
    what is said when it is not, the fault and the call that takes it back, when the
    system is degraded and recovered, and whether it pauses before recovery. *)
Record plan := Plan {
  expected : string; managed : bool; refusal : string; fault : command; undo : command;
  degraded : ProbeState → bool; degraded_within : Q; degraded_text : string; pauses : bool;
  recovered : ProbeState → ProbeState → bool; recovered_within : Q; recovered_text : string }.

Definition reachable_now (s : ProbeState) : bool := data_plane_ok s && target_reachable s.
Definition ready_count (s : ProbeState) : nat := length (ready_nodes s).
Definition healthy_count (s : ProbeState) : nat := length (coordination_healthy_nodes s).

Definition network_delay (target : string) : plan :=
  let proxy := "peer-" +:+ target in
  let toxic := "phase6-latency" in
  Plan "peer RTT increases while the local data plane stays healthy, then returns to baseline"
    (ManagedManifest.has_proxy proxy manifest) ("unmanaged proxy: " +:+ proxy)
    (AddLatency proxy toxic 250 25) (RemoveToxic proxy toxic)
    (λ s, reachable_now s && match peer_latency_seconds s with Some x => Qle_bool (18 # 100) x | None => false end)
    6 "bounded peer latency injection" false
    (λ baseline s,
       let limit := TokenBucketRateLimiter.qmax (18 # 100) (default 0 (peer_latency_seconds baseline) * (3 # 2))%Q in
       reachable_now s && match peer_latency_seconds s with Some x => Qltb x limit | None => false end)
    6 "peer latency recovery".

Definition partition (target : string) : plan :=
  let proxy := "peer-" +:+ target in
  Plan "selected peer path becomes unreachable while local work continues, then reconnects"
    (ManagedManifest.has_proxy proxy manifest) ("unmanaged proxy: " +:+ proxy)
    (SetEnabled proxy false) (SetEnabled proxy true)
    (λ s, data_plane_ok s && negb (target_reachable s)) 6 "selected peer partition" false
    (λ _ s, reachable_now s) 8 "peer partition recovery".

Definition etcd_outage : plan :=
  Plan "coordination reports unhealthy while existing data-plane work continues, then leases recover"
    (ManagedManifest.has_service "etcd" manifest) "etcd is not a managed Phase 6 service"
    (Compose "stop" "etcd") (Compose "start" "etcd")
    (λ s, data_plane_ok s && bool_decide (healthy_count s < 3)%nat) 12 "coordination degradation after etcd outage" false
    (λ _ s, data_plane_ok s && bool_decide (healthy_count s = 3%nat)) 12 "coordination recovery after etcd restart".

Definition node_kill (target : string) : plan :=
  Plan "one managed node stops, two-node service continuity is preserved, then the node restarts"
    (managed_node target) (target +:+ " is not a managed Phase 6 node service")
    (ComposeNode "kill" target) (ComposeNode "start" target)
    (λ s, data_plane_ok s && negb (bool_decide (target ∈ ready_nodes s)) && negb (target_reachable s) &&
          bool_decide (2 ≤ ready_count s)%nat)
    8 "managed node termination with remaining service continuity" true
    (λ _ s, data_plane_ok s && bool_decide (target ∈ ready_nodes s) && target_reachable s && bool_decide (ready_count s = 3%nat))
    12 "managed node restart and cluster readiness".

Definition plan_of (name target : string) : plan :=
  if bool_decide (name = "network-delay") then network_delay target
  else if bool_decide (name = "partition") then partition target
  else if bool_decide (name = "etcd-outage") then etcd_outage
  else node_kill target.

(** The local variables of [run]. *)
Record locals := Locals {
  cleanup : CleanupStack.t command; said : string; seen : list (string * ProbeState); took : Q; done_ : bool }.
Abbreviation run_st := (locals * st)%type.

Definition on_world {A} (m : M st A) : M run_st A := λ s, match m s.2 with (r, w) => (r, (s.1, w)) end.
Definition set_locals (f : locals → locals) : M run_st unit := modifyM (λ s, (f s.1, s.2)).
Definition push (c : command) : M run_st unit := λ s,
  match CleanupStack.push c (cleanup s.1) with
  | (r, stack) => (r, (Locals stack (said s.1) (seen s.1) (took s.1) (done_ s.1), s.2))
  end.
Definition note (name : string) (p : ProbeState) : M run_st unit :=
  set_locals (λ l, Locals (cleanup l) (said l) (seen l ++ [(name, p)]) (took l) (done_ l)).

(** The body of the [try]. *)
Definition exercise (p : plan) (baseline_within : Q) : M run_st unit :=
  baseline ← on_world (_await_state (λ s, data_plane_ok s && bool_decide (ready_count s = 3%nat) && target_reachable s)
                         baseline_within "healthy three-node baseline");
  _ ← note "baseline" baseline;
  _ ← set_locals (λ l, Locals (cleanup l) (expected p) (seen l) (took l) (done_ l));
  if negb (managed p) then raiseM ValueError (refusal p)
  else
    _ ← push (undo p);
    _ ← on_world (perform (fault p));
    bad ← on_world (_await_state (degraded p) (degraded_within p) (degraded_text p));
    _ ← note "degraded" bad;
    recovery_started ← on_world (gets (λ s : st, monotonic out s.2));
    _ ← (if pauses p then on_world (quietly (sleep out (1 # 4))) else mret tt);
    _ ← on_world (perform (undo p));
    good ← on_world (_await_state (recovered p baseline) (recovered_within p) (recovered_text p));
    now ← on_world (gets (λ s : st, monotonic out s.2));
    _ ← note "recovered" good;
    set_locals (λ l, Locals (cleanup l) (said l) (seen l) (now - recovery_started)%Q true).

Definition run (env : gmap string string) (name : string) (max_seconds : float) (target : string) : M st ScenarioResult := λ s,
  match (_ ← require_chaos_opt_in env;
         _ ← (if negb (bool_decide (name ∈ SCENARIOS)) then raise ValueError "unknown scenario" else Ok tt);
         validate_duration max_seconds (Fin 120)) with
  | Err e => (Err e, s)
  | Ok _ =>
      let baseline_within := match max_seconds with Fin q => TokenBucketRateLimiter.qmin 8 (q / 3)%Q | _ => 8%Q end in
      match exercise (plan_of name target) baseline_within (Locals CleanupStack.init "" [] 0 false, s) with
      | (r, (l, s)) =>
          match CleanupStack.run perform (cleanup l) s with
          | (errors, (_, s)) =>
              let ok := bool_decide (errors = []) in
              let finish (failed : option exn) :=
                (Ok (Result name
                       (if nonempty (said l) then said l else "bounded, observable degradation followed by recovery")
                       (seen l) failed errors (took l) ok (done_ l && ok && bool_decide (failed = None))), s) in
              match r with
              | Ok _ => finish None
              | Err e => if isinstance e [Exception] then finish (Some e) else (Err e, s)
              end
          end
      end
  end.
End controller.
End ChaosController.

(** ** What the tools promise *)
Module ChaosSpec.
Import ChaosController.

Definition effect_of (c : command) : effect :=
  match c with
  | AddLatency proxy toxic latency jitter => Http "POST" ("/proxies/" +:+ proxy +:+ "/toxics") (Latency toxic latency jitter)
  | RemoveToxic proxy toxic => Http "DELETE" ("/proxies/" +:+ proxy +:+ "/toxics/" +:+ toxic) NoBody
  | SetEnabled proxy enabled => Http "POST" ("/proxies/" +:+ proxy) (Enabled enabled)
  | Compose action service => Exec [action; service]
  | ComposeNode action target => Exec [action; target]
  end.

Section spec.
Context {W : Type} (out : Outside W) (manifest : ManagedManifest.t).
Abbreviation st := (list effect * W)%type.

(** The effects a computation asked for. *)
Definition asks {A} (m : M st A) (es : list effect → Prop) : Prop :=
  ∀ l w, ∃ new, (m (l, w)).2.1 = l ++ new ∧ es new.

Lemma asks_weaken {A} (m : M st A) (P Q : list effect → Prop) : asks m P → (∀ es, P es → Q es) → asks m Q.
Proof. intros Hm H l w. destruct (Hm l w) as (new & E & HP). exists new. auto. Qed.

Lemma asks_ask {A} e (m : M W A) : asks (ask e m) (λ es, es = [e]).
Proof. intros l w. unfold ask. cbn [fst snd]. destruct (m w) as [r w']. by exists [e]. Qed.

Lemma asks_quietly {A} (m : M W A) : asks (quietly m) (λ es, es = []).
Proof. intros l w. unfold quietly. cbn [fst snd]. destruct (m w) as [r w']. exists []. by rewrite app_nil_r. Qed.

(** A computation that asks for nothing. *)
Definition silent {A} (m : M st A) : Prop := asks m (λ es, es = []).

Lemma silent_ret {A} (a : A) : silent (mret a).
Proof. intros l w. exists []. by rewrite app_nil_r. Qed.
Lemma silent_fail {A} e : silent (failM e : M st A).
Proof. intros l w. exists []. by rewrite app_nil_r. Qed.
Lemma silent_gets {A} (f : st → A) : silent (gets f).
Proof. intros l w. exists []. by rewrite app_nil_r. Qed.
Lemma silent_lift {A} (r : result A) : silent (liftM r).
Proof. intros l w. exists []. by rewrite app_nil_r. Qed.

Lemma asks_then {A B} (m : M st A) (f : A → M st B) P : asks m P → (∀ a, silent (f a)) → asks (m ≫= f) P.
Proof.
  intros Hm Hf l w. destruct (Hm l w) as (new & E & HP). exists new. split; [|done]. unfold mbind, M_bind.
  destruct (m (l, w)) as [[a|e] [l' w']]; cbn [snd fst] in *; [|done].
  destruct (Hf a l' w') as (new' & E' & ->). by rewrite E', app_nil_r.
Qed.

Lemma asks_catch {A} (m : M st A) cs h P : asks m P → (∀ e, silent (h e)) → asks (catchM m cs h) P.
Proof.
  intros Hm Hh l w. destruct (Hm l w) as (new & E & HP). exists new. split; [|done]. unfold catchM.
  destruct (m (l, w)) as [[a|e] [l' w']]; cbn [snd fst] in *; [done|]. destruct (isinstance e cs); [|done].
  destruct (Hh e l' w') as (new' & E' & ->). by rewrite E', app_nil_r.
Qed.

Lemma request_asks method path json : asks (ToxiproxyClient._request out method path json) (λ es, es = [Http method path json]).
Proof.
  apply asks_then; [apply asks_ask|]. intros [status content]. destruct (negb _); [apply silent_fail|].
  destruct (nonempty content); [|apply silent_ret]. apply asks_then; [apply silent_lift|]. intros. apply silent_ret.
Qed.

(** A managed command is one request or one compose command, whatever it answers. *)
Lemma perform_asks c :
  match c with ComposeNode action target => action ∈ ["kill"; "start"] ∧ managed_node manifest target = true | _ => True end →
  asks (perform out manifest c) (λ es, es = [effect_of c]).
Proof.
  assert (∀ args, asks (_compose out args) (λ es, es = [Exec args])) as Hc.
  { intros args. apply asks_then; [apply asks_ask|]. intros code. destruct (code =? 0); [apply silent_ret|apply silent_fail]. }
  destruct c as [proxy toxic lat jit|proxy toxic|proxy en|action service|action target]; intros Hm; cbn [perform effect_of].
  - apply asks_then; [apply request_asks|]. intros. apply silent_ret.
  - apply asks_catch; [apply asks_then; [apply request_asks|intros; apply silent_ret]|].
    intros e. destruct (_ =? 404); [apply silent_ret|apply silent_fail].
  - apply asks_then; [apply request_asks|]. intros. apply silent_ret.
  - apply Hc.
  - destruct Hm as [Ha Ht]. unfold _compose_node. rewrite bool_decide_eq_true_2 by done. rewrite Ht. apply Hc.
Qed.

Lemma poll_silent fuel predicate deadline description : silent (poll out fuel predicate deadline description).
Proof.
  induction fuel as [|fuel IH]; cbn [poll]; (apply asks_then; [apply silent_gets|]; intros now);
    (destruct (negb _); [apply silent_fail|]); [apply silent_fail|].
  apply asks_then; [apply asks_quietly|]. intros last. destruct (predicate last); [apply silent_ret|].
  apply asks_then; [apply asks_quietly|]. intros _. apply IH.
Qed.

Lemma await_silent predicate timeout description : silent (_await_state out predicate timeout description).
Proof. apply asks_then; [apply silent_gets|]. intros. apply poll_silent. Qed.

(** *** One scenario *)
Section scenario.
Context (p : plan) (l0 : list effect).
Abbreviation run_st := (locals * st)%type.

Definition performable (c : command) : Prop :=
  match c with ComposeNode action target => action ∈ ["kill"; "start"] ∧ managed_node manifest target = true | _ => True end.
Hypothesis plan_performable : managed p = true → performable (fault p) ∧ performable (undo p).

(** Nothing was asked for, and there is nothing to take back. *)
Definition untouched (s : run_st) : Prop := cleanup s.1 = CleanupStack.init ∧ s.2.1 = l0.
(** The way back is on the stack. *)
Definition armed (s : run_st) : Prop :=
  managed p = true ∧ cleanup s.1 = CleanupStack.mk [undo p] false ∧
  ∃ new, s.2.1 = l0 ++ new ∧ Forall (λ e, e ∈ [effect_of (fault p); effect_of (undo p)]) new.
Definition safe (s : run_st) : Prop := untouched s ∨ armed s.

(** From [P], [m] returns in [Q] or raises in a safe state. *)
Definition leads {A} (P : run_st → Prop) (m : M run_st A) (Q : run_st → Prop) : Prop :=
  ∀ s, P s → match m s with (Ok _, s') => Q s' | (Err _, s') => safe s' end.

Lemma leads_bind {A B} P Q R (m : M run_st A) (f : A → M run_st B) :
  leads P m Q → (∀ a, leads Q (f a) R) → leads P (m ≫= f) R.
Proof.
  intros Hm Hf s Hs. specialize (Hm s Hs). unfold mbind, M_bind. destruct (m s) as [[a|e] s']; [by apply Hf|done].
Qed.

Lemma leads_silent {A} P (m : M st A) : (P = untouched ∨ P = armed) → silent m → leads P (on_world m) P.
Proof.
  intros HP Hm [l [log w]] Hs. unfold on_world. cbn [fst snd]. destruct (Hm log w) as (new & E & ->). rewrite app_nil_r in E.
  assert (P (l, (m (log, w)).2)) as H.
  { destruct (m (log, w)) as [r [log' w']]. simpl in E. subst log'.
    destruct HP as [-> | ->]; unfold untouched, armed in *; exact Hs. }
  destruct (m (log, w)) as [[a|e] s']; cbn [snd] in H; [done|]. destruct HP as [-> | ->]; [by left|by right].
Qed.

Lemma leads_locals P f : (P = untouched ∨ P = armed) → (∀ l, cleanup (f l) = cleanup l) → leads P (set_locals f) P.
Proof.
  intros HP Hf [l s] Hs. unfold set_locals, modifyM. cbn [fst snd]. destruct HP as [-> | ->]; unfold untouched, armed in *;
    cbn [fst snd] in *; by rewrite Hf.
Qed.

Lemma leads_perform c : c = fault p ∨ c = undo p → leads armed (on_world (perform out manifest c)) armed.
Proof.
  intros Hc [l [log w]] (Hm & Hs & new & E & Hnew). cbn [fst snd] in *. unfold on_world. cbn [fst snd].
  destruct (plan_performable Hm) as [H1 H2].
  destruct (perform_asks c ltac:(by destruct Hc as [-> | ->]) log w) as (es & E' & ->).
  assert (armed (l, (perform out manifest c (log, w)).2)) as H.
  { split; [done|]. split; [done|]. exists (new ++ [effect_of c]). cbn [fst snd]. rewrite E', E, app_assoc. split; [done|].
    apply Forall_app. split; [done|]. constructor; [|constructor]. destruct Hc as [-> | ->]; set_solver. }
  destruct (perform out manifest c (log, w)) as [[a|e] s']; cbn [snd] in H; [done|by right].
Qed.

Lemma leads_push : managed p = true → leads untouched (push (undo p)) armed.
Proof.
  intros Hm [l s] [Hc Hl]. unfold push. cbn [fst snd] in *. rewrite Hc. split; [done|]. split; [done|].
  exists []. cbn [fst snd]. rewrite app_nil_r. split; [done|constructor].
Qed.

Lemma exercise_safe baseline_within : leads untouched (exercise out manifest p baseline_within) safe.
Proof using plan_performable.
  unfold exercise.
  apply leads_bind with (Q := untouched); [apply leads_silent; [by left|apply await_silent]|]. intros baseline.
  apply leads_bind with (Q := untouched); [apply leads_locals; [by left|done]|]. intros _.
  apply leads_bind with (Q := untouched); [apply leads_locals; [by left|done]|]. intros _.
  destruct (decide (managed p = true)) as [Hm|Hm%not_true_is_false]; rewrite Hm; cbn [negb]; [|intros s Hs; by left].
  apply leads_bind with (Q := armed); [by apply leads_push|]. intros _.
  apply leads_bind with (Q := armed); [apply leads_perform; by left|]. intros _.
  apply leads_bind with (Q := armed); [apply leads_silent; [by right|apply await_silent]|]. intros bad.
  apply leads_bind with (Q := armed); [apply leads_locals; [by right|done]|]. intros _.
  apply leads_bind with (Q := armed); [apply leads_silent; [by right|apply silent_gets]|]. intros started.
  apply leads_bind with (Q := armed).
  { destruct (pauses p); [apply leads_silent; [by right|apply asks_quietly]|by intros s Hs]. } intros _.
  apply leads_bind with (Q := armed); [apply leads_perform; by right|]. intros _.
  apply leads_bind with (Q := armed); [apply leads_silent; [by right|apply await_silent]|]. intros good.
  apply leads_bind with (Q := armed); [apply leads_silent; [by right|apply silent_gets]|]. intros now.
  apply leads_bind with (Q := armed); [apply leads_locals; [by right|done]|]. intros _.
  intros s Hs. pose proof (leads_locals armed (λ l, Locals (cleanup l) (said l) (seen l) (now - started)%Q true)
    ltac:(by right) (λ _, eq_refl) s Hs) as H. by right.
Qed.
End scenario.

Lemma plan_of_performable name target : let p := plan_of manifest name target in
  managed p = true → performable (fault p) ∧ performable (undo p).
Proof.
  unfold plan_of. repeat case_bool_decide; cbn zeta; try done. cbn [managed node_kill fault undo performable]. intros ->.
  split; (split; [set_solver|done]).
Qed.

(** What takes an effect back; [None] for what needs no taking back. *)
Definition takes_back (e : effect) : option effect :=
  match e with
  | Http method path (Latency toxic _ _) => Some (Http "DELETE" (path +:+ "/" +:+ toxic) NoBody)
  | Http method path (Enabled false) => Some (Http method path (Enabled true))
  | Exec [action; service] =>
      if bool_decide (action ∈ ["stop"; "kill"]) then Some (Exec ["start"; service]) else None
  | _ => None
  end.

(** The effect is on a proxy or a service the manifest names. *)
Definition within_manifest (e : effect) : Prop :=
  match e with
  | Http _ path _ => ∃ proxy, proxy ∈ ManagedManifest.proxies manifest ∧
      path ∈ ["/proxies/" +:+ proxy; "/proxies/" +:+ proxy +:+ "/toxics"; "/proxies/" +:+ proxy +:+ "/toxics/phase6-latency"]
  | Exec args => ∃ action service, args = [action; service] ∧ action ∈ ["stop"; "kill"; "start"] ∧
      service ∈ ManagedManifest.services manifest
  end.

Lemma plan_of_effects name target : let p := plan_of manifest name target in managed p = true →
  takes_back (effect_of (fault p)) = Some (effect_of (undo p)) ∧ takes_back (effect_of (undo p)) = None ∧
  within_manifest (effect_of (fault p)) ∧ within_manifest (effect_of (undo p)).
Proof.
  unfold plan_of. repeat case_bool_decide; cbn zeta; cbn [managed network_delay partition etcd_outage node_kill fault undo effect_of];
    unfold ManagedManifest.has_proxy, ManagedManifest.has_service, managed_node; intros Hm.
  - apply bool_decide_eq_true in Hm. split_and!; try done.
    + cbn [takes_back]. do 2 f_equal. by rewrite !app_assoc'.
    + exists ("peer-" +:+ target)%string. split; [done|set_solver].
    + exists ("peer-" +:+ target)%string. split; [done|set_solver].
  - apply bool_decide_eq_true in Hm. split_and!; try done; (exists ("peer-" +:+ target)%string; split; [done|set_solver]).
  - apply bool_decide_eq_true in Hm. split_and!; try done; do 2 eexists; (split; [done|split; [set_solver|done]]).
  - apply andb_prop in Hm as [_ Hm]. apply bool_decide_eq_true in Hm.
    split_and!; try done; do 2 eexists; (split; [done|split; [set_solver|done]]).
Qed.

(** Running the compensations of a safe state. *)
Lemma cleanup_undoes name target l0 l s : let p := plan_of manifest name target in
  safe p l0 (l, s) → ∃ errors c w new, CleanupStack.run (perform out manifest) (cleanup l) s = (errors, (c, (l0 ++ new, w))) ∧
  (new = [] ∨ (managed p = true ∧ ∃ es, new = es ++ [effect_of (undo p)] ∧
     Forall (λ e, e ∈ [effect_of (fault p); effect_of (undo p)]) es)).
Proof.
  intros p [[Hc Hl]|(Hm & Hc & new & Hl & Hnew)]; destruct s as [log w]; cbn [fst snd] in *; rewrite Hc.
  - subst log. exists [], (CleanupStack.mk [] true), w, []. rewrite app_nil_r. by split; [|left].
  - destruct (plan_of_performable name target Hm) as [_ Hu].
    destruct (perform_asks (undo p) Hu log w) as (es & E & ->).
    unfold CleanupStack.run. cbn [CleanupStack._ran CleanupStack._actions rev app CleanupStack.pop_all].
    destruct (perform out manifest (undo p) (log, w)) as [[a|e] [log' w']]; cbn [snd fst] in E; subst log' log;
      (do 4 eexists; split; [rewrite <-app_assoc; reflexivity|right; split; [done|exists new; by split]]).
Qed.

Lemma undone_effects name target new : let p := plan_of manifest name target in
  (new = [] ∨ (managed p = true ∧ ∃ es, new = es ++ [effect_of (undo p)] ∧
     Forall (λ e, e ∈ [effect_of (fault p); effect_of (undo p)]) es)) →
  Forall within_manifest new ∧
  (∀ i e u, new !! i = Some e → takes_back e = Some u → ∃ j, (i < j)%nat ∧ new !! j = Some u).
Proof.
  intros p [->|(Hm & es & -> & Hes)]; [by split|]. destruct (plan_of_effects name target Hm) as (T1 & T2 & W1 & W2).
  fold p in T1, T2, W1, W2. rewrite Forall_forall in Hes. split.
  - apply Forall_app. split; [|by constructor]. apply Forall_forall. intros e He.
    apply Hes in He as [->|[->|[]%not_elem_of_nil]%elem_of_cons]%elem_of_cons; done.
  - intros i e u Hi Ht. exists (length es). rewrite lookup_app_r, Nat.sub_diag by lia. cbn [lookup list_lookup].
    destruct (decide (i < length es)%nat) as [Hlt|Hge].
    + split; [done|]. rewrite lookup_app_l in Hi by done. apply list_elem_of_lookup_2 in Hi.
      apply Hes in Hi as [->|[->|[]%not_elem_of_nil]%elem_of_cons]%elem_of_cons; congruence.
    + rewrite lookup_app_r in Hi by lia. destruct (i - length es)%nat; [|done]. injection Hi as <-. congruence.
Qed.

(** C27: whatever a chaos scenario meets (a probe that fails, a proxy or a command that
    raises, the time limit or a cancellation at any await), it touches only proxies and
    services of the manifest, and every fault it injected is followed by the attempt to
    take it back; without the explicit opt-in it touches nothing; and a scenario counts
    as passed only when nothing failed and every compensation succeeded. *)
Theorem chaos_faults_always_undone env name max_seconds target l w :
  let (r, s) := run out manifest env name max_seconds target (l, w) in
  ∃ new, s.1 = l ++ new ∧ Forall within_manifest new ∧
    (∀ i e u, new !! i = Some e → takes_back e = Some u → ∃ j, (i < j)%nat ∧ new !! j = Some u) ∧
    (env !! "RUN_CHAOS_TESTS" ≠ Some "1" → new = []) ∧
    (∀ res, r = Ok res → passed res = true → failure res = None ∧ cleanup_errors res = [] ∧ env !! "RUN_CHAOS_TESTS" = Some "1").
Proof.
  unfold run. unfold mbind, result_bind. unfold require_chaos_opt_in.
  destruct (decide (env !! "RUN_CHAOS_TESTS" = Some "1")) as [Hopt|Hopt]; [rewrite bool_decide_eq_true_2 by done|
    rewrite bool_decide_eq_false_2 by done; exists []; rewrite app_nil_r; by split_and!].
  destruct (if negb (bool_decide (name ∈ SCENARIOS)) then _ else _) as [[]|e]; [|exists []; rewrite app_nil_r; by split_and!].
  destruct (validate_duration max_seconds (Fin 120)) as [[]|e]; [|exists []; rewrite app_nil_r; by split_and!].
  set (p := plan_of manifest name target). set (within := match max_seconds with Fin q => _ | _ => _ end).
  pose proof (exercise_safe p l (plan_of_performable name target) within (Locals CleanupStack.init "" [] 0 false, (l, w))
    ltac:(by split)) as Hsafe.
  destruct (exercise out manifest p within _) as [r [loc s]].
  assert (safe p l (loc, s)) as Hs by (by destruct r). clear Hsafe.
  destruct (cleanup_undoes name target l loc s Hs) as (errors & c & w' & new & E & Hnew). rewrite E.
  destruct (undone_effects name target new Hnew) as [Hw Hu].
  assert (∀ failed, passed (Result name (if nonempty (said loc) then said loc else "bounded, observable degradation followed by recovery")
      (seen loc) failed errors (took loc) (bool_decide (errors = []))
      (done_ loc && bool_decide (errors = []) && bool_decide (failed = None))) = true → failed = None ∧ errors = []) as Hpass.
  { intros failed. cbn [passed]. intros [[_ ?%bool_decide_eq_true]%andb_prop ?%bool_decide_eq_true]%andb_prop. done. }
  destruct r as [[]|e]; [|destruct (isinstance e [Exception])]; exists new; (split_and!; [done..|]);
    intros res Hres Hp; [..|done]; injection Hres as <-; by destruct (Hpass _ Hp).
Qed.

(** *** The rounds of the polling loop are enough *)
Section clock.
(** Sleeping takes its time and the clock does not run backwards. *)
Hypothesis sleep_takes_time : ∀ d w, (monotonic out w + d <= monotonic out (sleep out d w).2)%Q.
Hypothesis probe_takes_time : ∀ w, (monotonic out w <= monotonic out (probe out w).2)%Q.

Lemma poll_rounds_enough predicate description deadline k n l w :
  (deadline <= monotonic out w + inject_Z (Z.of_nat n) * (1 # 4))%Q →
  poll out (n + k) predicate deadline description (l, w) = poll out n predicate deadline description (l, w).
Proof using sleep_takes_time probe_takes_time.
  revert l w. induction n as [|n IH]; intros l w Hd.
  - assert (Qltb (monotonic out w) deadline = false) as E.
    { unfold Qltb. apply negb_false_iff, Qle_bool_iff. eapply Qle_trans; [exact Hd|]. apply Qle_lteq. right. simpl. ring. }
    destruct k as [|k]; [done|]. cbn [plus poll]. unfold mbind, M_bind, gets. cbn [snd]. by rewrite E.
  - change (S n + k)%nat with (S (n + k)). cbn [poll]. unfold mbind, M_bind, gets. cbn [snd].
    destruct (Qltb (monotonic out w) deadline); cbn [negb]; [|done]. unfold quietly. cbn [fst snd].
    pose proof (probe_takes_time w) as Hp. destruct (probe out w) as [[last|e] w1]; cbn [fst snd] in *; [|done].
    destruct (predicate last); [done|]. pose proof (sleep_takes_time (1 # 4) w1) as Hs. cbn [fst snd].
    destruct (sleep out (1 # 4) w1) as [[[]|e] w2]; cbn [fst snd] in *; [|done]. apply IH.
    rewrite Nat2Z.inj_succ, <-Z.add_1_r, inject_Z_plus in Hd. change (inject_Z 1) with 1%Q in Hd. lra.
Qed.

Lemma await_rounds_enough predicate timeout description k l w :
  poll out (rounds timeout + k) predicate (monotonic out w + timeout) description (l, w) =
  _await_state out predicate timeout description (l, w).
Proof using sleep_takes_time probe_takes_time.
  unfold _await_state, mbind, M_bind, gets. cbn [snd]. apply poll_rounds_enough. unfold rounds.
  assert (timeout * 4 <= inject_Z (Z.of_nat (S (Z.to_nat (Qceiling (timeout * 4))))))%Q as H.
  { eapply Qle_trans; [apply Qle_ceiling|]. rewrite <-Zle_Qle. lia. }
  lra.
Qed.
End clock.
End spec.

(** Compensations run from the last to the first, each once, whatever the others raise. *)
Lemma cleanup_reverse_order {A} (s : CleanupStack.t A) :
  CleanupStack._ran s = false →
  (CleanupStack.run (λ a w, (Ok tt, w ++ [a])) s []).2.2 = rev (CleanupStack._actions s) ∧
  ∀ e, (CleanupStack.run (λ a w, (Err e, w ++ [a])) s []).2.2 = rev (CleanupStack._actions s).
Proof.
  intros Hr. unfold CleanupStack.run. rewrite Hr.
  assert (∀ r : result unit, ∀ l w, (CleanupStack.pop_all (λ (a : A) w, (r, w ++ [a])) l w).2 = w ++ l) as H.
  { intros r l. induction l as [|a l IH]; intros w; cbn [CleanupStack.pop_all]; [by rewrite app_nil_r|].
    specialize (IH (w ++ [a])). rewrite <-app_assoc in IH. destruct r; [done|]. by destruct (CleanupStack.pop_all _ l _). }
  split; [|intros e].
  - specialize (H (Ok tt) (rev (CleanupStack._actions s)) []). by destruct (CleanupStack.pop_all _ _ _).
  - specialize (H (Err e) (rev (CleanupStack._actions s)) []). by destruct (CleanupStack.pop_all _ _ _).
Qed.

(** Endpoints are rewritten only in the explicit chaos profile, and then only to valid
    ones. *)
Lemma routing_inert env node_id host port : env !! "RUN_CHAOS_TESTS" ≠ Some "1" →
  resolve_peer_endpoint env node_id host port = Ok (host, port).
Proof. intros H. unfold resolve_peer_endpoint. destruct node_id; [|done]. by rewrite bool_decide_eq_false_2. Qed.

Lemma proxy_entry_valid item name host port : proxy_entry item = Ok (name, (host, port)) →
  name ≠ "" ∧ host ≠ "" ∧ 1 ≤ port ≤ 65535.
Proof.
  unfold proxy_entry, raise, nonempty. repeat case_match; intros E; simplify_eq. 
  repeat match goal with H : _ || _ = false |- _ => apply orb_false_iff in H as [? ?] end. boolify. split_and!; try done; lia.
Qed.

(** NaN is no duration, and passes the gate. *)
Lemma nan_duration_accepted : validate_duration NaN (Fin 120) = Ok tt.
Proof. done. Qed.

(** A process is confirmed only when its recorded identity matches. *)
Lemma validated_pid_is_managed token cmdline p manifest name : validate_pid token cmdline p manifest = Ok name →
  ∃ item, (name, item) ∈ ManagedManifest.pids manifest ∧ pid item = p ∧
    (start_token item ≠ "" → token p = Ok (start_token item)).
Proof.
  unfold validate_pid. destruct (filter _ _) as [|[n item] rest] eqn:E; [done|].
  assert ((n, item) ∈ filter (λ ni : string * ManagedProcess, pid ni.2 = p) (ManagedManifest.pids manifest)) as Hin by (rewrite E; left).
  apply list_elem_of_filter in Hin as [Hp Hin]. simpl in Hp.
  destruct (token p) as [a|e] eqn:Ea; [|by unfold mbind, result_bind; destruct (isinstance e [OSError])].
  unfold mbind, result_bind. destruct (cmdline p) as [b|e]; [|by destruct (isinstance e [OSError])].
  destruct (nonempty (start_token item) && _) eqn:E1; [done|]. 
  destruct (nonempty (cmdline_contains item) && negb (contains (cmdline_contains item) b)); [done|]. intros H. injection H as ->.
  exists item. split_and!; [done..|]. intros Hne. f_equal. unfold nonempty in E1. rewrite bool_decide_eq_false_2 in E1 by done.
  simpl in E1. by apply negb_false_iff, bool_decide_eq_true in E1.
Qed.
End ChaosSpec.

(** ** A partition of a cluster that answers everything *)
Module ChaosSample.
Import ChaosController.

(** The world: whether the proxy is enabled, and the time in quarters of a second. *)
Definition world : Type := bool * Z.
Definition outside : Outside world := {|
  http := λ _ _ b w, (Ok (200, ""), (match b with Enabled e => e | _ => w.1 end, w.2));
  exec := λ _ w, (Ok 0, w);
  probe := λ w, (Ok (Probe ["node-0"; "node-1"; "node-2"] ["node-0"; "node-1"; "node-2"] w.1 None true), w);
  sleep := λ _ w, (Ok tt, (w.1, w.2 + 1));
  monotonic := λ w, (inject_Z w.2 / 4)%Q |}.

Definition manifest : ManagedManifest.t := ManagedManifest.mk "/run" [] {["peer-node-1"]} {["etcd"; "node-1"]}.
Definition opted_in : gmap string string := {["RUN_CHAOS_TESTS" := "1"]}.

Example partition_passes :
  let (r, s) := run outside manifest opted_in "partition" (Fin 30) "node-1" ([], (true, 0)) in
  match r with Ok res => passed res | Err _ => false end = true ∧
  s.1 = [Http "POST" "/proxies/peer-node-1" (Enabled false); Http "POST" "/proxies/peer-node-1" (Enabled true);
         Http "POST" "/proxies/peer-node-1" (Enabled true)].
Proof. vm_compute. done. Qed.

Example unmanaged_untouched :
  (run outside manifest opted_in "partition" (Fin 30) "node-2" ([], (true, 0))).2.1 = [].
Proof. vm_compute. done. Qed.
End ChaosSample.
