(* ===== verification/Background.v ===== *)
(** * Background tasks of the services

    Starting and stopping the workers of [replication/replicator.py], the loop of
    [replication/anti_entropy.py], both from [replication/service.py] and
    [crdt_service.py], and the two loops of [cluster/service.py].  A task of the event
    loop is a number; it is alive from [create_task] until it is cancelled and awaited,
    or ends by itself because an exception left it. *)

From S2P Require Import Prelude Resilience Membership Cluster Recovery.

Local Open Scope nat_scope.

(** ** The event loop *)
Record loop := Loop { next : nat; alive : gset nat }.

Definition create_task : M loop nat := λ s, (Ok (next s), Loop (S (next s)) ({[next s]} ∪ alive s)).

Fixpoint create_tasks (n : nat) : M loop (list nat) :=
  match n with
  | O => mret []
  | S n => task ← create_task; tasks ← create_tasks n; mret (task :: tasks)
  end.

(** [for task in tasks: task.cancel()], then
    [await asyncio.gather( *tasks, return_exceptions=True)]. *)
Definition cancel_and_gather (tasks : list nat) : M loop unit := modifyM (λ s, Loop (next s) (alive s ∖ list_to_set tasks)).

(** A task ends by itself. *)
Definition ends (task : nat) : M loop unit := modifyM (λ s, Loop (next s) (alive s ∖ {[task]})).

(** [while True: await run_once(); await sleep(...)], for a number of rounds. *)
Fixpoint forever {S} (rounds : nat) (run_once sleep : M S unit) : M S unit :=
  match rounds with
  | O => mret tt
  | S rounds => _ ← run_once; _ ← sleep; forever rounds run_once sleep
  end.

(** ** The services *)
Module ReplicatorTasks.
(** [self._tasks] *)
Definition start (worker_count : Z) : M (list nat * loop) unit := λ s,
  if bool_decide (s.1 ≠ []) then (Ok tt, s)
  else match create_tasks (Z.to_nat worker_count) s.2 with
       | (Ok tasks, l) => (Ok tt, (tasks, l))
       | (Err e, l) => (Err e, (s.1, l))
       end.

Definition stop : M (list nat * loop) unit := λ s,
  match s.1 with
  | [] => (Ok tt, ([], s.2))
  | tasks => match cancel_and_gather tasks s.2 with (r, l) => (r, ([], l)) end
  end.
End ReplicatorTasks.

Module AntiEntropyTask.
(** [self._task] *)
Definition start : M (option nat * loop) unit := λ s,
  match s.1 with
  | Some _ => (Ok tt, s)
  | None => match create_task s.2 with
            | (Ok task, l) => (Ok tt, (Some task, l))
            | (Err e, l) => (Err e, (None, l))
            end
  end.

Definition stop : M (option nat * loop) unit := λ s,
  match s.1 with
  | None => (Ok tt, (None, s.2))
  | Some task => match cancel_and_gather [task] s.2 with (r, l) => (r, (None, l)) end
  end.

(** [_loop]: sleep, then a round whose errors are logged. *)
Definition _loop {S} (rounds : nat) (run_once sleep : M S unit) : M S unit :=
  forever rounds sleep (catchM run_once [Exception] (λ _, mret tt)).
End AntiEntropyTask.

Module ReplicationTasks.
Record t := mk { replicator : list nat; anti_entropy : option nat; _replicator_started : bool; _anti_entropy_started : bool }.
Definition init : t := mk [] None false false.

Section service.
Context (worker_count : Z).

Definition on_replicator (m : M (list nat * loop) unit) : M (t * loop) unit := λ s,
  match m (replicator s.1, s.2) with
  | (r, (tasks, l)) => (r, (mk tasks (anti_entropy s.1) (_replicator_started s.1) (_anti_entropy_started s.1), l))
  end.
Definition on_anti_entropy (m : M (option nat * loop) unit) : M (t * loop) unit := λ s,
  match m (anti_entropy s.1, s.2) with
  | (r, (task, l)) => (r, (mk (replicator s.1) task (_replicator_started s.1) (_anti_entropy_started s.1), l))
  end.
Definition set_replicator_started (b : bool) : M (t * loop) unit :=
  modifyM (λ s, (mk (replicator s.1) (anti_entropy s.1) b (_anti_entropy_started s.1), s.2)).
Definition set_anti_entropy_started (b : bool) : M (t * loop) unit :=
  modifyM (λ s, (mk (replicator s.1) (anti_entropy s.1) (_replicator_started s.1) b, s.2)).

Definition start_fast_path : M (t * loop) unit :=
  started ← gets (λ s : t * loop, _replicator_started s.1);
  if (started : bool) then mret tt
  else _ ← on_replicator (ReplicatorTasks.start worker_count); set_replicator_started true.

Definition start_anti_entropy : M (t * loop) unit :=
  started ← gets (λ s : t * loop, _anti_entropy_started s.1);
  if (started : bool) then mret tt
  else _ ← on_anti_entropy AntiEntropyTask.start; set_anti_entropy_started true.

Definition start : M (t * loop) unit := _ ← start_fast_path; start_anti_entropy.

Definition stop : M (t * loop) unit :=
  anti_started ← gets (λ s : t * loop, _anti_entropy_started s.1);
  _ ← (if (anti_started : bool) then _ ← on_anti_entropy AntiEntropyTask.stop; set_anti_entropy_started false else mret tt);
  fast_started ← gets (λ s : t * loop, _replicator_started s.1);
  if (fast_started : bool) then _ ← on_replicator ReplicatorTasks.stop; set_replicator_started false else mret tt.
End service.
End ReplicationTasks.

Module ClusterTasks.
(** [self._background_tasks] *)
Section service.
Context {W : Type} (bootstrap : M W unit).
Abbreviation st := (list nat * (loop * W))%type.

Definition start : M st unit := λ s,
  match bootstrap s.2.2 with
  | (Err e, w) => (Err e, (s.1, (s.2.1, w)))
  | (Ok _, w) =>
      match create_tasks 2 s.2.1 with
      | (Ok tasks, l) => (Ok tt, (tasks, (l, w)))
      | (Err e, l) => (Err e, (s.1, (l, w)))
      end
  end.

Definition stop : M st unit := λ s,
  match cancel_and_gather s.1 s.2.1 with (r, l) => (r, ([], (l, s.2.2))) end.
End service.
End ClusterTasks.

(** ** Nothing is left behind *)
Module BackgroundSpec.
Import ReplicationTasks.

Lemma create_tasks_spec n l : ∃ tasks l', create_tasks n l = (Ok tasks, l') ∧ length tasks = n ∧
  (∀ t, t ∈ tasks → next l ≤ t < next l') ∧ next l ≤ next l' ∧ alive l' = alive l ∪ list_to_set tasks.
Proof.
  revert l. induction n as [|n IH]; intros l.
  - exists [], l. split_and!; [done|done|by intros t ?%not_elem_of_nil|lia|set_solver].
  - destruct (IH (Loop (S (next l)) ({[next l]} ∪ alive l))) as (tasks & l' & E & Hn & Ht & Hl & Ha). simpl in *.
    exists (next l :: tasks), l'. unfold mbind, M_bind, create_task. rewrite E. split_and!; [done|simpl; lia| |lia|set_solver].
    intros t [->|Hin]%elem_of_cons; [lia|]. specialize (Ht t Hin). lia.
Qed.

Lemma size_list_to_set_le (l : list nat) : size (list_to_set l : gset nat) ≤ length l.
Proof.
  induction l as [|x l IH]; [done|]. rewrite list_to_set_cons. cbn [length]. rewrite size_union_alt, size_singleton.
  assert (size ((list_to_set l : gset nat) ∖ {[x]}) ≤ size (list_to_set l : gset nat)) by (apply subseteq_size; set_solver). lia.
Qed.

Definition owned (s : t) : list nat := replicator s ++ option_list (anti_entropy s).

Section service.
Context (worker_count : Z) (l0 : loop).
Hypothesis fresh : ∀ t, t ∈ alive l0 → t < next l0.

(** [l0] is the loop before the service was made; [ended] are the tasks that ended by
    themselves. *)
Record inv (ended : gset nat) (s : t * loop) : Prop := {
  inv_bound : alive s.2 ⊆ alive l0 ∪ list_to_set (owned s.1);
  inv_others : alive l0 ∖ ended ⊆ alive s.2;
  inv_new : ∀ t, t ∈ owned s.1 → next l0 ≤ t < next s.2;
  inv_next : next l0 ≤ next s.2;
  inv_fast : _replicator_started s.1 = false → replicator s.1 = [];
  inv_anti : _anti_entropy_started s.1 = false → anti_entropy s.1 = None;
  inv_count : length (replicator s.1) ≤ Z.to_nat worker_count;
}.

(** [m] returns and keeps the invariant. *)
Definition maintains (ended : gset nat) (m : M (t * loop) unit) : Prop :=
  ∀ s, inv ended s → ∃ s', m s = (Ok tt, s') ∧ inv ended s'.

Lemma start_fast_path_maintains ended : maintains ended (start_fast_path worker_count).
Proof using fresh.
  intros [s l] H. unfold start_fast_path, mbind, M_bind, gets. cbn [fst]. destruct (_replicator_started s) eqn:E; [by exists (s, l)|].
  pose proof (inv_fast _ _ H E) as Hr. cbn [fst snd] in *. unfold on_replicator, ReplicatorTasks.start. cbn [fst snd]. rewrite Hr.
  rewrite bool_decide_eq_false_2 by (by intros []). destruct (create_tasks_spec (Z.to_nat worker_count) l) as (tasks & l' & Ec & Hn & Ht & Hl & Ha).
  rewrite Ec. eexists. split; [reflexivity|]. destruct H as [B O N X F A C]. unfold owned in *. cbn [fst snd] in *.
  rewrite Hr in *. simpl in *. split; unfold owned; cbn [fst snd replicator anti_entropy _replicator_started _anti_entropy_started].
  - rewrite Ha, list_to_set_app_L. set_solver.
  - rewrite Ha. set_solver.
  - intros t [Hin|Hin]%elem_of_app; [specialize (Ht t Hin); lia|specialize (N t Hin); lia].
  - lia.
  - done.
  - done.
  - lia.
Qed.

Lemma start_anti_entropy_maintains ended : maintains ended start_anti_entropy.
Proof using fresh.
  intros [s l] H. unfold start_anti_entropy, mbind, M_bind, gets. cbn [fst]. destruct (_anti_entropy_started s) eqn:E; [by exists (s, l)|].
  pose proof (inv_anti _ _ H E) as Hr. cbn [fst snd] in *. unfold on_anti_entropy, AntiEntropyTask.start, create_task. cbn [fst snd]. rewrite Hr.
  eexists. split; [reflexivity|]. destruct H as [B O N X F A C]. unfold owned in *. cbn [fst snd] in *. rewrite Hr in *. simpl in *.
  rewrite app_nil_r in *. split; unfold owned; cbn [fst snd replicator anti_entropy _replicator_started _anti_entropy_started next alive].
  - rewrite list_to_set_app_L. simpl. set_solver.
  - set_solver.
  - intros t [Hin|Hin]%elem_of_app; [specialize (N t Hin); lia|]. apply list_elem_of_singleton in Hin. lia.
  - lia.
  - done.
  - done.
  - done.
Qed.

(** Cancelling some of the service's tasks and forgetting them. *)
Lemma inv_cancel_tasks ended s s' l gone : inv ended (s, l) →
  (∀ t, t ∈ owned s ↔ t ∈ gone ∨ t ∈ owned s') → (∀ t, t ∈ gone → t ∈ owned s) →
  (_replicator_started s' = false → replicator s' = []) → (_anti_entropy_started s' = false → anti_entropy s' = None) →
  length (replicator s') ≤ length (replicator s) →
  inv ended (s', Loop (next l) (alive l ∖ list_to_set gone)).
Proof using fresh.
  intros [B O N X F A C] Hsplit Hgone Hf Ha Hlen. cbn [fst snd] in *. split; cbn [fst snd next alive]; try done; try lia.
  - intros t [Hin Hnot]%elem_of_difference. apply B in Hin. rewrite elem_of_list_to_set in Hnot.
    rewrite elem_of_union, elem_of_list_to_set in *. destruct Hin as [Hin|Hin]; [by left|]. apply Hsplit in Hin. naive_solver.
  - intros t Hin. apply elem_of_difference. split; [by apply O|]. rewrite elem_of_list_to_set. intros Hg.
    apply Hgone, N in Hg. apply elem_of_difference in Hin as [Hin _]. apply fresh in Hin. lia.
  - intros t Hin. apply N. apply Hsplit. by right.
Qed.

Lemma stop_clears ended s : inv ended s → ∃ s', stop s = (Ok tt, s') ∧ inv ended s' ∧ owned s'.1 = [].
Proof using fresh.
  destruct s as [s l]. intros H. unfold stop, mbind, M_bind, gets. cbn [fst].
  assert (∃ s1 l1, (if _anti_entropy_started s then _ ← on_anti_entropy AntiEntropyTask.stop; set_anti_entropy_started false else mret tt)
      (s, l) = (Ok tt, (s1, l1)) ∧ inv ended (s1, l1) ∧ anti_entropy s1 = None) as (s1 & l1 & E1 & H1 & N1).
  { destruct (_anti_entropy_started s) eqn:E; [|exists s, l; split_and!; [done..|by apply (inv_anti _ _ H)]].
    unfold mbind, M_bind, on_anti_entropy, AntiEntropyTask.stop, set_anti_entropy_started, modifyM, cancel_and_gather. cbn [fst snd].
    destruct (anti_entropy s) as [task|] eqn:Et; do 2 eexists; (split; [reflexivity|split; [|done]]).
    - refine (inv_cancel_tasks ended s _ l [task] H _ _ _ _ _); unfold owned; rewrite ?Et; simpl; try set_solver; try done.
      apply (inv_fast _ _ H).
    - destruct H as [B O N X F A C]. split; unfold owned in *; cbn [fst snd] in *; rewrite ?Et in *; simpl in *; done. }
  unfold mbind, M_bind in E1. rewrite E1. clear E1 H. cbn [fst].
  destruct (_replicator_started s1) eqn:E.
  - unfold on_replicator, ReplicatorTasks.stop, set_replicator_started, modifyM, cancel_and_gather. cbn [fst snd].
    destruct (replicator s1) as [|task tasks] eqn:Et; (eexists; split; [reflexivity|]); cbn [fst snd]; unfold owned; cbn [replicator anti_entropy];
      rewrite N1; (split; [|done]).
    + destruct H1 as [B O N X F A C]. split; unfold owned in *; cbn [fst snd] in *; rewrite ?Et, ?N1 in *; simpl in *; done.
    + refine (inv_cancel_tasks ended s1 _ l1 (task :: tasks) H1 _ _ _ _ _); unfold owned; cbn [replicator anti_entropy]; rewrite ?Et, ?N1; simpl;
        try set_solver; try done; lia.
  - exists (s1, l1). split; [done|]. split; [done|]. pose proof (inv_fast _ _ H1 E) as Hr. cbn [fst] in Hr.
    unfold owned. cbn [fst]. by rewrite Hr, N1.
Qed.

(** The calls of the service's users, in any order, and tasks that end by themselves. *)
Inductive op := StartFastPath | StartAntiEntropy | Start | Stop | Ends (task : nat).

Definition step (o : op) : M (t * loop) unit :=
  match o with
  | StartFastPath => start_fast_path worker_count
  | StartAntiEntropy => start_anti_entropy
  | Start => start worker_count
  | Stop => stop
  | Ends task => λ s, match ends task s.2 with (r, l) => (r, (s.1, l)) end
  end.

Fixpoint steps (ops : list op) : M (t * loop) unit :=
  match ops with [] => mret tt | o :: ops => _ ← step o; steps ops end.

Definition ended_by (o : op) : gset nat := match o with Ends task => {[task]} | _ => ∅ end.
Definition ended (ops : list op) : gset nat := ⋃ (ended_by <$> ops).

Lemma inv_mono e e' s : e ⊆ e' → inv e s → inv e' s.
Proof. intros He [B O N X F A C]. split; try done. set_solver. Qed.

Lemma step_keeps_inv e o s : inv e s → ∃ s', step o s = (Ok tt, s') ∧ inv (e ∪ ended_by o) s'.
Proof using fresh.
  intros H. assert (∀ m, maintains e m → ∃ s', m s = (Ok tt, s') ∧ inv (e ∪ ∅) s') as Hm.
  { intros m Hm. destruct (Hm s H) as (s' & E & Hs). exists s'. split; [done|]. eapply inv_mono; [|done]. set_solver. }
  destruct o as [| | | |task]; cbn [step ended_by].
  - apply Hm, start_fast_path_maintains.
  - apply Hm, start_anti_entropy_maintains.
  - apply Hm. intros s1 H1. destruct (start_fast_path_maintains e s1 H1) as (s2 & E2 & H2).
    destruct (start_anti_entropy_maintains e s2 H2) as (s3 & E3 & H3). exists s3. unfold start, mbind, M_bind. by rewrite E2.
  - apply Hm. intros s1 H1. destruct (stop_clears e s1 H1) as (s2 & E2 & H2 & _). eauto.
  - destruct s as [s l], H as [B O N X F A C]. eexists. split; [reflexivity|]. split; cbn [fst snd next alive] in *; try done; set_solver.
Qed.

Lemma steps_keep_inv ops e s : inv e s → ∃ s', steps ops s = (Ok tt, s') ∧ inv (e ∪ ended ops) s'.
Proof using fresh.
  revert e s. induction ops as [|o ops IH]; intros e s H.
  - exists s. split; [done|]. eapply inv_mono; [|done]. set_solver.
  - destruct (step_keeps_inv e o s H) as (s1 & E1 & H1). destruct (IH _ _ H1) as (s2 & E2 & H2). exists s2. cbn [steps].
    unfold mbind, M_bind. rewrite E1. split; [done|]. eapply inv_mono; [|done]. unfold ended. simpl. set_solver.
Qed.

(** C26: whatever sequence of starts and stops the service sees, and whichever tasks end
    by themselves in between, no call fails, at most [worker_count] workers and one
    anti-entropy loop are alive, no task of anyone else is cancelled, and a stop leaves
    none of the service's tasks alive. *)
Theorem background_tasks_never_leak ops :
  ∃ s, steps ops (init, l0) = (Ok tt, s) ∧
    (size (alive s.2 ∖ alive l0) ≤ Z.to_nat worker_count + 1) ∧ alive l0 ∖ ended ops ⊆ alive s.2 ∧
    ∃ s', stop s = (Ok tt, s') ∧ alive s'.2 ⊆ alive l0 ∧ alive l0 ∖ ended ops ⊆ alive s'.2.
Proof using fresh.
  assert (inv ∅ (init, l0)) as H0.
  { split; unfold owned; simpl; try done; try lia; [set_solver|set_solver|by intros t ?%not_elem_of_nil]. }
  destruct (steps_keep_inv ops ∅ _ H0) as (s & E & H). rewrite union_empty_l_L in H. exists s. split; [done|]. split.
  { trans (length (owned s.1)).
    - trans (size (list_to_set (owned s.1) : gset nat)); [apply subseteq_size; pose proof (inv_bound _ _ H); set_solver|].
      apply size_list_to_set_le.
    - unfold owned. rewrite length_app. pose proof (inv_count _ _ H). destruct (anti_entropy s.1); simpl; lia. }
  split; [apply (inv_others _ _ H)|]. destruct (stop_clears _ s H) as (s' & E' & H' & Ho). exists s'. split; [done|].
  split; [|apply (inv_others _ _ H')]. pose proof (inv_bound _ _ H') as B. rewrite Ho in B. set_solver.
Qed.
End service.

Lemma background_tasks_never_leak_witness : ∃ s,
  steps 2 [Start; Ends 6; Stop; StartFastPath] (init, Loop 5 {[3]}) = (Ok tt, s) ∧ size (alive s.2 ∖ {[3]}) ≤ Z.to_nat 2 + 1.
Proof.
  destruct (background_tasks_never_leak 2 (Loop 5 {[3]}) ltac:(simpl; intros t Ht; apply elem_of_singleton in Ht; lia)
    [Start; Ends 6; Stop; StartFastPath]) as (s & E & Hs & _).
  exists s. split; [exact E|exact Hs].
Defined.

(** Workers that ended by themselves are not started again: as long as the service
    counts as started, [start] changes nothing. *)
Lemma dead_workers_stay_dead worker_count s l : _replicator_started s = true → _anti_entropy_started s = true →
  start worker_count (s, l) = (Ok tt, (s, l)).
Proof.
  intros H1 H2. unfold start, start_fast_path, start_anti_entropy, mbind, M_bind, gets. cbn [fst]. rewrite H1. cbn. by rewrite H2.
Qed.

(** The anti-entropy loop outlives every error of a round. *)
Lemma anti_entropy_loop_survives {S} rounds (run_once sleep : M S unit) :
  (∀ s, is_ok (sleep s).1 = true) → (∀ s e, (run_once s).1 = Err e → isinstance e [Exception] = true) →
  ∀ s, is_ok (AntiEntropyTask._loop rounds run_once sleep s).1 = true.
Proof.
  intros Hs Hr. unfold AntiEntropyTask._loop. induction rounds as [|n IH]; intros s; [done|]. cbn [forever]. unfold mbind, M_bind.
  specialize (Hs s) as Hs'. destruct (sleep s) as [[[]|e] s1]; [|done]. unfold catchM at 1.
  specialize (Hr s1) as Hr'. destruct (run_once s1) as [[[]|e] s2]; [apply IH|]. rewrite (Hr' e eq_refl). apply IH.
Qed.

(** Starting the cluster's loops and stopping them leaves the event loop as it was; when
    the bootstrap raises, no task was made. *)
Lemma cluster_tasks_stopped {W} (bootstrap : M W unit) l w : (∀ t, t ∈ alive l → t < next l) →
  match ClusterTasks.start bootstrap ([], (l, w)) with
  | (Ok _, s) => length s.1 = 2 ∧ (ClusterTasks.stop s).1 = Ok tt ∧ alive (ClusterTasks.stop s).2.2.1 = alive l
  | (Err e, s) => s.1 = [] ∧ s.2.1 = l
  end.
Proof.
  intros Hl. unfold ClusterTasks.start. cbn [fst snd]. destruct (bootstrap w) as [[[]|e] w']; [|done].
  destruct (create_tasks_spec 2 l) as (tasks & l' & E & Hn & Ht & _ & Ha). rewrite E. cbn [fst snd]. split; [done|]. split; [done|].
  simpl. rewrite Ha. apply set_eq. intros t. rewrite elem_of_difference, elem_of_union, !elem_of_list_to_set. split; [naive_solver|].
  intros Hin. split; [by left|]. intros Hin'. specialize (Hl t Hin). specialize (Ht t Hin'). lia.
Qed.
End BackgroundSpec.
