(* ===== verification/Benchmark.v ===== *)
(** * Benchmarks: [distsys/benchmarking/]

    Percentiles, aggregation over runs, the retry of the set-up, and the accounting of the
    runner.  Latencies, rates and durations are rational numbers and the arithmetic is
    exact; the calls under test are inputs. *)

From Stdlib Require Import QArith Qround Lqa.
From stdpp Require Import sorting.
From S2P Require Import Prelude Recovery.

Local Open Scope Z_scope.

(** ** [benchmarking/model.py] *)
Module BenchmarkConfig.
#[export] Instance Q_eq_dec : EqDecision Q.
Proof. solve_decision. Defined.

Record t := mk {
  profile : string; workload : string; concurrency : Z; warmup_seconds : Q; duration_seconds : Q; payload_size : Z;
  read_ratio : Q; seed : Z }.

#[export] Instance eq_dec : EqDecision t.
Proof. solve_decision. Defined.

Definition make (self : t) : result t :=
  if negb (bool_decide (profile self ∈ ["quick"; "laptop"; "formal"]))
  then raise ValueError "profile must be quick, laptop, or formal"
  else if negb (bool_decide (workload self ∈ ["task"; "crdt"])) then raise ValueError "workload must be task or crdt"
  else if concurrency self <? 1 then raise ValueError "concurrency must be at least 1"
  else if negb (Qle_bool 0 (warmup_seconds self)) || Qle_bool (duration_seconds self) 0
  then raise ValueError "benchmark timing must be non-negative/positive"
  else if payload_size self <? 0 then raise ValueError "payload_size cannot be negative"
  else if negb (Qle_bool 0 (read_ratio self) && Qle_bool (read_ratio self) 1)
  then raise ValueError "read_ratio must be in [0.0, 1.0]"
  else Ok self.
End BenchmarkConfig.
Export (hints) BenchmarkConfig.

Record LatencySummary := Summary { p50_seconds : Q; p95_seconds : Q; p99_seconds : Q; max_seconds : Q }.
Record CorrectnessCheck := Check_ { check_name : string; check_passed : bool; detail : string }.

Module BenchmarkResult.
Record t := mk {
  git_commit : string; git_dirty : bool; config : BenchmarkConfig.t; successes : Z; failures : gmap string Z;
  throughput_rps : Q; latency : LatencySummary; correctness : list CorrectnessCheck }.

Definition request_count (self : t) : Z := successes self + map_fold (λ _ n acc, n + acc) 0 (failures self).
Definition valid (self : t) : bool :=
  bool_decide (failures self = ∅) && forallb check_passed (correctness self).
Definition success_ratio (self : t) : Q :=
  if request_count self =? 0 then 0%Q else (inject_Z (successes self) / inject_Z (request_count self))%Q.
End BenchmarkResult.

(** ** [benchmarking/stats.py] *)
#[export] Instance Qle_dec : RelDecision Qle.
Proof. intros x y. destruct (Qlt_le_dec y x) as [H|H]; [right; by apply Qlt_not_le|by left]. Defined.
#[export] Instance Qle_trans' : Transitive Qle.
Proof. intros x y z. apply Qle_trans. Qed.
#[export] Instance Qle_total : Total Qle.
Proof. intros x y. destruct (Qlt_le_dec x y); [left; by apply Qlt_le_weak|by right]. Qed.

Definition nearest_rank_percentile (samples : list Q) (percentile : Q) : result Q :=
  match samples with
  | [] => raise ValueError "percentile requires at least one sample"
  | _ =>
      if negb (negb (Qle_bool percentile 0) && Qle_bool percentile 1)
      then raise ValueError "percentile must be in (0.0, 1.0]"
      else
        let ordered := merge_sort Qle samples in
        let rank := Z.max 1 (Qceiling (percentile * inject_Z (Z.of_nat (length ordered)))) in
        match ordered !! Z.to_nat (rank - 1) with Some x => Ok x | None => raise IndexError "list index out of range" end
  end.

(** [max(samples)] of a list that is not empty. *)
Definition maximum (x : Q) (samples : list Q) : Q := foldl (λ a b, if Qle_bool b a then a else b) x samples.

Definition latency_summary (samples : list Q) : result LatencySummary :=
  match samples with
  | [] => Ok (Summary 0 0 0 0)
  | x :: rest =>
      p50 ← nearest_rank_percentile samples (1 # 2);
      p95 ← nearest_rank_percentile samples (95 # 100);
      p99 ← nearest_rank_percentile samples (99 # 100);
      Ok (Summary p50 p95 p99 (maximum x rest))
  end.

(** ** [benchmarking/retry.py] *)
Section retry.
Context {W A : Type} (operation : M W A) (sleep : Q → M W unit).

Fixpoint attempts_from (attempt : Z) (remaining : nat) (delay_seconds : Q) : M W A :=
  match remaining with
  | O => raiseM AssertionError "unreachable"
  | S remaining =>
      catchM operation [ConnectionError; OSError; TimeoutError]
        (λ e, match remaining with
              | O => failM e
              | _ => _ ← sleep (delay_seconds * inject_Z attempt)%Q; attempts_from (attempt + 1) remaining delay_seconds
              end)
  end.

Definition retry_transport (attempts : Z) (delay_seconds : Q) : M W A :=
  if attempts <? 1 then raiseM ValueError "attempts must be at least 1"
  else if negb (Qle_bool 0 delay_seconds) then raiseM ValueError "delay_seconds must be non-negative"
  else attempts_from 1 (Z.to_nat attempts) delay_seconds.
End retry.

(** ** [benchmarking/aggregate.py] *)
Record BenchmarkAggregate := Aggregate {
  run_count : Z; valid_runs : Z; median_throughput_rps : Q; median_p95_seconds : Q; throughput_min_rps : Q;
  throughput_max_rps : Q; p95_min_seconds : Q; p95_max_seconds : Q; all_valid : bool; commit : string; git_dirty_runs : Z }.

Definition _comparable_signature (r : BenchmarkResult.t) : BenchmarkConfig.t :=
  let c := BenchmarkResult.config r in
  BenchmarkConfig.mk (BenchmarkConfig.profile c) (BenchmarkConfig.workload c) (BenchmarkConfig.concurrency c)
    (Qred (BenchmarkConfig.warmup_seconds c)) (Qred (BenchmarkConfig.duration_seconds c)) (BenchmarkConfig.payload_size c)
    (Qred (BenchmarkConfig.read_ratio c)) 0.

(** [statistics.median] of a list that is not empty. *)
Definition median (l : list Q) : Q :=
  let ordered := merge_sort Qle l in
  let n := length ordered in
  let at_ (i : nat) := default 0%Q (ordered !! i) in
  if Nat.odd n then at_ (n / 2)%nat else ((at_ (n / 2 - 1)%nat + at_ (n / 2)%nat) / 2)%Q.

Definition minimum (x : Q) (samples : list Q) : Q := foldl (λ a b, if Qle_bool a b then a else b) x samples.

(** [sum(flag for ...)] *)
Definition count_true {A} (f : A → bool) (l : list A) : Z := Z.of_nat (length (filter (λ x, f x = true) l)).

Definition aggregate_runs (runs : list BenchmarkResult.t) : result BenchmarkAggregate :=
  if (length runs <? 5)%nat then raise ValueError "formal benchmark aggregation requires at least five runs"
  else if existsb (λ r, negb (bool_decide (BenchmarkConfig.profile (BenchmarkResult.config r) = "formal"))) runs
  then raise ValueError "all aggregated runs must use the formal profile"
  else
    match runs with
    | [] => raise IndexError "tuple index out of range"
    | first :: rest =>
        if existsb (λ r, negb (bool_decide (_comparable_signature r = _comparable_signature first))) rest
        then raise ValueError "formal benchmark runs must use comparable workload settings"
        else if existsb (λ r, negb (bool_decide (BenchmarkResult.git_commit r = BenchmarkResult.git_commit first))) rest
        then raise ValueError "formal benchmark runs must come from one git commit"
        else
          let rate r := BenchmarkResult.throughput_rps r in
          let p95 r := p95_seconds (BenchmarkResult.latency r) in
          let valid_runs := count_true BenchmarkResult.valid runs in
          Ok (Aggregate (Z.of_nat (length runs)) valid_runs (median (rate <$> runs)) (median (p95 <$> runs))
                (minimum (rate first) (rate <$> rest)) (maximum (rate first) (rate <$> rest))
                (minimum (p95 first) (p95 <$> rest)) (maximum (p95 first) (p95 <$> rest))
                (valid_runs =? Z.of_nat (length runs)) (BenchmarkResult.git_commit first)
                (count_true BenchmarkResult.git_dirty runs))
    end.

(** ** [benchmarking/runner.py] *)
Module BenchmarkRunner.
(** The variables the workers of a run share. *)
Record t := mk { collect : bool; successes : Z; failures : gmap string Z; latencies : list Q; sequence : Z }.

(** The name a failure is counted under; [None] when the request was cancelled. *)
Definition failure_kind (e : exn) : option string :=
  if isinstance e [CancelledError] then None
  else if isinstance e [TimeoutError] then Some "timeout"
  else if isinstance e [AssertionError] then Some "correctness"
  else if isinstance e [ConnectionError; OSError] then Some "transport"
  else if isinstance e [Exception] then Some "other"
  else None.

Definition bump (kind : string) (m : gmap string Z) : gmap string Z := <[kind := default 0 (m !! kind) + 1]> m.

(** What a call gives: a value that may be [None], or an exception. *)
Definition outcome : Type := result bool.

(** The end of [one]: the accounting of a request that took [seconds]. *)
Definition one (outcome : outcome) (seconds : Q) (s : t) : t :=
  if negb (collect s) then s
  else
    let latencies := latencies s ++ [seconds] in
    match outcome with
    | Ok true => mk (collect s) (successes s + 1) (failures s) latencies (sequence s)
    | Ok false => mk (collect s) (successes s) (bump "correctness" (failures s)) latencies (sequence s)
    | Err e =>
        match failure_kind e with
        | Some kind => mk (collect s) (successes s) (bump kind (failures s)) latencies (sequence s)
        | None => mk (collect s) (successes s) (failures s) latencies (sequence s)
        end
    end.

(** What happens during a run, in the order of the event loop: a worker takes the next
    number, a request ends, the measurement begins and ends. *)
Inductive event := Takes | Finishes (outcome : outcome) (seconds : Q) | Collect (on : bool).

Definition happens (e : event) (s : t) : t :=
  match e with
  | Takes => mk (collect s) (successes s) (failures s) (latencies s) (sequence s + 1)
  | Finishes outcome seconds => one outcome seconds s
  | Collect on => mk on (successes s) (failures s) (latencies s) (sequence s)
  end.

Definition init : t := mk false 0 ∅ [] 0.

Definition correctness (s : t) : list CorrectnessCheck :=
  if default 0 (failures s !! "correctness") =? 0
  then [Check_ "workload_semantics" true "all measured responses satisfied checks"]
  else [Check_ "workload_semantics" false "one or more assertions failed"].

(** The result from the variables at the end. *)
Definition result_of (config : BenchmarkConfig.t) (git_commit : string) (git_dirty : bool) (elapsed : Q) (s : t)
    : result BenchmarkResult.t :=
  latency ← latency_summary (latencies s);
  Ok (BenchmarkResult.mk git_commit git_dirty config (successes s) (failures s) (inject_Z (successes s) / elapsed) latency
        (correctness s)).
End BenchmarkRunner.

(** ** What the numbers mean *)
Module BenchmarkSpec.
Import BenchmarkRunner.

Definition at_most (x : Q) (l : list Q) : nat := length (filter (λ y, (y <= x)%Q) l).

(** The position the percentile reads. *)
Definition rank (p : Q) (n : nat) : nat := Z.to_nat (Z.max 1 (Qceiling (p * inject_Z (Z.of_nat n))) - 1).

Lemma rank_bounds p n : (0 < p)%Q → (p <= 1)%Q → (0 < n)%nat →
  (rank p n < n)%nat ∧ (p * inject_Z (Z.of_nat n) <= inject_Z (Z.of_nat (S (rank p n))))%Q ∧
  (inject_Z (Z.of_nat (rank p n)) < p * inject_Z (Z.of_nat n))%Q.
Proof.
  intros Hp0 Hp1 Hn. unfold rank. set (x := (p * inject_Z (Z.of_nat n))%Q).
  assert (0 < inject_Z (Z.of_nat n))%Q as Hn' by (change 0%Q with (inject_Z 0); rewrite <-Zlt_Qlt; lia).
  assert (0 < x)%Q as Hx by (unfold x; nra).
  assert (x <= inject_Z (Z.of_nat n))%Q as Hx1 by (unfold x; nra).
  pose proof (Qle_ceiling x) as Hc. pose proof (Qceiling_lt x) as Hc'.
  assert (1 <= Qceiling x)%Z as H1.
  { assert (0 < Qceiling x)%Z; [|lia]. rewrite Zlt_Qlt. change (inject_Z 0) with 0%Q. lra. }
  assert (Qceiling x <= Z.of_nat n)%Z as H2.
  { rewrite <-(Qceiling_Z (Z.of_nat n)). by apply Qceiling_resp_le. }
  rewrite Z.max_r by lia. split; [lia|]. rewrite Nat2Z.inj_succ, Z2Nat.id by lia.
  replace (Z.succ (Qceiling x - 1)) with (Qceiling x) by lia. done.
Qed.

Lemma at_most_perm x l l' : l ≡ₚ l' → at_most x l = at_most x l'.
Proof. intros H. unfold at_most. by rewrite H. Qed.

Lemma at_most_app x l1 l2 : at_most x (l1 ++ l2) = (at_most x l1 + at_most x l2)%nat.
Proof. unfold at_most. by rewrite filter_app, length_app. Qed.

Lemma at_most_all x l : Forall (λ y, (y <= x)%Q) l → at_most x l = length l.
Proof. intros H. unfold at_most. by rewrite list_filter_all. Qed.

Lemma at_most_none x l : Forall (λ y, ¬ (y <= x)%Q) l → at_most x l = 0%nat.
Proof. unfold at_most. induction 1; [done|]. by rewrite filter_cons_False. Qed.

(** Position [i] of the sorted samples. *)
Lemma sorted_position l i x : StronglySorted Qle l → l !! i = Some x →
  (S i ≤ at_most x l)%nat ∧ ∀ y, ¬ (x <= y)%Q → (at_most y l ≤ i)%nat.
Proof.
  intros Hs Hi. pose proof (take_drop_middle l i x Hi) as E. rewrite <-E in Hs |- *.
  assert (length (take i l) = i) as Hlen by (rewrite length_take; apply lookup_lt_Some in Hi; lia). split.
  - change (x :: drop (S i) l) with ([x] ++ drop (S i) l). rewrite app_assoc, at_most_app, at_most_all.
    + rewrite length_app, Hlen. simpl. lia.
    + apply Forall_app. split; [|constructor; [apply Qle_refl|constructor]]. apply Forall_forall. intros z Hz.
      apply (StronglySorted_app_1_elem_of _ _ _ _ _ Hs Hz). by left.
  - intros y Hy. rewrite at_most_app, (at_most_none y (x :: _)).
    + unfold at_most. pose proof (length_filter (λ z, (z <= y)%Q) (take i l)). lia.
    + apply StronglySorted_app_1_r in Hs. apply StronglySorted_inv in Hs as [_ Hs]. constructor; [done|].
      eapply Forall_impl; [exact Hs|]. intros z Hz Hzy. apply Hy. by eapply Qle_trans.
Qed.

(** The nearest-rank percentile of samples that are not empty is the least sample
    that at least that share of the samples does not exceed; other arguments are
    refused. *)
Theorem percentile_is_least_covering_sample samples p :
  match nearest_rank_percentile samples p with
  | Ok x => x ∈ samples ∧ (p * inject_Z (Z.of_nat (length samples)) <= inject_Z (Z.of_nat (at_most x samples)))%Q ∧
      ∀ y, y ∈ samples → (p * inject_Z (Z.of_nat (length samples)) <= inject_Z (Z.of_nat (at_most y samples)))%Q → (x <= y)%Q
  | Err e => exn_cls e = ValueError ∧ (samples = [] ∨ ¬ (0 < p)%Q ∨ ¬ (p <= 1)%Q)
  end.
Proof.
  unfold nearest_rank_percentile. destruct samples as [|s0 rest]; [by split; [|left]|]. set (samples := s0 :: rest).
  destruct (Qle_bool p 0) eqn:E0.
  { split; [done|]. right. left. apply Qle_bool_iff in E0. by apply Qle_not_lt. }
  destruct (Qle_bool p 1) eqn:E1; cbn [negb andb];
    [|split; [done|]; right; right; intros H; apply Qle_bool_iff in H; congruence].
  assert (0 < p)%Q as Hp0. { apply Qnot_le_lt. intros H. apply Qle_bool_iff in H. congruence. } apply Qle_bool_iff in E1.
  set (ordered := merge_sort Qle samples). pose proof (merge_sort_Permutation Qle samples) as Hperm. fold ordered in Hperm.
  assert (StronglySorted Qle ordered) as Hs by (apply (StronglySorted_merge_sort Qle)).
  rewrite <-(Permutation_length Hperm). destruct (rank_bounds p (length ordered) Hp0 E1) as (R1 & R2 & R3).
  { rewrite (Permutation_length Hperm). simpl. lia. }
  fold (rank p (length ordered)). destruct (lookup_lt_is_Some_2 _ _ R1) as [x Hx]. rewrite Hx.
  destruct (sorted_position ordered _ x Hs Hx) as [P1 P2].
  split; [rewrite <-Hperm; by eapply list_elem_of_lookup_2|]. rewrite <-(at_most_perm x _ _ Hperm). split.
  - eapply Qle_trans; [exact R2|]. rewrite <-Zle_Qle. lia.
  - intros y _ Hy. rewrite <-(at_most_perm y _ _ Hperm) in Hy. destruct (decide (x <= y)%Q) as [|Hn]; [done|].
    specialize (P2 y Hn). exfalso. apply (Qlt_not_le _ _ R3). eapply Qle_trans; [exact Hy|]. rewrite <-Zle_Qle. lia.
Qed.

(** *** The runner's books *)
Definition run (events : list event) : t := foldl (λ s e, happens e s) init events.

Definition total (m : gmap string Z) : Z := map_fold (λ _ n acc, n + acc) 0 m.

Lemma total_bump kind m : total (bump kind m) = total m + 1.
Proof.
  assert (∀ m : gmap string Z, ∀ v, m !! kind = None → total (<[kind := v]> m) = v + total m) as H.
  { intros m' v Hm. unfold total. rewrite map_fold_insert_L; [done|intros; lia|done]. }
  unfold bump. destruct (m !! kind) as [v|] eqn:E; simpl.
  - rewrite <-(insert_delete_id m kind v E) at 2. rewrite <-(insert_delete_eq m kind (v + 1)).
    rewrite !H by apply lookup_delete_eq. lia.
  - rewrite H by done. lia.
Qed.

(** No request was cancelled while measuring. *)
Definition uncancelled (e : event) : Prop :=
  match e with Finishes (Err exc) _ => failure_kind exc ≠ None | _ => True end.

Lemma books_balanced events s : Forall uncancelled events →
  successes s + total (failures s) = Z.of_nat (length (latencies s)) →
  let s' := foldl (λ s e, happens e s) s events in
  successes s' + total (failures s') = Z.of_nat (length (latencies s')).
Proof.
  intros H. revert s. induction H as [|e events He _ IH]; intros s Hs; [done|]. simpl. apply IH. clear IH.
  destruct e as [|[[]|exc] seconds|on]; simpl; try done; unfold one; destruct (collect s); simpl; try done;
    rewrite ?length_app; simpl; rewrite ?total_bump; try lia.
  simpl in He. destruct (failure_kind exc) as [kind|]; [|done]. simpl. rewrite length_app, total_bump. simpl. lia.
Qed.

(** In a run whose requests are not cancelled, every request that ends while the
    measurement is on is counted exactly once, as a success or under one kind of failure,
    and contributes exactly one latency; the result reports exactly these. *)
Theorem every_measured_request_counted events config commit dirty elapsed r : Forall uncancelled events →
  result_of config commit dirty elapsed (run events) = Ok r →
  BenchmarkResult.request_count r = Z.of_nat (length (latencies (run events))) ∧
  (BenchmarkResult.valid r = true → BenchmarkResult.request_count r = BenchmarkResult.successes r).
Proof.
  intros He. unfold result_of. destruct (latency_summary _) as [summary|e]; [|done]. intros E. injection E as <-. cbn.
  pose proof (books_balanced events init He eq_refl) as Hb. fold (run events) in Hb. unfold BenchmarkResult.request_count. cbn.
  split; [exact Hb|]. intros [Hf _]%andb_prop. apply bool_decide_eq_true in Hf. cbn in Hf. rewrite Hf, map_fold_empty. lia.
Qed.

(** Retrying: the first success within the attempts, or the last failure. *)
Lemma retry_transport_first_success {W A} (operation : M W A) sleep attempts delay w a w' :
  1 ≤ attempts → (0 <= delay)%Q → operation w = (Ok a, w') → retry_transport operation sleep attempts delay w = (Ok a, w').
Proof.
  intros Ha Hd E. unfold retry_transport. rewrite (proj2 (Z.ltb_ge _ _)) by lia. rewrite (proj2 (Qle_bool_iff _ _) Hd). cbn [negb].
  destruct (Z.to_nat attempts) eqn:En; [lia|]. cbn [attempts_from]. unfold catchM. by rewrite E.
Qed.

(** An aggregate is of comparable formal runs of one commit, and does not hide invalid
    ones. *)
Lemma aggregate_honest runs agg : aggregate_runs runs = Ok agg →
  (5 ≤ length runs)%nat ∧ (∀ r, r ∈ runs → BenchmarkConfig.profile (BenchmarkResult.config r) = "formal" ∧
     BenchmarkResult.git_commit r = commit agg) ∧
  valid_runs agg = count_true BenchmarkResult.valid runs ∧
  (all_valid agg = true → ∀ r, r ∈ runs → BenchmarkResult.valid r = true).
Proof.
  unfold aggregate_runs. destruct (length runs <? 5)%nat eqn:E5; [done|]. apply Nat.ltb_ge in E5.
  destruct (existsb _ runs) eqn:Ep; [done|]. destruct runs as [|first rest]; [done|].
  destruct (existsb _ rest) eqn:Ec; [done|].
  destruct (existsb (λ r, negb (bool_decide (BenchmarkResult.git_commit r = _))) rest) eqn:Eg; [done|].
  intros E. injection E as <-. cbn [commit valid_runs all_valid].
  assert (∀ {B} (f : B → bool) l x, existsb f l = false → x ∈ l → f x = false) as Hex.
  { intros B f l x H Hin. destruct (f x) eqn:E; [|done]. assert (existsb f l = true); [|congruence].
    apply existsb_exists. exists x. split; [by apply list_elem_of_In|done]. }
  split; [done|]. split.
  - intros r Hr. split; [by apply (Hex _ _ _ _ Ep), negb_false_iff, bool_decide_eq_true in Hr|].
    apply elem_of_cons in Hr as [->|Hr]; [done|]. by apply (Hex _ _ _ _ Eg), negb_false_iff, bool_decide_eq_true in Hr.
  - split; [done|]. intros Hall%Z.eqb_eq r Hr. destruct (BenchmarkResult.valid r) eqn:Ev; [done|].
    unfold count_true in Hall. apply Nat2Z.inj in Hall.
    pose proof (length_filter_lt (λ x, BenchmarkResult.valid x = true) (first :: rest) r Hr) as Hlt.
    assert (BenchmarkResult.valid r ≠ true) as Hn by congruence. specialize (Hlt Hn). rewrite Hall in Hlt. simpl in Hlt. lia.
Qed.
End BenchmarkSpec.

(** ** Three requests, one of them too early to count *)
Module BenchmarkSample.
Import BenchmarkRunner BenchmarkSpec.

Definition events : list event :=
  [Takes; Finishes (Ok true) 1; Collect true; Finishes (Ok true) (1 # 2); Finishes (raise TimeoutError "") 2; Collect false].

Example books : let s := run events in
  successes s = 1 ∧ failures s = {["timeout" := 1]} ∧ latencies s = [1 # 2; 2]%Q ∧
  nearest_rank_percentile (latencies s) (95 # 100) = Ok 2%Q.
Proof. vm_compute. done. Qed.
End BenchmarkSample.
