(* ===== verification/Telemetry.v ===== *)
(** * Instrumented calls: [observability/tracing.py] and the callers of the metrics

    The tracing runtime with its no-op fallback, the instrumented exchanges of both peer
    clients (endpoint rewriting, span, trace headers, outcome counter), and the reports of
    the replication service and of the durable store.  The OpenTelemetry SDK is a
    parameter: its constructors may raise, the calls made on a running tracer change only
    the SDK's own state, and a carrier is filled from that state. *)

From Stdlib Require Import Ascii QArith.
From S2P Require Import Prelude Causal Json Crdt Storage Resilience Membership Ring Proto Protocol Cluster CrdtCodec Outbox.
From S2P Require Import Repair AntiEntropy CrdtService Persistence Repository DurableStore Recovery PeerClient Node Rpc ClusterClient.
From S2P Require Import Observability Observed Config Chaos.

Local Open Scope Z_scope.

(** ** [observability/tracing.py] *)

(** [str.rstrip(c)] *)
Fixpoint rstrip (c : ascii) (s : string) : string :=
  match s with
  | EmptyString => EmptyString
  | String a s =>
      let rest := rstrip c s in
      if nonempty rest then String a rest else if bool_decide (a = c) then EmptyString else String a EmptyString
  end.

Definition _trace_export_endpoint (base_endpoint : string) : string :=
  let endpoint := rstrip "/" base_endpoint in
  if endswith "/v1/traces" endpoint then endpoint else (endpoint +:+ "/v1/traces")%string.

(** Constructors of the SDK, for its providers [P], tracers [T] and exporters [X]. *)
Record Sdk (P T X : Type) := {
  (** [trace.NoOpTracerProvider().get_tracer(name)] *)
  noop_tracer : string → T;
  (** [from opentelemetry.exporter... import OTLPSpanExporter] *)
  import_exporter : result unit;
  (** [TracerProvider(resource=Resource.create(...), sampler=ParentBased(TraceIdRatioBased(...)))] *)
  make_provider : list (string * string) → float → result P;
  (** [OTLPSpanExporter(endpoint=..., timeout=...)] *)
  make_exporter : string → float → result X;
  (** [provider.add_span_processor(BatchSpanProcessor(exporter))] *)
  add_processor : X → P → result P;
  get_tracer : string → P → result T;
}.
Arguments noop_tracer {_ _ _} _ _.
Arguments import_exporter {_ _ _} _.
Arguments make_provider {_ _ _} _ _ _.
Arguments make_exporter {_ _ _} _ _ _.
Arguments add_processor {_ _ _} _ _ _.
Arguments get_tracer {_ _ _} _ _ _.

Module TracingRuntime.
Record t (P T : Type) := mk { tracer : T; enabled : bool; provider : option P }.
Arguments mk {_ _} _ _ _.
Arguments tracer {_ _} _.
Arguments enabled {_ _} _.
Arguments provider {_ _} _.

Section runtime.
Context {P T X : Type} (sdk : Sdk P T X).

(** The [try] of [create]. *)
Definition configure (settings : Config.Settings.t) (node_id : string) : result (t P T) :=
  _ ← import_exporter sdk;
  provider ← make_provider sdk
    [("service.name", Config.Settings.otel_service_name settings); ("service.instance.id", node_id); ("service.version", "0.6.0")]
    (Config.Settings.otel_trace_sample_ratio settings);
  exporter ← make_exporter sdk (_trace_export_endpoint (Config.Settings.otel_exporter_otlp_endpoint settings))
    (Config.Settings.otel_export_timeout_seconds settings);
  provider ← add_processor sdk exporter provider;
  tracer ← get_tracer sdk (Config.Settings.otel_service_name settings) provider;
  Ok (mk tracer true (Some provider)).

Definition create (settings : Config.Settings.t) (node_id : string) : result (t P T) :=
  let disabled := mk (noop_tracer sdk (Config.Settings.otel_service_name settings)) false None in
  if negb (Config.Settings.tracing_enabled settings) then Ok disabled
  else
    match configure settings node_id with
    | Ok runtime => Ok runtime
    | Err e => if isinstance e [Exception] then Ok disabled else Err e
    end.

(** [asyncio.wait_for(asyncio.to_thread(provider.shutdown), timeout)]: what it does to
    the world, and how it ends, is the SDK's. *)
Context {W : Type} (flush : P → float → M W unit).

(** [2.0 if timeout_seconds is None else max(0.001, float(timeout_seconds))]; [max]
    keeps its first argument unless the second is greater. *)
Definition flush_timeout (timeout_seconds : option float) : float :=
  match timeout_seconds with
  | None => Fin 2
  | Some x => if flt (Fin (1 # 1000)%Q) x then x else Fin (1 # 1000)%Q
  end.

Definition shutdown (timeout_seconds : option float) : M (t P T * W) unit := λ s,
  let '(self, w) := s in
  let self' := mk (tracer self) (enabled self) None in
  match provider self with
  | None => (Ok tt, (self', w))
  | Some provider =>
      match flush provider (flush_timeout timeout_seconds) w with
      | (Ok _, w) => (Ok tt, (self', w))
      | (Err e, w) => if isinstance e [TimeoutError; Exception] then (Ok tt, (self', w)) else (Err e, (self', w))
      end
  end.
End runtime.
End TracingRuntime.

(** ** The instrumented exchanges *)

(** Calls on a running tracer, over the SDK's state [O]. *)
Record Otel (O : Type) := {
  (** entering [tracer.start_as_current_span(name, attributes=...)] *)
  span_start : string → list (string * string) → O → O;
  (** leaving it, with what the block raised *)
  span_end : option exn → O → O;
  (** [TraceContextTextMapPropagator().inject(carrier)] *)
  propagate : O → gmap string string → gmap string string;
}.
Arguments span_start {_} _ _ _ _.
Arguments span_end {_} _ _ _.
Arguments propagate {_} _ _ _.

Module Instrument.
(** [self.metrics], [self.tracing] and the SDK's state. *)
Record t (P T O : Type) := mk { metrics : option Metrics.t; tracing : option (TracingRuntime.t P T); sdk_state : O }.
Arguments mk {_ _ _} _ _ _.
Arguments metrics {_ _ _} _.
Arguments tracing {_ _ _} _.
Arguments sdk_state {_ _ _} _.

Section instrument.
Context {P T O S : Type} (otel : Otel O).
Abbreviation self := (t P T O).
Abbreviation st := (self * S)%type.

(** [TracingRuntime.inject] *)
Definition inject (runtime : TracingRuntime.t P T) (o : O) (carrier : gmap string string) : gmap string string :=
  if negb (TracingRuntime.enabled runtime) then carrier else propagate otel o carrier.

(** [tracing is not None and tracing.enabled] *)
Definition tracing_on (i : self) : bool :=
  match tracing i with Some runtime => TracingRuntime.enabled runtime | None => false end.

Definition fast_path (env : gmap string string) (i : self) : bool :=
  bool_decide (¬ is_Some (metrics i)) && negb (tracing_on i) && negb (peer_routing_enabled env).

(** The message with the trace headers of the current span. *)
Definition with_trace (i : self) (message : Message.t) : Message.t :=
  match tracing i with
  | Some runtime =>
      if TracingRuntime.enabled runtime then
        let carrier := inject runtime (sdk_state i) ∅ in
        Message.mk (Message.msg_type message) (Message.sender_id message) (Message.correlation_id message)
          (Message.timestamp_ms message) (Message.ttl message) (Message.payload message)
          (default "" (carrier !! "traceparent")) (default "" (carrier !! "tracestate"))
      else message
  | None => message
  end.

(** [status] when the [finally] clause runs *)
Definition status_of {A} (r : result A) : string :=
  match r with Ok _ => "success" | Err e => if isinstance e [TimeoutError] then "timeout" else "error" end.

Definition set_sdk (f : O → O) (i : self) : self := mk (metrics i) (tracing i) (f (sdk_state i)).

(** [with span_context: body] *)
Definition in_span {A} (attributes : list (string * string)) (body : M st A) : M st A := λ s,
  if tracing_on s.1 then
    match body (set_sdk (span_start otel "distsys.peer_rpc" attributes) s.1, s.2) with
    | (r, (i, x)) => (r, (set_sdk (span_end otel (match r with Ok _ => None | Err e => Some e end)) i, x))
    end
  else body s.

(** [if metrics is not None: report] *)
Definition report (m : M Metrics.t unit) : M self unit := λ i,
  match metrics i with
  | None => (Ok tt, i)
  | Some x => match m x with (r, x) => (r, mk (Some x) (tracing i) (sdk_state i)) end
  end.

(** [try: response = ...; status = "success" except TimeoutError: ... finally: finish(status)] *)
Definition timed {A} (finish : string → M Metrics.t unit) (body : M S A) : M st A := λ s,
  match body s.2 with
  | (r, x) =>
      match report (finish (status_of r)) s.1 with
      | (Ok _, i) => (r, (i, x))
      | (Err e, i) => (Err e, (i, x))
      end
  end.

(** The exchange once the endpoint is known. *)
Definition measured (attributes : list (string * string)) (finish : string → M Metrics.t unit)
    (send : Message.t → M S Message.t) (message : Message.t) : M st Message.t :=
  in_span attributes (λ s, timed finish (send (with_trace s.1 message)) s).

Definition plain {A} (m : M S A) : M st A := λ s, match m s.2 with (r, x) => (r, (s.1, x)) end.
End instrument.

(** [CrdtPeerClient._exchange] *)
Section crdt.
Context {P T O S : Type} (otel : Otel O) (env : gmap string string).
Context (net : PeerClient.Network S) (local_node_id : string) (max_frame_size : Z) `{!Wire pb.Envelope}.

Definition crdt_operation (msg_type : MessageType) : string :=
  match msg_type with
  | CRDT_REPLICATE => "replicate" | CRDT_FETCH => "fetch" | CRDT_DIGEST => "digest"
  | CRDT_READ_REQUEST => "read" | CRDT_MUTATE_REQUEST => "write" | _ => "request"
  end.

Definition _exchange (peer : ClusterMember.t) (message : Message.t) (timeout_seconds : Z) : M (t P T O * S) Message.t := λ s,
  if fast_path env s.1 then plain (CrdtPeerClient._exchange_raw net max_frame_size peer message timeout_seconds) s
  else
    let operation := crdt_operation (Message.msg_type message) in
    (endpoint ← liftM (resolve_peer_endpoint env (Some (ClusterMember.node_id peer)) (ClusterMember.host peer)
       (ClusterMember.port peer));
     peer ← liftM (ClusterMember.make (ClusterMember.node_id peer) endpoint.1 endpoint.2 (ClusterMember.status peer)
       (ClusterMember.incarnation peer));
     measured otel [("distsys.node.id", local_node_id); ("distsys.peer.id", ClusterMember.node_id peer);
                    ("distsys.operation", operation)]
       (Metrics.peer_rpc operation)
       (λ message, CrdtPeerClient._exchange_raw net max_frame_size peer message timeout_seconds) message) s.
End crdt.

(** [PeerClient._exchange_endpoint] *)
Section cluster.
Context {P T O S : Type} (otel : Otel O) (env : gmap string string).
Context (net : Endpoints S) (local_node_id : string) (max_frame_size : Z) (secure : bool) `{!Wire pb.Envelope}.

Definition cluster_operation (msg_type : MessageType) : string :=
  match msg_type with
  | JOIN_REQUEST => "request" | PING | PING_REQ => "ping" | GOSSIP => "gossip" | FORWARDED_REQUEST => "forward"
  | _ => "request"
  end.

(** The [finally] clause. *)
Definition finish_cluster (operation status : string) : M Metrics.t unit :=
  _ ← Metrics.peer_rpc operation status;
  if bool_decide (operation = "gossip") && negb (bool_decide (status = "success")) then Metrics.gossip_failure else mret tt.

Definition _exchange_endpoint (host : string) (port : Z) (message : Message.t) (timeout_seconds : Z)
    (expected_node_id : option string) : M (t P T O * S) Message.t := λ s,
  let raw host port message :=
    ClusterPeerClient._exchange_endpoint_raw net max_frame_size secure host port message timeout_seconds expected_node_id in
  if fast_path env s.1 then plain (raw host port message) s
  else
    let operation := cluster_operation (Message.msg_type message) in
    (endpoint ← liftM (resolve_peer_endpoint env expected_node_id host port);
     measured otel [("distsys.node.id", local_node_id);
                    ("distsys.peer.id", match expected_node_id with
                                        | Some name => if nonempty name then name else "unknown"
                                        | None => "unknown"
                                        end);
                    ("distsys.operation", operation)]
       (finish_cluster operation) (raw endpoint.1 endpoint.2) message) s.
End cluster.
End Instrument.

(** ** The reports of the services *)

(** [if self.metrics is not None: self.metrics...] *)
Definition record_opt (r : MetricsSpec.report) : M (option Metrics.t) unit := λ m,
  match m with
  | None => (Ok tt, None)
  | Some x => match MetricsSpec.record r x with (r, x) => (r, Some x) end
  end.

(** [try: result = m except Exception: failed; raise], then [done] and [return result]. *)
Definition reporting {S A} (m : M S A) (done : A → S → MetricsSpec.report) (failed : option MetricsSpec.report)
    : M (option Metrics.t * S) A := λ s,
  match m s.2 with
  | (Ok a, x) =>
      match record_opt (done a x) s.1 with (Ok _, n) => (Ok a, (n, x)) | (Err e, n) => (Err e, (n, x)) end
  | (Err e, x) =>
      match failed with
      | Some r =>
          if isinstance e [Exception]
          then match record_opt r s.1 with (Ok _, n) => (Err e, (n, x)) | (Err e', n) => (Err e', (n, x)) end
          else (Err e, (s.1, x))
      | None => (Err e, (s.1, x))
      end
  end.

(** [ReplicationOutbox.pending_count] *)
Definition pending_count (self : ReplicationOutbox.t) : Z := Z.of_nat (size (ReplicationOutbox._pending self)).

Module ReplicationService.
Import (hints) CrdtService.CrdtService.
Section service.
Context {St : Type} `{ClockedStore St}.
Variable _hash : string → Z.
Variable peer_client : CrdtService.CrdtPeerClient (CrdtService.t St).
Variable anti_entropy_peer : AntiEntropyPeer (CrdtService.t St).
Variable local_node_id : string.
Abbreviation svc := (CrdtService.t St).

Definition depth {A} (_ : A) (s : svc) : MetricsSpec.report := MetricsSpec.QueueDepth (pending_count (CrdtService.outbox s)).

Definition reserve_write (k : string) (replica_ids : list string) : M (option Metrics.t * svc) OutboxReservation :=
  reporting (CrdtService.reserve_write local_node_id k replica_ids) depth None.

Definition cancel_write (reservation : OutboxReservation) : M (option Metrics.t * svc) unit :=
  reporting (CrdtService.cancel_write reservation) depth None.

Definition publish_write (reservation : OutboxReservation) (entry : StoredCrdtEntry.t) : M (option Metrics.t * svc) unit :=
  reporting (CrdtService.publish_write reservation entry) depth None.

Definition ensure_causal (k : string) (required : VersionVector.t) (deadline : Deadline.t)
    : M (option Metrics.t * svc) CausalRepairResult :=
  reporting (CrdtService.ensure_causal _hash peer_client local_node_id k required deadline)
    (λ result _, MetricsSpec.CausalRepair (if bool_decide (contacted_nodes result = []) then "skipped" else "success"))
    (Some (MetricsSpec.CausalRepair "failure")).

Definition reconcile_peer (peer : ClusterMember.t) (keys : option (list string)) : M (option Metrics.t * svc) ReconcileStats :=
  reporting (AntiEntropyService.reconcile_peer anti_entropy_peer (CrdtService.replicas_of _hash) local_node_id peer keys)
    (λ _ _, MetricsSpec.AntiEntropyRepair "success") (Some (MetricsSpec.AntiEntropyRepair "failure")).
End service.
End ReplicationService.

(** [DurableCrdtStore.commit_local], with its report. *)
Module MeasuredStore.
Section store.
Context {R : Type} `{StateRepository R}.
Abbreviation st := (option Metrics.t * DurableCrdtStore.t (R:=R))%type.

Definition unmeasured {A} (m : M (DurableCrdtStore.t (R:=R)) A) : M st A := λ s, match m s.2 with (r, x) => (r, (s.1, x)) end.

Definition commit_local (entry : StoredCrdtEntry.t) (frontier : VersionVector.t) (deadline : option Deadline.t)
    : M st StoredCrdtEntry.t :=
  causal_state ← unmeasured (reads (DurableCrdtStore.causal_state frontier));
  _ ← reporting (DurableCrdtStore.on_repository (commit_mutation entry causal_state deadline))
        (λ _ _, MetricsSpec.PersistenceDone "write" false) (Some (MetricsSpec.PersistenceDone "write" true));
  unmeasured (DurableCrdtStore.replace entry (Some (StoredCrdtEntry.crdt_type entry))).
End store.
End MeasuredStore.

(** ** What instrumentation may not change *)
Module TelemetrySpec.
Import Metrics MetricsSpec ObservedSpec ChaosSpec Instrument.
Import (hints) CrdtService.CrdtService.

Lemma rstrip_app c x y : rstrip c y = y → y ≠ "" → rstrip c (x +:+ y)%string = (x +:+ y)%string.
Proof.
  intros Hy Hn. induction x as [|a x IH]; simpl; [done|]. fold (String.app x y). rewrite IH.
  unfold nonempty. by rewrite bool_decide_eq_false_2 by (by destruct x).
Qed.

Lemma endswith_app x suffix : endswith suffix (x +:+ suffix)%string = true.
Proof.
  unfold endswith. apply bool_decide_eq_true. rewrite length_str_app.
  replace (String.length x + String.length suffix - String.length suffix)%nat with (String.length x) by lia. apply str_drop_exact.
Qed.

Lemma str_take_drop n s : (str_take n s +:+ str_drop n s)%string = s.
Proof. revert s. induction n as [|n IH]; intros [|a s]; simpl; [done..|]. by rewrite app_cons, IH. Qed.

(** The export endpoint is the traces path of the base, and naming it explicitly changes
    nothing. *)
Lemma trace_endpoint_canonical base : let endpoint := _trace_export_endpoint base in
  endswith "/v1/traces" endpoint = true ∧ _trace_export_endpoint endpoint = endpoint.
Proof.
  cbv zeta. assert (∀ x, _trace_export_endpoint (x +:+ "/v1/traces")%string = (x +:+ "/v1/traces")%string) as H.
  { intros x. unfold _trace_export_endpoint. rewrite rstrip_app by done. by rewrite endswith_app. }
  unfold _trace_export_endpoint at 1 3 4. destruct (endswith "/v1/traces" (rstrip "/" base)) eqn:E; [|by rewrite endswith_app].
  split; [done|]. unfold endswith in E. apply bool_decide_eq_true in E. rewrite <-(str_take_drop
    (String.length (rstrip "/" base) - String.length "/v1/traces") (rstrip "/" base)). rewrite E. apply H.
Qed.

Section runtime.
Context {P T X W : Type} (sdk : Sdk P T X) (flush : P → float → M W unit).

(** However the SDK fails, the node gets a runtime; it is enabled only when it was asked
    for and has a provider to flush. *)
Lemma create_falls_back settings node_id :
  (∀ e, TracingRuntime.configure sdk settings node_id = Err e → isinstance e [Exception] = true) →
  ∃ runtime, TracingRuntime.create sdk settings node_id = Ok runtime ∧
    (TracingRuntime.enabled runtime = true →
       Config.Settings.tracing_enabled settings = true ∧ is_Some (TracingRuntime.provider runtime)).
Proof.
  intros Hsdk. unfold TracingRuntime.create. destruct (Config.Settings.tracing_enabled settings) eqn:Hon; simpl; [|by eexists].
  destruct (TracingRuntime.configure sdk settings node_id) as [runtime|e] eqn:E; [|rewrite Hsdk by done; by eexists].
  exists runtime. split; [done|]. intros _. split; [done|]. unfold TracingRuntime.configure in E.
  repeat (apply bind_Ok_inv in E as (? & _ & E)). injection E as <-. by eexists.
Qed.

(** A shutdown fails only when it is cancelled, and a second one does nothing. *)
Lemma shutdown_quiet timeout (self : TracingRuntime.t P T) w r self' w' : TracingRuntime.shutdown flush timeout (self, w) = (r, (self', w')) →
  TracingRuntime.provider self' = None ∧
  match r with Ok _ => True | Err e => isinstance e [Exception] = false end ∧
  (∀ timeout', TracingRuntime.shutdown flush timeout' (self', w') = (Ok tt, (self', w'))).
Proof.
  unfold TracingRuntime.shutdown. destruct (TracingRuntime.provider self) as [p|] eqn:Hp.
  - destruct (flush p _ w) as [[[]|e] w1]; [by intros [= <- <- <-]|].
    destruct (isinstance e [TimeoutError; Exception]) eqn:He; intros [= <- <- <-]; [done|].
    split_and!; [done| |done]. unfold isinstance in *. simpl in *. by apply orb_false_iff in He as [_ ?].
  - by intros [= <- <- <-].
Qed.
End runtime.

(** *** Routing *)
Lemma routing_disabled env name host port : peer_routing_enabled env = false →
  resolve_peer_endpoint env name host port = Ok (host, port).
Proof.
  unfold peer_routing_enabled, resolve_peer_endpoint. intros H. destruct name as [name|]; [|done].
  destruct (bool_decide (env !! "RUN_CHAOS_TESTS" = Some "1")); [|done]. simpl in *. destruct (negb (nonempty name)); [done|].
  unfold _mapping. rewrite H. simpl. by rewrite lookup_empty.
Qed.

(** What a caller without an expected identity reaches is never rewritten. *)
Lemma anonymous_not_routed env host port : resolve_peer_endpoint env None host port = Ok (host, port).
Proof. done. Qed.

Lemma mapping_valid env m name host port : _mapping env = Ok m → m !! name = Some (host, port) → host ≠ "" ∧ 1 ≤ port ≤ 65535.
Proof.
  unfold _mapping. destruct (negb _); [by intros [= <-]; rewrite lookup_empty|]. intros E. apply bind_Ok_inv in E as (l & Hl & E).
  injection E as <-. assert (Forall (λ e : string * (string * Z), e.2.1 ≠ "" ∧ 1 ≤ e.2.2 ≤ 65535) l) as Hf.
  { revert l Hl. induction (split_commas _ _) as [|x xs IH]; intros l E; simpl in E; [by injection E as <-|].
    apply bind_Ok_inv in E as ([n [h p]] & Hx & E). apply bind_Ok_inv in E as (ys & Hys & E). injection E as <-.
    constructor; [|by apply IH]. apply proxy_entry_valid in Hx as (_ & ? & ?). done. }
  clear Hl. assert (∀ n h p, (∅ : gmap string (string * Z)) !! n = Some (h, p) → h ≠ "" ∧ 1 ≤ p ≤ 65535) as H0
    by (intros n h p; by rewrite lookup_empty).
  revert H0. generalize (∅ : gmap string (string * Z)). induction Hf as [|[n [h p]] l Hx _ IH]; intros m H0; simpl; [apply H0|].
  apply IH. intros n' h' p'. destruct (decide (n = n')) as [->|]; simplify_map_eq; [|apply H0]. intros E. by simplify_eq.
Qed.

Lemma routed_valid env peer host port : ClusterMember.valid peer →
  resolve_peer_endpoint env (Some (ClusterMember.node_id peer)) (ClusterMember.host peer) (ClusterMember.port peer) = Ok (host, port) →
  let peer' := ClusterMember.mk (ClusterMember.node_id peer) host port (ClusterMember.status peer) (ClusterMember.incarnation peer) in
  ClusterMember.make (ClusterMember.node_id peer) host port (ClusterMember.status peer) (ClusterMember.incarnation peer) = Ok peer'.
Proof.
  intros (Hn & Hh & Hp & Hi) E. cbv zeta. apply ClusterMember.make_iff. split; [done|].
  unfold ClusterMember.valid. simpl. enough (host ≠ "" ∧ 1 ≤ port ≤ 65535) by tauto.
  unfold resolve_peer_endpoint in E. destruct (_ || _); [by simplify_eq|]. apply bind_Ok_inv in E as (m & Hm & E).
  injection E as E. destruct (m !! _) as [[h p]|] eqn:Hl; simpl in E; simplify_eq; [by eapply mapping_valid|done].
Qed.

(** *** Accounting *)

(** What one exchange adds to each series. *)
Definition rpc_counted (operation status : string) (k : series) : Z :=
  at_series "distsys_peer_rpc_total" [operation; status] 1 k + at_series "distsys_peer_rpc_duration_seconds" [operation] 1 k.

Definition known (kind l : string) : Prop := normalize kind l = Ok l.

(** With metrics on, [m] adds [d]; with metrics off it does nothing. *)
Definition accounts (m : M Metrics.t unit) (d : series → Z) : Prop :=
  adds m d ∧ ∀ x, Metrics.enabled x = false → m x = (Ok tt, x).

Lemma accounts_enabled m d : adds m d → accounts (when_enabled m) d.
Proof. intros H. split; [by apply adds_enabled|]. intros x Hx. unfold when_enabled, mbind, M_bind, gets. by rewrite Hx. Qed.

Lemma accounts_bind m f d d' : accounts m d → accounts (f tt) d' → accounts (m ≫= f) (λ k, d k + d' k).
Proof.
  intros [H1 O1] [H2 O2]. split; [by apply adds_bind|]. intros x Hx. unfold mbind, M_bind. rewrite O1 by done. by apply O2.
Qed.

Lemma accounts_weaken m d d' : accounts m d → (∀ k, d k = d' k) → accounts m d'.
Proof.
  intros [H O] E. split; [|done]. intros x Hx. destruct (H x Hx) as (x' & Hm & He & Hv). exists x'. split_and!; [done..|].
  intros k. by rewrite Hv, E.
Qed.

Lemma peer_rpc_accounts op st : known "operation" op → known "status" st → accounts (peer_rpc op st) (rpc_counted op st).
Proof.
  intros Hop Hst. apply accounts_enabled. eapply adds_label; [exact Hop|]. eapply adds_label; [exact Hst|].
  apply adds_bind; apply adds_inc.
Qed.

Definition cluster_counted (operation status : string) (k : series) : Z :=
  rpc_counted operation status k +
  at_series "distsys_gossip_failures_total" [] (if decide (operation = "gossip" ∧ status ≠ "success") then 1 else 0) k.

Lemma finish_cluster_accounts op st : known "operation" op → known "status" st →
  accounts (finish_cluster op st) (cluster_counted op st).
Proof.
  intros Hop Hst. unfold finish_cluster. apply accounts_bind; [by apply peer_rpc_accounts|].
  case_decide as H.
  - destruct H as [-> H]. rewrite (bool_decide_eq_true_2 ("gossip" = "gossip")) by done. rewrite bool_decide_eq_false_2 by done.
    apply accounts_enabled, adds_inc.
  - assert (bool_decide (op = "gossip") && negb (bool_decide (st = "success")) = false) as ->.
    { apply andb_false_iff. destruct (decide (op = "gossip")) as [->|]; [right|left; by apply bool_decide_eq_false_2].
      rewrite bool_decide_eq_true_2; [done|]. apply dec_stable. intros ?. by apply H. }
    eapply accounts_weaken; [split; [apply adds_ret|done]|]. intros k. unfold at_series. by case_decide.
Qed.

Lemma status_known {A} (r : result A) : known "status" (status_of r).
Proof. unfold known, status_of. repeat case_match; by vm_compute. Qed.

Lemma operation_known mt : known "operation" (crdt_operation mt) ∧ known "operation" (cluster_operation mt).
Proof. unfold known. by destruct mt; vm_compute. Qed.

(** How an exchange leaves the metrics the client reports to. *)
Definition reported (d : series → Z) (m m' : option Metrics.t) : Prop :=
  match m, m' with
  | None, None => True
  | Some x, Some x' => if Metrics.enabled x then ∀ k, value x' k = value x k + d k else x' = x
  | _, _ => False
  end.

Section exchange.
Context {P T O S : Type} (otel : Otel O).
Abbreviation self := (Instrument.t P T O).

Lemma report_accounts m d (i : self) : accounts m d →
  ∃ x, report m i = (Ok tt, mk x (tracing i) (sdk_state i)) ∧ reported d (metrics i) x.
Proof.
  intros [Hm Hoff]. unfold report. destruct i as [[x|] tr o]; simpl; [|by exists None].
  destruct (Metrics.enabled x) eqn:Hx.
  - destruct (Hm x Hx) as (x' & E & _ & Hv). rewrite E. exists (Some x'). split; [done|]. simpl. by rewrite ?Hx.
  - rewrite Hoff by done. exists (Some x). split; [done|]. simpl. by rewrite ?Hx.
Qed.

(** The instrument inside the span of an exchange. *)
Definition entered (attributes : list (string * string)) (i : self) : self :=
  if tracing_on i then set_sdk (span_start otel "distsys.peer_rpc" attributes) i else i.

Lemma with_trace_off (i : self) message : tracing_on i = false → with_trace otel i message = message.
Proof. unfold tracing_on, with_trace. destruct (tracing i) as [r|]; [by intros ->|done]. Qed.

(** Only the trace headers of a message change. *)
Lemma with_trace_headers (i : self) message : let m := with_trace otel i message in
  Message.msg_type m = Message.msg_type message ∧ Message.sender_id m = Message.sender_id message ∧
  Message.correlation_id m = Message.correlation_id message ∧ Message.ttl m = Message.ttl message ∧
  Message.payload m = Message.payload message ∧ Message.timestamp_ms m = Message.timestamp_ms message.
Proof. unfold with_trace. by repeat case_match. Qed.

Lemma measured_transparent attributes finish d send message (i : self) (x : S) r x' :
  send (with_trace otel (entered attributes i) message) x = (r, x') → accounts (finish (status_of r)) d →
  ∃ i', measured otel attributes finish send message (i, x) = (r, (i', x')) ∧ tracing i' = tracing i ∧
    reported d (metrics i) (metrics i').
Proof.
  intros E Hd. unfold measured, in_span, timed, entered in *. cbn [fst snd]. destruct (tracing_on i) eqn:Hon; cbn [fst snd].
  - rewrite E. destruct (report_accounts _ _ (set_sdk (span_start otel "distsys.peer_rpc" attributes) i) Hd) as (m' & -> & Hm).
    eexists. split; [reflexivity|]. by destruct i.
  - rewrite E. destruct (report_accounts _ _ i Hd) as (m' & -> & Hm). eexists. split; [reflexivity|]. by destruct i.
Qed.

(** The attributes of a span. *)
Definition rpc_attributes (local peer operation : string) : list (string * string) :=
  [("distsys.node.id", local); ("distsys.peer.id", peer); ("distsys.operation", operation)].

Lemma fast_path_off env (i : self) : fast_path env i = true →
  metrics i = None ∧ tracing_on i = false ∧ peer_routing_enabled env = false.
Proof.
  unfold fast_path. intros [[Hm%bool_decide_eq_true Ht%negb_true_iff]%andb_true_iff Hr%negb_true_iff]%andb_true_iff.
  split_and!; [|done..]. by apply eq_None_not_Some.
Qed.

(** C23: an exchange of the CRDT client with metrics and tracing on is the bare exchange:
    the same connection to the endpoint the routing names, the same message but for its
    trace headers, the same reply or error, and the same effect on everything else; the
    metrics count it exactly once, under its operation and its outcome, and nothing when
    they are off. *)
Theorem crdt_exchange_transparent env net local_node_id max_frame_size `{!Wire pb.Envelope}
    peer message timeout_seconds host port (i : self) (x : S) :
  ClusterMember.valid peer →
  resolve_peer_endpoint env (Some (ClusterMember.node_id peer)) (ClusterMember.host peer) (ClusterMember.port peer) = Ok (host, port) →
  let operation := crdt_operation (Message.msg_type message) in
  let routed := ClusterMember.mk (ClusterMember.node_id peer) host port (ClusterMember.status peer) (ClusterMember.incarnation peer) in
  let sent := with_trace otel (entered (rpc_attributes local_node_id (ClusterMember.node_id peer) operation) i) message in
  let (r, x') := CrdtPeerClient._exchange_raw net max_frame_size routed sent timeout_seconds x in
  ∃ i', _exchange otel env net local_node_id max_frame_size peer message timeout_seconds (i, x) = (r, (i', x')) ∧
    tracing i' = tracing i ∧ reported (rpc_counted operation (status_of r)) (metrics i) (metrics i').
Proof.
  intros Hv Hr. cbv zeta. destruct (CrdtPeerClient._exchange_raw _ _ _ _ _ _) as [r x'] eqn:E.
  unfold _exchange. cbn [fst snd]. destruct (fast_path env i) eqn:Hf.
  - apply fast_path_off in Hf as (Hm & Ht & Hd). rewrite (routing_disabled env _ _ _ Hd) in Hr. injection Hr as <- <-.
    unfold entered in E. rewrite Ht, with_trace_off in E by done. unfold plain. cbn [fst snd].
    destruct peer as [n h p st inc]. simpl in E. rewrite E. exists i. by rewrite Hm.
  - rewrite Hr. unfold mbind, M_bind, liftM. cbn [fst snd]. rewrite (routed_valid env peer host port Hv Hr).
    eapply measured_transparent; [exact E|]. apply peer_rpc_accounts; [apply operation_known|apply status_known].
Qed.

(** The same for the cluster client, whose failed gossip is counted as such too. *)
Theorem cluster_exchange_transparent env net local_node_id max_frame_size secure `{!Wire pb.Envelope}
    host port message timeout_seconds expected_node_id host' port' (i : self) (x : S) :
  resolve_peer_endpoint env expected_node_id host port = Ok (host', port') →
  let operation := cluster_operation (Message.msg_type message) in
  let peer_id := match expected_node_id with Some name => if nonempty name then name else "unknown" | None => "unknown" end in
  let sent := with_trace otel (entered (rpc_attributes local_node_id peer_id operation) i) message in
  let (r, x') := ClusterPeerClient._exchange_endpoint_raw net max_frame_size secure host' port' sent timeout_seconds expected_node_id x in
  ∃ i', _exchange_endpoint otel env net local_node_id max_frame_size secure host port message timeout_seconds expected_node_id (i, x)
          = (r, (i', x')) ∧
    tracing i' = tracing i ∧ reported (cluster_counted operation (status_of r)) (metrics i) (metrics i').
Proof.
  intros Hr. cbv zeta. destruct (ClusterPeerClient._exchange_endpoint_raw _ _ _ _ _ _ _ _ _) as [r x'] eqn:E.
  unfold _exchange_endpoint. cbn [fst snd]. destruct (fast_path env i) eqn:Hf.
  - apply fast_path_off in Hf as (Hm & Ht & Hd). rewrite (routing_disabled env _ _ _ Hd) in Hr. injection Hr as <- <-.
    unfold entered in E. rewrite Ht, with_trace_off in E by done. unfold plain. cbn [fst snd]. rewrite E. exists i. by rewrite Hm.
  - rewrite Hr. unfold mbind, M_bind, liftM. cbn [fst snd].
    eapply measured_transparent; [exact E|]. apply finish_cluster_accounts; [apply operation_known|apply status_known].
Qed.
End exchange.

(** *** The services *)
Section services.
Context {S : Type}.

Definition bounded_opt (n : option Metrics.t) : Prop := match n with Some y => bounded y | None => True end.

(** What a call reports, and what that leaves of the metrics. *)
Definition report_of {A} (done : A → S → MetricsSpec.report) (failed : option MetricsSpec.report) (r : result A) (x : S)
    : option MetricsSpec.report :=
  match r with Ok a => Some (done a x) | Err e => if isinstance e [Exception] then failed else None end.

Definition after (n : option Metrics.t) (o : option MetricsSpec.report) : option Metrics.t :=
  match n, o with Some y, Some r => Some (record r y).2 | _, _ => n end.

Lemma record_opt_after n r : bounded_opt n → record_opt r n = (Ok tt, after n (Some r)).
Proof.
  intros Hn. unfold record_opt, after. destruct n as [y|]; [|done]. destruct (record_keeps r y Hn) as (y' & E & _). by rewrite E.
Qed.

Lemma after_bounded n o : bounded_opt n → bounded_opt (after n o).
Proof.
  unfold after. destruct n as [y|], o as [r|]; try done. intros Hn. destruct (record_keeps r y Hn) as (y' & E & H). simpl. by rewrite E.
Qed.

(** A reporting call is the call, and its report cannot fail it. *)
Lemma reporting_transparent {A} (m : M S A) done failed n x : bounded_opt n →
  let (r, x') := m x in reporting m done failed (n, x) = (r, (after n (report_of done failed r x'), x')).
Proof.
  intros Hn. unfold reporting, report_of. cbn [fst snd]. destruct (m x) as [[a|e] x'].
  - by rewrite record_opt_after.
  - destruct failed as [f|]; [|by destruct (isinstance e [Exception]), n].
    destruct (isinstance e [Exception]); [by rewrite record_opt_after|by destruct n].
Qed.

Lemma depth_gauge d y : Metrics.enabled y = true → value (record (QueueDepth d) y).2 ("distsys_replication_queue_depth", []) = Z.max 0 d.
Proof.
  intros Hy. simpl. unfold set_replication_queue_depth, when_enabled, mbind, M_bind, gets. rewrite Hy. cbn iota beta.
  unfold set. rewrite value_put. by rewrite decide_True by done.
Qed.
End services.

(** After every step of the write path the depth gauge is the number of pending
    replications. *)
Lemma write_path_reports_depth {St A} `{ClockedStore St} (m : M (CrdtService.t St) A) y x a x' :
  bounded y → Metrics.enabled y = true → m x = (Ok a, x') →
  ∃ y', reporting m ReplicationService.depth None (Some y, x) = (Ok a, (Some y', x')) ∧
    value y' ("distsys_replication_queue_depth", []) = pending_count (CrdtService.outbox x').
Proof.
  intros Hb Hy E. pose proof (reporting_transparent m ReplicationService.depth None (Some y) x Hb) as H1. rewrite E in H1.
  rewrite H1. eexists. split; [reflexivity|]. unfold ReplicationService.depth. rewrite depth_gauge by done.
  unfold pending_count. lia.
Qed.

(** Measuring the commit of a durable store changes neither what it returns nor what it
    stores. *)
Lemma measured_commit_transparent {R} `{StateRepository R} entry frontier deadline n (x : DurableCrdtStore.t (R:=R)) : bounded_opt n →
  let (r, x') := DurableCrdtStore.commit_local entry frontier deadline x in
  ∃ n', MeasuredStore.commit_local entry frontier deadline (n, x) = (r, (n', x')) ∧ bounded_opt n'.
Proof.
  intros Hn. unfold DurableCrdtStore.commit_local, MeasuredStore.commit_local, MeasuredStore.unmeasured, reads.
  unfold mbind, M_bind. cbn [fst snd]. destruct (DurableCrdtStore.causal_state frontier x) as [cs|e]; [|by exists n].
  pose proof (reporting_transparent (DurableCrdtStore.on_repository (commit_mutation entry cs deadline))
    (λ _ _, PersistenceDone "write" false) (Some (PersistenceDone "write" true)) n x Hn) as H1.
  destruct (DurableCrdtStore.on_repository (commit_mutation entry cs deadline) x) as [[[]|e] x1]; rewrite H1; cbn [fst snd].
  - destruct (DurableCrdtStore.replace _ _ x1) as [r x2]. eexists. split; [done|]. by apply after_bounded.
  - eexists. split; [done|]. by apply after_bounded.
Qed.

(** A peer that cannot be reached is counted as a successful repair: [_reconcile_digest]
    turns the transport error into statistics with one failure. *)
Lemma unreachable_peer_counted_as_success {St} `{ClockedStore St} _hash transport local_node_id peer keys y
    (x : CrdtService.t St) entries relevant e :
  bounded y →
  store_snapshot_all None x = (Ok entries, x) →
  filter_result (λ e, AntiEntropyService._shared_replica (CrdtService.replicas_of _hash) local_node_id x
                        (ClusterMember.node_id peer) (StoredCrdtEntry.key e)) entries = Ok relevant →
  (∀ digest s, exchange_digest transport peer digest s = (Err e, s)) → isinstance e [ConnectionError; TimeoutError; OSError] = true →
  ReplicationService.reconcile_peer _hash transport local_node_id peer keys (Some y, x) =
    (Ok (Stats 0 0 1), (Some (record (AntiEntropyRepair "success") y).2, x)).
Proof.
  intros Hb Hs Hf Hx He.
  assert (AntiEntropyService.reconcile_peer transport (CrdtService.replicas_of _hash) local_node_id peer keys x = (Ok (Stats 0 0 1), x)) as E.
  { unfold AntiEntropyService.reconcile_peer, mbind, M_bind, reads. rewrite Hs, Hf.
    unfold AntiEntropyService._reconcile_digest, mbind, M_bind, catchM. by rewrite Hx, He. }
  unfold ReplicationService.reconcile_peer. pose proof (reporting_transparent
    (AntiEntropyService.reconcile_peer transport (CrdtService.replicas_of _hash) local_node_id peer keys)
    (λ _ _, AntiEntropyRepair "success") (Some (AntiEntropyRepair "failure")) (Some y) x Hb) as H1. by rewrite E in H1.
Qed.
End TelemetrySpec.

(** ** In the chaos profile, with metrics and tracing on *)
Module TelemetrySample.
Import TelemetrySpec Instrument.
#[local] Instance envelope_wire : Wire pb.Envelope := countable_wire.

Definition profile : gmap string string :=
  {["RUN_CHAOS_TESTS" := "1"; "PHASE6_PEER_PROXY_MAP" := "n2=127.0.0.1:19102"]}.

(** The names of the spans that are open, and a propagator that writes a header. *)
Definition otel : Otel (list string) := {|
  span_start name _ o := name :: o;
  span_end _ o := drop 1 o;
  propagate o carrier := <["traceparent" := "00-1-2-01"]> carrier;
|}.

(** A network that times out, and remembers whom it called. *)
Definition timing_out : PeerClient.Network (list string) := {|
  PeerClient.connect peer _ := λ s, (raise TimeoutError "", ClusterMember.host peer :: s);
  PeerClient.talk _ _ := mret "";
  PeerClient.stamp _ := (0, "id");
  PeerClient.monotonic _ := 0;
|}.
Definition timing_out_endpoints : Endpoints (list string) := {|
  open_connection host _ _ _ := λ s, (raise TimeoutError "", host :: s);
  converse _ _ _ := mret "";
  ClusterClient.stamp _ := (0, "id");
  ClusterClient.monotonic _ := 0;
  ClusterClient.uniform _ _ := 0;
  ClusterClient.sleep _ := mret tt;
|}.

Definition n2 : ClusterMember.t := ClusterMember.mk "n2" "h2" 7002 ALIVE 1.
Definition instrument : Instrument.t unit unit (list string) :=
  mk (Some (Metrics.init "n1" true)) (Some (TracingRuntime.mk tt true (Some tt))) [].
Definition message (msg_type : MessageType) : Message.t := Message.mk msg_type "n1" "id" 0 8 "" "" "".

Lemma crdt_exchange_transparent_witness : ∃ i' x,
  _exchange otel profile timing_out "n1" 1000 n2 (message CRDT_REPLICATE) 5 (instrument, []) =
    (raise TimeoutError "", (i', ["127.0.0.1"])) ∧
  metrics i' = Some x ∧ Metrics.value x ("distsys_peer_rpc_total", ["replicate"; "timeout"]) = 1.
Proof.
  destruct (crdt_exchange_transparent otel profile timing_out "n1" 1000 n2 (message CRDT_REPLICATE) 5 "127.0.0.1" 19102 instrument [])
    as (i' & E & _ & Hm); [by apply (bool_decide_unpack _)|by vm_compute|].
  exists i'. destruct (metrics i') as [x|]; [|destruct Hm]. exists x. split; [exact E|]. split; [reflexivity|].
  simpl in Hm. rewrite Hm. vm_compute. reflexivity.
Defined.

Lemma cluster_exchange_transparent_witness : ∃ i' x,
  _exchange_endpoint otel profile timing_out_endpoints "n1" 1000 true "h2" 7002 (message GOSSIP) 5 (Some "n2") (instrument, []) =
    (raise TimeoutError "", (i', ["127.0.0.1"])) ∧
  metrics i' = Some x ∧ Metrics.value x ("distsys_gossip_failures_total", []) = 1.
Proof.
  destruct (cluster_exchange_transparent otel profile timing_out_endpoints "n1" 1000 true "h2" 7002 (message GOSSIP) 5 (Some "n2")
    "127.0.0.1" 19102 instrument []) as (i' & E & _ & Hm); [by vm_compute|].
  exists i'. destruct (metrics i') as [x|]; [|destruct Hm]. exists x. split; [exact E|]. split; [reflexivity|].
  simpl in Hm. rewrite Hm. vm_compute. reflexivity.
Defined.
End TelemetrySample.
