(* ===== verification/Security.v ===== *)
(** * TLS: [distsys/security/]

    Certificates as Python's [ssl] shows them, the construction of the TLS contexts from
    the settings, and what they make of a connection that arrives.  Whether the files of
    the settings can be read is a parameter; the handshake follows the documentation of
    the [ssl] module: a context refuses what is below its minimum version, and depending
    on its mode a peer without a certificate, or with one its authority did not sign. *)

From S2P Require Import Prelude Json Resilience Membership Proto Protocol CrdtCodec Node Config.

Local Open Scope Z_scope.

(** ** [security/certificate.py] *)

(** The values in the dictionary [getpeercert()] returns. *)
Inductive pyobj := PyStr (s : string) | PyTuple (l : list pyobj) | PyList (l : list pyobj) | PyOther.
Abbreviation certificate := (gmap string pyobj).

(** [isinstance(x, (tuple, list))], with its items *)
Definition sequence (x : pyobj) : option (list pyobj) :=
  match x with PyTuple l | PyList l => Some l | PyStr _ | PyOther => None end.

(** The name an item gives, when it is of the given kind. *)
Definition san (kind : string) (item : pyobj) : option string :=
  match sequence item with
  | Some [PyStr k; PyStr name] => if decide (k = kind) then Some name else None
  | _ => None
  end.

Definition _sans (cert : certificate) (kind : string) : gset string :=
  match sequence (default (PyTuple []) (cert !! "subjectAltName")) with
  | Some items => list_to_set (omap (san kind) items)
  | None => ∅
  end.

Definition dns_sans (cert : certificate) : gset string := _sans cert "DNS".
Definition ip_sans (cert : certificate) : gset string := _sans cert "IP Address".

(** ** [security/identity.py] *)
Definition verify_certificate (cert : certificate) (expected_node_id : string) : result unit :=
  if negb (nonempty expected_node_id) then raise ValueError "expected_node_id must not be empty"
  else if bool_decide (expected_node_id ∈ dns_sans cert) then Ok tt
  else raise TlsPeerIdentityError ("authenticated peer certificate does not identify " +:+ expected_node_id)%string.

(** ** [security/tls_context.py] *)

Inductive TLSVersion := TLSv1_2 | TLSv1_3.
Inductive VerifyMode := CERT_NONE | CERT_OPTIONAL | CERT_REQUIRED.

#[export] Instance TLSVersion_eq_dec : EqDecision TLSVersion.
Proof. solve_decision. Defined.
#[export] Instance VerifyMode_eq_dec : EqDecision VerifyMode.
Proof. solve_decision. Defined.

Module SSLContext.
Record t := mk {
  minimum_version : TLSVersion; verify_mode : VerifyMode; check_hostname : bool;
  cert_chain : option (string * string); cafile : option string }.

(** [ssl.SSLContext(ssl.PROTOCOL_TLS_SERVER)] *)
Definition server : t := mk TLSv1_2 CERT_NONE false None None.
End SSLContext.

Definition joined (l : list string) : string :=
  match l with [] => "" | x :: l => foldl (λ acc y, acc +:+ ", " +:+ y)%string x l end.

Definition _validate_files (settings : Settings.t) : result unit :=
  if negb (Settings.tls_enabled settings) then Ok tt
  else
    let missing := fst <$> filter (λ nv : string * string, nv.2 = "")
      [("TLS_CA_FILE", Settings.tls_ca_file settings); ("TLS_CERT_FILE", Settings.tls_cert_file settings);
       ("TLS_KEY_FILE", Settings.tls_key_file settings)] in
    if bool_decide (missing = []) then Ok tt
    else raise TlsConfigurationError ("missing TLS settings: " +:+ joined missing)%string.

Section contexts.
(** Reading the certificate with its key, and the certificates of the authority. *)
Context (read_chain : string → string → result unit) (read_ca : string → result unit).
Import SSLContext.

Definition load_cert_chain (certfile keyfile : string) (c : SSLContext.t) : result SSLContext.t :=
  _ ← read_chain certfile keyfile;
  Ok (mk (minimum_version c) (verify_mode c) (check_hostname c) (Some (certfile, keyfile)) (cafile c)).

Definition load_verify_locations (file : string) (c : SSLContext.t) : result SSLContext.t :=
  _ ← read_ca file; Ok (mk (minimum_version c) (verify_mode c) (check_hostname c) (cert_chain c) (Some file)).

(** [ssl.create_default_context(ssl.Purpose.SERVER_AUTH, cafile=...)] *)
Definition create_default_context (file : string) : result SSLContext.t :=
  load_verify_locations file (mk TLSv1_2 CERT_REQUIRED true None None).

Definition set_minimum_version (v : TLSVersion) (c : SSLContext.t) : SSLContext.t :=
  mk v (verify_mode c) (check_hostname c) (cert_chain c) (cafile c).

Definition build_server_context (settings : Settings.t) : result (option SSLContext.t) :=
  if negb (Settings.tls_enabled settings) then Ok None
  else
    _ ← _validate_files settings;
    let context := set_minimum_version TLSv1_3 SSLContext.server in
    context ← load_cert_chain (Settings.tls_cert_file settings) (Settings.tls_key_file settings) context;
    context ← load_verify_locations (Settings.tls_ca_file settings) context;
    Ok (Some (mk (minimum_version context) (if Settings.mtls_required settings then CERT_REQUIRED else CERT_OPTIONAL)
      (check_hostname context) (cert_chain context) (cafile context))).

Definition build_client_context (settings : Settings.t) : result (option SSLContext.t) :=
  if negb (Settings.tls_enabled settings) then Ok None
  else
    _ ← _validate_files settings;
    context ← create_default_context (Settings.tls_ca_file settings);
    let context := set_minimum_version TLSv1_3 context in
    context ← load_cert_chain (Settings.tls_cert_file settings) (Settings.tls_key_file settings) context;
    Ok (Some (mk (minimum_version context) (verify_mode context) true (cert_chain context) (cafile context))).
End contexts.

(** ** A connection that arrives *)

(** What the other side does: the newest version it speaks, [None] for plain text; the
    certificate it presents, and whether the authority of the context signed it. *)
Record Peer := mkPeer { offers : option TLSVersion; presents : option certificate; trusted : bool }.

(** [if not cert] of [_verify_authenticated_sender], with the DNS names. *)
Definition shown (cert : certificate) : option (list string) :=
  if decide (cert = ∅) then None else Some (elements (dns_sans cert)).

(** The handshake of a listener with this context, and the connection it yields. *)
Definition accept (context : option SSLContext.t) (peer : Peer) : result Connection :=
  match context with
  | None => Ok None
  | Some c =>
      match offers peer with
      | None => raise OSError "wrong version number"
      | Some v =>
          if bool_decide (SSLContext.minimum_version c = TLSv1_3 ∧ v = TLSv1_2) then raise OSError "unsupported protocol"
          else
            match SSLContext.verify_mode c, presents peer with
            | CERT_NONE, _ => Ok (Some None)
            | CERT_OPTIONAL, None => Ok (Some None)
            | CERT_REQUIRED, None => raise OSError "peer did not return a certificate"
            | _, Some cert => if trusted peer then Ok (Some (shown cert)) else raise OSError "certificate verify failed"
            end
      end
  end.

(** What the node's dispatch reads of the settings; [timeout_ms] is the request timeout. *)
Definition node_settings (s : Settings.t) (timeout_ms : Z) : Node.Settings :=
  Node.mkSettings (Settings.node_id s) (Settings.max_frame_size s) timeout_ms (Settings.crdt_enabled s)
    (Settings.persistence_enabled s) (Settings.tls_enabled s) (Settings.mtls_required s).

(** ** What the contexts ensure *)
Module SecuritySpec.
Import SSLContext.

Lemma verify_certificate_names cert expected :
  verify_certificate cert expected = verify_node_identity (elements (dns_sans cert)) expected.
Proof.
  unfold verify_certificate, verify_node_identity. by rewrite (bool_decide_ext _ _ (elem_of_elements (dns_sans cert) expected)).
Qed.

(** A name is a DNS name of the certificate exactly when some two-element item says so;
    entries of any other kind or shape are ignored. *)
Lemma elem_of_sans cert kind name : name ∈ _sans cert kind ↔
  ∃ raw items item, cert !! "subjectAltName" = Some raw ∧ sequence raw = Some items ∧ item ∈ items ∧
    sequence item = Some [PyStr kind; PyStr name].
Proof.
  unfold _sans. destruct (cert !! "subjectAltName") as [raw|]; simpl; [|set_solver].
  destruct (sequence raw) as [items|] eqn:Hs; [|set_solver].
  rewrite elem_of_list_to_set, list_elem_of_omap. split.
  - intros (item & Hi & E). exists raw, items, item. split_and!; [done..|]. unfold san in E.
    destruct (sequence item) as [[|[k| | |] [|[n| | |] [|? ?]]]|]; try done. case_decide; simplify_eq. done.
  - intros (raw' & items' & item & ? & ? & Hi & E). simplify_eq. exists item. split; [done|]. unfold san. rewrite E.
    by rewrite decide_True.
Qed.

(** Settings that were accepted name every file. *)
Lemma accepted_files s s' : Settings.make s = Ok s' → _validate_files s' = Ok tt.
Proof.
  intros [-> H]%ConfigSpec.make_checked. unfold _validate_files. destruct (Settings.tls_enabled s) eqn:Ht; [|done]. simpl negb. cbv iota.
  assert (Settings.tls_enabled s && negb (nonempty (Settings.tls_ca_file s) && nonempty (Settings.tls_cert_file s) &&
    nonempty (Settings.tls_key_file s)) = false) as Hc by (unfold Settings.checks in H; simpl in H; tauto).
  rewrite Ht in Hc. apply negb_false_iff, andb_true_iff in Hc as [[H1 H2]%andb_true_iff H3]. unfold nonempty in *. boolify.
  rewrite !filter_cons_False by done. rewrite filter_nil. done.
Qed.

Section contexts.
Context (read_chain : string → string → result unit) (read_ca : string → result unit).

(** With readable files there is a context exactly when TLS is on, and it speaks nothing
    older than TLS 1.3; with mutual TLS it insists on a certificate. *)
Lemma server_context s s' : Settings.make s = Ok s' → (∀ c k, read_chain c k = Ok tt) → (∀ f, read_ca f = Ok tt) →
  build_server_context read_chain read_ca s' =
    Ok (if Settings.tls_enabled s' then
          Some (mk TLSv1_3 (if Settings.mtls_required s' then CERT_REQUIRED else CERT_OPTIONAL) false
                  (Some (Settings.tls_cert_file s', Settings.tls_key_file s')) (Some (Settings.tls_ca_file s')))
        else None).
Proof.
  intros Hs Hc Hf. apply accepted_files in Hs. unfold build_server_context. destruct (Settings.tls_enabled s'); [|done].
  cbn [negb]. rewrite Hs. cbn [mbind result_bind]. unfold load_cert_chain, load_verify_locations. by rewrite Hc; cbn; rewrite Hf.
Qed.

(** The client checks the chain and the host name, whatever the settings. *)
Lemma client_context_strict s c : build_client_context read_chain read_ca s = Ok (Some c) →
  minimum_version c = TLSv1_3 ∧ verify_mode c = CERT_REQUIRED ∧ check_hostname c = true ∧
  cafile c = Some (Settings.tls_ca_file s).
Proof.
  unfold build_client_context. destruct (negb _); [done|]. intros E. apply bind_Ok_inv in E as (_ & _ & E).
  apply bind_Ok_inv in E as (c1 & E1 & E). cbv zeta in E. apply bind_Ok_inv in E as (c2 & E2 & E). injection E as <-.
  unfold create_default_context, load_verify_locations, load_cert_chain in *.
  apply bind_Ok_inv in E1 as (_ & _ & E1). apply bind_Ok_inv in E2 as (_ & _ & E2). by injection E1 as <-; injection E2 as <-.
Qed.

Lemma server_context_modes s c : build_server_context read_chain read_ca s = Ok c →
  if Settings.tls_enabled s then
    ∃ c', c = Some c' ∧ minimum_version c' = TLSv1_3 ∧ verify_mode c' = (if Settings.mtls_required s then CERT_REQUIRED else CERT_OPTIONAL)
  else c = None.
Proof.
  unfold build_server_context. destruct (Settings.tls_enabled s); cbn [negb]; [|by intros [= <-]]. intros E.
  apply bind_Ok_inv in E as (_ & _ & E). apply bind_Ok_inv in E as (c1 & E1 & E). apply bind_Ok_inv in E as (c2 & E2 & E).
  injection E as <-. unfold load_verify_locations, load_cert_chain in *.
  apply bind_Ok_inv in E1 as (_ & _ & E1). apply bind_Ok_inv in E2 as (_ & _ & E2). injection E1 as <-. injection E2 as <-.
  eexists. split; [reflexivity|]. done.
Qed.

(** A handshake that insists on certificates. *)
Lemma accept_required c peer conn : minimum_version c = TLSv1_3 → verify_mode c = CERT_REQUIRED → accept (Some c) peer = Ok conn →
  ∃ cert, offers peer = Some TLSv1_3 ∧ presents peer = Some cert ∧ trusted peer = true ∧ conn = Some (shown cert).
Proof.
  intros Hm Hv. unfold accept. destruct (offers peer) as [v|]; [|done]. rewrite Hm, Hv. case_bool_decide as Hd; [done|].
  destruct (presents peer) as [cert|]; [|done]. destruct (trusted peer); [|done]. intros [= <-]. exists cert.
  destruct v; [by destruct Hd|]. done.
Qed.
End contexts.

Section node.
Context {S : Type} (parts : NodeParts S) (settings : Node.Settings).
Context `{!Wire pb.Envelope, !Wire pb.TaskRequest, !Wire pb.TaskResponse, !Wire pb.ForwardedTaskRequest, !Wire pb.CrdtResponse}.

(** The node handles a message one of [names] sent. *)
Definition asked_by (names : gset string) (x x' : S) : Prop :=
  ∃ message r, Message.sender_id message ∈ names ∧ DistributedNode.handle_message parts settings message x = (r, x').

(** Every change a connection makes is made by a message its certificate vouches for. *)
Lemma serve_asked names conn fuel stream x out r x' :
  (∀ m, DistributedNode._verify_authenticated_sender settings m conn = Ok tt → Message.sender_id m ∈ names) →
  DistributedNode.serve parts settings fuel conn stream x = (out, r, x') → rtc (asked_by names) x x'.
Proof.
  intros Hv. revert stream x out r x'. induction fuel as [|fuel IH]; intros stream x out r x' E; simpl in E; [by simplify_eq|].
  destruct (stopping parts x); [by simplify_eq|].
  destruct (read_message (Node.max_frame_size settings) stream) as [[m|e] rest]; [|case_match; by simplify_eq].
  destruct (DistributedNode._verify_authenticated_sender settings m conn) as [[]|e] eqn:Hm; [|case_match; by simplify_eq].
  unfold mbind, M_bind, liftM in E. destruct (DistributedNode.handle_message parts settings m x) as [h x1] eqn:Hh.
  assert (asked_by names x x1) as Hstep by (exists m, h; eauto).
  destruct h as [reply|e]; [|simplify_eq; by apply rtc_once].
  destruct (encode_frame reply _) as [frame|e]; [|simplify_eq; by apply rtc_once].
  destruct (DistributedNode.serve parts settings fuel conn rest x1) as [[out' r'] x2] eqn:Es. simplify_eq.
  eapply rtc_l; [done|]. by eapply IH.
Qed.
End node.

End SecuritySpec.

(** ** A node of the secure profile *)
Module SecuritySample.
#[local] Instance env_wire : Wire pb.Envelope := countable_wire.
#[local] Instance task_wire : Wire pb.TaskRequest := countable_wire.
#[local] Instance resp_wire : Wire pb.TaskResponse := countable_wire.
#[local] Instance fwd_wire : Wire pb.ForwardedTaskRequest := countable_wire.
#[local] Instance crdt_wire : Wire pb.CrdtResponse := countable_wire.

Definition secure_environment : gmap string string :=
  {["NODE_ID" := "node-0"; "TLS_ENABLED" := "true"; "MTLS_REQUIRED" := "true"; "TLS_CA_FILE" := "/certs/ca/ca.crt";
    "TLS_CERT_FILE" := "/certs/node-0/node.crt"; "TLS_KEY_FILE" := "/certs/node-0/node.key"]}.
Definition secure_settings : Settings.t :=
  match Settings.from_env secure_environment with Ok s => s | Err _ => Settings.defaults end.

(** A development certificate, which names [client] and an address. *)
Definition cert : certificate :=
  {["subject" := PyOther;
    "subjectAltName" := PyTuple [PyTuple [PyStr "DNS"; PyStr "client"]; PyTuple [PyStr "IP Address"; PyStr "127.0.0.1"]]]}.

End SecuritySample.
