(* ===== verification/Bootstrap.v ===== *)
(** * The edges of a node: [main.py], [utils/logging.py], connections and the peer cache

    What runs around the components: the process entry point, the log formatter, the
    bookkeeping of connections, the addresses the CRDT service remembers, and the copy of
    a database.  Signals, the event loop and the log handlers are parameters or left out. *)

From Stdlib Require Import Ascii.
From S2P Require Import Prelude Causal Json Crdt Storage Resilience Membership Ring Proto Protocol Cluster CrdtCodec Outbox.
From S2P Require Import Repair AntiEntropy CrdtService Persistence Repository DurableStore Recovery PeerClient Node.
From S2P Require Import Coordination Startup Observability Observed Config.

Local Open Scope Z_scope.

(** ** [main.run] *)
Module Main.
Section main.
Context {W : Type} (run_call : call → M W unit) (bind unbind shutdown : M W unit)
  (members : W → list ClusterMember.t) (pending_count : W → Z).
(** [stop_event.wait()]: a signal has come, or the task was cancelled. *)
Context (wait : M W unit).
Abbreviation st := (Metrics.t * ObservedLifecycle.runtime * (NodeLifecycle.t * W))%type.

(** [try: await stop_event.wait() finally: await node.stop()] *)
Definition serve_until_stopped (observability_enabled : bool) : M st unit := λ s,
  match ObservedLifecycle.on_world wait s with
  | (r, s) =>
      match ObservedLifecycle.stop run_call observability_enabled unbind shutdown s with
      | (Ok _, s) => (r, s)
      | (Err e, s) => (Err e, s)
      end
  end.

Definition run (env : gmap string string) : M st unit :=
  settings ← liftM (Settings.from_env env);
  let observability_enabled := Settings.observability_enabled settings in
  _ ← ObservedLifecycle.start run_call (Build.lifecycle settings) observability_enabled bind unbind shutdown members pending_count;
  serve_until_stopped observability_enabled.
End main.
End Main.

(** ** [JsonFormatter.format] *)

(** A log record: the attributes [extra] gave it after the ones every record has.  Text is
    ASCII, where [ensure_ascii] escapes nothing more. *)
Record LogRecord := mkLogRecord { levelname : string; name : string; getMessage : string; extra : list (string * json) }.

Definition LOGGED : list string := ["event"; "node_id"; "correlation_id"; "task"; "status"; "duration_us"].

(** [for key in (...): value = getattr(record, key, None); if value is not None: payload[key] = value] *)
Fixpoint logged (record : LogRecord) (keys : list string) : list (string * json) :=
  match keys with
  | [] => []
  | key :: keys =>
      match assoc key (extra record) with
      | Some JNull | None => logged record keys
      | Some value => (key, value) :: logged record keys
      end
  end.

Definition log_payload (now_ms : Z) (record : LogRecord) : json :=
  JObj ([("timestamp_ms", JInt now_ms); ("level", JStr (levelname record)); ("logger", JStr (name record));
         ("message", JStr (getMessage record))] ++ logged record LOGGED).

Definition format (now_ms : Z) (record : LogRecord) : string := dumps_in_order (log_payload now_ms record).

(** ** [DistributedNode._connection_entrypoint] *)
Module Connections.
(** Writers and their tasks, by the number of the connection; the writers that are
    closed. *)
Record t := mk { _connections : gset nat; _handler_tasks : gset nat; closed : gset nat }.
Definition init : t := mk ∅ ∅ ∅.

(** Up to the [try]. *)
Definition enter (w : nat) (s : t) : t := mk ({[w]} ∪ _connections s) ({[w]} ∪ _handler_tasks s) (closed s).

(** The [finally] clause; [wait_closed] is how waiting for the transport ends. *)
Definition leave (w : nat) (wait_closed : result unit) (outcome : result unit) (s : t) : result unit * t :=
  let s := mk (_connections s ∖ {[w]}) (_handler_tasks s ∖ {[w]}) ({[w]} ∪ closed s) in
  match wait_closed with
  | Ok _ => (outcome, s)
  | Err e => if isinstance e [ConnectionError; CancelledError] then (outcome, s) else (Err e, s)
  end.

(** [stop]: every open writer is closed and every handler that still runs is cancelled;
    the handlers' own [finally] clauses follow. *)
Definition close_all (s : t) : t := mk (_connections s) (_handler_tasks s) (_connections s ∪ closed s).

(** The connections of a node, interleaved: accepted, ended, or the node stops. *)
Inductive step (s : t) : t → Prop :=
  | accepted w : w ∉ _connections s → w ∉ closed s → step s (enter w s)
  | ended w wait_closed outcome r s' : w ∈ _handler_tasks s → leave w wait_closed outcome s = (r, s') → step s s'
  | stopping : step s (close_all s).
End Connections.

(** ** The addresses the CRDT service remembers *)
Module PeerCache.
Section cache.
Context {St : Type}.
Abbreviation st := (MembershipTable.t * CrdtService.t St)%type.

Definition remember (members : list ClusterMember.t) (cache : gmap string ClusterMember.t) : gmap string ClusterMember.t :=
  foldl (λ d m, <[ClusterMember.node_id m := m]> d) cache members.

Definition _alive_peers : M st (list ClusterMember.t) := λ s,
  let members := MembershipTable.alive_members false s.1 in
  (Ok members, (s.1, CrdtService.mk (CrdtService.store s.2) (CrdtService.selector s.2) (CrdtService.outbox s.2)
     (remember members (CrdtService._peer_cache s.2)))).

(** [start_fast_path], [start_anti_entropy] and [stop] of the replication service *)
Context (start_replicator start_reconciler stop_replication : M st unit).

Definition start_fast_path : M st unit := _ ← _alive_peers; start_replicator.
Definition start_anti_entropy : M st unit := start_reconciler.
Definition start : M st unit := _ ← start_fast_path; start_anti_entropy.
Definition stop : M st unit := stop_replication.
End cache.
End PeerCache.

(** ** [persistence/backup.py] *)

(** Databases by path; [sqlite3.connect] opens or creates one. *)
Definition connect_db (path : string) (fs : gmap string SQLiteStateRepository.db) (empty : SQLiteStateRepository.db)
    : gmap string SQLiteStateRepository.db :=
  match fs !! path with Some _ => fs | None => <[path := empty]> fs end.

Definition backup_sqlite (empty : SQLiteStateRepository.db) (source_path destination_path : string)
    (fs : gmap string SQLiteStateRepository.db) : string * gmap string SQLiteStateRepository.db :=
  let fs := connect_db destination_path (connect_db source_path fs empty) empty in
  (destination_path, <[destination_path := default empty (fs !! source_path)]> fs).

(** ** What holds at the edges *)
Module BootstrapSpec.
Import ObservedLifecycle ObservedLifecycleSpec MetricsSpec.

(** *** The process *)
Section main.
Context {W : Type} (run_call : call → M W unit) (bind unbind shutdown : M W unit)
  (members : W → list ClusterMember.t) (pending_count : W → Z) (wait : M W unit).
Hypothesis unbind_returns : ∀ w, ∃ w', unbind w = (Ok tt, w').
Hypothesis shutdown_returns : ∀ w, ∃ w', shutdown w = (Ok tt, w').

(** However the process ends, bad settings, a failed start, a signal or a cancellation,
    neither the endpoint nor the poller is left running; and once the start succeeded the
    node itself is stopped, whatever the wait did. *)
Lemma run_leaves_nothing_serving env x b w : bounded x → NodeLifecycle.is_running b = false →
  ∃ r x' rt base, Main.run run_call bind unbind shutdown members pending_count wait env (x, Runtime false false false, (b, w)) =
      (r, (x', rt, base)) ∧ serving rt = false ∧ polling rt = false.
Proof.
  intros Hx Hb. unfold Main.run. destruct (Settings.from_env env) as [s|e]; [|eexists _, _, _, _; by split_and!].
  unfold mbind at 1, M_bind at 1, liftM. cbv zeta.
  set (oe := Settings.observability_enabled s). pose proof (observed_start_all_or_nothing run_call (Build.lifecycle s) oe bind unbind
    shutdown members pending_count unbind_returns shutdown_returns x b w Hx Hb) as H. cbv zeta in H.
  destruct (if oe then bind w else (Ok tt, w)) as [[[]|e] w1].
  2: { rewrite (M_bind_Err _ _ _ _ _ H). eexists _, _, _, _. by split_and!. }
  destruct (NodeLifecycle.start run_call (Build.lifecycle s) (b, w1)) as [[[]|e] [b' w2]].
  - destruct H as (x' & E & Hx' & _). rewrite (M_bind_Ok _ _ _ _ _ E). unfold Main.serve_until_stopped, on_world, on_base. cbn [fst snd].
    destruct (wait w2) as [r w3].
    destruct (observed_stop_clean run_call oe unbind shutdown unbind_returns shutdown_returns x' (Runtime oe oe true) b' w3) as [w4 E4];
      [done|]. rewrite E4. destruct (NodeLifecycle.stop run_call (b', w3)) as [[[]|e] base]; eexists _, _, _, _; by split_and!.
  - destruct H as (x' & w' & E & _). rewrite (M_bind_Err _ _ _ _ _ E). eexists _, _, _, _. by split_and!.
Qed.
End main.

(** *** Log lines *)
Fixpoint no_lf (s : string) : bool :=
  match s with EmptyString => true | String a r => bool_decide (a ≠ LF) && no_lf r end.

Lemma no_lf_app s t : no_lf (s +:+ t)%string = no_lf s && no_lf t.
Proof. induction s as [|a s IH]; [done|]. rewrite app_cons. simpl. rewrite IH. by rewrite andb_assoc. Qed.

Lemma no_lf_escape s : no_lf (escape s) = true.
Proof.
  induction s as [|a s IH]; [done|]. simpl. rewrite no_lf_app, IH, andb_true_r. by destruct a as [[] [] [] [] [] [] [] []].
Qed.

Lemma no_lf_dump_string s : no_lf (dump_string s) = true.
Proof. unfold dump_string. simpl. by rewrite no_lf_app, no_lf_escape. Qed.

Lemma no_lf_join l : Forall (λ x, no_lf x = true) l → no_lf (Json.join l) = true.
Proof.
  induction 1 as [|x l Hx Hl IH]; [done|]. simpl. destruct l as [|y l]; [done|]. by rewrite !no_lf_app, Hx, IH.
Qed.

Lemma no_lf_uint d : no_lf (DecimalString.NilEmpty.string_of_uint d) = true.
Proof. by induction d. Qed.

Lemma no_lf_str_of_int z : no_lf (str_of_int z) = true.
Proof.
  assert (∀ d, no_lf (DecimalString.NilZero.string_of_uint d) = true) as H.
  { intros d. pose proof (no_lf_uint d) as H. by destruct d. }
  unfold str_of_int. destruct z; [done|..]; simpl; apply H.
Qed.

Lemma no_lf_dumps j : no_lf (dumps_in_order j) = true.
Proof.
  induction j as [|b|z|s|l IH|kvs IH] using json_ind'.
  - done.
  - by destruct b.
  - apply no_lf_str_of_int.
  - apply no_lf_dump_string.
  - rewrite in_order_list, !no_lf_app. unfold elems_in_order. rewrite no_lf_join; [done|]. by apply Forall_fmap.
  - rewrite in_order_obj, !no_lf_app. unfold members_in_order. rewrite no_lf_join; [done|]. apply Forall_fmap.
    eapply Forall_impl; [exact IH|]. intros [k v] Hv. change (no_lf (member_in_order (k, v)) = true).
    unfold member_in_order. cbn [fst snd] in *.
    by rewrite !no_lf_app, no_lf_dump_string, Hv.
Qed.

Lemma logged_keys record keys : NoDup keys → NoDup (logged record keys).*1 ∧ ∀ k, k ∈ (logged record keys).*1 → k ∈ keys.
Proof.
  induction 1 as [|k keys Hk _ [IH1 IH2]]; simpl; [by split; [constructor|]|].
  assert (k ∉ (logged record keys).*1) as Hn by (intros ?; by apply Hk, IH2).
  destruct (assoc k (extra record)) as [[]|]; simpl;
    (split; [try (constructor; done); done|intros k' Hk'; try (apply list_elem_of_In in Hk' as [->|Hk'%list_elem_of_In]; [left|]); right; auto]).
Qed.

(** A record is one line, and reading the line gives its fields back. *)
Lemma log_line_reads_back now_ms record : Forall (λ kv, unique_keys kv.2) (extra record) →
  no_lf (format now_ms record) = true ∧ loads (format now_ms record) = Ok (log_payload now_ms record).
Proof.
  intros Hu. split; [apply no_lf_dumps|]. apply loads_dumps_in_order, unique_obj.
  assert (NoDup LOGGED) as Hn by (apply (bool_decide_unpack _); by vm_compute).
  destruct (logged_keys record LOGGED Hn) as [H1 H2]. split.
  - rewrite fmap_app. apply NoDup_app. split; [apply (bool_decide_unpack _); by vm_compute|]. split; [|done].
    intros k Hk Hl%H2. revert Hl. assert (Forall (λ k, k ∉ LOGGED) ["timestamp_ms"; "level"; "logger"; "message"]) as Hf
      by (apply (bool_decide_unpack _); by vm_compute). rewrite Forall_forall in Hf. by apply Hf.
  - apply Forall_app. split; [by repeat constructor|]. generalize LOGGED. intros keys. induction keys as [|k keys IH]; simpl; [done|].
    destruct (assoc k (extra record)) as [v|] eqn:Ha; [|done].
    assert (unique_keys v) by (apply assoc_elem in Ha; rewrite Forall_forall in Hu; by apply (Hu (k, v))).
    destruct v; [done|..]; by constructor.
Qed.

(** *** Connections *)
Import Connections.

(** A connection is tracked exactly while its handler runs, and nothing a node ever
    accepted is lost: it is tracked or closed. *)
Lemma step_tracks s s' : step s s' → _connections s = _handler_tasks s →
  _connections s' = _handler_tasks s' ∧ _connections s ∪ closed s ⊆ _connections s' ∪ closed s'.
Proof.
  intros [w _ _|w wc out r s1 _ E|] H; simpl.
  - split; [by rewrite H|set_solver].
  - unfold leave in E. assert (s1 = mk (_connections s ∖ {[w]}) (_handler_tasks s ∖ {[w]}) ({[w]} ∪ closed s)) as ->.
    { destruct wc as [|e]; [|destruct (isinstance _ _)]; by injection E as _ <-. }
    simpl. split; [by rewrite H|]. intros v Hv. destruct (decide (v = w)); set_solver.
  - split; [done|set_solver].
Qed.

(** When no handler runs any more, every connection the node ever accepted is closed. *)
Lemma idle_node_has_closed_everything s s' w : rtc step init s → w ∈ _connections s → rtc step s s' → _handler_tasks s' = ∅ → w ∈ closed s'.
Proof.
  assert (∀ a b, rtc step a b → _connections a = _handler_tasks a →
    _connections b = _handler_tasks b ∧ _connections a ∪ closed a ⊆ _connections b ∪ closed b) as Hr.
  { induction 1 as [a|a b c Hs _ IH]; intros H; [by split|]. destruct (step_tracks a b Hs H) as [H1 H2].
    destruct (IH H1) as [H3 H4]. split; [done|]. by etrans. }
  intros H0 Hw H1 He. destruct (Hr _ _ H0 eq_refl) as [Hc _]. destruct (Hr _ _ H1 Hc) as [Hc' Hs]. rewrite Hc', He in Hs. set_solver.
Qed.

(** *** The peer cache *)
Section cache.
Context {St : Type}.
Implicit Types s : (MembershipTable.t * CrdtService.t St)%type.

Lemma remember_fresh members cache n : n ∉ (ClusterMember.node_id <$> members) → PeerCache.remember members cache !! n = cache !! n.
Proof.
  unfold PeerCache.remember. revert cache. induction members as [|m members IH]; intros cache Hn; simpl; [done|].
  rewrite IH by set_solver. apply lookup_insert_ne. set_solver.
Qed.

Lemma remember_known members cache m : NoDup (ClusterMember.node_id <$> members) → m ∈ members →
  PeerCache.remember members cache !! ClusterMember.node_id m = Some m.
Proof.
  revert cache. induction members as [|x members IH]; intros cache Hd Hm; [by apply not_elem_of_nil in Hm|].
  rewrite fmap_cons in Hd. apply NoDup_cons in Hd as [Hx Hd]. apply list_elem_of_In in Hm as [<-|Hm%list_elem_of_In].
  - change (PeerCache.remember members (<[ClusterMember.node_id x := x]> cache) !! ClusterMember.node_id x = Some x).
    rewrite remember_fresh by done. apply lookup_insert_eq.
  - by apply IH.
Qed.

(** After a refresh every live peer is resolved to its current address. *)
Lemma live_peers_resolved s l s' m : NoDup (ClusterMember.node_id <$> MembershipTable.alive_members false s.1) →
  PeerCache._alive_peers s = (Ok l, s') → m ∈ l → CrdtService._resolve_peer (ClusterMember.node_id m) s'.2 = Some m.
Proof. intros Hd [= <- <-] Hm. unfold CrdtService._resolve_peer. simpl. by apply remember_known. Qed.

(** A peer that is no longer alive stays resolved, so the transport, which reports peers
    that are "not currently ALIVE", still calls it. *)
Lemma dead_peer_stays_resolved s l s' n m : CrdtService._resolve_peer n s.2 = Some m →
  n ∉ (ClusterMember.node_id <$> MembershipTable.alive_members false s.1) →
  PeerCache._alive_peers s = (Ok l, s') →
  CrdtService._resolve_peer n s'.2 = Some m ∧
  ∀ replicate timeout state, ReplicationTransportAdapter.send_state replicate (λ x, flip CrdtService._resolve_peer x.2) timeout n state s' =
    replicate m state timeout s'.
Proof.
  intros Hm Hn [= <- <-].
  assert (CrdtService._resolve_peer n (CrdtService.mk (CrdtService.store s.2) (CrdtService.selector s.2) (CrdtService.outbox s.2)
    (PeerCache.remember (MembershipTable.alive_members false s.1) (CrdtService._peer_cache s.2))) = Some m) as E.
  { unfold CrdtService._resolve_peer in *. simpl. by rewrite remember_fresh. }
  split; [exact E|]. intros replicate timeout state. unfold ReplicationTransportAdapter.send_state, mbind, M_bind, gets, flip. cbn [fst snd]. by rewrite E.
Qed.
End cache.

(** *** Backups *)

(** The copy holds what the source holds, and nothing else changes. *)
Lemma backup_copies empty source destination fs d : fs !! source = Some d → source ≠ destination →
  let fs' := (backup_sqlite empty source destination fs).2 in
  fs' !! destination = Some d ∧ ∀ path, path ≠ destination → fs' !! path = fs !! path.
Proof.
  intros Hs Hn. cbv zeta. unfold backup_sqlite, connect_db. rewrite Hs. destruct (fs !! destination) as [x|] eqn:Hd; cbn [snd].
  - rewrite Hs. split; [apply lookup_insert_eq|]. intros path Hp. by rewrite lookup_insert_ne.
  - rewrite (lookup_insert_ne fs destination source) by done. rewrite Hs. split; [apply lookup_insert_eq|]. intros path Hp. by rewrite !lookup_insert_ne.
Qed.

(** A source that does not exist is created, and its empty database is the backup. *)
Lemma backup_of_missing_source empty source destination fs : fs !! source = None →
  (backup_sqlite empty source destination fs).2 !! destination = Some empty.
Proof.
  intros Hs. unfold backup_sqlite, connect_db. rewrite Hs. cbn [snd]. rewrite lookup_insert_eq. f_equal.
  case_match; [by rewrite lookup_insert_eq|]. destruct (decide (destination = source)) as [->|]; [by rewrite lookup_insert_eq|].
  by rewrite lookup_insert_ne, lookup_insert_eq.
Qed.
End BootstrapSpec.
