(* ===== verification/Smoke.v ===== *)
(** * Cluster checks: [scripts/phase3_smoke.py], [phase4_smoke.py] and the restart checks

    The programs that check a running cluster: they poll it until it converges, compare
    what it answers with their own computation, kill and restart a node, and always stop
    the processes they started.  The cluster, the processes and the clock are a parameter
    ([Testbed]); times are in milliseconds, printing is left out except for the lines that
    claim a pass. *)

From Stdlib Require Import Ascii.
From S2P Require Import Prelude Lattice Causal Json Crdt Storage Resilience Membership Ring Proto Protocol Cluster CrdtCodec.
From S2P Require Import Outbox Repair AntiEntropy CrdtService Persistence Repository DurableStore Recovery PeerClient Node Rpc Coordination Startup Client Config.

Local Open Scope Z_scope.
Import ClusterMember (node_id, status, incarnation).

(** ** Polling loops

    [while now() < deadline: attempt; sleep(interval)], then [expired]. *)
Section poll.
Context {S A : Type} (now : S → Z) (pause : Z → M S unit).

Fixpoint poll (fuel : nat) (attempt : M S (option A)) (interval deadline : Z) (expired : M S A) : M S A := λ s,
  match fuel with
  | O => (raise RuntimeError "out of rounds", s)
  | Datatypes.S fuel =>
      if now s <? deadline then
        (found ← attempt;
         match found with
         | Some a => mret a
         | None => _ ← pause interval; poll fuel attempt interval deadline expired
         end) s
      else expired s
  end.

(** Each round waits for [interval]. *)
Definition rounds (timeout interval : Z) : nat := Datatypes.S (Z.to_nat (timeout / interval + 1)).

Definition wait_until (attempt : M S (option A)) (interval timeout : Z) (expired : M S A) : M S A := λ s,
  poll (rounds timeout interval) attempt interval (now s + timeout) expired s.

Lemma poll_enough attempt interval deadline expired g k s : 0 ≤ interval →
  (∀ s s', pause interval s = (Ok tt, s') → now s + interval ≤ now s' ∨ deadline ≤ now s') →
  (∀ s s', attempt s = (Ok None, s') → now s ≤ now s') →
  deadline - now s ≤ interval * Z.of_nat g →
  poll (Datatypes.S (g + k)) attempt interval deadline expired s = poll (Datatypes.S g) attempt interval deadline expired s.
Proof.
  intros Hi Hp Ha. revert s. induction g as [|g IH]; intros s Hd.
  - simpl. rewrite (proj2 (Z.ltb_ge _ _)) by lia. done.
  - rewrite Nat.add_succ_l. cbn [poll]. destruct (now s <? deadline) eqn:Hs; [|done]. unfold mbind, M_bind.
    destruct (attempt s) as [[[a|]|e] s1] eqn:Ea; [done| |done].
    destruct (pause interval s1) as [[[]|e] s2] eqn:Ep; [|done].
    apply Hp in Ep. apply Ha in Ea. apply IH. destruct Ep; nia.
Qed.

(** The loop ends: with the clock moving on by the pauses, or to the deadline, more rounds
    change nothing. *)
Lemma wait_until_total attempt interval timeout expired k s : 0 < interval →
  (∀ s1 s', pause interval s1 = (Ok tt, s') → now s1 + interval ≤ now s' ∨ now s + timeout ≤ now s') →
  (∀ s s', attempt s = (Ok None, s') → now s ≤ now s') →
  poll (rounds timeout interval + k) attempt interval (now s + timeout) expired s = wait_until attempt interval timeout expired s.
Proof.
  intros Hi Hp Ha. unfold wait_until, rounds. rewrite Nat.add_succ_l. apply poll_enough; [lia|done..|].
  pose proof (Z.div_mod timeout interval ltac:(lia)). pose proof (Z.mod_pos_bound timeout interval Hi).
  destruct (decide (0 ≤ timeout / interval + 1)); [rewrite Z2Nat.id by lia|]; nia.
Qed.

(** What it returns, an attempt found or the end of the time gave. *)
Lemma wait_until_found attempt interval timeout expired s a s' :
  wait_until attempt interval timeout expired s = (Ok a, s') →
  (∃ s1, attempt s1 = (Ok (Some a), s')) ∨ (∃ s1, expired s1 = (Ok a, s')).
Proof.
  unfold wait_until. generalize (rounds timeout interval) (now s + timeout). intros fuel deadline. revert s.
  induction fuel as [|fuel IH]; intros s E; simpl in E; [done|]. destruct (now s <? deadline); [|by right; exists s].
  unfold mbind, M_bind in E. destruct (attempt s) as [[[x|]|e] s1] eqn:Ea; [|destruct (pause interval s1) as [[[]|e] s2]; [by eapply IH|done]|done].
  injection E as <- <-. left. by exists s.
Qed.
End poll.

(** ** The cluster under test *)

(** The arguments of [CrdtClient(...)]: where it connects, as whom, with which identity's
    certificates, and the name it expects. *)
Record ClientArgs := mkClientArgs {
  args_host : string; args_port : Z; args_client_id : string; args_identity : option string; args_server : option string }.

(** The operations of a CRDT client. *)
Inductive op :=
  | Increment (key : string) (amount : Z) (ty : CrdtType) | Decrement (key : string) (amount : Z)
  | Add (key element : string) | Remove (key element : string) | WriteRegister (key : string) (value : json) | ReadKey (key : string).

Record Testbed (W : Type) := {
  (** [loop.time()], [time.monotonic()], and [time.time_ns()] *)
  now : W → Z;
  time_ns : W → Z;
  pause : Z → M W unit;
  (** [PeerClient.ping(peer, (), timeout_seconds=...)] *)
  ping : ClusterMember.t → Z → M W AckData;
  (** [DistributedClient(host, port).request(task, payload, routing_key=...)] *)
  request : string → Z → string → json → string → M W json;
  (** [CrdtClient(...)], and a call on the object *)
  crdt_client : ClientArgs → M W nat;
  call : nat → op → option CausalToken.t → M W CrdtClient.CrdtResult;
  (** [subprocess.Popen], [poll()], [terminate()], [kill()], and [wait(timeout)]: whether
      the process has ended by then *)
  spawn : list string → gmap string string → M W nat;
  returncode : nat → W → option Z;
  terminate : nat → M W unit;
  kill : nat → M W unit;
  ended_within : nat → Z → M W bool;
  (** [await process.wait()] *)
  join_process : nat → M W unit;
  (** [os.kill(pid, signal)] *)
  signal : Z → string → M W unit;
  (** the text of a file, when there is one *)
  read_text : string → W → option string;
  print : string → M W unit;
}.
Arguments now {_} _ _.
Arguments time_ns {_} _ _.
Arguments pause {_} _ _ _.
Arguments ping {_} _ _ _ _.
Arguments request {_} _ _ _ _ _ _ _.
Arguments crdt_client {_} _ _ _.
Arguments call {_} _ _ _ _ _.
Arguments spawn {_} _ _ _ _.
Arguments returncode {_} _ _ _.
Arguments terminate {_} _ _ _.
Arguments kill {_} _ _ _.
Arguments ended_within {_} _ _ _ _.
Arguments join_process {_} _ _ _.
Arguments signal {_} _ _ _ _.
Arguments read_text {_} _ _ _.
Arguments print {_} _ _ _.

(** [d[key]] on decoded JSON *)
Definition subscript (key : string) (j : json) : result json :=
  match j with
  | JObj kvs => match assoc key kvs with Some v => Ok v | None => raise KeyError key end
  | _ => raise TypeError "object is not subscriptable"
  end.

(** ** [scripts/phase3_smoke.py] *)
Definition NODE_IDS : list string := ["node-0"; "node-1"; "node-2"].

Definition endpoint (node_id host : string) (port : Z) : result ClusterMember.t := ClusterMember.make node_id host port ALIVE 1.

(** [{member.node_id: member for member in snapshot}] *)
Definition by_id (snapshot : list ClusterMember.t) : gmap string ClusterMember.t :=
  foldl (λ d m, <[node_id m := m]> d) ∅ snapshot.

Definition all_three_alive (snapshot : list ClusterMember.t) : bool :=
  forallb (λ n, match by_id snapshot !! n with Some m => bool_decide (status m = ALIVE) | None => false end) NODE_IDS.

Definition parse_pid_line (line : string) : option (result (string * Z)) :=
  if negb (nonempty (strip line)) || negb (has_char "=" line) then None
  else
    match split_first "=" line with
    | None => None
    | Some (key, value) =>
        Some (match py_int (strip value) with
              | Some pid => Ok (strip key, pid)
              | None => raise ValueError "invalid literal for int()"
              end)
    end.

(** [text.splitlines()], for lines that end in a line feed *)
Fixpoint lines (s cur : string) : list string :=
  match s with
  | EmptyString => if nonempty cur then [cur] else []
  | String a r => if decide (a = "010"%char) then cur :: lines r "" else lines r (cur +:+ String a "")
  end.

Definition collect_pids (parse : string → option (result (string * Z))) (text : string) : result (gmap string Z) :=
  entries ← mapM_result id (omap parse (lines text ""));
  Ok (foldl (λ d kv, <[kv.1 := kv.2]> d) ∅ entries).

Definition parse_pid_file : string → result (gmap string Z) := collect_pids parse_pid_line.

Section phase3.
Context {W : Type} (tb : Testbed W) (_hash : string → Z).

Definition ping_snapshot (peer : ClusterMember.t) (timeout : Z) : M W (list ClusterMember.t) :=
  ack ← ping tb peer timeout;
  if negb (ack_success ack) then raiseM AssertionError ("PING to " +:+ node_id peer +:+ " returned success=false")
  else if negb (bool_decide (target_node_id ack = node_id peer))
  then raiseM AssertionError ("PING target mismatch: expected " +:+ node_id peer +:+ ", got " +:+ target_node_id ack)
  else mret (ack_gossip ack).

Abbreviation snapshots := (gmap string (list ClusterMember.t)).

(** One round of [wait_for_convergence]: [last] keeps what was seen. *)
Fixpoint ping_all (peers : list ClusterMember.t) : M (snapshots * W) bool := λ s,
  match peers with
  | [] => (Ok true, s)
  | peer :: peers =>
      match ping_snapshot peer 500 s.2 with
      | (Err e, w) =>
          if isinstance e [ConnectionError; TimeoutError; OSError] then (Ok false, (s.1, w)) else (Err e, (s.1, w))
      | (Ok snapshot, w) =>
          (others ← ping_all peers; mret (all_three_alive snapshot && others)) (<[node_id peer := snapshot]> s.1, w)
      end
  end.

Definition outside {A B} (m : M W A) : M (B * W) A := λ s, match m s.2 with (r, w) => (r, (s.1, w)) end.

Definition wait_for_convergence (peers : list ClusterMember.t) (timeout : Z) : M W snapshots := λ w,
  match wait_until (λ s : snapshots * W, now tb s.2) (λ d, outside (pause tb d))
          (success ← ping_all peers; s ← getM; mret (if (success : bool) then Some s.1 else None)) 200 timeout
          (raiseM AssertionError "cluster did not converge to three ALIVE members") (∅, w) with
  | (r, (_, w)) => (r, w)
  end.

Definition build_ring (snapshot : list ClusterMember.t) : result ConsistentHashRing.t :=
  ring ← ConsistentHashRing.init 64; Ok (ConsistentHashRing.rebuild _hash snapshot ring).

(** The first of [n] keys from [index] on whose owner satisfies [wanted]. *)
Fixpoint find_key (prefix : string) (wanted : string → bool) (ring : ConsistentHashRing.t) (index : Z) (n : nat)
    : result (option string) :=
  match n with
  | O => Ok None
  | S n =>
      let key := (prefix +:+ str_of_int index)%string in
      owner ← ConsistentHashRing.owner _hash key ring;
      if wanted (node_id owner) then Ok (Some key) else find_key prefix wanted ring (index + 1) n
  end.

Definition find_remote_key (ring : ConsistentHashRing.t) (ingress_node_id : string) : result string :=
  found ← find_key "phase3-smoke-" (λ n, negb (bool_decide (n = ingress_node_id))) ring 0 (Z.to_nat 100000);
  match found with Some key => Ok key | None => raise AssertionError "could not find a routing key owned by a remote node" end.

(** [result.get("node_id")] of a dictionary *)
Definition answered_by (result : json) : option json :=
  match result with JObj kvs => assoc "node_id" kvs | _ => None end.

Definition sample_owners (ring : ConsistentHashRing.t) : result (list string) :=
  mapM_result (λ i, m ← ConsistentHashRing.owner _hash ("distribution-" +:+ str_of_int (Z.of_nat i))%string ring; Ok (node_id m)) (seq 0 100).

Definition verify_routing (host : string) (ports : list Z) (snapshot : list ClusterMember.t) : M W (string * string * gset string) :=
  ring ← liftM (build_ring snapshot);
  key ← liftM (find_remote_key ring "node-0");
  expected_owner ← liftM (ConsistentHashRing.owner _hash key ring);
  result ← request tb host (hd 0 ports) "cluster.whoami" (JObj []) key;
  if negb (bool_decide (answered_by result = Some (JStr (node_id expected_owner))))
  then raiseM AssertionError "routed execution mismatch"
  else
    owners ← liftM (sample_owners ring);
    let owners : gset string := list_to_set owners in
    if bool_decide (size owners < 2)%nat then raiseM AssertionError "100 sample keys mapped to fewer than two nodes"
    else mret (key, node_id expected_owner, owners).

Record ClusterState := mkClusterState {
  cs_peers : list ClusterMember.t; cs_snapshots : snapshots; cs_key : string; cs_owner : string; cs_owners : gset string }.

Definition inspect_cluster (host : string) (ports : list Z) : M W ClusterState :=
  if negb (bool_decide (length ports = 3%nat)) then raiseM ValueError "Phase-3 smoke requires exactly three ports"
  else
    peers ← liftM (mapM_result (λ np : string * Z, endpoint np.1 host np.2) (zip NODE_IDS ports));
    seen ← wait_for_convergence peers 12000;
    match seen !! "node-0" with
    | None => raiseM KeyError "node-0"
    | Some snapshot =>
        '(key, owner, owners) ← verify_routing host ports snapshot;
        mret (mkClusterState peers seen key owner owners)
    end.

Definition wait_for_member_status (peer : ClusterMember.t) (target_node_id : string) (statuses : list MemberStatus) (timeout : Z)
    : M W ClusterMember.t :=
  wait_until (now tb) (pause tb)
    (snapshot ← ping_snapshot peer 500;
     mret (match by_id snapshot !! target_node_id with
           | Some current => if bool_decide (status current ∈ statuses) then Some current else None
           | None => None
           end)) 200 timeout
    (raiseM AssertionError (target_node_id +:+ " did not reach the status")).
End phase3.

(** ** Processes *)

(** [try: m finally: cleanup] *)
Definition finally {S A} (m : M S A) (cleanup : M S unit) : M S A := λ s,
  match m s with (r, s) => match cleanup s with (Ok _, s) => (r, s) | (Err e, s) => (Err e, s) end end.

Section processes.
Context {W : Type} (tb : Testbed W).

(** [if p.poll() is None: p.terminate(); try: p.wait(grace) except TimeoutExpired: p.kill(); p.wait(final)] *)
Definition stop_process (p : nat) (grace final : Z) : M W unit :=
  code ← gets (returncode tb p);
  match code with
  | Some _ => mret tt
  | None =>
      _ ← terminate tb p;
      ended ← ended_within tb p grace;
      if (ended : bool) then mret tt
      else
        _ ← kill tb p;
        ended ← ended_within tb p final;
        if (ended : bool) then mret tt else raiseM TimeoutExpired "process did not end"
  end.

(** The same with asyncio's processes. *)
Definition stop_async_process (p : nat) (grace : Z) : M W unit :=
  code ← gets (returncode tb p);
  match code with
  | Some _ => mret tt
  | None =>
      _ ← terminate tb p;
      ended ← ended_within tb p grace;
      if (ended : bool) then mret tt else _ ← kill tb p; join_process tb p
  end.

(** The [finally] clause: the restarted node, then the runner.  The state holds the local
    variable of the restarted process. *)
Definition cleanup (runner : nat) (stop_restarted stop_runner : nat → M W unit) : M (option nat * W) unit :=
  restarted ← gets fst;
  _ ← (match restarted with Some p => outside (stop_restarted p) | None => mret tt end);
  outside (stop_runner runner).

(** The variable is [None] at first. *)
Definition with_restarted {A} (m : M (option nat * W) A) : M W A := λ w, match m (None, w) with (r, (_, w)) => (r, w) end.

Definition started (p : nat) : M (option nat * W) unit := modifyM (λ s, (Some p, s.2)).
End processes.

(** [env["PYTHONPATH"]] of a child process *)
Definition with_pythonpath (environ : gmap string string) (root : string) : gmap string string :=
  let source := (root +:+ "/src")%string in
  <["PYTHONPATH" := match environ !! "PYTHONPATH" with
                    | Some old => if nonempty old then (source +:+ ":" +:+ old)%string else source
                    | None => source
                    end]> environ.

Definition node_environment (environ : gmap string string) (root node_id : string) (port : Z) (seeds : string) : gmap string string :=
  list_to_map
    [("NODE_ID", node_id); ("NODE_HOST", "127.0.0.1"); ("NODE_PORT", str_of_int port); ("CPU_WORKERS", "1");
     ("CPU_QUEUE_CAPACITY", "100"); ("RATE_LIMIT_RPS", "500"); ("RATE_LIMIT_BURST", "100"); ("REQUEST_TIMEOUT_SECONDS", "5");
     ("CLUSTER_ENABLED", "true"); ("CLUSTER_SEEDS", seeds); ("CLUSTER_VIRTUAL_NODES", "64");
     ("CLUSTER_PROBE_INTERVAL_SECONDS", "1.0"); ("CLUSTER_PING_TIMEOUT_SECONDS", "0.25");
     ("CLUSTER_INDIRECT_TIMEOUT_SECONDS", "0.50"); ("CLUSTER_INDIRECT_PROBE_COUNT", "2");
     ("CLUSTER_SUSPICION_TIMEOUT_SECONDS", "3.0"); ("CLUSTER_DEAD_RETENTION_SECONDS", "30.0");
     ("CLUSTER_GOSSIP_INTERVAL_SECONDS", "1.0"); ("LOG_LEVEL", "INFO")] ∪ with_pythonpath environ root.

(** ** The managed run of phase 3 *)
Section managed.
Context {W : Type} (tb : Testbed W) (_hash : string → Z).
Context (environ : gmap string string) (root host : string) (ports : list Z) (managed_command : list string) (log_dir : string).

Definition pid_file : string := (log_dir +:+ "/pids.env")%string.

(** The loop until the runner has written its file. *)
Definition await_pid_file (runner : nat) : M W unit :=
  wait_until (now tb) (pause tb)
    (exists_ ← gets (read_text tb pid_file);
     match exists_ with
     | Some _ => mret (Some tt)
     | None =>
         code ← gets (returncode tb runner);
         match code with Some _ => raiseM RuntimeError "managed cluster runner exited early" | None => mret None end
     end) 100 10000
    (exists_ ← gets (read_text tb pid_file);
     match exists_ with Some _ => mret tt | None => raiseM TimeoutError "managed cluster runner did not create pids.env" end).

Definition whoami (key : string) : M W (option json) :=
  reply ← request tb host (hd 0 ports) "cluster.whoami" (JObj []) key; mret (answered_by reply).

Definition first_peer (state : ClusterState) : M W ClusterMember.t :=
  match cs_peers state with peer :: _ => mret peer | [] => raiseM IndexError "tuple index out of range" end.

Definition the_member (name : string) (snapshot : list ClusterMember.t) : M W ClusterMember.t :=
  match by_id snapshot !! name with Some m => mret m | None => raiseM KeyError name end.

(** Up to the kill of [node-2]: the key it owns, and what it was before. *)
Definition before_failure : M W (ClusterState * ClusterMember.t * string) :=
  state ← inspect_cluster tb _hash host ports;
  initial_snapshot ← (match cs_snapshots state !! "node-0" with Some l => mret l | None => raiseM KeyError "node-0" end);
  initial_node2 ← the_member "node-2" initial_snapshot;
  initial_ring ← liftM (build_ring _hash initial_snapshot);
  found ← liftM (find_key _hash "managed-failover-" (λ n, bool_decide (n = "node-2")) initial_ring 0 (Z.to_nat 100000));
  match found with
  | None => raiseM RuntimeError "coroutine raised StopIteration"
  | Some failover_key =>
      before ← whoami failover_key;
      if negb (bool_decide (before = Some (JStr "node-2")))
      then raiseM AssertionError "managed failover key did not execute on node-2 before stop"
      else mret (state, initial_node2, failover_key)
  end.

Definition kill_node2 : M W unit :=
  text ← gets (read_text tb pid_file);
  pids ← liftM (match text with Some text => parse_pid_file text | None => raise OSError "no such file" end);
  match pids !! "node-2" with
  | None => raiseM AssertionError "runner PID file does not contain node-2"
  | Some pid => signal tb pid "SIGTERM"
  end.

(** The failed node is noticed, and its work goes to the owner the others compute. *)
Definition check_failover (peer : ClusterMember.t) (failover_key : string) : M W unit :=
  _ ← wait_for_member_status tb peer "node-2" [SUSPECT; DEAD] 8000;
  snapshot ← ping_snapshot tb peer 500;
  ring ← liftM (build_ring _hash snapshot);
  result ← whoami failover_key;
  if bool_decide (result = Some (JStr "node-2")) then raiseM AssertionError "failed node-2 still owned routed work"
  else
    owner ← liftM (ConsistentHashRing.owner _hash failover_key ring);
    if negb (bool_decide (result = Some (JStr (node_id owner)))) then raiseM AssertionError "failover result does not match rebuilt ring owner"
    else mret tt.

Definition PASSED : list string := ["managed_failure_detection=PASS"; "managed_failover=PASS"; "managed_rejoin=PASS"].

Definition managed_body (runner : nat) : M (option nat * W) unit :=
  _ ← outside (await_pid_file runner);
  '(state, initial_node2, failover_key) ← outside before_failure;
  _ ← outside kill_node2;
  peer ← outside (first_peer state);
  _ ← outside (check_failover peer failover_key);
  restarted ← outside (spawn tb ["python"; "-m"; "distsys.main"]
    (node_environment environ root "node-2" (nth 2 ports 0) (host +:+ ":" +:+ str_of_int (hd 0 ports))));
  _ ← started restarted;
  rejoined ← outside (wait_for_member_status tb peer "node-2" [ALIVE] 8000);
  if incarnation rejoined <=? incarnation initial_node2
  then raiseM AssertionError "restarted node-2 did not rejoin with a newer incarnation"
  else outside (iterM (print tb) PASSED).

Definition managed_failure_rejoin : M W unit :=
  runner ← spawn tb managed_command (<["PHASE3_LOG_DIR" := log_dir]> (with_pythonpath environ root));
  with_restarted (finally (managed_body runner)
    (cleanup runner (λ p, stop_process tb p 5000 5000) (λ p, stop_process tb p 8000 5000))).

(** [main], without the lines that show the routing key and its owners *)
Definition phase3_main (managed : bool) : M W unit :=
  if managed then managed_failure_rejoin
  else
    _ ← inspect_cluster tb _hash host ports;
    iterM (print tb) ["endpoints_reachable=3/3"; "membership_converged=3/3 ALIVE on every snapshot"; "remote_routed_execution=PASS";
                      "phase3_smoke=PASS"].
End managed.

(** ** [scripts/phase4_smoke.py] *)
Definition _node_env (environ : gmap string string) (root node_id : string) (port : Z) (seeds anti_entropy_interval : string)
    : gmap string string :=
  list_to_map
    [("CRDT_ENABLED", "true"); ("CRDT_REPLICATION_FACTOR", "3"); ("CRDT_REPLICATION_QUEUE_CAPACITY", "500");
     ("CRDT_REPLICATION_WORKERS", "2"); ("CRDT_REPLICATION_RETRY_MAX_ATTEMPTS", "3");
     ("CRDT_REPLICATION_RETRY_BASE_DELAY_SECONDS", "0.05"); ("CRDT_REPLICATION_RETRY_MAX_DELAY_SECONDS", "1.0");
     ("CRDT_ANTI_ENTROPY_INTERVAL_SECONDS", anti_entropy_interval); ("CRDT_ANTI_ENTROPY_BATCH_SIZE", "100")]
  ∪ node_environment environ root node_id port seeds.

Section phase4.
Context {W : Type} (tb : Testbed W) (_hash : string → Z).
Context (environ : gmap string string) (root host : string) (ports : list Z) (managed_command : list string) (log_dir : string).
Import CrdtClient (CrdtResult, result_value, result_token, result_repaired).

Definition open_client (port : Z) : M W nat := crdt_client tb (mkClientArgs host port "crdt-client" None None).

(** [if result.value != expected: raise AssertionError(...)] *)
Definition expect_value (result : CrdtResult) (expected : json) (why : string) : M W unit :=
  if bool_decide (result_value result = expected) then mret tt else raiseM AssertionError why.

Record CrdtFlow := mkCrdtFlow { suffix : string; views : CrdtResult; remote_read : CrdtResult; tags : CrdtResult; flow_status : CrdtResult }.

Definition verify_crdt_flow : M W CrdtFlow :=
  suffix ← gets (λ w, str_of_int (time_ns tb w));
  writer ← open_client (hd 0 ports);
  let key kind := ("phase4." +:+ kind +:+ "." +:+ suffix)%string in
  views ← call tb writer (Increment (key "views") 2 GCOUNTER) None;
  remote ← open_client (nth 2 ports 0);
  read_views ← call tb remote (ReadKey (key "views")) (Some (result_token views));
  _ ← expect_value read_views (JInt 2) "expected GCounter=2";
  if negb (VersionVector.dominates (CausalToken.version (result_token read_views)) (CausalToken.version (result_token views)))
  then raiseM AssertionError "remote read did not preserve the writer causal token"
  else
    tags ← call tb writer (Add (key "tags") "python") None;
    tags ← call tb writer (Add (key "tags") "distributed-systems") (Some (result_token tags));
    _ ← expect_value tags (JList [JStr "distributed-systems"; JStr "python"]) "unexpected ORSet value";
    status ← call tb remote (WriteRegister (key "status") (JObj [("risk", JStr "medium")])) (Some (result_token read_views));
    _ ← expect_value status (JList [JObj [("risk", JStr "medium")]]) "unexpected MVRegister value";
    mret (mkCrdtFlow suffix views read_views tags status).

(** The loop until all PIDs are published. *)
Definition await_pids (runner : nat) : M W (gmap string Z) :=
  let complete (text : option string) : result (option (gmap string Z)) :=
    match text with
    | None => Ok None
    | Some text =>
        pids ← parse_pid_file text;
        Ok (if forallb (λ n, bool_decide (is_Some (pids !! n))) NODE_IDS then Some pids else None)
    end in
  wait_until (now tb) (pause tb)
    (code ← gets (returncode tb runner);
     match code with
     | Some _ => raiseM RuntimeError "Phase-4 cluster exited early"
     | None => text ← gets (read_text tb (pid_file log_dir)); liftM (complete text)
     end) 100 12000
    (raiseM TimeoutError "Phase-4 cluster did not publish all node PIDs").

(** The loop until the restarted replica has the value: each read counts only when it
    repaired the replica. *)
Definition await_recovery (key : string) (token : CausalToken.t) : M W unit :=
  wait_until (now tb) (pause tb)
    (catchM (reader ← open_client (nth 2 ports 0);
             value ← call tb reader (ReadKey key) (Some token);
             if bool_decide (result_value value = JInt 2)
             then if result_repaired value then mret (Some tt)
                  else raiseM AssertionError "rejoined stale replica did not perform targeted causal repair"
             else mret None) [ConnectionError; TimeoutError; OSError] (λ _, mret None)) 250 10000
    (raiseM AssertionError "rejoined node did not recover CRDT state").

(** While [node-2] is down: the outage is noticed and writes go on. *)
Definition write_during_outage (peer : ClusterMember.t) (suffix : string) : M W (string * CausalToken.t) :=
  _ ← wait_for_member_status tb peer "node-2" [SUSPECT; DEAD] 9000;
  let key := ("phase4.failure.views." +:+ suffix)%string in
  writer ← open_client (hd 0 ports);
  one ← call tb writer (Increment key 1 GCOUNTER) None;
  two ← call tb writer (Increment key 1 GCOUNTER) (Some (result_token one));
  _ ← expect_value two (JInt 2) "write with reduced effective RF did not succeed";
  mret (key, result_token two).

Definition PASSED4 : list string :=
  ["phase4_managed_failure_detection=PASS"; "phase4_reduced_rf_write=PASS"; "phase4_rejoin_new_causal_epoch=PASS";
   "phase4_rejoin_targeted_causal_repair=PASS"; "phase4_rejoin_recovery=PASS"].

Definition rejoin_body (runner : nat) : M (option nat * W) unit :=
  pids ← outside (await_pids runner);
  cluster ← outside (inspect_cluster tb _hash host ports);
  flow ← outside verify_crdt_flow;
  snapshot ← outside (match cs_snapshots cluster !! "node-0" with Some l => mret l | None => raiseM KeyError "node-0" end);
  initial ← outside (the_member "node-2" snapshot);
  _ ← outside (match pids !! "node-2" with Some pid => signal tb pid "SIGTERM" | None => raiseM KeyError "node-2" end);
  peer ← outside (first_peer cluster);
  '(key, token) ← outside (write_during_outage peer (suffix flow));
  restarted ← outside (spawn tb ["python"; "-m"; "distsys.main"]
    (_node_env environ root "node-2" (nth 2 ports 0) (host +:+ ":" +:+ str_of_int (hd 0 ports)) "30.0"));
  _ ← started restarted;
  rejoined ← outside (wait_for_member_status tb peer "node-2" [ALIVE] 10000);
  if incarnation rejoined <=? incarnation initial then raiseM AssertionError "rejoined node did not get a newer incarnation"
  else
    _ ← outside (await_recovery key token);
    outside (iterM (print tb) PASSED4).

Definition managed_rejoin : M W unit :=
  runner ← spawn tb managed_command
    (<["PHASE4_LOG_DIR" := log_dir]> (<["CRDT_ANTI_ENTROPY_INTERVAL_SECONDS" := "30.0"]> (with_pythonpath environ root)));
  with_restarted (finally (rejoin_body runner)
    (cleanup runner (λ p, stop_async_process tb p 5000) (λ p, stop_async_process tb p 8000))).

(** [main], without the line that says whether the read repaired *)
Definition phase4_main (managed : bool) : M W unit :=
  if managed then managed_rejoin
  else
    _ ← inspect_cluster tb _hash host ports;
    _ ← verify_crdt_flow;
    iterM (print tb) ["phase3_membership_converged=PASS"; "gcounter_remote_causal_read=PASS"; "orset_operations=PASS";
                      "mvregister_operation=PASS"; "phase4_smoke=PASS"].
End phase4.

(** ** What the checks establish *)
Module SmokeSpec.

Lemma outside_inv {W B A} (m : M W A) (s : B * W) a s' : outside m s = (Ok a, s') → m s.2 = (Ok a, s'.2) ∧ s'.1 = s.1.
Proof. unfold outside. destruct (m s.2) as [r w]. by intros [= -> <-]. Qed.

(** The environment of phase 3 is that of a plain cluster, in which no node starts: the
    restarted node cannot rejoin. *)
Lemma phase3_node_never_starts {V} (run : Startup.call → M V unit) environ root name port seeds s b v :
  environ !! "CRDT_ENABLED" = None → environ !! "ETCD_ENABLED" = None →
  Settings.from_env (node_environment environ root name port seeds) = Ok s → NodeLifecycle.is_running b = false →
  is_ok (NodeLifecycle.start run (Build.lifecycle s) (b, v)).1 = false.
Proof.
  intros H1 H2 Hs Hb. assert (∀ k v, k ≠ "PYTHONPATH" → with_pythonpath environ root !! k = v ↔ environ !! k = v) as Hw.
  { intros k x Hk. unfold with_pythonpath. by rewrite lookup_insert_ne. }
  eapply ConfigSpec.plain_cluster_never_starts; [exact Hs| | | |exact Hb].
  - apply lookup_union_Some_l. reflexivity.
  - apply lookup_union_None. split; [reflexivity|by apply Hw].
  - apply lookup_union_None. split; [reflexivity|by apply Hw].
Qed.

Section spec.
Context {W : Type} (tb : Testbed W) (_hash : string → Z).

(** A peer answered a ping with this record of the member. *)
Definition saw (m : ClusterMember.t) (name : string) : Prop :=
  ∃ peer timeout w w' ack, ping tb peer timeout w = (Ok ack, w') ∧ ack_success ack = true ∧ target_node_id ack = node_id peer ∧
    by_id (ack_gossip ack) !! name = Some m.

Lemma ping_snapshot_inv peer timeout w snapshot w' : ping_snapshot tb peer timeout w = (Ok snapshot, w') →
  ∃ ack, ping tb peer timeout w = (Ok ack, w') ∧ ack_success ack = true ∧ target_node_id ack = node_id peer ∧ snapshot = ack_gossip ack.
Proof.
  unfold ping_snapshot. intros E. apply CrdtService.M_bind_inv in E as (ack & w1 & Ep & E). exists ack.
  destruct (ack_success ack); [|done]. cbn [negb] in E. case_bool_decide; [|done]. by injection E as <- <-.
Qed.

(** Every peer's answer shows all three nodes alive. *)
Lemma ping_all_alive peers s s' : ping_all tb peers s = (Ok true, s') →
  (∀ n, n ∉ node_id <$> peers → s'.1 !! n = s.1 !! n) ∧
  ∀ n, n ∈ node_id <$> peers → ∃ snapshot, s'.1 !! n = Some snapshot ∧ all_three_alive snapshot = true ∧
    ∀ name m, by_id snapshot !! name = Some m → saw m name.
Proof.
  revert s. induction peers as [|peer peers IH]; intros s E; cbn [ping_all] in E.
  { injection E as <-. split; [done|]. intros n Hn. by apply not_elem_of_nil in Hn. }
  destruct (ping_snapshot tb peer 500 s.2) as [[snapshot|e] w] eqn:Ep; [|destruct (isinstance _ _); discriminate].
  apply CrdtService.M_bind_inv in E as (b & s1 & Er & E). injection E as Hb <-. apply andb_true_iff in Hb as [Ha ->].
  destruct (IH _ Er) as [H1 H2]. split.
  - intros n Hn. rewrite fmap_cons, not_elem_of_cons in Hn. destruct Hn as [Hne Hn]. rewrite H1 by done. simpl. by rewrite lookup_insert_ne.
  - intros n Hn. destruct (decide (n ∈ node_id <$> peers)) as [|Hni]; [by apply H2|].
    rewrite fmap_cons, elem_of_cons in Hn. destruct Hn as [->|]; [|done]. exists snapshot. split; [|split; [done|]].
    + rewrite H1 by done. apply lookup_insert_eq.
    + intros name m Hm. apply ping_snapshot_inv in Ep as (ack & Ep & Hok & Ht & ->). by exists peer, 500, s.2, w, ack.
Qed.

Lemma convergence_seen peers timeout w seen w' : wait_for_convergence tb peers timeout w = (Ok seen, w') →
  ∀ n, n ∈ node_id <$> peers → ∃ snapshot, seen !! n = Some snapshot ∧ all_three_alive snapshot = true ∧
    ∀ name m, by_id snapshot !! name = Some m → saw m name.
Proof.
  unfold wait_for_convergence. destruct (wait_until _ _ _ _ _ _ _) as [r [l w1]] eqn:E. intros [= -> <-].
  apply wait_until_found in E as [[s1 E]|[s1 E]]; [|done]. apply CrdtService.M_bind_inv in E as (ok & s2 & Ep & E).
  apply CrdtService.M_bind_inv in E as (s3 & s4 & Eg & E). injection Eg as <- <-. destruct ok; [|done]. injection E as <- _.
  by apply ping_all_alive in Ep as [_ ?].
Qed.

Lemma status_seen peer name statuses timeout w m w' :
  wait_for_member_status tb peer name statuses timeout w = (Ok m, w') → saw m name ∧ status m ∈ statuses.
Proof.
  intros E. apply wait_until_found in E as [[w1 E]|[w1 E]]; [|done]. apply CrdtService.M_bind_inv in E as (snapshot & w2 & Ep & E).
  apply ping_snapshot_inv in Ep as (ack & Ep & Hok & Ht & ->). destruct (by_id (ack_gossip ack) !! name) as [x|] eqn:Hx; [|done].
  case_bool_decide; [|done]. injection E as -> ->. split; [|done]. by exists peer, 500, w1, w', ack.
Qed.

(** The entry node answered that [n] executed the task of this key. *)
Definition executed_by (host : string) (ports : list Z) (key n : string) : Prop :=
  ∃ w w' reply, request tb host (hd 0 ports) "cluster.whoami" (JObj []) key w = (Ok reply, w') ∧ answered_by reply = Some (JStr n).

Lemma whoami_inv host ports key w o w' n : whoami tb host ports key w = (Ok o, w') → o = Some (JStr n) → executed_by host ports key n.
Proof. unfold whoami. intros E ->. apply CrdtService.M_bind_inv in E as (reply & w1 & Er & E). injection E as E <-. by exists w, w1, reply. Qed.

Section managed.
Context (environ : gmap string string) (root host : string) (ports : list Z) (managed_command : list string) (log_dir : string).

Lemma endpoint_ids l peers : mapM_result (λ np : string * Z, endpoint np.1 host np.2) l = Ok peers → node_id <$> peers = l.*1.
Proof.
  revert peers. induction l as [|[n p] l IH]; intros peers E; simpl in E; [by injection E as <-|].
  apply bind_Ok_inv in E as (m & Em & E). apply bind_Ok_inv in E as (ms & Ems & E). injection E as <-.
  apply ClusterMember.make_iff in Em as [-> _]. simpl. f_equal. by apply IH.
Qed.

Lemma inspected_snapshot w state w' snapshot : inspect_cluster tb _hash host ports w = (Ok state, w') →
  cs_snapshots state !! "node-0" = Some snapshot → ∀ name m, by_id snapshot !! name = Some m → saw m name.
Proof.
  unfold inspect_cluster. case_bool_decide as Hp; [|done]. cbn [negb]. intros E Hx. apply CrdtService.M_bind_inv in E as (peers & v1 & Ep & E).
  apply CrdtService.M_bind_inv in E as (seen & v2 & Ec & E). destruct (seen !! "node-0") as [l|] eqn:Hl; [|done].
  apply CrdtService.M_bind_inv in E as ([[k o] os] & v3 & _ & E). injection E as <- _. cbn [cs_snapshots] in Hx. rewrite Hl in Hx. injection Hx as ->.
  injection Ep as Ep _. apply endpoint_ids in Ep.
  destruct (convergence_seen _ _ _ _ _ Ec "node-0") as (x & Hx & _ & Hs).
  - rewrite Ep. destruct ports as [|p0 [|p1 [|p2 [|]]]]; try done. left.
  - rewrite Hl in Hx. by injection Hx as ->.
Qed.

(** What [before_failure] establishes. *)
Lemma before_failure_inv w state initial key w' : before_failure tb _hash host ports w = (Ok (state, initial, key), w') →
  saw initial "node-2" ∧ executed_by host ports key "node-2".
Proof.
  unfold before_failure. intros E. apply CrdtService.M_bind_inv in E as (state1 & w1 & Ei & E).
  apply CrdtService.M_bind_inv in E as (snapshot & w2 & Es & E). apply CrdtService.M_bind_inv in E as (m & w3 & Em & E).
  apply CrdtService.M_bind_inv in E as (ring & w4 & _ & E). apply CrdtService.M_bind_inv in E as ([key1|] & w5 & _ & E); [|done].
  apply CrdtService.M_bind_inv in E as (before & w6 & Eb & E). case_bool_decide as Hb; [|done]. injection E as <- <- <- _.
  split; [|by eapply whoami_inv].
  destruct (cs_snapshots state1 !! "node-0") as [x|] eqn:Hx; [|done]. injection Es as -> _.
  unfold the_member in Em. destruct (by_id snapshot !! "node-2") as [y|] eqn:Hy; [|done]. injection Em as -> _.
  by eapply inspected_snapshot.
Qed.

Lemma check_failover_inv peer key w w' : check_failover tb _hash host ports peer key w = (Ok tt, w') →
  (∃ failed, saw failed "node-2" ∧ status failed ∈ [SUSPECT; DEAD]) ∧
  ∃ owner, owner ≠ "node-2" ∧ executed_by host ports key owner.
Proof.
  unfold check_failover. intros E. apply CrdtService.M_bind_inv in E as (failed & w1 & Ef & E). apply status_seen in Ef.
  split; [by exists failed|]. apply CrdtService.M_bind_inv in E as (snapshot & w2 & _ & E). apply CrdtService.M_bind_inv in E as (ring & w3 & _ & E).
  apply CrdtService.M_bind_inv in E as (result & w4 & Er & E). case_bool_decide as H2; [done|].
  apply CrdtService.M_bind_inv in E as (owner & w5 & _ & E). case_bool_decide as Ho; [|done]. exists (node_id owner). split.
  - intros Hn. apply H2. by rewrite Ho, Hn.
  - by eapply whoami_inv.
Qed.

(** A run that claims success has seen it: [node-2] executed the task of its key, was
    then reported failed, the task moved to another node, and [node-2] came back alive
    with a newer incarnation. *)
Lemma managed_pass_is_evidence runner s s' : managed_body tb _hash environ root host ports log_dir runner s = (Ok tt, s') →
  ∃ key initial failed owner rejoined,
    saw initial "node-2" ∧ executed_by host ports key "node-2" ∧
    saw failed "node-2" ∧ status failed ∈ [SUSPECT; DEAD] ∧ owner ≠ "node-2" ∧ executed_by host ports key owner ∧
    saw rejoined "node-2" ∧ status rejoined = ALIVE ∧ incarnation initial < incarnation rejoined.
Proof.
  unfold managed_body. intros E. apply CrdtService.M_bind_inv in E as (? & s1 & _ & E). apply CrdtService.M_bind_inv in E as ([[state initial] key] & s2 & Eb & E).
  apply outside_inv in Eb as [Eb _]. apply before_failure_inv in Eb as [Hi Hk].
  apply CrdtService.M_bind_inv in E as (? & s3 & _ & E). apply CrdtService.M_bind_inv in E as (peer & s4 & _ & E). apply CrdtService.M_bind_inv in E as ([] & s5 & Ec & E).
  apply outside_inv in Ec as [Ec _]. apply check_failover_inv in Ec as [(failed & Hf & Hs) (owner & Ho & Hx)].
  apply CrdtService.M_bind_inv in E as (p & s6 & _ & E). apply CrdtService.M_bind_inv in E as (? & s7 & _ & E). apply CrdtService.M_bind_inv in E as (rejoined & s8 & Er & E).
  apply outside_inv in Er as [Er _]. apply status_seen in Er as [Hr Hst].
  destruct (incarnation rejoined <=? incarnation initial) eqn:Hle; [done|]. apply Z.leb_gt in Hle.
  exists key, initial, failed, owner, rejoined. split_and!; [done..|by apply list_elem_of_singleton in Hst|done].
Qed.

(** *** Processes *)

(** What the operating system promises of processes: a process that has ended stays
    ended, terminating and killing return, a wait that reports the end is right, and a
    killed process ends. *)
Definition keeps_ended (w w' : W) : Prop := ∀ p, is_Some (returncode tb p w) → is_Some (returncode tb p w').

Record processes_ok : Prop := {
  terminate_ok p w : ∃ w', terminate tb p w = (Ok tt, w') ∧ keeps_ended w w';
  kill_ok p w : ∃ w', kill tb p w = (Ok tt, w') ∧ keeps_ended w w' ∧
    ∀ t, ∃ w'', ended_within tb p t w' = (Ok true, w'') ∧ keeps_ended w' w'';
  wait_ok p t w : ∃ b w', ended_within tb p t w = (Ok b, w') ∧ keeps_ended w w' ∧ (b = true → is_Some (returncode tb p w'));
}.

Lemma stop_process_ends (Hos : processes_ok) p grace final w :
  ∃ w', stop_process tb p grace final w = (Ok tt, w') ∧ keeps_ended w w' ∧ is_Some (returncode tb p w').
Proof.
  unfold stop_process, mbind, M_bind, gets. destruct (returncode tb p w) as [c|] eqn:Hc; [exists w; split; [done|]; split; [by intros q|by exists c]|].
  destruct (terminate_ok Hos p w) as (w1 & E1 & K1). rewrite E1. destruct (wait_ok Hos p grace w1) as (b & w2 & E2 & K2 & H2). rewrite E2.
  destruct b; [exists w2; split_and!; [done|intros q Hq; auto|auto]|].
  destruct (kill_ok Hos p w2) as (w3 & E3 & K3 & H3). rewrite E3. destruct (H3 final) as (w4 & E4 & K4).
  destruct (wait_ok Hos p final w3) as (b & w5 & E5 & K5 & H5). rewrite E4 in E5. injection E5 as <- <-. rewrite E4.
  exists w4. split_and!; [done|intros q Hq; auto|auto].
Qed.

Lemma cleanup_ends (Hos : processes_ok) runner (s : option nat * W) : ∃ w',
  cleanup runner (λ p, stop_process tb p 5000 5000) (λ p, stop_process tb p 8000 5000) s = (Ok tt, (s.1, w')) ∧
  is_Some (returncode tb runner w') ∧ ∀ p, s.1 = Some p → is_Some (returncode tb p w').
Proof.
  unfold cleanup, mbind, M_bind, gets, outside. destruct s as [[p|] w]; cbn [fst snd].
  - destruct (stop_process_ends Hos p 5000 5000 w) as (w1 & E1 & K1 & H1). rewrite E1. cbn [fst snd].
    destruct (stop_process_ends Hos runner 8000 5000 w1) as (w2 & E2 & K2 & H2). rewrite E2. exists w2. split_and!; [done..|].
    intros q [= <-]. auto.
  - destruct (stop_process_ends Hos runner 8000 5000 w) as (w2 & E2 & K2 & H2). unfold mret, M_ret. cbn [fst snd]. rewrite E2.
    exists w2. split; [done|]. split; [done|]. done.
Qed.

(** The managed check of a cluster is honest and leaves nothing behind.  However it
    ends, a failed check, a timeout or an error of the cluster, the runner and the node
    it restarted have ended; and when it claims success it has seen what it claims: the
    failed node was reported failed, its work moved to another node, and it came back
    alive with a newer incarnation. *)
Theorem managed_run_honest (Hos : processes_ok) w runner w1 :
  spawn tb managed_command (<["PHASE3_LOG_DIR" := log_dir]> (with_pythonpath environ root)) w = (Ok runner, w1) →
  ∃ r restarted w', managed_failure_rejoin tb _hash environ root host ports managed_command log_dir w = (r, w') ∧
    managed_body tb _hash environ root host ports log_dir runner (None, w1) = (r, restarted) ∧
    is_Some (returncode tb runner w') ∧ (∀ p, restarted.1 = Some p → is_Some (returncode tb p w')) ∧
    (r = Ok tt → ∃ key initial failed owner rejoined,
       executed_by host ports key "node-2" ∧ saw failed "node-2" ∧ status failed ∈ [SUSPECT; DEAD] ∧
       owner ≠ "node-2" ∧ executed_by host ports key owner ∧
       saw initial "node-2" ∧ saw rejoined "node-2" ∧ status rejoined = ALIVE ∧ incarnation initial < incarnation rejoined).
Proof.
  intros Es. unfold managed_failure_rejoin. rewrite (M_bind_Ok _ _ _ _ _ Es). unfold with_restarted, finally.
  destruct (managed_body tb _hash environ root host ports log_dir runner (None, w1)) as [r s] eqn:Eb.
  destruct (cleanup_ends Hos runner s) as (w' & Ec & Hr & Hp). rewrite Ec. exists r, s, w'. split_and!; [done..|].
  intros ->. destruct (managed_pass_is_evidence _ _ _ Eb) as (key & initial & failed & owner & rejoined & H).
  exists key, initial, failed, owner, rejoined. tauto.
Qed.
End managed.
End spec.
End SmokeSpec.

(** ** A cluster that behaves *)
Module SmokeSample.
Import SmokeSpec.

(** The stage of the story: before the kill, after it, after the restart; the processes
    that have ended; how many were started. *)
Record world := World { stage : nat; gone : gset nat; spawned : nat; clock : Z; output : list string }.

Fixpoint sum_bytes (s : string) (acc : Z) : Z :=
  match s with EmptyString => acc | String a s => sum_bytes s ((acc * 31 + Z.of_N (N_of_ascii a)) mod 65521) end.
Definition hash (s : string) : Z := (sum_bytes s 7 * 40503) mod 65536.

Definition view (n : nat) : list ClusterMember.t :=
  [ClusterMember.mk "node-0" "127.0.0.1" 18000 ALIVE 1; ClusterMember.mk "node-1" "127.0.0.1" 18001 ALIVE 1;
   match n with
   | O => ClusterMember.mk "node-2" "127.0.0.1" 18002 ALIVE 1
   | 1%nat => ClusterMember.mk "node-2" "127.0.0.1" 18002 SUSPECT 1
   | _ => ClusterMember.mk "node-2" "127.0.0.1" 18002 ALIVE 2
   end].

Definition whois (n : nat) (key : string) : json :=
  match (ring ← build_ring hash (view n); ConsistentHashRing.owner hash key ring) with
  | Ok m => JObj [("node_id", JStr (node_id m))]
  | Err _ => JNull
  end.

Definition pids : string := ("node-0=10" +:+ String "010" ("node-1=11" +:+ String "010" ("node-2=12" +:+ String "010" "")))%string.

Definition testbed : Testbed world := {|
  now := clock;
  time_ns w := 0;
  pause d := modifyM (λ w, World (stage w) (gone w) (spawned w) (clock w + d) (output w));
  ping peer _ := gets (λ w, mkAckData true (node_id peer) (view (stage w)));
  request _ _ _ _ key := gets (λ w, whois (stage w) key);
  crdt_client _ := mret O;
  call _ _ _ := raiseM RuntimeError "unused";
  spawn _ _ := λ w, (Ok (spawned w), World (if decide (spawned w = O) then stage w else 2%nat) (gone w) (S (spawned w)) (clock w) (output w));
  returncode p w := if decide (p ∈ gone w) then Some 0 else None;
  terminate p := modifyM (λ w, World (stage w) ({[p]} ∪ gone w) (spawned w) (clock w) (output w));
  kill p := modifyM (λ w, World (stage w) ({[p]} ∪ gone w) (spawned w) (clock w) (output w));
  ended_within p _ := gets (λ w, bool_decide (p ∈ gone w));
  join_process _ := mret tt;
  signal _ _ := modifyM (λ w, World 1 (gone w) (spawned w) (clock w) (output w));
  read_text _ w := Some pids;
  print line := modifyM (λ w, World (stage w) (gone w) (spawned w) (clock w) (output w ++ [line]));
|}.

Lemma testbed_processes : processes_ok testbed.
Proof.
  split; simpl.
  - intros p w. eexists. split; [reflexivity|]. intros q. simpl. repeat case_decide; try done. set_solver.
  - intros p w. eexists. split; [reflexivity|]. split; [intros q; simpl; repeat case_decide; try done; set_solver|].
    intros _. eexists. split; [|by intros q]. unfold gets. simpl. by rewrite bool_decide_eq_true_2 by set_solver.
  - intros p t w. exists (bool_decide (p ∈ gone w)), w. split; [done|]. split; [by intros q|]. intros H%bool_decide_eq_true.
    by rewrite decide_True.
Qed.

Definition before : world := World 0 ∅ 0 0 [].
Definition outcome := managed_failure_rejoin testbed hash ∅ "/repo" "127.0.0.1" [18000; 18001; 18002] ["run"] "/logs" before.

Lemma managed_run_honest_witness : ∃ w' key owner, outcome = (Ok tt, w') ∧ is_Some (returncode testbed 0%nat w') ∧
  owner ≠ "node-2" ∧ executed_by testbed "127.0.0.1" [18000; 18001; 18002] key owner.
Proof.
  destruct (managed_run_honest testbed hash ∅ "/repo" "127.0.0.1" [18000; 18001; 18002] ["run"] "/logs" testbed_processes before 0%nat
    (World 0 ∅ 1 0 []) eq_refl) as (r & restarted & w' & E & _ & Hr & _ & Hev).
  assert (outcome.1 = Ok tt) as Hok by (vm_compute; reflexivity). unfold outcome in *. rewrite E in Hok. simpl in Hok. subst r.
  destruct (Hev eq_refl) as (key & initial & failed & owner & rejoined & _ & _ & _ & Ho & Hx & _).
  exists w', key, owner. split_and!; [exact E|exact Hr|exact Ho|exact Hx].
Defined.
End SmokeSample.
