(* ===== verification/Restart.v ===== *)
(** * Secure cluster checks: [scripts/phase5_restart_smoke.py], [phase5_smoke.py], [phase5_etcd_smoke.py]

    The programs that check persistence, mutual TLS and coordination of a running cluster:
    a node is killed and restarted and must come back as the same durable actor, strangers
    must be turned away, and an outage of etcd must not stop the data plane.  Beyond the
    [Testbed] of the cluster checks, the databases, etcd and the subprocess calls are
    parameters. *)

From Stdlib Require Import Ascii.
From S2P Require Import Prelude Lattice Causal Json Crdt Storage Resilience Membership Ring Proto Protocol Cluster CrdtCodec.
From S2P Require Import Outbox Repair AntiEntropy CrdtService Persistence Repository DurableStore Recovery PeerClient Node Rpc.
From S2P Require Import Coordination Startup Client Observability Observed Config Security Bootstrap Smoke.

Local Open Scope Z_scope.
Import CrdtClient (CrdtResult, result_value, result_token).

(** ** The PID file *)
Module PidFile.
Definition parse_line (line : string) : option (result (string * Z)) :=
  if negb (nonempty line) then None
  else
    match split_first "=" line with
    | None => None
    | Some (key, value) =>
        Some (match py_int value with Some pid => Ok (key, pid) | None => raise ValueError "invalid literal for int()" end)
    end.

Definition parse_pid_file : string → result (gmap string Z) := collect_pids parse_line.

Definition newline : string := String LF "".

(** [f"{name}={value}\n" for name, value in sorted(pids.items())] *)
Definition render (pids : gmap string Z) : string :=
  foldr (λ nv text, nv.1 +:+ "=" +:+ str_of_int nv.2 +:+ newline +:+ text)%string "" (sorted_items pids).

(** What [replace_pid] leaves in the file. *)
Definition replace_pid (text : string) (node_id : string) (pid : Z) : result string :=
  pids ← parse_pid_file text; Ok (render (<[node_id := pid]> pids)).
End PidFile.

(** ** [is_transient_rejoin_error], [read_durable_identity] and the child's environment *)
Definition is_transient_rejoin_error (code : Z) : bool := bool_decide (code ∈ [pb.RECOVERY_IN_PROGRESS; pb.CAUSAL_UNAVAILABLE]).

Definition read_durable_identity (d : SQLiteStateRepository.db) : result (string * Z * Z) :=
  match SQLiteStateRepository.node_identity d, SQLiteStateRepository.causal_clock d with
  | Some identity, Some clock =>
      Ok (DurableNodeIdentity.node_uuid identity, DurableNodeIdentity.causal_incarnation identity, SQLiteStateRepository.row_counter clock)
  | _, _ => raise AssertionError "durable identity/clock missing"
  end.

(** [env.get(name, default)] *)
Definition inherited (environ : gmap string string) (name default_ : string) : string * string := (name, default default_ (environ !! name)).

Definition node_env (environ : gmap string string) (root log_dir cert_dir node_id : string) (port : Z) : gmap string string :=
  list_to_map
    [("NODE_ID", node_id); ("NODE_HOST", "127.0.0.1"); ("NODE_PORT", str_of_int port); ("CPU_WORKERS", "1");
     ("CPU_QUEUE_CAPACITY", "100"); ("RATE_LIMIT_RPS", "500"); ("RATE_LIMIT_BURST", "100"); ("REQUEST_TIMEOUT_SECONDS", "5");
     ("CLUSTER_ENABLED", "true"); ("CLUSTER_SEEDS", ""); ("CLUSTER_VIRTUAL_NODES", "64");
     ("CLUSTER_PROBE_INTERVAL_SECONDS", "0.5"); inherited environ "CLUSTER_PING_TIMEOUT_SECONDS" "0.75";
     inherited environ "CLUSTER_INDIRECT_TIMEOUT_SECONDS" "1.50"; ("CLUSTER_INDIRECT_PROBE_COUNT", "2");
     inherited environ "CLUSTER_SUSPICION_TIMEOUT_SECONDS" "4.0"; ("CLUSTER_DEAD_RETENTION_SECONDS", "10");
     ("CLUSTER_GOSSIP_INTERVAL_SECONDS", "0.5"); ("CRDT_ENABLED", "true"); ("CRDT_REPLICATION_FACTOR", "3");
     ("CRDT_REPLICATION_QUEUE_CAPACITY", "500"); ("CRDT_REPLICATION_WORKERS", "1"); ("CRDT_REPLICATION_RETRY_MAX_ATTEMPTS", "3");
     ("CRDT_REPLICATION_RETRY_BASE_DELAY_SECONDS", "0.05"); ("CRDT_REPLICATION_RETRY_MAX_DELAY_SECONDS", "0.5");
     ("CRDT_ANTI_ENTROPY_INTERVAL_SECONDS", "1.0"); ("CRDT_ANTI_ENTROPY_BATCH_SIZE", "100"); ("PERSISTENCE_ENABLED", "true");
     ("PERSISTENCE_DB_PATH", (log_dir +:+ "/data/" +:+ node_id +:+ ".db")%string); ("PERSISTENCE_QUEUE_CAPACITY", "100");
     ("PERSISTENCE_BUSY_TIMEOUT_SECONDS", "5"); ("PERSISTENCE_SQLITE_SYNCHRONOUS", "NORMAL"); ("ETCD_ENABLED", "true");
     inherited environ "ETCD_ENDPOINTS" "http://127.0.0.1:2379"; inherited environ "ETCD_NAMESPACE" "/distsys/v1";
     inherited environ "ETCD_LEASE_TTL_SECONDS" "6"; inherited environ "ETCD_RENEW_INTERVAL_SECONDS" "2";
     ("TLS_ENABLED", "true"); ("MTLS_REQUIRED", "true"); ("TLS_CA_FILE", (cert_dir +:+ "/ca/ca.crt")%string);
     ("TLS_CERT_FILE", (cert_dir +:+ "/" +:+ node_id +:+ "/node.crt")%string);
     ("TLS_KEY_FILE", (cert_dir +:+ "/" +:+ node_id +:+ "/node.key")%string); ("TLS_MIN_VERSION", "TLSv1.3");
     inherited environ "LOG_LEVEL" "INFO"]
  ∪ with_pythonpath environ root.

(** The TLS context of the scripts' clients. *)
Definition client_context (read_chain : string → string → result unit) (read_ca : string → result unit)
    (cert_dir identity : string) : result SSLContext.t :=
  context ← create_default_context read_ca (cert_dir +:+ "/ca/ca.crt");
  load_cert_chain read_chain (cert_dir +:+ "/" +:+ identity +:+ "/node.crt") (cert_dir +:+ "/" +:+ identity +:+ "/node.key")
    (set_minimum_version TLSv1_3 context).

(** ** The world of these scripts *)
Record Site (W : Type) := {
  bed : Testbed W;
  (** the database at a path, when there is one *)
  database : string → W → option SQLiteStateRepository.db;
  (** [client.connect()], [client.discover_members()] and [client.close()] of a new etcd client *)
  discover_members : M W (list CoordinationMember.t);
  (** [create_subprocess_exec(...)] and [communicate()]: the exit code *)
  subprocess_exec : list string → M W Z;
  (** what a plain-text request on the port receives *)
  plaintext : Z → M W string;
}.
Arguments bed {_} _.
Arguments database {_} _ _ _.
Arguments discover_members {_} _ _.
Arguments subprocess_exec {_} _ _ _.
Arguments plaintext {_} _ _ _.

(** [run_command] *)
Definition run_command {W} (site : Site W) (args : list string) : M W unit :=
  code ← subprocess_exec site args; if code =? 0 then mret tt else raiseM RuntimeError "command failed".

Section restart.
Context {W : Type} (site : Site W) (environ : gmap string string) (root log_dir cert_dir : string).

Definition db_path : string := (log_dir +:+ "/data/node-2.db")%string.
Definition pids_env : string := (log_dir +:+ "/pids.env")%string.

Definition durable_identity : M W (string * Z * Z) :=
  reads (λ w, match database site db_path w with
              | Some d => read_durable_identity d
              | None => raise SqliteError "no such table: node_identity"
              end).

Definition discover_member (name : string) : M W (option CoordinationMember.t) :=
  members ← discover_members site; mret (List.find (λ m, bool_decide (CoordinationMember.node_id m = name)) members).

Definition wait_member (name : string) (present : bool) (timeout : Z) : M W (option CoordinationMember.t) :=
  wait_until (now (bed site)) (pause (bed site))
    (last ← catchM (discover_member name) [CoordinationUnavailableError; ConnectionError; OSError; TimeoutError] (λ _, mret None);
     mret (if bool_decide (is_Some last) then if present then Some last else None else if present then None else Some last)) 250 timeout
    (raiseM TimeoutError ("member " +:+ name +:+ " did not reach present")).

Definition secure_client (port : Z) (server : string) : M W nat :=
  crdt_client (bed site) (mkClientArgs "127.0.0.1" port "crdt-client" (Some "crdt-client") (Some server)).

(** The loop that reads the value from the restarted node; [last] is the variable
    [value]. *)
Definition read_attempt (reader : nat) (key : string) (token : CausalToken.t) : M (option CrdtResult * W) (option (option CrdtResult)) := λ s,
  match call (bed site) reader (ReadKey key) (Some token) s.2 with
  | (Ok value, w) => (Ok (if bool_decide (result_value value = JInt 3) then Some (Some value) else None), (Some value, w))
  | (Err e, w) =>
      if isinstance e [RemoteCrdtError]
      then if is_transient_rejoin_error (exn_code e) then (Ok None, (s.1, w)) else (Err e, (s.1, w))
      else if isinstance e [ConnectionError; OSError; TimeoutError] then (Ok None, (s.1, w))
      else (Err e, (s.1, w))
  end.

Definition await_value (reader : nat) (key : string) (token : CausalToken.t) : M W (option CrdtResult) := λ w,
  match wait_until (λ s : option CrdtResult * W, now (bed site) s.2) (λ d, outside (pause (bed site) d))
          (read_attempt reader key token) 250 12000 (gets fst) (None, w) with
  | (r, (_, w)) => (r, w)
  end.

Definition outage_write (pid : Z) : M W (string * CausalToken.t) :=
  writer ← secure_client 18000 "node-0";
  key ← gets (λ w, ("phase5.restart." +:+ str_of_int (time_ns (bed site) w))%string);
  first ← call (bed site) writer (Increment key 1 GCOUNTER) None;
  _ ← signal (bed site) pid "SIGKILL";
  _ ← wait_member "node-2" false 20000;
  advanced ← call (bed site) writer (Increment key 2 GCOUNTER) (Some (result_token first));
  if bool_decide (result_value advanced = JInt 3) then mret (key, result_token advanced)
  else raiseM AssertionError "write during node-2 outage did not succeed".

Definition the_registration (why : string) (m : option CoordinationMember.t) : M W CoordinationMember.t :=
  match m with Some m => mret m | None => raiseM AssertionError why end.

Definition compare_identity (before after : string * Z * Z) : result unit :=
  if negb (bool_decide (after.1.1 = before.1.1)) then raise AssertionError "durable node UUID changed across restart"
  else if negb (bool_decide (after.1.2 = before.1.2)) then raise AssertionError "durable causal actor changed across restart"
  else if after.2 <? before.2 then raise AssertionError "durable causal counter regressed"
  else Ok tt.

Definition RESTART_PASSED : list string :=
  ["phase5_restart_durable_state=PASS"; "phase5_restart_new_swim_epoch=PASS"; "phase5_restart_same_causal_actor=PASS";
   "phase5_restart_reconciliation=PASS"].

(** [main_async]; [write_pids] replaces the PID file. *)
Definition restart_check (write_pids : string → M W unit) : M W unit :=
  text ← reads (λ w, match read_text (bed site) pids_env w with Some t => Ok t | None => raise OSError "no such file" end);
  pids ← liftM (PidFile.parse_pid_file text);
  pid ← liftM (match pids !! "node-2" with Some pid => Ok pid | None => raise RuntimeError "node-2 PID is missing" end);
  before ← durable_identity;
  found ← wait_member "node-2" true 5000;
  member_before ← the_registration "node-2 disappeared before restart verification" found;
  '(key, token) ← outage_write pid;
  restarted ← spawn (bed site) ["python"; "-m"; "distsys.main"] (node_env environ root log_dir cert_dir "node-2" 18002);
  text ← reads (λ w, match read_text (bed site) pids_env w with Some t => Ok t | None => raise OSError "no such file" end);
  text ← liftM (PidFile.replace_pid text "node-2" (Z.of_nat restarted));
  _ ← write_pids text;
  found ← wait_member "node-2" true 12000;
  member_after ← the_registration "node-2 disappeared after restart" found;
  if CoordinationMember.membership_incarnation member_after <=? CoordinationMember.membership_incarnation member_before
  then raiseM AssertionError "node-2 SWIM incarnation did not advance"
  else
    reader ← secure_client 18002 "node-2";
    value ← await_value reader key token;
    if negb (bool_decide (result_value <$> value = Some (JInt 3)))
    then raiseM AssertionError "restarted node did not reconcile durable state"
    else after ← durable_identity; _ ← liftM (compare_identity before after); iterM (print (bed site)) RESTART_PASSED.
End restart.

(** ** [scripts/phase5_smoke.py] *)
Section phase5.
Context {W : Type} (site : Site W) (cert_dir data_dir : string).

Definition client (port : Z) : M W nat :=
  crdt_client (bed site) (mkClientArgs "127.0.0.1" port "crdt-client" (Some (cert_dir +:+ "/crdt-client"))
    (Some ("node-" +:+ str_of_int (port - 18000)))).

Definition verify_database (path : string) : M W unit :=
  d ← gets (database site path);
  match d with
  | None => raiseM AssertionError ("missing durable database: " +:+ path)
  | Some d =>
      if negb (bool_decide (foldr Z.max 0 (SQLiteStateRepository.schema_migrations d) = 1))
      then raiseM AssertionError ("expected schema version 1 in " +:+ path)
      else if bool_decide (SQLiteStateRepository.node_identity d = None)
      then raiseM AssertionError ("missing durable node identity in " +:+ path)
      else mret tt
  end.

(** [ssl.SSLError] is an [OSError]. *)
Definition TRANSPORT_ERRORS : list exn_class := [OSError; ConnectionError; IncompleteReadError].

(** [while True: try: return ... except ...; if loop.time() >= deadline: raise TimeoutError; sleep(0.1)] *)
Fixpoint read_loop (fuel : nat) (reader : nat) (key : string) (token : CausalToken.t) (deadline : Z) : M W CrdtResult := λ w,
  match fuel with
  | O => (raise RuntimeError "out of rounds", w)
  | Datatypes.S fuel =>
      match call (bed site) reader (ReadKey key) (Some token) w with
      | (Ok value, w) => (Ok value, w)
      | (Err e, w) =>
          let retry w :=
            if deadline <=? now (bed site) w then (raise TimeoutError "node did not become ready for secure read", w)
            else (_ ← pause (bed site) 100; read_loop fuel reader key token deadline) w in
          if isinstance e [RemoteCrdtError]
          then if is_transient_rejoin_error (exn_code e) then retry w else (Err e, w)
          else if isinstance e TRANSPORT_ERRORS then retry w
          else (Err e, w)
      end
  end.

Definition read_when_ready (reader : nat) (key : string) (token : CausalToken.t) (timeout : Z) : M W CrdtResult := λ w,
  read_loop (Datatypes.S (rounds timeout 100)) reader key token (now (bed site) w + timeout) w.

Definition PASSED5 : list string := ["phase5_mtls_cluster=PASS"; "phase5_durable_crdts=PASS"; "phase5_schema_v1=PASS"].

Definition verify_positive_flow (ports : Z * Z * Z) : M W unit :=
  suffix ← gets (λ w, str_of_int (time_ns (bed site) w));
  let key kind := ("phase5." +:+ kind +:+ "." +:+ suffix)%string in
  writer ← client ports.1.1;
  views ← call (bed site) writer (Increment (key "views") 2 GCOUNTER) None;
  remote ← client ports.2;
  read ← read_when_ready remote (key "views") (result_token views) 20000;
  _ ← expect_value read (JInt 2) "expected remote GCounter 2";
  pn ← call (bed site) writer (Increment (key "balance") 7 PNCOUNTER) None;
  pn ← call (bed site) writer (Decrement (key "balance") 2) (Some (result_token pn));
  _ ← expect_value pn (JInt 5) "expected PNCounter 5";
  tags ← call (bed site) writer (Add (key "tags") "python") None;
  tags ← call (bed site) writer (Add (key "tags") "distributed") (Some (result_token tags));
  tags ← call (bed site) writer (Remove (key "tags") "python") (Some (result_token tags));
  _ ← expect_value tags (JList [JStr "distributed"]) "unexpected ORSet value";
  register ← call (bed site) writer (WriteRegister (key "status") (JObj [("state", JStr "secure")])) None;
  _ ← expect_value register (JList [JObj [("state", JStr "secure")]]) "unexpected MVRegister value";
  _ ← pause (bed site) 500;
  _ ← iterM (λ n, verify_database (data_dir +:+ "/" +:+ n +:+ ".db")) NODE_IDS;
  iterM (print (bed site)) PASSED5.

(** [try: await client.read(...) except (...): pass else: raise AssertionError(why)] *)
Definition must_be_refused (c : nat) (why : string) : M W unit := λ w,
  match call (bed site) c (ReadKey "does-not-matter") None w with
  | (Ok _, w) => (raise AssertionError why, w)
  | (Err e, w) => if isinstance e TRANSPORT_ERRORS then (Ok tt, w) else (Err e, w)
  end.

Definition verify_negative_tls (root wrong : string) (port : Z) : M W unit :=
  _ ← run_command site ["bash"; (root +:+ "/scripts/generate_dev_certs.sh")%string; wrong];
  wrong_client ← crdt_client (bed site) (mkClientArgs "127.0.0.1" port "crdt-client" (Some (wrong +:+ "/crdt-client")) (Some "node-0"));
  _ ← must_be_refused wrong_client "unknown CA connection unexpectedly succeeded";
  _ ← print (bed site) "phase5_unknown_ca_rejected=PASS";
  impersonator ← crdt_client (bed site) (mkClientArgs "127.0.0.1" port "node-1" (Some (cert_dir +:+ "/node-2")) (Some "node-0"));
  _ ← must_be_refused impersonator "wrong logical node identity unexpectedly succeeded";
  _ ← print (bed site) "phase5_wrong_node_identity_rejected=PASS";
  data ← plaintext site port;
  if bool_decide (data ≠ "") then raiseM AssertionError "plaintext request received TLS application data"
  else print (bed site) "phase5_plaintext_rejected=PASS".

Definition secure_smoke (root wrong : string) (ports : Z * Z * Z) : M W unit :=
  _ ← verify_positive_flow ports; verify_negative_tls root wrong ports.1.1.
End phase5.

(** ** [scripts/phase5_etcd_smoke.py] *)
Section etcd.
Context {W : Type} (site : Site W) (compose : string).

Definition run_docker_compose (args : list string) : M W unit := run_command site (["docker"; "compose"; "-f"; compose] ++ args).

Definition wait_for_registrations (expected : gset string) (timeout : Z) : M W unit :=
  wait_until (now (bed site)) (pause (bed site))
    (catchM (members ← discover_members site;
             mret (if bool_decide (expected ⊆ list_to_set (CoordinationMember.node_id <$> members)) then Some tt else None))
       [CoordinationUnavailableError; ConnectionError; OSError; TimeoutError] (λ _, mret None)) 400 timeout
    (raiseM TimeoutError "etcd member registrations did not recover").

Definition etcd_outage_check (outage_wait : Z) : M W unit :=
  _ ← run_docker_compose ["stop"; "etcd"];
  _ ← pause (bed site) outage_wait;
  c ← secure_client site 18000 "node-0";
  key ← gets (λ w, ("phase5.etcd.outage." +:+ str_of_int (time_ns (bed site) w))%string);
  result ← call (bed site) c (Increment key 1 GCOUNTER) None;
  _ ← expect_value result (JInt 1) "data-plane write failed during etcd outage";
  read ← call (bed site) c (ReadKey key) (Some (result_token result));
  _ ← expect_value read (JInt 1) "data-plane read failed during etcd outage";
  _ ← print (bed site) "phase5_etcd_degraded_data_plane=PASS";
  _ ← run_docker_compose ["start"; "etcd"];
  _ ← wait_for_registrations {["node-0"; "node-1"; "node-2"]} 15000;
  print (bed site) "phase5_etcd_registration_recovered=PASS".
End etcd.

(** ** What the checks establish *)
Module RestartSpec.
Import PidFile BootstrapSpec SmokeSpec.

(** *** Numbers as text *)
Fixpoint uint_value (d : Decimal.uint) (acc : Z) : Z :=
  match d with
  | Decimal.Nil => acc
  | Decimal.D0 d => uint_value d (10 * acc) | Decimal.D1 d => uint_value d (10 * acc + 1) | Decimal.D2 d => uint_value d (10 * acc + 2)
  | Decimal.D3 d => uint_value d (10 * acc + 3) | Decimal.D4 d => uint_value d (10 * acc + 4) | Decimal.D5 d => uint_value d (10 * acc + 5)
  | Decimal.D6 d => uint_value d (10 * acc + 6) | Decimal.D7 d => uint_value d (10 * acc + 7) | Decimal.D8 d => uint_value d (10 * acc + 8)
  | Decimal.D9 d => uint_value d (10 * acc + 9)
  end.

Lemma parse_digits_uint d acc : parse_digits (DecimalString.NilEmpty.string_of_uint d) acc true = Some (uint_value d acc).
Proof. revert acc. induction d as [|d IH|d IH|d IH|d IH|d IH|d IH|d IH|d IH|d IH|d IH]; intros acc; [done|..]; simpl; rewrite ?Z.add_0_r; apply IH. Qed.

Lemma parse_digits_first d acc : d ≠ Decimal.Nil → parse_digits (DecimalString.NilEmpty.string_of_uint d) acc false = Some (uint_value d acc).
Proof. intros Hd. destruct d; [done|..]; simpl; rewrite ?Z.add_0_r; apply parse_digits_uint. Qed.

Lemma uint_value_pos d p : uint_value d (Z.pos p) = Z.pos (Pos.of_uint_acc d p).
Proof. revert p. induction d; intros p; [done|..]; cbn [uint_value Pos.of_uint_acc]; rewrite <-IHd; f_equal; lia. Qed.

Lemma uint_value_of d : uint_value d 0 = Z.of_uint d.
Proof.
  unfold Z.of_uint. induction d; [done|exact IHd|..]; cbn [uint_value Pos.of_uint]; change (10 * 0) with 0; rewrite Z.add_0_l;
    apply uint_value_pos.
Qed.

Fixpoint no_space (s : string) : bool := match s with EmptyString => true | String a s => negb (is_space a) && no_space s end.

Lemma no_space_app s t : no_space (s +:+ t)%string = no_space s && no_space t.
Proof. induction s as [|a s IH]; [done|]. rewrite app_cons. simpl. rewrite IH. by rewrite andb_assoc. Qed.

Lemma lstrip_no_space s : no_space s = true → lstrip s = s.
Proof. destruct s as [|a s]; [done|]. simpl. by destruct (is_space a). Qed.

Lemma rev_string_rev s a b : rev_string (rev_string s a) b = rev_string a (s +:+ b)%string.
Proof. revert a. induction s as [|c s IH]; intros a; [done|]. simpl. rewrite IH. done. Qed.

Lemma no_space_rev s a : no_space (rev_string s a) = no_space s && no_space a.
Proof. revert a. induction s as [|c s IH]; intros a; [done|]. simpl. rewrite IH. simpl. by destruct (is_space c), (no_space s). Qed.

Lemma strip_no_space s : no_space s = true → strip s = s.
Proof.
  intros H. unfold strip. rewrite (lstrip_no_space s H), lstrip_no_space by (rewrite no_space_rev, H; done).
  rewrite rev_string_rev. simpl. apply app_nil_end.
Qed.

Lemma no_space_uint d : no_space (DecimalString.NilEmpty.string_of_uint d) = true.
Proof. by induction d. Qed.

Lemma no_space_int z : no_space (str_of_int z) = true.
Proof.
  assert (∀ d, no_space (DecimalString.NilZero.string_of_uint d) = true) as H by (intros d; pose proof (no_space_uint d); by destruct d).
  unfold str_of_int. destruct (Z.to_int z); simpl; apply H.
Qed.

(** [int(str(z))] is [z]. *)
Lemma py_int_str z : py_int (str_of_int z) = Some z.
Proof.
  unfold py_int. rewrite strip_no_space by apply no_space_int. rewrite <-(DecimalZ.of_to z) at 2. unfold str_of_int.
  assert (∀ d, parse_digits (DecimalString.NilZero.string_of_uint d) 0 false = Some (Z.of_uint d)) as Hd.
  { intros d. rewrite <-uint_value_of. destruct d; [done|..]; by apply (parse_digits_first (_ _)). }
  assert (∀ d, ∃ a r, DecimalString.NilZero.string_of_uint d = String a r ∧ a ≠ "-"%char ∧ a ≠ "+"%char) as Hh.
  { intros d. destruct d; simpl; eexists _, _; (split; [reflexivity|done]). }
  destruct (Z.to_int z) as [d|d]; cbn [DecimalString.NilZero.string_of_int Z.of_int].
  - destruct (Hh d) as (a & r & E & H1 & H2). specialize (Hd d). rewrite E in *. by rewrite decide_False, decide_False.
  - rewrite decide_True by done. by rewrite Hd.
Qed.

(** *** The PID file *)
Fixpoint no_char (c : ascii) (s : string) : bool := match s with EmptyString => true | String a s => bool_decide (a ≠ c) && no_char c s end.

Lemma no_char_lf s : no_char LF s = no_lf s.
Proof. by induction s as [|a s IH]; simpl; [|rewrite IH]. Qed.

Lemma lines_first x rest cur : no_lf x = true → lines (x +:+ newline +:+ rest)%string cur = (cur +:+ x)%string :: lines rest "".
Proof.
  revert cur. induction x as [|a x IH]; intros cur Hx.
  - rewrite app_nil_end. done.
  - simpl in Hx. apply andb_true_iff in Hx as [Ha Hx]. apply bool_decide_eq_true in Ha. rewrite app_cons. cbn [lines].
    rewrite decide_False by done. rewrite IH by done. by rewrite app_assoc'.
Qed.

Lemma split_first_app c x y : no_char c x = true → split_first c (x +:+ String c y)%string = Some (x, y).
Proof.
  induction x as [|a x IH]; intros Hx; [rewrite app_nil; cbn [split_first]; by rewrite decide_True|]. simpl in Hx. apply andb_true_iff in Hx as [Ha Hx].
  apply bool_decide_eq_true in Ha. rewrite app_cons. cbn [split_first]. rewrite decide_False by done. by rewrite IH.
Qed.

Lemma omap_cons {A B} (f : A → option B) x l : omap f (x :: l) = match f x with Some y => y :: omap f l | None => omap f l end.
Proof. done. Qed.

Definition plain_name (n : string) : Prop := no_char "=" n = true ∧ no_lf n = true.

Lemma parse_line_render n z : no_char "=" n = true → parse_line (n +:+ "=" +:+ str_of_int z)%string = Some (Ok (n, z)).
Proof.
  intros Hn. unfold parse_line, nonempty. rewrite bool_decide_eq_false_2 by (by destruct n). cbn [negb].
  change ("=" +:+ str_of_int z)%string with (String "=" (str_of_int z)). rewrite split_first_app by done. by rewrite py_int_str.
Qed.

(** Writing the PID file and reading it gives the PIDs back. *)
Lemma pid_file_roundtrip (pids : gmap string Z) : (∀ n z, pids !! n = Some z → plain_name n) → parse_pid_file (render pids) = Ok pids.
Proof.
  intros Hn. assert (Forall (λ nv : string * Z, plain_name nv.1) (sorted_items pids)) as Hf.
  { apply Forall_forall. intros [n z] Hin. apply elem_of_sorted_items in Hin. by eapply Hn. }
  unfold parse_pid_file, collect_pids, render.
  enough (mapM_result id (omap parse_line (lines (foldr (λ nv text, nv.1 +:+ "=" +:+ str_of_int nv.2 +:+ newline +:+ text)%string ""
    (sorted_items pids)) "")) = Ok (sorted_items pids)) as ->.
  { cbn [mbind result_bind]. f_equal. apply dict_of_sorted_items. }
  induction Hf as [|[n z] l [H1 H2] _ IH]; [done|]. cbn [fst] in H1, H2. cbn [foldr fst snd].
  replace (n +:+ "=" +:+ str_of_int z +:+ newline +:+ foldr (λ nv text, nv.1 +:+ "=" +:+ str_of_int nv.2 +:+ newline +:+ text) "" l)%string
    with ((n +:+ "=" +:+ str_of_int z) +:+ newline +:+ foldr (λ nv text, nv.1 +:+ "=" +:+ str_of_int nv.2 +:+ newline +:+ text) "" l)%string
    by (by rewrite !app_assoc').
  rewrite lines_first by (by rewrite !no_lf_app, H2, no_lf_str_of_int). rewrite app_nil.
  rewrite omap_cons, parse_line_render by done. revert IH. generalize (omap parse_line (lines (foldr
    (λ nv text, nv.1 +:+ "=" +:+ str_of_int nv.2 +:+ newline +:+ text)%string "" l) "")). intros o IH. simpl. by rewrite IH.
Qed.

(** Replacing one node's PID keeps the others. *)
Lemma replace_pid_spec (pids : gmap string Z) n z : (∀ n z, pids !! n = Some z → plain_name n) → plain_name n →
  ∃ text, replace_pid (render pids) n z = Ok text ∧ parse_pid_file text = Ok (<[n := z]> pids).
Proof.
  intros Hp Hn. unfold replace_pid. rewrite pid_file_roundtrip by done. eexists. split; [reflexivity|]. apply pid_file_roundtrip.
  intros k v Hk. apply lookup_insert_Some in Hk as [[<- _]|[_ Hk]]; [done|by eapply Hp].
Qed.

(** *** The restart *)
Section restart.
Context {W : Type} (site : Site W) (environ : gmap string string) (root log_dir cert_dir : string).

(** etcd listed this registration of the node. *)
Definition registered (name : string) (m : CoordinationMember.t) : Prop :=
  ∃ w w' l, discover_members site w = (Ok l, w') ∧ m ∈ l ∧ CoordinationMember.node_id m = name.

(** The node's database held this identity and counter. *)
Definition durable (x : string * Z * Z) : Prop :=
  ∃ w d, database site (db_path log_dir) w = Some d ∧ read_durable_identity d = Ok x.

Lemma durable_inv w x w' : durable_identity site log_dir w = (Ok x, w') → durable x.
Proof. unfold durable_identity, reads. destruct (database site (db_path log_dir) w) as [d|] eqn:Hd; [|done]. intros [= E _]. by exists w, d. Qed.

Lemma wait_member_present name timeout w m w' : wait_member site name true timeout w = (Ok (Some m), w') → registered name m.
Proof.
  intros E. apply wait_until_found in E as [[w1 E]|[w1 E]]; [|done]. apply CrdtService.M_bind_inv in E as (last & w2 & El & E).
  case_bool_decide; [|done]. injection E as -> _. unfold catchM in El.
  destruct (discover_member site name w1) as [[x|e] w3] eqn:Ed; [|destruct (isinstance _ _); discriminate]. injection El as -> _.
  unfold discover_member in Ed. apply CrdtService.M_bind_inv in Ed as (l & w4 & Ed & Ef). injection Ef as Ef _.
  apply List.find_some in Ef as [Hin Hb]. apply bool_decide_eq_true in Hb. exists w1, w4, l. split_and!; [done|by apply list_elem_of_In|done].
Qed.

Lemma registration_inv why o w m w' : the_registration (W:=W) why o w = (Ok m, w') → o = Some m.
Proof. unfold the_registration. destruct o; [|done]. by intros [= ->]. Qed.

(** A restart that passes has shown that the node came back as the same durable actor: its
    UUID and causal incarnation are those from before the kill, its counter has not gone
    back, its membership incarnation has advanced, and a read of the value that was
    written while it was down returned it. *)
Lemma restart_pass_is_evidence write_pids w w' : restart_check site environ root log_dir cert_dir write_pids w = (Ok tt, w') →
  ∃ before after old new,
    durable before ∧ durable after ∧ after.1 = before.1 ∧ before.2 ≤ after.2 ∧
    registered "node-2" old ∧ registered "node-2" new ∧
    CoordinationMember.membership_incarnation old < CoordinationMember.membership_incarnation new.
Proof.
  unfold restart_check. intros E. do 3 apply CrdtService.M_bind_inv in E as (? & ? & _ & E).
  apply CrdtService.M_bind_inv in E as (before & w1 & Eb & E). apply durable_inv in Eb.
  apply CrdtService.M_bind_inv in E as (o & w2 & Eo & E). apply CrdtService.M_bind_inv in E as (old & w3 & Er & E).
  apply registration_inv in Er as ->. apply wait_member_present in Eo.
  apply CrdtService.M_bind_inv in E as ([key token] & w4 & _ & E). do 4 apply CrdtService.M_bind_inv in E as (? & ? & _ & E).
  apply CrdtService.M_bind_inv in E as (o & w5 & En & E). apply CrdtService.M_bind_inv in E as (new & w6 & Er & E).
  apply registration_inv in Er as ->. apply wait_member_present in En.
  destruct (_ <=? _) eqn:Hle; [done|]. apply Z.leb_gt in Hle.
  do 2 apply CrdtService.M_bind_inv in E as (? & ? & _ & E). case_bool_decide; [|done]. cbn [negb] in E.
  apply CrdtService.M_bind_inv in E as (after & w7 & Ea & E). apply durable_inv in Ea.
  apply CrdtService.M_bind_inv in E as ([] & w8 & E & _). injection E as E _.
  unfold compare_identity in E. case_bool_decide as H1; [|done]. case_bool_decide as H2; [|done].
  destruct (after.2 <? before.2) eqn:Hc; [done|]. apply Z.ltb_ge in Hc.
  exists before, after, old, new. split_and!; [done|done| |done..]. destruct before as [[] ?], after as [[] ?]. simpl in *. by subst.
Qed.

(** Waiting for a member to disappear takes an etcd that cannot be reached for its
    absence. *)
Lemma unreachable_etcd_counts_as_absence name timeout w e w1 : 0 < timeout →
  discover_members site w = (Err e, w1) → isinstance e [CoordinationUnavailableError; ConnectionError; OSError; TimeoutError] = true →
  wait_member site name false timeout w = (Ok None, w1).
Proof.
  intros Ht Ed He. unfold wait_member, wait_until, rounds. cbn [poll]. rewrite (proj2 (Z.ltb_lt _ _)) by lia.
  unfold mbind, M_bind, catchM, discover_member. unfold mbind, M_bind. rewrite Ed, He. done.
Qed.
End restart.

(** *** Strangers *)

(** A server: the authority that signed its certificate, and the context it listens with. *)
Record Server := mkServer { authority : string; listens : SSLContext.t }.

(** The handshake seen from the client: the client verifies the server's chain before it
    presents its own certificate. *)
Definition dial (c : SSLContext.t) (server : Server) (presented : option certificate) (signed_by : string) : result Connection :=
  if bool_decide (SSLContext.verify_mode c = CERT_REQUIRED ∧ SSLContext.cafile c ≠ Some (authority server))
  then raise OSError "certificate verify failed"
  else accept (Some (listens server)) (mkPeer (Some (SSLContext.minimum_version c)) presented (bool_decide (signed_by = authority server))).

(** The check against an unknown authority uses a client that trusts only that authority:
    it fails in the client, whatever the server would accept. *)
Lemma unknown_ca_check_never_reaches_server read_chain read_ca wrong c server presented signed_by :
  client_context read_chain read_ca wrong "crdt-client" = Ok c → authority server ≠ (wrong +:+ "/ca/ca.crt")%string →
  ∃ text, dial c server presented signed_by = raise OSError text.
Proof.
  intros Hc Hs. unfold client_context, create_default_context, load_verify_locations, load_cert_chain in Hc.
  apply bind_Ok_inv in Hc as (c1 & H1 & Hc). apply bind_Ok_inv in H1 as (? & _ & H1). injection H1 as <-.
  apply bind_Ok_inv in Hc as (? & _ & Hc). injection Hc as <-. unfold dial. rewrite bool_decide_eq_true_2; [by eexists|].
  simpl. split; [done|]. intros [= E]. by apply Hs.
Qed.

(** *** The outage of etcd *)

(** When the data plane fails during the outage, the check ends without starting etcd
    again: the commands it ran are the stop alone. *)
Lemma failed_outage_check_leaves_etcd_stopped {W} (site : Site W) compose outage_wait w w1 w2 w3 c e :
  run_command site ["docker"; "compose"; "-f"; compose; "stop"; "etcd"] w = (Ok tt, w1) →
  pause (bed site) outage_wait w1 = (Ok tt, w2) → secure_client site 18000 "node-0" w2 = (Ok c, w3) →
  (∀ key w, call (bed site) c (Increment key 1 GCOUNTER) None w = (Err e, w)) →
  etcd_outage_check site compose outage_wait w = (Err e, w3).
Proof.
  intros H1 H2 H3 H4. unfold etcd_outage_check, run_docker_compose. cbn [app].
  rewrite (M_bind_Ok _ _ _ _ _ H1), (M_bind_Ok _ _ _ _ _ H2), (M_bind_Ok _ _ _ _ _ H3). unfold mbind, M_bind, gets. by rewrite H4.
Qed.

(** *** The restarted node's environment *)

(** It is accepted, and it is the secure profile with everything on. *)
Lemma restart_environment_is_secure : ∃ s, Settings.from_env (node_env ∅ "/repo" "/logs" "/certs" "node-2" 18002) = Ok s ∧
  (Settings.tls_enabled s && Settings.mtls_required s && Settings.cluster_enabled s && Settings.crdt_enabled s &&
   Settings.persistence_enabled s && Settings.etcd_enabled s) = true ∧ Settings.tls_cert_file s = "/certs/node-2/node.crt".
Proof. eexists. split; [vm_compute; reflexivity|]. by split. Qed.
End RestartSpec.
