(* ===== verification/Deploy.v ===== *)
(** * Deployment checks: [scripts/phase7/] and the monitoring checks of phase 6

    The programs that check a deployed cluster through [kubectl], HTTP and the clients:
    port forwards, polling, the values of a pass.  The commands, the HTTP client and the
    processes are parameters; what a forwarding process prints is the list of its events
    with their times. *)

From Stdlib Require Import Ascii.
From S2P Require Import Prelude Lattice Causal Json Crdt Storage Resilience Membership Ring Proto Protocol Cluster CrdtCodec.
From S2P Require Import Outbox Repair AntiEntropy CrdtService Persistence Repository DurableStore Recovery PeerClient Node Rpc.
From S2P Require Import Coordination Startup Client Observability Observed Config Chaos Smoke.

Local Open Scope Z_scope.
Import CrdtClient (CrdtResult, result_value, result_token).

Record Site (W : Type) := {
  bed : Testbed W;
  (** [subprocess.run(args, timeout=...)]: the exit code, the output and the errors *)
  subprocess_run : list string → Z → M W (Z * string * string);
  (** [urllib.request.urlopen(url)]: its decoded body, and its status *)
  http_text : string → M W string;
  http_status : string → M W Z;
  (** what a port forward will print from now on, and when *)
  prints : nat → W → list (Z * option string);
  (** name resolution, a connection, and the end of its closing, each with its time limit *)
  getaddrinfo : string → Z → Z → M W unit;
  open_connection : string → Z → Z → M W nat;
  wait_closed : nat → Z → M W unit;
}.
Arguments bed {_} _.
Arguments subprocess_run {_} _ _ _ _.
Arguments http_text {_} _ _ _.
Arguments http_status {_} _ _ _.
Arguments prints {_} _ _ _.
Arguments getaddrinfo {_} _ _ _ _ _.
Arguments open_connection {_} _ _ _ _ _.
Arguments wait_closed {_} _ _ _ _.

(** ** [verify_cluster.PortForward] *)
Module PortForward.

(** [mapping.split(":", 1)[0]] *)
Definition local_port (mapping : string) : string := match split_first ":" mapping with Some (p, _) => p | None => mapping end.

(** [f"Forwarding from 127.0.0.1:{port} ->" in line] *)
Definition announces (line port : string) : bool := contains ("Forwarding from 127.0.0.1:" +:+ port +:+ " ->")%string line.

(** [_wait_until_forwarding]: the lines that arrive until the process exits ([None]); a
    process that prints nothing more lets the time run out. *)
Fixpoint _wait_until_forwarding (expected observed : gset string) (deadline : Z) (events : list (Z * option string)) : result unit :=
  if decide (observed = expected) then Ok tt
  else
    match events with
    | [] => raise TimeoutError "kubectl port-forward did not bind local ports"
    | (at_, ev) :: events =>
        if deadline <=? at_ then raise TimeoutError "kubectl port-forward did not bind local ports"
        else
          match ev with
          | None => raise RuntimeError "kubectl port-forward exited early"
          | Some line =>
              _wait_until_forwarding expected (filter (λ p, announces line p = true) expected ∪ observed) deadline events
          end
    end.

Section forward.
Context {W : Type} (site : Site W) (namespace pod : string) (mappings : list string).

Definition _start : M W nat :=
  spawn (bed site) (["kubectl"; "-n"; namespace; "port-forward"; "--address"; "127.0.0.1"; ("pod/" +:+ pod)%string] ++ mappings) ∅.

Definition expected : gset string := list_to_set (local_port <$> mappings).

Definition __aenter__ : M W nat :=
  process ← _start;
  _ ← reads (λ w, _wait_until_forwarding expected ∅ (now (bed site) w + 10000) (prints site process w));
  code ← gets (returncode (bed site) process);
  match code with Some _ => raiseM RuntimeError "kubectl port-forward exited early" | None => mret process end.

(** [terminate], then [kill] when it does not end; [__aexit__] is called only after
    [__aenter__] returned. *)
Definition __aexit__ (process : nat) : M W unit :=
  _ ← terminate (bed site) process;
  ended ← ended_within (bed site) process 5000;
  if (ended : bool) then mret tt
  else
    _ ← kill (bed site) process;
    ended ← ended_within (bed site) process 5000;
    if (ended : bool) then mret tt else raiseM TimeoutExpired "kubectl".

(** [async with PortForward(...): body] *)
Definition within {A} (body : M W A) : M W A := process ← __aenter__; finally body (__aexit__ process).
End forward.
End PortForward.

(** ** [verify_cluster.py] *)
Section cluster.
Context {W : Type} (site : Site W).

Definition run (args : list string) (timeout : Z) : M W string :=
  '(code, out, err) ← subprocess_run site args timeout;
  if negb (code =? 0) then raiseM RuntimeError "command failed" else mret (strip out).

Definition get_json (url : string) : M W json :=
  text ← http_text site url;
  value ← liftM (loads text);
  match value with JObj _ => mret value | _ => raiseM TypeError "health response must be a JSON object" end.

(** [wait_http]: a connection that fails is tried again. *)
Definition wait_http {A} (get : M W A) (timeout : Z) : M W A :=
  wait_until (now (bed site)) (pause (bed site))
    (catchM (a ← get; mret (Some a)) [OSError] (λ _, mret None)) 200 timeout
    (raiseM TimeoutError "forwarded endpoint did not become ready").

(** [d.get(key)] of a JSON object *)
Definition field (key : string) (j : json) : json := match j with JObj kvs => py_get key kvs | _ => JNull end.

Definition local_url (port : Z) (path : string) : string := ("http://127.0.0.1:" +:+ str_of_int port +:+ path)%string.

(** Readiness and metrics of a node, on its forwarded observability port. *)
Definition check_observability (port : Z) : M W unit :=
  health ← wait_http (get_json (local_url port "/health/ready")) 15000;
  if negb (py_bool (field "readiness" health)) then raiseM AssertionError ("node on observability port " +:+ str_of_int port +:+ " is not ready")
  else
    metrics ← wait_http (http_text site (local_url port "/metrics")) 15000;
    if contains "distsys_requests_total" metrics then mret tt else raiseM AssertionError "expected distsys_requests_total metric".

Definition phase7_client (host : string) (port : Z) (identity : option string) (server : string) : M W nat :=
  crdt_client (bed site) (mkClientArgs host port "phase7-client" identity (Some server)).

(** A write on one node, read on another with the write's token. *)
Definition check_convergence (pod0 pod2 : string) : M W unit :=
  key ← gets (λ w, ("phase7.verify." +:+ str_of_int (time_ns (bed site) w))%string);
  writer ← phase7_client "127.0.0.1" 18000 (Some "phase7-client") pod0;
  written ← call (bed site) writer (Increment key 2 GCOUNTER) None;
  reader ← phase7_client "127.0.0.1" 18002 (Some "phase7-client") pod2;
  observed ← call (bed site) reader (ReadKey key) (Some (result_token written));
  expect_value observed (JInt 2) "cross-node CRDT value mismatch".

(** A client without a certificate must be turned away. *)
Definition check_rejection (pod0 : string) : M W unit := λ w,
  match (c ← phase7_client "127.0.0.1" 18000 None pod0; call (bed site) c (ReadKey "phase7.untrusted") None) w with
  | (Ok _, w) => (raise AssertionError "mTLS connection without a client identity unexpectedly succeeded", w)
  | (Err e, w) => if isinstance e [OSError; ConnectionError; IncompleteReadError] then (Ok tt, w) else (Err e, w)
  end.

Definition ready_replicas (statefulset : json) : Z :=
  match field "readyReplicas" (field "status" statefulset) with JInt z => z | _ => 0 end.

Definition PASS : json := JStr "pass".

Definition verify (git : bool) (namespace release : string) : M W json :=
  let name := (release +:+ "-distributed-system")%string in
  text ← run ["kubectl"; "-n"; namespace; "get"; "statefulset"; name; "-o"; "json"] 30000;
  statefulset ← liftM (loads text);
  let ready := ready_replicas statefulset in
  if negb (ready =? 3) then raiseM AssertionError ("expected 3 ready replicas, got " +:+ str_of_int ready)
  else
    let pod0 := (name +:+ "-0")%string in
    let pod2 := (name +:+ "-2")%string in
    _ ← PortForward.within site namespace pod0 ["18000:8000"; "19100:9100"] (
        PortForward.within site namespace pod2 ["18002:8000"; "19102:9100"] (
          _ ← iterM check_observability [19100; 19102];
          _ ← check_convergence pod0 pod2;
          check_rejection pod0));
    commit ← (if git then run ["git"; "rev-parse"; "HEAD"] 30000 else mret "workspace");
    mret (JObj [("schema_version", JInt 1); ("commit", JStr commit); ("chart_version", JStr "0.7.0"); ("ready_replicas", JInt ready);
                ("health", PASS); ("metrics", PASS); ("mtls_rejection", PASS); ("crdt_convergence", PASS)]).

(** ** [verify_persistence.py] *)

(** [for _ in range(n): try: run(...); break except RuntimeError: sleep(1) else: raise] *)
Fixpoint appears (n : nat) (look : M W string) : M W unit :=
  match n with
  | O => raiseM AssertionError "replacement pod did not appear within 60 seconds"
  | S n =>
      found ← catchM (_ ← look; mret true) [RuntimeError] (λ _, _ ← pause (bed site) 1000; mret false);
      if (found : bool) then mret tt else appears n look
  end.

Definition claim_of (namespace pod : string) : M W string :=
  run ["kubectl"; "-n"; namespace; "get"; "pod"; pod; "-o";
       "jsonpath={.spec.volumes[?(@.name=='data')].persistentVolumeClaim.claimName}"] 30000.

Definition verify_persistence (namespace release : string) : M W json :=
  let pod := (release +:+ "-distributed-system-2")%string in
  key ← gets (λ w, ("phase7.persistence." +:+ str_of_int (time_ns (bed site) w))%string);
  written ← PortForward.within site namespace pod ["18002:8000"] (
    client ← phase7_client "127.0.0.1" 18002 (Some "phase7-client") pod; call (bed site) client (Increment key 7 GCOUNTER) None);
  pvc ← claim_of namespace pod;
  if negb (nonempty pvc) then raiseM AssertionError "pod does not have a data PVC"
  else
    _ ← run ["kubectl"; "-n"; namespace; "delete"; "pod"; pod; "--wait=true"] 60000;
    _ ← appears 60 (run ["kubectl"; "-n"; namespace; "get"; "pod"; pod] 5000);
    _ ← run ["kubectl"; "-n"; namespace; "wait"; ("pod/" +:+ pod)%string; "--for=condition=Ready"; "--timeout=180s"] 190000;
    pvc_after ← claim_of namespace pod;
    if negb (bool_decide (pvc_after = pvc)) then raiseM AssertionError "PVC changed across pod replacement"
    else
      observed ← PortForward.within site namespace pod ["18002:8000"] (
        client ← phase7_client "127.0.0.1" 18002 (Some "phase7-client") pod;
        call (bed site) client (ReadKey key) (Some (result_token written)));
      _ ← expect_value observed (JInt 7) "persistent value mismatch";
      mret (JObj [("schema_version", JInt 1); ("persistence_restart", PASS); ("causal_read_after_restart", PASS);
                  ("pvc_bound", JBool true); ("same_pvc_reused", JBool true)]).

(** ** [verify_public_endpoint.py] *)

(** One round: the name resolves and the port accepts, within what is left of the time; the
    connection is closed again, and a close that fails is ignored. *)
Definition probe (host : string) (port deadline : Z) : M W (option unit) :=
  writer ← catchM (
    remaining ← gets (λ w, deadline - now (bed site) w);
    if remaining <=? 0 then mret None
    else
      _ ← getaddrinfo site host port remaining;
      remaining ← gets (λ w, deadline - now (bed site) w);
      if remaining <=? 0 then mret None
      else writer ← open_connection site host port (Z.min 5000 remaining); mret (Some writer))
    [OSError; TimeoutError] (λ _, mret None);
  match writer with
  | None => mret None
  | Some writer =>
      remaining ← gets (λ w, deadline - now (bed site) w);
      _ ← (if remaining <=? 0 then mret tt else catchM (wait_closed site writer remaining) [OSError; TimeoutError] (λ _, mret tt));
      mret (Some tt)
  end.

Definition pause_before (deadline d : Z) : M W unit :=
  remaining ← gets (λ w, deadline - now (bed site) w);
  if remaining <=? 0 then mret tt else pause (bed site) (Z.min d remaining).

Definition wait_for_endpoint (host : string) (port timeout poll_interval : Z) : M W unit := λ w,
  let deadline := now (bed site) w + timeout in
  wait_until (now (bed site)) (pause_before deadline) (probe host port deadline) poll_interval timeout
    (raiseM TimeoutError "public endpoint was not ready") w.

Definition verify_public (host : string) (port readiness_timeout poll_interval : Z) : M W json :=
  if (readiness_timeout <=? 0) || (poll_interval <=? 0) then raiseM SystemExit "readiness timeout and poll interval must be positive"
  else
    _ ← wait_for_endpoint host port readiness_timeout poll_interval;
    client ← phase7_client host port (Some "phase7-client") "phase7-public";
    key ← gets (λ w, ("phase7.public." +:+ str_of_int (time_ns (bed site) w))%string);
    written ← call (bed site) client (Increment key 1 GCOUNTER) None;
    observed ← call (bed site) client (ReadKey key) (Some (result_token written));
    _ ← expect_value observed (JInt 1) "external CRDT mismatch";
    mret (JObj [("schema_version", JInt 1); ("external_endpoint", PASS); ("mtls", PASS); ("crdt", PASS)]).

(** ** [phase6_observability_smoke.py] *)

Definition observability_check (port : Z) : M W unit :=
  text ← http_text site (local_url port "/health/ready");
  ready ← liftM (j ← loads text; subscript "readiness" j);
  if negb (py_bool ready) then raiseM SystemExit ("node on observability port " +:+ str_of_int port +:+ " is not ready")
  else
    text ← http_text site (local_url port "/metrics");
    if contains "distsys_requests_total" text then mret tt else raiseM SystemExit ("missing Phase 6 metrics on " +:+ str_of_int port).

Definition observability_smoke (ports : list Z) : M W unit :=
  _ ← iterM observability_check ports; print (bed site) "Phase 6 observability smoke passed for".

(** ** [phase6_monitoring_smoke.py] *)

(** [target.get("health") == "up" and target.get("labels", {}).get("job") == "distsys-phase6"] *)
Definition healthy_target (target : json) : result bool :=
  match target with
  | JObj kvs =>
      if negb (bool_decide (assoc "health" kvs = Some (JStr "up"))) then Ok false
      else
        match default (JObj []) (assoc "labels" kvs) with
        | JObj labels => Ok (bool_decide (assoc "job" labels = Some (JStr "distsys-phase6")))
        | _ => raise AttributeError "get"
        end
  | _ => raise AttributeError "get"
  end.

Fixpoint healthy_among (active : list json) : result (list json) :=
  match active with
  | [] => Ok []
  | target :: active =>
      up ← healthy_target target; others ← healthy_among active; Ok (if (up : bool) then target :: others else others)
  end.

Definition healthy_prometheus_targets (payload : json) : result (list json) :=
  active ← (data ← subscript "data" payload; subscript "activeTargets" data);
  match active with JList l => healthy_among l | _ => raise TypeError "object is not iterable" end.

Definition fetch_json (url : string) : M W json := text ← http_text site url; liftM (loads text).

Definition wait_for_healthy_prometheus_targets (timeout : Z) : M W (list json) :=
  wait_until (now (bed site)) (pause (bed site))
    (catchM (payload ← fetch_json "http://127.0.0.1:9090/api/v1/targets";
             healthy ← liftM (healthy_prometheus_targets payload);
             mret (if bool_decide (length healthy = 3%nat) then Some healthy else None))
       [Exception] (λ _, mret None)) 500 timeout
    (raiseM RuntimeError "timed out waiting for 3 healthy Prometheus node targets").

Definition wait_json (url : string) (timeout : Z) : M W json :=
  wait_until (now (bed site)) (pause (bed site))
    (catchM (j ← fetch_json url; mret (Some j)) [Exception] (λ _, mret None)) 500 timeout
    (raiseM RuntimeError ("timed out waiting for " +:+ url)).

(** [d.get(key)] of what should be a dictionary *)
Definition get_of (key : string) (j : json) : result json :=
  match j with JObj kvs => Ok (py_get key kvs) | _ => raise AttributeError "get" end.

(** The loop that waits for a trace, and the spans it must have. *)
Definition await_trace (trace_id : string) : M W json :=
  trace ← wait_until (now (bed site)) (pause (bed site))
    (catchM (j ← fetch_json ("http://127.0.0.1:3200/api/traces/" +:+ trace_id); mret (Some j)) [Exception] (λ _, mret None)) 500 15000
    (mret JNull);
  match trace with
  | JNull => raiseM SystemExit ("Tempo did not return emitted trace " +:+ trace_id)
  | _ =>
      batches ← liftM (get_of "batches" trace);
      spans ← (if py_bool batches then mret batches else liftM (get_of "resourceSpans" trace));
      if py_bool spans then mret spans else raiseM SystemExit "Tempo trace response contains no spans"
  end.

(** [main], with the trace it emits through the tracing runtime as an argument *)
Definition monitoring_smoke (emit_trace : M W string) : M W Z :=
  _ ← wait_for_healthy_prometheus_targets 30000;
  grafana ← wait_json "http://127.0.0.1:3000/api/health" 30000;
  database ← liftM (get_of "database" grafana);
  if negb (bool_decide (database = JStr "ok")) then raiseM SystemExit "Grafana database is not healthy"
  else
    dashboard ← wait_json "http://127.0.0.1:3000/api/dashboards/uid/distsys-phase6" 30000;
    uid ← liftM (match dashboard with
                 | JObj kvs => get_of "uid" (default (JObj []) (assoc "dashboard" kvs))
                 | _ => raise AttributeError "get"
                 end);
    if negb (bool_decide (uid = JStr "distsys-phase6")) then raiseM SystemExit "provisioned Phase 6 dashboard is missing"
    else
      code ← http_status site "http://127.0.0.1:3200/ready";
      if negb (code =? 200) then raiseM SystemExit "Tempo is not ready"
      else
        trace_id ← emit_trace;
        _ ← await_trace trace_id;
        _ ← print (bed site) "Phase 6 monitoring smoke passed";
        mret 0.
End cluster.

(** * What the checks show *)
Module DeploySpec.

(** Every port that was awaited has been announced, before the deadline. *)
Lemma forwarding_announced expected observed deadline events :
  observed ⊆ expected →
  PortForward._wait_until_forwarding expected observed deadline events = Ok tt →
  ∀ p, p ∈ expected → p ∈ observed ∨ ∃ at_ line, (at_, Some line) ∈ events ∧ at_ < deadline ∧ PortForward.announces line p = true.
Proof.
  revert observed. induction events as [|[at_ ev] events IH]; intros observed Ho E p Hp; cbn [PortForward._wait_until_forwarding] in E.
  - case_decide as Hd; [subst; by left|done].
  - case_decide as Hd; [subst; by left|].
    destruct (deadline <=? at_) eqn:Ht; [done|]. apply Z.leb_gt in Ht. destruct ev as [line|]; [|done].
    destruct (IH (filter (λ q, PortForward.announces line q = true) expected ∪ observed) ltac:(set_solver) E p Hp)
      as [Hin|(at' & line' & Hin & ?)].
    + apply elem_of_union in Hin as [Hin|Hin]; [|by left]. apply elem_of_filter in Hin as [Ha _].
      right. exists at_, line. split_and!; [left|done..].
    + right. exists at', line'. by split; [right|].
Qed.

Section forward.
Context {W : Type} (site : Site W) (namespace pod : string) (mappings : list string).

(** A forward that could not be set up is not taken down: the process that was started is
    neither terminated nor killed, the state is the one right after its start. *)
Lemma failed_forward_left_running {A} (body : M W A) w process w1 e :
  PortForward._start site namespace pod mappings w = (Ok process, w1) →
  PortForward._wait_until_forwarding (PortForward.expected mappings) ∅ (now (bed site) w1 + 10000) (prints site process w1) = Err e →
  PortForward.within site namespace pod mappings body w = (Err e, w1).
Proof.
  intros Es Ew. unfold PortForward.within, PortForward.__aenter__. erewrite M_bind_Err; [done|].
  rewrite (M_bind_Ok _ _ _ _ _ Es). erewrite M_bind_Err; [done|]. unfold reads. by rewrite Ew.
Qed.

(** What is done within a forward, is done after the ports were announced, and the process
    is stopped whatever the body did. *)
Lemma within_stopped {A} (body : M W A) w a w' :
  PortForward.within site namespace pod mappings body w = (Ok a, w') →
  ∃ process w1 w2, body w1 = (Ok a, w2) ∧ PortForward.__aexit__ site process w2 = (Ok tt, w') ∧
    ∃ w0, ∀ p, p ∈ PortForward.expected mappings →
      ∃ at_ line, (at_, Some line) ∈ prints site process w0 ∧ at_ < now (bed site) w0 + 10000 ∧ PortForward.announces line p = true.
Proof.
  unfold PortForward.within. intros E. apply CrdtService.M_bind_inv in E as (process & w1 & Ee & E). unfold finally in E.
  destruct (body w1) as [r w2] eqn:Eb. destruct (PortForward.__aexit__ site process w2) as [[[]|e] w3] eqn:Ex; [|done].
  injection E as -> ->. exists process, w1, w2. split_and!; [done..|].
  unfold PortForward.__aenter__ in Ee. apply CrdtService.M_bind_inv in Ee as (q & w0 & _ & Ee).
  apply CrdtService.M_bind_inv in Ee as ([] & w5 & Ef & Ee). apply CrdtService.M_bind_inv in Ee as (code & w6 & _ & Ee).
  destruct code; [done|]. injection Ee as -> _. unfold reads in Ef. injection Ef as Ef _.
  exists w0. intros p Hp. destruct (forwarding_announced _ _ _ _ (empty_subseteq _) Ef p Hp) as [?%elem_of_empty|?]; done.
Qed.
End forward.

Section endpoint.
Context {W : Type} (site : Site W).

(** The clock does not go back, and a pause takes its time. *)
Class ClockForward := {
  pause_takes d w w' : pause (bed site) d w = (Ok tt, w') → now (bed site) w + d ≤ now (bed site) w';
  getaddrinfo_forward host port limit w r w' : getaddrinfo site host port limit w = (r, w') → now (bed site) w ≤ now (bed site) w';
  connection_forward host port limit w r w' : open_connection site host port limit w = (r, w') → now (bed site) w ≤ now (bed site) w';
}.
Context `{!ClockForward}.

(** A probe that found nothing took no time back. *)
Lemma probe_forward host port deadline w w' : probe site host port deadline w = (Ok None, w') → now (bed site) w ≤ now (bed site) w'.
Proof.
  unfold probe, catchM, gets, mbind, M_bind. intros E.
  destruct (deadline - now (bed site) w <=? 0); [injection E as <-; lia|].
  destruct (getaddrinfo site host port _ w) as [[[]|e] w1] eqn:Eg; apply getaddrinfo_forward in Eg.
  2:{ destruct (isinstance e _); [injection E as <-; lia|done]. }
  destruct (deadline - now (bed site) w1 <=? 0); [injection E as <-; lia|].
  destruct (open_connection site host port _ w1) as [[c|e] w2] eqn:Eo; apply connection_forward in Eo.
  2:{ destruct (isinstance e _); [injection E as <-; lia|done]. }
  cbn [mret M_ret] in E. repeat case_match; by simplify_eq.
Qed.

(** The wait for the public endpoint ends: with a pause that takes its time, the rounds
    counted for the timeout are enough, whatever more are allowed. *)
Lemma endpoint_wait_ends host port timeout interval k w : 0 < interval →
  let deadline := now (bed site) w + timeout in
  poll (now (bed site)) (pause_before site deadline) (rounds timeout interval + k) (probe site host port deadline) interval deadline
    (raiseM TimeoutError "public endpoint was not ready") w = wait_for_endpoint site host port timeout interval w.
Proof.
  intros Hi. cbn zeta. unfold wait_for_endpoint. apply wait_until_total; [done| |apply probe_forward].
  intros s s' E. unfold pause_before, gets, mbind, M_bind in E. cbn beta iota in E.
  destruct (now (bed site) w + timeout - now (bed site) s <=? 0) eqn:Hr.
  - apply (f_equal snd) in E. cbn [mret M_ret snd] in E. subst s'. apply Z.leb_le in Hr. lia.
  - apply pause_takes in E. apply Z.leb_gt in Hr. lia.
Qed.

(** The public endpoint passes only after a probe connected. *)
Lemma endpoint_reached host port timeout interval w w' :
  wait_for_endpoint site host port timeout interval w = (Ok tt, w') →
  ∃ limit w0 c w1, open_connection site host port limit w0 = (Ok c, w1).
Proof.
  unfold wait_for_endpoint. intros E. apply wait_until_found in E as [[s1 E]|[s1 E]]; [|done].
  unfold probe in E. apply CrdtService.M_bind_inv in E as ([c|] & s2 & E & E2); [clear E2|discriminate E2].
  unfold catchM, gets, mbind, M_bind in E. repeat case_match; simplify_eq/=; eauto.
Qed.
End endpoint.

(** What Prometheus must show: three targets that are up, of the job of the cluster. *)
Lemma healthy_target_spec target :
  healthy_target target = Ok true ↔
  ∃ kvs labels, target = JObj kvs ∧ assoc "health" kvs = Some (JStr "up") ∧ assoc "labels" kvs = Some (JObj labels) ∧
    assoc "job" labels = Some (JStr "distsys-phase6").
Proof.
  split.
  - destruct target as [| | | | |kvs]; try done. cbn [healthy_target]. case_bool_decide as Hh; [|done]. cbn [negb].
    destruct (assoc "labels" kvs) as [[| | | | |labels]|] eqn:El; cbn [default]; try done.
    intros [= Hj%bool_decide_eq_true]. by exists kvs, labels.
  - intros (kvs & labels & -> & Hh & Hl & Hj). cbn [healthy_target]. rewrite bool_decide_true by done. cbn [negb]. rewrite Hl. cbn [default id].
    by rewrite bool_decide_true.
Qed.

Lemma healthy_among_spec active healthy : healthy_among active = Ok healthy →
  healthy = filter (λ t, healthy_target t = Ok true) active.
Proof.
  revert healthy. induction active as [|t active IH]; intros healthy E; cbn [healthy_among] in E; [by injection E as <-|].
  destruct (healthy_target t) as [up|e] eqn:Et; [|done]. cbn [mbind result_bind] in E.
  destruct (healthy_among active) as [others|e]; [|done]. injection E as <-. rewrite (IH others) by done.
  destruct up; [rewrite filter_cons_True by done; done|rewrite filter_cons_False by (rewrite Et; congruence); done].
Qed.

Lemma three_targets_healthy {W} (site : Site W) timeout w healthy w' :
  wait_for_healthy_prometheus_targets site timeout w = (Ok healthy, w') →
  length healthy = 3%nat ∧ ∀ t, t ∈ healthy → healthy_target t = Ok true.
Proof.
  unfold wait_for_healthy_prometheus_targets. intros E. apply wait_until_found in E as [[s1 E]|[s1 E]]; [|done].
  unfold catchM in E. destruct (mbind (M:=M W) _ _ s1) as [[[l|]|e] s2] eqn:Ea; [|done|by repeat case_match].
  injection E as -> ->. apply CrdtService.M_bind_inv in Ea as (payload & s3 & _ & Ea).
  apply CrdtService.M_bind_inv in Ea as (found & s4 & Ef & Ea). case_bool_decide as Hl; [|done]. injection Ea as -> _.
  split; [done|]. unfold liftM in Ef. injection Ef as Ef _. unfold healthy_prometheus_targets in Ef.
  apply bind_Ok_inv in Ef as (active & _ & Ef). destruct active as [| | | |l|]; try done.
  apply healthy_among_spec in Ef as ->. intros t [? _]%list_elem_of_filter. done.
Qed.
End DeploySpec.
