(* ===== verification/Tools.v ===== *)
(** * Command-line tools: [scripts/benchmark.py], [chaos.py], [phase6_proxy_bootstrap.py],
    [smoke_test.py], [phase2_smoke.py], and the manifest of [chaos/safety.py]

    How the tools put the benchmark and the chaos components to work: which settings a
    profile stands for, what a run must reach to exit with 0, how a probe turns the answers
    of a cluster into a state, which proxies are set up.  The cluster is the [Testbed] of
    the cluster checks; times are in milliseconds unless they are rational numbers of
    seconds. *)

From Stdlib Require Import Ascii QArith Qround Lqa.
From stdpp Require Import sorting.
From S2P Require Import Prelude Lattice Causal Json Crdt Storage Resilience Membership Ring Proto Protocol Cluster CrdtCodec.
From S2P Require Import Outbox Repair AntiEntropy CrdtService Persistence Repository DurableStore Recovery PeerClient Node Rpc.
From S2P Require Import Coordination Startup Client Config Chaos Benchmark Smoke.

Local Open Scope Z_scope.
Import CrdtClient (result_value, result_token).

(** [a == b] on decoded JSON: the order of the keys does not count *)
Definition same_json (a b : json) : bool := bool_decide (canon a = canon b).

(** ** [scripts/benchmark.py] *)
Module BenchmarkTool.

Definition _PORTS : list Z := [18000; 18001; 18002].
Definition _QUICK_MIN_SUCCESS_RATIO : Q := 99 # 100.
Definition _QUICK_MAX_P95_SECONDS : Q := 130 # 100.

(** The options of the command; the ones without a default may be absent. *)
Record Args := mkArgs {
  arg_profile : string; arg_workload : string; arg_concurrency : option Z; arg_warmup : option Q; arg_duration : option Q;
  arg_payload_size : Z; arg_read_ratio : Q; arg_seed : Z }.

(** [args.concurrency or default] *)
Definition or_default (value : option Z) (d : Z) : Z :=
  match value with Some z => if z =? 0 then d else z | None => d end.

Definition defaults (profile : string) : result (Z * Q * Q) :=
  if decide (profile = "quick") then Ok (8, 1%Q, 5%Q)
  else if decide (profile = "laptop") then Ok (16, 10%Q, 30%Q)
  else if decide (profile = "formal") then Ok (16, 10%Q, 30%Q)
  else raise KeyError profile.

Definition config_of (args : Args) : result BenchmarkConfig.t :=
  '(concurrency, warmup, duration) ← defaults (arg_profile args);
  BenchmarkConfig.make
    (BenchmarkConfig.mk (arg_profile args) (arg_workload args) (or_default (arg_concurrency args) concurrency)
       (default warmup (arg_warmup args)) (default duration (arg_duration args)) (arg_payload_size args) (arg_read_ratio args)
       (arg_seed args)).

Definition budget_ok (result : BenchmarkResult.t) : bool :=
  Qle_bool _QUICK_MIN_SUCCESS_RATIO (BenchmarkResult.success_ratio result)
  && negb (Qle_bool _QUICK_MAX_P95_SECONDS (p95_seconds (BenchmarkResult.latency result)))
  && BenchmarkResult.valid result.

Definition exit_code (result : BenchmarkResult.t) : Z := if budget_ok result then 0 else 2.

(** [_PORTS[seq % 3]] *)
Definition port_for (seq : Z) : Z := nth (Z.to_nat (seq mod 3)) _PORTS 0.

Section calls.
Context {W : Type} (tb : Testbed W) (sleep : Q → M W unit) (counter_key : string).

Definition _crdt_client (port : Z) : M W nat :=
  crdt_client tb (mkClientArgs "127.0.0.1" port "crdt-client" (Some "crdt-client") (Some ("node-" +:+ str_of_int (port - 18000))%string)).

Definition task_call (seq : Z) (payload : string) : M W json :=
  let expected := JObj [("seq", JInt seq); ("size", JInt (Z.of_nat (String.length payload)))] in
  result ← request tb "127.0.0.1" (port_for seq) "echo" expected (str_of_int seq);
  if negb (same_json result expected) then raiseM AssertionError "echo mismatch" else mret result.

(** [isinstance(value, int)] *)
Definition is_int (v : json) : bool := match v with JInt _ | JBool _ => true | _ => false end.

Definition check_counter (token : CausalToken.t) (port : Z) : M W unit :=
  reader ← _crdt_client port;
  observed ← retry_transport (call tb reader (ReadKey counter_key) (Some token)) sleep 5 (1 # 5);
  if is_int (result_value observed) then mret tt else raiseM TypeError "CRDT correctness failure".

Definition prepare_crdt_key : M W unit :=
  writer ← _crdt_client (hd 0 _PORTS);
  seeded ← retry_transport (call tb writer (Increment counter_key 1 GCOUNTER) None) sleep 5 (1 # 5);
  iterM (check_counter (result_token seeded)) _PORTS.

Definition crdt_call (seq : Z) (is_read : bool) : M W json :=
  client ← _crdt_client (port_for seq);
  result ← call tb client (if is_read then ReadKey counter_key else Increment counter_key 1 GCOUNTER) None;
  if is_int (result_value result) then mret (result_value result) else raiseM TypeError "CRDT correctness failure".
End calls.
End BenchmarkTool.

(** ** [chaos/safety.py]: [ManagedManifest.load]

    Resolving a path, the text of a value and the characters of a string are parameters. *)
Module Manifest.
Section load.
Context (resolve : string → string) (repr : json → string) (characters : string → list string).

(** [d.get(key, [])], iterated over; strings and objects give their characters and keys *)
Definition strings_at (key : string) (kvs : list (string * json)) : result (list string) :=
  match assoc key kvs with
  | None => Ok []
  | Some (JList l) => Ok (py_str repr <$> l)
  | Some (JObj d) => Ok d.*1
  | Some (JStr s) => Ok (characters s)
  | Some _ => raise TypeError "object is not iterable"
  end.

Definition managed_process (item : json) : result ManagedProcess :=
  pid ← subscript "pid" item;
  pid ← py_int_of pid;
  start_token ← subscript "start_token" item;
  cmdline ← subscript "cmdline_contains" item;
  argv ← (match item with JObj kvs => strings_at "restart_argv" kvs | _ => raise AttributeError "get" end);
  Ok (Process pid (py_str repr start_token) (py_str repr cmdline) argv).

(** [path.parents] of a resolved path, without their order *)
Fixpoint parents_after (seen path : string) : list string :=
  match path with
  | EmptyString => []
  | String a r =>
      (if decide (a = "/"%char) then [if nonempty seen then seen else "/"] else []) ++ parents_after (seen +:+ String a "") r
  end.
Definition parents (path : string) : list string := parents_after "" path.

Definition load (path text : string) : result ManagedManifest.t :=
  let manifest_path := resolve path in
  raw ← loads text;
  dir ← subscript "runtime_dir" raw;
  dir ← (match dir with JStr s => Ok s | _ => raise TypeError "argument should be a str or an os.PathLike object" end);
  let runtime_dir := resolve dir in
  if negb (bool_decide (runtime_dir ∈ parents manifest_path)) then raise ValueError "manifest runtime_dir must contain the manifest"
  else
    match raw with
    | JObj kvs =>
        entries ← (match default (JObj []) (assoc "pids" kvs) with JObj d => Ok d | _ => raise AttributeError "items" end);
        pids ← mapM_result (λ kv : string * json, p ← managed_process kv.2; Ok (kv.1, p)) entries;
        proxies ← strings_at "proxies" kvs;
        services ← strings_at "services" kvs;
        Ok (ManagedManifest.mk runtime_dir pids (list_to_set proxies) (list_to_set services))
    | _ => raise AttributeError "get"
    end.
End load.
End Manifest.

(** ** [scripts/chaos.py] *)
Module ChaosTool.
Section probe.
Context {W : Type} (tb : Testbed W).
(** [urlopen(url)]: the body of the answer, also of one with an error status *)
Context (http_body : string → M W string).

Definition health_json (port : Z) : M W json :=
  catchM (text ← http_body ("http://127.0.0.1:" +:+ str_of_int port +:+ "/health/ready"); liftM (loads text)) [Exception] (λ _, mret JNull).

(** [snapshot is not None and bool(snapshot.get(key))] *)
Definition reports (key : string) (snapshot : json) : result bool :=
  match snapshot with
  | JNull => Ok false
  | JObj kvs => Ok (py_bool (py_get key kvs))
  | _ => raise AttributeError "get"
  end.

Fixpoint reporting_nodes (key : string) (i : Z) (health : list json) : result (list string) :=
  match health with
  | [] => Ok []
  | snapshot :: health =>
      yes ← reports key snapshot; others ← reporting_nodes key (i + 1) health;
      Ok (if (yes : bool) then ("node-" +:+ str_of_int i)%string :: others else others)
  end.

Definition target_member (target : string) : result ClusterMember.t :=
  match split_last "-" target with
  | Some (_, digits) =>
      match py_int digits with
      | Some index => ClusterMember.make target "127.0.0.1" (18000 + index) ALIVE 1
      | None => raise ValueError "invalid literal for int()"
      end
  | None => raise IndexError "list index out of range"
  end.

(** The peer's answer, and how long it took; a failure is a state, not an error. *)
Definition ping_target (member : ClusterMember.t) : M W (bool * option Q) :=
  started ← gets (now tb);
  catchM (ack ← ping tb member 2000; ended ← gets (now tb); mret (ack_success ack, Some ((ended - started) # 1000)%Q)) [Exception]
    (λ _, mret (false, None)).

Definition CHAOS_ECHO : json := JObj [("phase6", JStr "chaos")].

Definition ping_data_plane : M W bool :=
  catchM (result ← request tb "127.0.0.1" 18000 "echo" CHAOS_ECHO ""; mret (same_json result CHAOS_ECHO)) [Exception] (λ _, mret false).

Definition probe (member : ClusterMember.t) : M W ProbeState :=
  h0 ← health_json 9100;
  h1 ← health_json 9101;
  h2 ← health_json 9102;
  ready ← liftM (reporting_nodes "readiness" 0 [h0; h1; h2]);
  coordination ← liftM (reporting_nodes "coordination" 0 [h0; h1; h2]);
  '(reachable, latency) ← ping_target member;
  data_plane_ok ← ping_data_plane;
  mret (Probe ready coordination reachable latency data_plane_ok).
End probe.

Definition exit_code (result : ScenarioResult) : Z := if passed result then 0 else 2.

Definition PROXY_MAP : string := "node-0=127.0.0.1:19100,node-1=127.0.0.1:19101,node-2=127.0.0.1:19102".

(** [main]: the scenario runs with the probe above, and with the loaded manifest. *)
Definition main {W} (tb : Testbed W) (http_body : string → M W string) (out : Outside W) (env : gmap string string)
    (manifest : result ManagedManifest.t) (scenario target : string) (max_seconds : float) : M (list effect * W) Z :=
  _ ← liftM (require_chaos_opt_in env);
  let env := match env !! "PHASE6_PEER_PROXY_MAP" with Some _ => env | None => <["PHASE6_PEER_PROXY_MAP" := PROXY_MAP]> env end in
  member ← liftM (target_member target);
  manifest ← liftM manifest;
  result ← ChaosController.run
    {| Chaos.http := Chaos.http out; Chaos.exec := Chaos.exec out; Chaos.probe := probe tb http_body member;
       Chaos.sleep := Chaos.sleep out; Chaos.monotonic := Chaos.monotonic out |} manifest env scenario max_seconds target;
  mret (exit_code result).
End ChaosTool.

(** ** [scripts/phase6_proxy_bootstrap.py] *)
Module ProxyBootstrap.
Section bootstrap.
Context {W : Type} (out : Outside W).
Abbreviation st := (list effect * W)%type.

Definition PROXIES : list (string * (string * string)) :=
  [("etcd", ("0.0.0.0:12379", "etcd:2379")); ("peer-node-0", ("0.0.0.0:19100", "node-0:18000"));
   ("peer-node-1", ("0.0.0.0:19101", "node-1:18001")); ("peer-node-2", ("0.0.0.0:19102", "node-2:18002"))].

(** [toxiproxy.py]: [dict(data or {})] *)
Definition proxies : M st (list string) :=
  data ← ToxiproxyClient._request out "GET" "/proxies" NoBody;
  match data with
  | Some (JObj kvs) => mret kvs.*1
  | None | Some JNull | Some (JList []) | Some (JStr "") | Some (JBool false) | Some (JInt 0) => mret []
  | _ => raiseM TypeError "cannot convert to a dictionary"
  end.

Definition install (existing : list string) (entry : string * (string * string)) : M st unit :=
  let '(name, (listen, upstream)) := entry in
  _ ← (if bool_decide (name ∈ existing) then ToxiproxyClient.delete_proxy out name else mret tt);
  ToxiproxyClient.create_proxy out name listen upstream.

Definition main : M st unit := existing ← proxies; iterM (install existing) PROXIES.
End bootstrap.
End ProxyBootstrap.

(** ** [scripts/smoke_test.py] and [phase2_smoke.py] *)
Module Reliability.
Record t := mk { latencies : list Z; failure_types : list exn_class; mismatches : Z }.

Section run.
Context {W : Type} (now : W → Z) (connect close : M W unit) (send : json → M W json).

Definition payload (index : Z) : json := JObj [("sequence", JInt index); ("message", JStr "hello")].

(** One request: what it gives is counted, whatever it is. *)
Definition one (index : Z) (s : t) : M W t := λ w,
  match send (payload index) w with
  | (Ok r, w') =>
      (Ok (mk (latencies s ++ [now w' - now w]) (failure_types s)
             (if same_json r (payload index) then mismatches s else mismatches s + 1)), w')
  | (Err e, w') =>
      if isinstance e [Exception] then (Ok (mk (latencies s ++ [now w' - now w]) (failure_types s ++ [exn_cls e]) (mismatches s)), w')
      else (Err e, w')
  end.

Fixpoint loop (indices : list Z) (s : t) : M W t :=
  match indices with [] => mret s | i :: indices => s ← one i s; loop indices s end.

Definition run (requests : Z) (persistent : bool) : M W t :=
  _ ← (if persistent then connect else mret tt);
  finally (loop (Z.of_nat <$> seq 0 (Z.to_nat requests)) (mk [] [] 0)) (if persistent then close else mret tt).

Definition failures (s : t) : Z := Z.of_nat (length (failure_types s)) + mismatches s.
Definition success (requests : Z) (s : t) : Z := requests - failures s.

(** [sorted_latencies[min(len - 1, int((len - 1) * p))]], with [p] in percent *)
Definition percentile (s : t) (p : Z) : Z :=
  let sorted_latencies := merge_sort Z.le (latencies s) in
  let n := Z.of_nat (length sorted_latencies) in
  if n =? 0 then 0 else nth (Z.to_nat (Z.min (n - 1) ((n - 1) * p / 100))) sorted_latencies 0.
End run.

(** [phase2_smoke.py] *)
Definition checks : list (string * json) :=
  [("echo", JObj [("message", JStr "phase-2")]); ("hash", JObj [("data", JStr "phase-2"); ("rounds", JInt 1)]);
   ("sort", JObj [("values", JList (JInt <$> [5; 2; 4; 1; 3]))]); ("aggregate", JObj [("values", JList (JInt <$> [1; 2; 3; 4]))])].

Definition phase2 {W} (tb : Testbed W) (host : string) (port : Z) : M W unit :=
  iterM (λ c : string * json, result ← request tb host port c.1 c.2 ""; print tb (c.1 +:+ ": ")) checks.
End Reliability.

(** * What the tools promise *)
Module ToolsSpec.

(** ** Benchmarks *)
Section budget.
Import BenchmarkTool BenchmarkResult.

(** A run that lost no request has the ratio 1, or 0 when it made none. *)
Lemma lossless_ratio r : failures r = ∅ →
  Qle_bool _QUICK_MIN_SUCCESS_RATIO (success_ratio r) = negb (successes r =? 0).
Proof.
  intros Hf. unfold success_ratio, request_count. rewrite Hf, map_fold_empty, Z.add_0_r.
  destruct (successes r =? 0) eqn:E; [done|]. apply Z.eqb_neq in E. apply Qle_bool_iff.
  eapply Qle_trans; [|apply Qle_lteq; right; symmetry; apply Qmult_inv_r; intros H; apply E, (inject_Z_injective _ 0), H]. done.
Qed.

(** The benchmark exits with 0 exactly when it made requests, lost none, every check held,
    and the p95 latency is below the ceiling. *)
Lemma benchmark_passes_iff r :
  exit_code r = 0 ↔
  successes r ≠ 0 ∧ failures r = ∅ ∧ Forall (λ c, check_passed c = true) (correctness r) ∧ (p95_seconds (latency r) < _QUICK_MAX_P95_SECONDS)%Q.
Proof.
  unfold exit_code, budget_ok, valid. split.
  - intros E. destruct (_ && _ && _) eqn:H in E; [|done].
    apply andb_prop in H as [[Hr Hp]%andb_prop [Hf%bool_decide_eq_true Hc]%andb_prop]. rewrite lossless_ratio in Hr by done.
    apply negb_true_iff, Z.eqb_neq in Hr. split_and!; [done..| |].
    + apply Forall_forall. intros c Hin. rewrite forallb_forall in Hc. apply Hc. by apply list_elem_of_In.
    + apply negb_true_iff in Hp. apply Qnot_le_lt. intros Hle%Qle_bool_iff. congruence.
  - intros (Hs & Hf & Hc & Hp). rewrite lossless_ratio, (proj2 (Z.eqb_neq _ _) Hs), (bool_decide_true _ Hf) by done.
    assert (forallb check_passed (correctness r) = true) as ->.
    { apply forallb_forall. intros c Hin. rewrite Forall_forall in Hc. by apply Hc, list_elem_of_In. }
    destruct (Qle_bool _ _) eqn:E; [apply Qle_bool_iff in E|done]. exfalso. by apply (Qlt_not_le _ _ Hp).
Qed.

(** A single lost request fails the run, whatever the success ratio. *)
Lemma one_failure_fails_budget r : failures r ≠ ∅ → exit_code r = 2.
Proof.
  intros Hf. unfold exit_code, budget_ok, valid. rewrite (bool_decide_false _ Hf), andb_false_r. done.
Qed.

(** 999 requests of 1000 are above the ratio of the budget, and still the run fails. *)
Example lossy_run_rejected :
  let r := mk "c" false (BenchmarkConfig.mk "quick" "task" 8 1 5 256 (4 # 5) 6) 999 {["timeout" := 1]} 200 (Summary 1 1 1 1) [] in
  Qle_bool _QUICK_MIN_SUCCESS_RATIO (success_ratio r) = true ∧ exit_code r = 2.
Proof. split; vm_compute; reflexivity. Qed.
End budget.

(** Every profile of the command line gives a configuration the benchmark accepts. *)
Lemma profiles_accepted profile workload :
  profile ∈ ["quick"; "laptop"; "formal"] → workload ∈ ["task"; "crdt"] →
  ∃ c, BenchmarkTool.config_of (BenchmarkTool.mkArgs profile workload None None None 256 (4 # 5) 6) = Ok c.
Proof.
  intros Hp%list_elem_of_In Hw%list_elem_of_In. destruct Hp as [<-|[<-|[<-|[]]]], Hw as [<-|[<-|[]]]; vm_compute; eauto.
Qed.

(** ** The manifest *)

(** A parent is the path up to one of its slashes. *)
Lemma parents_after_above d seen path : d ∈ Manifest.parents_after seen path →
  ∃ mid rest, path = (mid +:+ "/" +:+ rest)%string ∧ d = if nonempty (seen +:+ mid) then (seen +:+ mid)%string else "/".
Proof.
  revert seen. induction path as [|a path IH]; intros seen Hd; cbn [Manifest.parents_after] in Hd; [set_solver|].
  apply elem_of_app in Hd as [Hd|Hd].
  - case_decide as Ha; [subst a|set_solver]. apply list_elem_of_singleton in Hd as ->. exists "", path. split; [done|]. by rewrite app_nil_end.
  - apply IH in Hd as (mid & rest & -> & ->). exists (String a mid), rest. split; [done|]. by rewrite app_assoc'.
Qed.

(** A manifest is accepted only when the directory it manages contains it. *)
Lemma manifest_directory_contains_it resolve repr characters path text m :
  Manifest.load resolve repr characters path text = Ok m →
  ∃ mid rest, resolve path = (mid +:+ "/" +:+ rest)%string ∧
    ManagedManifest.runtime_dir m = if nonempty mid then mid else "/".
Proof.
  unfold Manifest.load. intros E. apply bind_Ok_inv in E as (raw & _ & E). apply bind_Ok_inv in E as (dir & _ & E).
  apply bind_Ok_inv in E as (dir' & _ & E). case_bool_decide as Hp; [|done]. cbn [negb] in E. destruct raw as [| | | | |kvs]; try done.
  apply bind_Ok_inv in E as (entries & _ & E). apply bind_Ok_inv in E as (pids & _ & E). apply bind_Ok_inv in E as (ps & _ & E).
  apply bind_Ok_inv in E as (ss & _ & [= <-]). by apply parents_after_above in Hp.
Qed.

(** ** Chaos *)
Section probe.
Context {W : Type} (tb : Testbed W) (http_body : string → M W string).

(** What a computation raises, is one of these. *)
Definition raises_only {A} (m : M W A) (P : exn → Prop) : Prop := ∀ w e w', m w = (Err e, w') → P e.

Lemma raises_then {A B} (m : M W A) (f : A → M W B) P : raises_only m P → (∀ a, raises_only (f a) P) → raises_only (m ≫= f) P.
Proof.
  intros Hm Hf w e w' E. unfold mbind, M_bind in E. destruct (m w) as [[a|e1] w1] eqn:Em; [by eapply Hf|].
  injection E as -> ->. by eapply Hm.
Qed.

Lemma raises_caught {A} (m : M W A) (a : A) P : (∀ e, isinstance e [Exception] = false → P e) →
  raises_only (catchM m [Exception] (λ _, mret a)) P.
Proof.
  intros HP w e w' E. unfold catchM in E. destruct (m w) as [[x|e1] w1]; [done|].
  destruct (isinstance e1 [Exception]) eqn:Hi; [done|]. injection E as -> ->. auto.
Qed.

Lemma reporting_nodes_error key i health e : ChaosTool.reporting_nodes key i health = Err e → e = Exn AttributeError "get" 0.
Proof.
  revert i. induction health as [|[| | | | |kvs] health IH]; intros i E; cbn [ChaosTool.reporting_nodes ChaosTool.reports] in E; try done.
  all: cbn [mbind result_bind raise] in E; try (injection E as <-; done).
  all: destruct (ChaosTool.reporting_nodes key (i + 1) health) eqn:Er; [done|injection E as ->; eauto].
Qed.

(** A probe turns the failures of the cluster into a state: it raises only on a health
    document that is not an object, and when it is cancelled. *)
Lemma probe_records_failures member :
  raises_only (ChaosTool.probe tb http_body member) (λ e, exn_cls e = AttributeError ∨ isinstance e [Exception] = false).
Proof.
  set (P := λ e, exn_cls e = AttributeError ∨ isinstance e [Exception] = false).
  assert (∀ port, raises_only (ChaosTool.health_json http_body port) P) as Hh.
  { intros port. apply raises_caught. intros e He. by right. }
  assert (∀ key h, raises_only (liftM (ChaosTool.reporting_nodes key 0 h)) P) as Hr.
  { intros key h w e w' [= E _]. apply reporting_nodes_error in E as ->. by left. }
  assert (raises_only (ChaosTool.ping_target tb member) P) as Hp.
  { apply raises_then; [by intros w e w' [=]|]. intros started. apply raises_caught. intros e He. by right. }
  assert (raises_only (ChaosTool.ping_data_plane tb) P) as Hd by (apply raises_caught; intros e He; by right).
  do 5 (apply raises_then; [auto|intros ?]). apply raises_then; [done|]. intros [reachable latency].
  apply raises_then; [done|]. by intros ok w e w' [=].
Qed.
End probe.

(** Without the opt-in in the environment the tool does nothing. *)
Lemma unopted_chaos_does_nothing {W} (tb : Testbed W) http_body out env manifest scenario target max_seconds s :
  env !! "RUN_CHAOS_TESTS" ≠ Some "1" →
  ∃ e, ChaosTool.main tb http_body out env manifest scenario target max_seconds s = (Err e, s) ∧ exn_cls e = PermissionError.
Proof.
  intros Hn. unfold ChaosTool.main, require_chaos_opt_in. rewrite (bool_decide_false _ Hn). eexists. split; [apply M_bind_Err; done|done].
Qed.

(** The nodes of the local cluster are reached where the proxies forward to. *)
Lemma targets_at_their_ports :
  (λ t, (λ m, (ClusterMember.host m, ClusterMember.port m)) <$> ChaosTool.target_member t) <$> NODE_SERVICES =
  [Ok ("127.0.0.1", 18000); Ok ("127.0.0.1", 18001); Ok ("127.0.0.1", 18002)].
Proof. vm_compute. reflexivity. Qed.

(** ** Proxies *)
Section bootstrap.
Import ChaosSpec.
Context {W : Type} (out : Outside W).
Abbreviation st := (list effect * W)%type.

(** The requests for one entry: the old proxy is removed first. *)
Definition requests_for (existing : list string) (entry : string * (string * string)) : list effect :=
  (if bool_decide (entry.1 ∈ existing) then [Http "DELETE" ("/proxies/" +:+ entry.1)%string NoBody] else []) ++
  [Http "POST" "/proxies" (NewProxy entry.1 entry.2.1 entry.2.2)].

Lemma create_asks name listen upstream :
  asks (ToxiproxyClient.create_proxy out name listen upstream) (λ es, es = [Http "POST" "/proxies" (NewProxy name listen upstream)]).
Proof. apply asks_then; [apply request_asks|]. intros. apply silent_ret. Qed.

Lemma delete_asks name :
  asks (ToxiproxyClient.delete_proxy out name) (λ es, es = [Http "DELETE" ("/proxies/" +:+ name)%string NoBody]).
Proof.
  apply asks_catch; [apply asks_then; [apply request_asks|intros; apply silent_ret]|].
  intros e. destruct (_ =? 404); [apply silent_ret|apply silent_fail].
Qed.

Lemma asks_Ok {A} (m : M st A) es s a s' : asks m (λ new, new = es) → m s = (Ok a, s') → s'.1 = s.1 ++ es.
Proof. destruct s as [l w]. intros Hm E. destruct (Hm l w) as (new & El & ->). by rewrite E in El. Qed.

Lemma install_requests existing entry s s' :
  ProxyBootstrap.install out existing entry s = (Ok tt, s') → s'.1 = s.1 ++ requests_for existing entry.
Proof.
  destruct entry as [name [listen upstream]]. unfold ProxyBootstrap.install, requests_for. cbn [fst snd]. intros E.
  apply CrdtService.M_bind_inv in E as ([] & s1 & Ed & E). apply (asks_Ok _ _ _ _ _ (create_asks _ _ _)) in E as ->.
  case_bool_decide; [apply (asks_Ok _ _ _ _ _ (delete_asks _)) in Ed as ->|by injection Ed as ->]. by rewrite <- app_assoc.
Qed.

Lemma installs_requests existing entries s s' :
  iterM (ProxyBootstrap.install out existing) entries s = (Ok tt, s') → s'.1 = s.1 ++ (entries ≫= requests_for existing).
Proof.
  revert s. induction entries as [|entry entries IH]; intros s E; cbn [iterM] in E; [injection E as <-; by rewrite app_nil_r|].
  apply CrdtService.M_bind_inv in E as ([] & s1 & Ei & E). apply IH in E as ->. apply install_requests in Ei as ->.
  by rewrite <- app_assoc.
Qed.

(** After a run that succeeded, each of the four proxies was created once, an old one with
    its name was removed before, and nothing else was asked of the proxy. *)
Lemma bootstrap_requests s s' : ProxyBootstrap.main out s = (Ok tt, s') →
  ∃ existing, s'.1 = s.1 ++ Http "GET" "/proxies" NoBody :: (ProxyBootstrap.PROXIES ≫= requests_for existing).
Proof.
  unfold ProxyBootstrap.main. intros E. apply CrdtService.M_bind_inv in E as (existing & s1 & Ep & E). exists existing.
  apply installs_requests in E as ->. unfold ProxyBootstrap.proxies in Ep. apply CrdtService.M_bind_inv in Ep as (data & s2 & Er & Ep).
  apply (asks_Ok _ _ _ _ _ (request_asks _ _ _ _)) in Er. assert (s1 = s2) as -> by (repeat case_match; by apply (f_equal snd) in Ep || discriminate Ep).
  by rewrite Er, <- app_assoc.
Qed.
End bootstrap.

(** ** The reliability smoke *)
Section reliability.
Import Reliability.
Context {W : Type} (now : W → Z) (connect close : M W unit) (send : json → M W json).

Lemma one_counted index s w s' w' : one now send index s w = (Ok s', w') →
  length (latencies s') = S (length (latencies s)) ∧ failures s ≤ failures s' ≤ failures s + 1.
Proof.
  unfold one, failures. destruct (send (payload index) w) as [[r|e] w1]; intros E.
  - injection E as <- <-. cbn [latencies failure_types mismatches]. rewrite length_app. simpl. destruct (same_json _ _); lia.
  - destruct (isinstance e [Exception]); [|done]. injection E as <- <-. cbn [latencies failure_types mismatches].
    rewrite !length_app. simpl. lia.
Qed.

Lemma loop_counted indices s w s' w' : loop now send indices s w = (Ok s', w') →
  length (latencies s') = (length (latencies s) + length indices)%nat ∧
  failures s ≤ failures s' ≤ failures s + Z.of_nat (length indices).
Proof.
  revert s w. induction indices as [|i indices IH]; intros s w E; cbn [loop] in E; [injection E as <- <-; simpl; lia|].
  apply CrdtService.M_bind_inv in E as (s1 & w1 & E1 & E). apply one_counted in E1. apply IH in E. simpl. lia.
Qed.

(** Every request is measured once, and counted once: as a success or as a failure. *)
Lemma every_request_counted requests persistent w s w' : 0 ≤ requests → run now connect close send requests persistent w = (Ok s, w') →
  Z.of_nat (length (latencies s)) = requests ∧ 0 ≤ failures s ∧ 0 ≤ success requests s ∧ success requests s + failures s = requests.
Proof.
  intros Hr E. unfold run in E. apply CrdtService.M_bind_inv in E as ([] & w1 & _ & E). unfold finally in E.
  destruct (loop _ _ _ _ w1) as [r w2] eqn:El. destruct (if persistent then close else mret tt) as [[[]|] w3] in E; [|done].
  injection E as -> ->. apply loop_counted in El. rewrite length_fmap, length_seq in El. unfold success.
  change (failures (mk [] [] 0)) with 0 in El. simpl in El. lia.
Qed.

Lemma sorted_nth (l : list Z) i j : StronglySorted Z.le l → (i ≤ j < length l)%nat → nth i l 0 ≤ nth j l 0.
Proof.
  intros Hs. revert i j. induction Hs as [|x l Hs IH Hx]; intros i j [Hi Hj]; [simpl in Hj; lia|].
  destruct j as [|j]; [by destruct i; [|lia]|]. simpl in Hj. destruct i as [|i]; cbn [nth]; [|apply IH; lia].
  rewrite Forall_forall in Hx. apply Hx, list_elem_of_In, nth_In. lia.
Qed.

(** A higher percentile is not smaller. *)
Lemma percentile_monotone s p q : 0 ≤ p ≤ q → q ≤ 100 → percentile s p ≤ percentile s q.
Proof.
  intros Hp Hq. unfold percentile. set (l := merge_sort Z.le (latencies s)). assert (StronglySorted Z.le l) as Hs by apply (StronglySorted_merge_sort Z.le).
  destruct (Z.of_nat (length l) =? 0) eqn:E; [done|]. apply Z.eqb_neq in E.
  set (n := Z.of_nat (length l)) in *. assert ((n - 1) * p / 100 ≤ (n - 1) * q / 100) by (apply Z.div_le_mono; nia).
  assert ((n - 1) * q / 100 ≤ n - 1) by (apply Z.div_le_upper_bound; nia).
  assert (0 ≤ (n - 1) * p / 100) by (apply Z.div_pos; nia).
  apply sorted_nth; [done|lia..].
Qed.
End reliability.
End ToolsSpec.
